(* ===== verification/_CoqProject ===== *)
-Q . S2P
Prelude.v
StdSet.v
Util.v
Timer.v
Fiber.v
SchedThread.v
Scheduler.v
IOManager.v
Yaml.v
LogFormat.v
Logger.v
Singleton.v
Config.v
LogConfig.v
Locks.v
Thread.v
Hook.v
HookSpec.v
HookInv.v
HookCalls.v
HookBlocking.v
HookFibers.v
HookConfig.v
