(* ===== verification/Prelude.v ===== *)
(** * Verification of duan, a coroutine library

    The repository (src/duan_src) is a C++ server library: user-level threads,
    an M:N scheduler of them, timers, an epoll loop that resumes the fiber
    waiting for a descriptor, and the logging and configuration that a server
    needs.  This development translates its code to Rocq, function by function,
    and proves what each part does, including where that is not what was meant.

    ** The program

    - [Timer], [TimerManager]: an ordered set of timers behind a mutex.
    - [Fiber]: a stack and a saved context; [swapIn]/[swapOut] go between a fiber
      and the main fiber of the thread's scheduler, [call]/[back] between a fiber
      and the main fiber of the thread.
    - [Scheduler]: a queue of fibers and callbacks that a pool of threads empties
      ([Scheduler::run]); [tickle], [stopping] and [idle] are virtual.
    - [IOManager]: derives from [Scheduler] and [TimerManager].  Its [idle]
      waits in [epoll_wait], queues the callbacks of expired timers and the
      fibers or callbacks registered for the descriptors that became ready.
    - [Logger] with its appenders, formatter and manager.
    - [Config]: named, typed variables that YAML documents set, with listeners.
      The loggers are configured by one such variable, [logs], whose listener
      calls the logger manager; [Config] in turn logs through the root logger.
    - The hooks: replacements of [sleep], [read], [connect], ... that register the
      calling fiber for a timer or an event of the [IOManager] and yield.
    - [Thread] and the locks.

    ** The files

    Prelude.v: integers of the machine as [Z] with wrap-around; the state and
    error monad [M] (an operation returns, throws, or ends the program by a failed
    assertion or undefined behaviour); [returns], [keeps] and triples to reason
    about it, the hint database and tactics of the development.

    StdSet.v: [std::set] with the iterators and the comparator of the standard.

    Util.v: util.{h,cc}, the clocks and backtraces.

    Timer.v: timer.{h,cc}.  State [TimerManager] ([m_timers], [m_tickled],
    [m_previousTime], the timer objects).  One definition per member function,
    cut at its critical sections: [addTimer], [addConditionTimer], [cancel],
    [refresh], [reset], [getNextTimer], [detectClockRollover],
    [listExpired_check] and [listExpired_collect].  Theorems: the queue stays
    sorted in every interleaving, due timers are handed out in deadline order
    and one-shot timers at most once, cancellation is final, the notification of
    an insertion at the front; the race between the two critical sections.

    Fiber.v: fiber.{h,cc}.  State [Machine] (the fibers, the thread-local
    pointers).  The code of a fiber is a [prog] whose calls ([PDo]) are indexed by the
    type of their answer, on which the rest of the code depends.  A machine that switches contexts, a big-step [fiber_run] for the
    scheduler, and the refinement between them; every run of a fiber comes back.

    SchedThread.v: the thread-local variables of scheduler.cc: how a thread comes to
    have the main fiber that [swapIn] needs.

    Scheduler.v: scheduler.{h,cc}.  State [Sched]; [worker_step] is one atomic
    piece of [run], [sys_step] a piece of any thread or a call from outside,
    [sys_steps] any interleaving of them.  The derived class is the class [SchedHost].  Theorems:
    what one scan of the queue does, what the counters hold in every reachable
    state, that a stopped worker drains its callbacks; that after one fiber task
    [stopping] stays false, and that two threads can run one fiber.

    IOManager.v: iomanager.{h,cc}.  State [IO] as the [host] of a [Sched]; the
    kernel is the class [Kernel], the timers the class [TimerQueue], implemented
    by Timer.v; the instance of [SchedHost] is what Scheduler.v runs.  Theorems:
    consistency of the table, the contexts and the counter under every
    operation, round trips of registration, delivery of ready events, the timeout
    given to epoll, the failing assertion on a hang-up, the lost registration.

    LogFormat.v: the formatter of log.{h,cc}, with the pattern parser against a
    declarative grammar and the round trip of patterns.

    Logger.v: appenders, loggers, the manager and the log macros.  State [Log],
    heaps of shared objects; [log_reachable] are the states the operations lead
    to.  Theorems: invariants of those states, to whom an event goes, file
    rollover, [setFormatter], the first line a program prints.

    Singleton.v: singleton.h and [LoggerMgr]: the first use constructs the manager,
    and the static loggers of all files agree, whatever their order.

    Yaml.v: the interface of the YAML library with its laws, and an instance.

    Config.v: config.{h,cc}.  State: the heap of variables, the registry and the
    rest of the program; interfaces [LexicalCast] (with the laws [CastLaws]),
    [RootLog] and [ConfigApp].  Theorems: round trips of the containers, the
    behaviour of [Lookup], [setValue] and [LoadFromYaml].

    LogConfig.v: the end of log.cc.  The listener of [logs] on top of Config.v
    and Logger.v, whose root logger is the instance of [RootLog].  Theorems:
    round trip of definitions, which changes take effect and which crash.

    Locks.v: the locks of thread.h.  [Lockable] is what a scoped lock uses of a
    lock and [LockSpec] what a lock promises; the classes around pthread objects
    forward the promise, [CASLock] keeps it by its own invariant.  Theorems: scoped
    locks of any number of threads exclude each other and never unlock what they
    do not hold; mutual exclusion of [CASLock].

    Thread.v: thread.{h,cc}.  The start of a thread as interleavings of the
    constructor and [Thread::run].

    Hook.v: hook.{h,cc}, every hooked function, cut at [yield()] into the part
    before and the part after ([do_io], [do_io_resume], ...).  The process is the
    [Sched] of IOManager.v with Timer.v as its timers; the original functions are
    the class [Originals], the missing [FdMgr] and [FdCtx] the class [FdManager]
    with the laws [FdManagerLaws].  Module [Demo] is a process to run them in.
    HookSpec.v: what the pieces do, as triples.
    HookInv.v: the invariant of a process with hooked calls over all interleavings
    of calls, timers and events ([hook_steps]); a timeout never acts late.
    HookCalls.v: when [do_io] answers at once, times out or completes; the lost
    timeout; sleeping, [connect], [close], [fcntl] and the timeout options.
    HookBlocking.v: the reference [blocking], and that a hooked call, resumed by
    events, returns what the blocking call would have.
    HookFibers.v: hooked calls as the code of fibers that the threads of Scheduler.v run
    ([fiber_io], [fiber_sleep]): the thread leaves the fiber at [yield()] and finds it in the
    queue when the event or the timer has come; the composition of Hook.v, Scheduler.v,
    Fiber.v, IOManager.v and Timer.v, with the results the fiber sees.
    HookConfig.v: the variable [tcp.connect.timeout] and the static data of
    hook.cc in the configuration of the whole program, up to the timer that
    [connect] arms.

    ** Conventions

    C++ objects that are shared live in a store and are named by address or index.
    A critical section is one atomic definition, and an interleaving of threads a
    sequence of them; Locks.v shows that the scoped locks make it so.  The order of the
    fields, the guards and the early returns is that of the code.

    ** Bounds and fuel

    - [log_fuel]: a logger of the manager refers at most to the root, so 2 is
      enough; [log_delivers] proves it from the invariant.
    - [init_loop], [directive_loop]: the length of the pattern; [init_total].
    - [ListAllMember]: the nesting of the document; [LoadFromYaml_spec].
    - [Fiber.run]: [swapIn_comes_back] gives the number of steps.
    - [wait_loop] and [drain_pipe] repeat for as long as the kernel interrupts
      them or has bytes in the pipe.  Nothing bounds that, so the fuel is a
      parameter, running out of it is an outcome of its own, and the theorems
      about them hold for any fuel.  [wait_loop_ends] and [drain_pipe_ends] say
      when it is enough.
    - [call_uninterrupted]: the system interrupts a call as often as it likes, so its
      fuel is a parameter too; the theorems ask for more than the interruptions
      that come ([settles]), and [do_io_answers] and its like hold for any such fuel.
    - [awaits]: how often a call in a fiber waits; [fiber_io_is_blocking] asks for no fewer
      than the times the system blocks.
    - [worker_run], [sys_run]: a prefix of an execution that need not end; the
      theorems on termination give the number of steps.

    ** Not modelled

    - [hook_init], which looks the original functions up with [dlsym], the [errno]
      that a call passed on leaves where the hooks do not look at it, and the log
      statement of a failed [addEvent] in the hooks.
    - mutex.{h,cc}: an older copy of the locks in a namespace nothing uses; it is not
      part of the build and does not compile.
    - The destructors of the locks, the error results of [sem_init] and [sem_post],
      and the error branches of thread.cc as far as they only log.
    - What the pattern parser prints on the standard output while it parses.
    - Listeners of a configuration variable that lock that variable again.
    - The operating system, the clocks, the file system, [strftime] and yaml-cpp
      are arguments or classes.
    - [SingletonPtr], noncopyable.h, macro.h, the tests. *)

From Stdlib Require Export ZArith Lia Ascii String.
From Stdlib Require Export ssreflect.
From stdpp Require Export base list gmap strings numbers relations sorting.

(** [if] on any two-constructor type, not only on [bool]. *)
Global Open Scope general_if_scope.

(** * Machine integers

    The C++ integer types are kept as [Z] with their wrap-around written out. *)

Definition u64 (z : Z) : Z := z mod 2 ^ 64.
Definition u32 (z : Z) : Z := z mod 2 ^ 32.
(** Conversion to [int]: two's complement, as gcc implements it. *)
Definition i32 (z : Z) : Z := (z + 2 ^ 31) mod 2 ^ 32 - 2 ^ 31.

(** [int64_t]. *)
Definition i64 (z : Z) : Z := (z + 2 ^ 63) mod 2 ^ 64 - 2 ^ 63.

(** [~0ull], the value the code uses for "no timer" and "no timeout". *)
Definition u64_max : Z := 2 ^ 64 - 1.

Definition in_u64 (z : Z) : Prop := (0 <= z < 2 ^ 64)%Z.

Lemma u64_range z : in_u64 (u64 z).
Proof. apply Z.mod_pos_bound; lia. Qed.

Lemma u64_id z : in_u64 z → u64 z = z.
Proof. apply Z.mod_small. Qed.

Lemma i32_id z : (- 2 ^ 31 <= z < 2 ^ 31)%Z → i32 z = z.
Proof. intros H. unfold i32. rw Z.mod_small; lia. Qed.

Lemma i64_id z : (- 2 ^ 63 <= z < 2 ^ 63)%Z → i64 z = z.
Proof. intros H. unfold i64. rw Z.mod_small; lia. Qed.

Lemma i32_range z : (- 2 ^ 31 <= i32 z < 2 ^ 31)%Z.
Proof. unfold i32. pose proof (Z.mod_pos_bound (z + 2 ^ 31) (2 ^ 32)). lia. Qed.

(** * Strings

    A [std::string] is a list of characters; literals are written [L "..."]. *)

Definition str : Type := list ascii.
Definition L (s : string) : str := list_ascii_of_string s.

(** * Outcomes

    A C++ operation returns, throws an exception that a caller may catch, or
    ends the program: a failed [assert] (the build keeps [assert] on) or
    undefined behaviour (null dereference, [erase(end())], ...). *)

Inductive exn := Exn (what : string).
Inductive fault :=
  | AssertFailed (site : string)
  | Undefined (site : string)
  | Terminated (site : string).

Inductive result (S A : Type) :=
  | Ret (a : A) (s : S)
  | Throw (e : exn) (s : S)
  | Crash (f : fault).
Arguments Ret {S A} a s.
Arguments Throw {S A} e s.
Arguments Crash {S A} f.

Definition M (S A : Type) : Type := S → result S A.

#[export] Instance M_ret S : MRet (M S) := λ A a s, Ret a s.
#[export] Instance M_bind S : MBind (M S) := λ A B k m s,
  match m s with
  | Ret a s' => k a s'
  | Throw e s' => Throw e s'
  | Crash f => Crash f
  end.

Definition mget {S} : M S S := λ s, Ret s s.
Definition mgets {S A} (f : S → A) : M S A := λ s, Ret (f s) s.
Definition mmodify {S} (f : S → S) : M S unit := λ s, Ret tt (f s).
Definition mcrash {S A} (f : fault) : M S A := λ _, Crash f.
Definition mthrow {S A} (e : exn) : M S A := λ s, Throw e s.
Definition mwhen {S} (b : bool) (m : M S unit) : M S unit :=
  if b then m else mret tt.
(** [DUAN_ASSERT(x)] *)
Definition massert {S} (b : bool) (site : string) : M S unit :=
  if b then mret tt else mcrash (AssertFailed site).
(** [try { m } catch (std::exception& e) { h } ] *)
Definition mcatch {S A} (m : M S A) (h : exn → M S A) : M S A := λ s,
  match m s with
  | Ret a s' => Ret a s'
  | Throw e s' => h e s'
  | Crash f => Crash f
  end.
Fixpoint miter {S A} (f : A → M S unit) (l : list A) : M S unit :=
  match l with
  | [] => mret tt
  | x :: l' => f x ;; miter f l'
  end.

(** Run a computation over a component of a larger state. *)
Definition mzoom {S T A} (get : S → T) (set : T → S → S) (m : M T A) : M S A := λ s,
  match m (get s) with
  | Ret a t => Ret a (set t s)
  | Throw e t => Throw e (set t s)
  | Crash f => Crash f
  end.

(** ** Reasoning about outcomes *)

(** [m] started in [s] returns, and the value and state satisfy [Q]. *)
Definition returns {S A} (m : M S A) (s : S) (Q : A → S → Prop) : Prop :=
  match m s with Ret a s' => Q a s' | _ => False end.

(** Whenever [m] does not end the program, it preserves [I]. *)
Definition keeps {S A} (I : S → Prop) (m : M S A) : Prop :=
  ∀ s, I s →
  match m s with Ret _ s' => I s' | Throw _ s' => I s' | Crash _ => True end.

(** Partial correctness: if [m] started in a state of [P] returns, the value and
    the state satisfy [Q]. *)
Definition triple {S A} (P : S → Prop) (m : M S A) (Q : A → S → Prop) : Prop :=
  ∀ s, P s → match m s with Ret a s' => Q a s' | _ => True end.

Lemma bind_Ret {S A B} (m : M S A) (k : A → M S B) s a s' :
  m s = Ret a s' → (m ≫= k) s = k a s'.
Proof. intros H. unfold mbind, M_bind. by rw H. Qed.

Lemma bind_Crash {S A B} (m : M S A) (k : A → M S B) s f :
  m s = Crash f → (m ≫= k) s = Crash f.
Proof. intros H. unfold mbind, M_bind. by rw H. Qed.

Lemma bind_returns {S A B} (m : M S A) (k : A → M S B) s Q :
  returns m s (λ a s', returns (k a) s' Q) → returns (m ≫= k) s Q.
Proof. rw /returns /mbind /M_bind. by destruct (m s). Qed.

Lemma bind_step {S A B} (m : M S A) (k : A → M S B) s a s' Q :
  m s = Ret a s' → returns (k a) s' Q → returns (m ≫= k) s Q.
Proof. intros H. unfold returns. by rw (bind_Ret m k s a s' H). Qed.

Lemma returns_mono {S A} (m : M S A) s (P Q : A → S → Prop) :
  returns m s P → (∀ a s', P a s' → Q a s') → returns m s Q.
Proof. rw /returns. destruct (m s); naive_solver. Qed.

Lemma returns_inv {S A} (m : M S A) s Q a s' :
  returns m s Q → m s = Ret a s' → Q a s'.
Proof. unfold returns. intros H Hm. by rw Hm in H. Qed.

Lemma returns_ex {S A} (m : M S A) s Q :
  returns m s Q → ∃ a s', m s = Ret a s' ∧ Q a s'.
Proof. rw /returns. destruct (m s); naive_solver. Qed.

Section keeps.
Context {S : Type} (I : S → Prop).

Lemma keeps_ret {A} (a : A) : keeps I (mret a).
Proof. by intros s. Qed.
Lemma keeps_get : keeps I mget.
Proof. by intros s. Qed.
Lemma keeps_gets {A} (f : S → A) : keeps I (mgets f).
Proof. by intros s. Qed.
Lemma keeps_crash {A} f : keeps I (mcrash (A:=A) f).
Proof. by intros s. Qed.
Lemma keeps_throw {A} e : keeps I (mthrow (A:=A) e).
Proof. by intros s. Qed.
Lemma keeps_assert b site : keeps I (massert b site).
Proof. by destruct b; intros s. Qed.
Lemma keeps_modify f : (∀ s, I s → I (f s)) → keeps I (mmodify f).
Proof. intros H s Hs. by apply H. Qed.
Lemma keeps_when b m : keeps I m → keeps I (mwhen b m).
Proof. intros H. destruct b; [done|apply keeps_ret]. Qed.
Lemma keeps_bind {A B} (m : M S A) (k : A → M S B) :
  keeps I m → (∀ a, keeps I (k a)) → keeps I (m ≫= k).
Proof.
  intros Hm Hk s Hs. specialize (Hm s Hs). rw /mbind /M_bind.
  destruct (m s) as [a s'|e s'|f]; [by apply Hk|done|done].
Qed.
Lemma keeps_iter {A} (f : A → M S unit) l :
  (∀ a, keeps I (f a)) → keeps I (miter f l).
Proof.
  intros Hf. induction l as [|x l IH]; [apply keeps_ret|].
  apply keeps_bind; [apply Hf|by intros _].
Qed.
End keeps.

Section triple.
Context {S : Type}.
Implicit Types P : S → Prop.

Lemma triple_ret {A} P (a : A) (Q : A → S → Prop) :
  (∀ s, P s → Q a s) → triple P (mret a) Q.
Proof. by intros H s Hs; apply H. Qed.
Lemma triple_crash {A} P f (Q : A → S → Prop) : triple P (mcrash f) Q.
Proof. by intros s Hs. Qed.
Lemma triple_modify P f (Q : unit → S → Prop) :
  (∀ s, P s → Q tt (f s)) → triple P (mmodify f) Q.
Proof. by intros H s Hs; apply H. Qed.
Lemma triple_gets {A} P (f : S → A) (Q : A → S → Prop) :
  (∀ s, P s → Q (f s) s) → triple P (mgets f) Q.
Proof. by intros H s Hs; apply H. Qed.
Lemma triple_bind {A B} P (m : M S A) (k : A → M S B) (R : A → S → Prop) Q :
  triple P m R → (∀ a, triple (R a) (k a) Q) → triple P (m ≫= k) Q.
Proof.
  intros Hm Hk s Hs. specialize (Hm s Hs). rw /mbind /M_bind.
  destruct (m s) as [a s'|e s'|f]; [by apply Hk|done|done].
Qed.
Lemma triple_when P b m (Q : unit → S → Prop) :
  triple P m Q → (∀ s, P s → Q tt s) → triple P (mwhen b m) Q.
Proof. intros H1 H2. destruct b; [done|by apply triple_ret]. Qed.
Lemma triple_assert P b site (Q : unit → S → Prop) :
  (b = true → ∀ s, P s → Q tt s) → triple P (massert b site) Q.
Proof. intros H. destruct b; [apply triple_ret; auto|apply triple_crash]. Qed.
Lemma triple_keeps {A} P (m : M S A) : keeps P m → triple P m (λ _, P).
Proof. intros H s Hs. specialize (H s Hs). by destruct (m s). Qed.
Lemma triple_mono {A} P (m : M S A) (Q R : A → S → Prop) :
  triple P m Q → (∀ a s, Q a s → R a s) → triple P m R.
Proof. intros H HQ s Hs. specialize (H s Hs). destruct (m s); auto. Qed.
Lemma triple_conseq {A} P P' (m : M S A) (Q R : A → S → Prop) :
  triple P' m Q → (∀ s, P s → P' s) → (∀ a s, Q a s → R a s) → triple P m R.
Proof. intros H HP HQ s Hs. specialize (H s (HP s Hs)). destruct (m s); auto. Qed.
End triple.

(** ** Outcomes with the allowed faults

    [spec crashes P m Q]: from a state of [P] the computation [m] returns with
    [Q], or ends the program with a fault that [crashes] allows.  With [crashes]
    empty this is total correctness; with all faults allowed it is what an
    invariant needs. *)
Definition spec {S A} (crashes : fault → Prop) (P : S → Prop) (m : M S A)
    (Q : A → S → Prop) : Prop :=
  ∀ s, P s →
  match m s with Ret a s' => Q a s' | Throw _ _ => False | Crash f => crashes f end.

Section spec.
Context {S : Type} (crashes : fault → Prop).
Implicit Types P : S → Prop.

Lemma spec_ret {A} P (a : A) (Q : A → S → Prop) :
  (∀ s, P s → Q a s) → spec crashes P (mret a) Q.
Proof. by intros H s Hs; apply H. Qed.
Lemma spec_crash {A} P f (Q : A → S → Prop) :
  crashes f → spec crashes P (mcrash f) Q.
Proof. by intros H s Hs. Qed.
Lemma spec_modify P f (Q : unit → S → Prop) :
  (∀ s, P s → Q tt (f s)) → spec crashes P (mmodify f) Q.
Proof. intros H s Hs; apply H. done. Qed.
Lemma spec_gets {A} P (f : S → A) (Q : A → S → Prop) :
  (∀ s, P s → Q (f s) s) → spec crashes P (mgets f) Q.
Proof. intros H s Hs; apply H. done. Qed.
Lemma spec_assert P b site (Q : unit → S → Prop) :
  b = true ∨ crashes (AssertFailed site) → (b = true → ∀ s, P s → Q tt s) →
  spec crashes P (massert b site) Q.
Proof. intros Hb H. destruct b; [by apply spec_ret, H|]. apply spec_crash. naive_solver. Qed.
Lemma spec_bind {A B} P (m : M S A) (k : A → M S B) (R : A → S → Prop) Q :
  spec crashes P m R → (∀ a, spec crashes (R a) (k a) Q) → spec crashes P (m ≫= k) Q.
Proof.
  intros Hm Hk s Hs. specialize (Hm s Hs). rw /mbind /M_bind.
  destruct (m s) as [a s'|e s'|f]; [by apply Hk|done|done].
Qed.
Lemma spec_when P b m (Q : unit → S → Prop) :
  (b = true → spec crashes P m Q) → (b = false → ∀ s, P s → Q tt s) →
  spec crashes P (mwhen b m) Q.
Proof. intros H1 H2. destruct b; [by apply H1|by apply spec_ret, H2]. Qed.
Lemma spec_conseq {A} P P' (m : M S A) (Q R : A → S → Prop) :
  spec crashes P' m Q → (∀ s, P s → P' s) → (∀ a s, Q a s → R a s) →
  spec crashes P m R.
Proof. intros H HP HQ s Hs. specialize (H s (HP s Hs)). destruct (m s); auto. Qed.
(** Facts that do not depend on the state. *)
Lemma spec_pure {A} (X : Prop) P (m : M S A) (Q : A → S → Prop) :
  (X → spec crashes P m Q) → spec crashes (λ s, X ∧ P s) m Q.
Proof. intros H s [HX Hs]. by apply H. Qed.
End spec.

Lemma spec_keeps {S A} (I : S → Prop) (m : M S A) :
  spec (λ _, True) I m (λ _, I) → keeps I m.
Proof. intros H s Hs. specialize (H s Hs). by destruct (m s). Qed.

Lemma spec_returns {S A} (P : S → Prop) (m : M S A) Q s :
  spec (λ _, False) P m Q → P s → returns m s Q.
Proof. intros H Hs. specialize (H s Hs). unfold returns. by destruct (m s). Qed.

(** An invariant beside a specification. *)
Lemma spec_frame {S A} crashes (P I : S → Prop) (m : M S A) (Q : A → S → Prop) :
  spec crashes P m Q → keeps I m →
  spec crashes (λ s, P s ∧ I s) m (λ a s, Q a s ∧ I s).
Proof.
  intros Hm Hi s [Hs Hs']. specialize (Hm s Hs). specialize (Hi s Hs').
  by destruct (m s).
Qed.

(** [u64] and addition *)
Lemma u64_add_l a b : u64 (u64 a + b) = u64 (a + b).
Proof. apply Zplus_mod_idemp_l. Qed.

Create HintDb duan.
#[export] Hint Resolve keeps_ret keeps_get keeps_gets keeps_crash keeps_throw
  keeps_assert keeps_when keeps_bind keeps_iter : duan.

(** [mstep] runs the first operation of a sequence when it is administrative
    (reading or writing the state); [mstep_by H] runs it by the equation or
    the specification [H]. *)
Tactic Notation "mstep" := eapply bind_step; [reflexivity|cbn beta iota].
Tactic Notation "mstep_by" constr(H) :=
  first [ eapply bind_step; [eapply H; eauto|cbn beta iota]
        | eapply bind_returns, returns_mono; [eapply H; eauto|cbn beta iota] ].

(** [mrun] evaluates the administrative steps of the monad in the goal. *)
Ltac mrun :=
  rw ?/mbind ?/M_bind ?/mret ?/M_ret ?/mget ?/mgets ?/mmodify ?/mcrash
    ?/mthrow ?/massert ?/mwhen /=.

(** * Occurrences in a list *)

Section occurrences.
Context {A : Type} `{!EqDecision A}.

Definition occurrences (x : A) (l : list A) : nat := length (filter (λ y, y = x) l).

Lemma occurrences_not_in x l : x ∉ l → occurrences x l = 0.
Proof.
  unfold occurrences. induction l as [|y l IH]; [done|]. intros Hx.
  rw filter_cons_False; [set_solver|apply IH; set_solver].
Qed.

Lemma occurrences_NoDup x l : NoDup l → occurrences x l <= 1.
Proof.
  induction 1 as [|y l Hy _ IH]; unfold occurrences in *; simpl; [lia|].
  rw filter_cons. destruct (decide (y = x)) as [->|]; [|done]. simpl.
  pose proof (occurrences_not_in x l Hy). unfold occurrences in *. lia.
Qed.

Lemma occurrences_app x l1 l2 :
  occurrences x (l1 ++ l2) = occurrences x l1 + occurrences x l2.
Proof. unfold occurrences. by rw filter_app length_app. Qed.

Lemma occurrences_cons x y l :
  occurrences x (y :: l) = (if decide (y = x) then 1 else 0) + occurrences x l.
Proof. unfold occurrences. rw filter_cons. by destruct (decide (y = x)). Qed.

Lemma occurrences_in x l : x ∈ l ↔ 0 < occurrences x l.
Proof.
  split.
  - induction l as [|y l IH]; [by intros ?%elem_of_nil|]. rw occurrences_cons.
    intros [<- |Hx]%elem_of_cons; [rw decide_True; [done|]|specialize (IH Hx)]; lia.
  - intros H. destruct (decide (x ∈ l)) as [|Hx]; [done|].
    rw (occurrences_not_in x l Hx) in H. lia.
Qed.

#[export] Instance occurrences_Proper x : Proper ((≡ₚ) ==> (=)) (occurrences x).
Proof. intros l1 l2 H. unfold occurrences. by rw H. Qed.
End occurrences.
