(* ===== verification/StdSet.v ===== *)
(** [std::set] as the sequence of its elements in iteration order.

    The standard fixes the result of [lower_bound], [find], [insert] and
    [erase] in terms of the comparator: [lower_bound(x)] is the first element
    that is not before [x], [find] the element equivalent to [x] if there is
    one, [insert] adds [x] at its lower bound unless an equivalent element is
    there.  An iterator is an index, [end()] the length.  The comparator is an
    argument: the code's comparators read mutable fields of the elements, so
    one sequence may be sorted for one comparator and not for the next. *)

From S2P Require Import Prelude.

Section std_set.
Context {A : Type} (lt : A → A → bool).

Fixpoint lower_bound (x : A) (l : list A) : nat :=
  match l with
  | [] => 0
  | y :: l' => if lt y x then S (lower_bound x l') else 0
  end.

Definition set_find (x : A) (l : list A) : option nat :=
  let i := lower_bound x l in
  match l !! i with
  | Some y => if lt x y then None else Some i
  | None => None
  end.

(** The new sequence and the iterator [insert] returns. *)
Definition set_insert (x : A) (l : list A) : list A * nat :=
  let i := lower_bound x l in
  match l !! i with
  | Some y => if lt x y then (take i l ++ x :: drop i l, i) else (l, i)
  | None => (l ++ [x], i)
  end.

Definition set_sorted (l : list A) : Prop :=
  StronglySorted (λ x y, lt x y = true) l.
End std_set.

(** A set built by inserting the elements of a list in turn. *)
Definition set_of {A} (lt : A → A → bool) (l : list A) : list A :=
  foldl (λ s x, (set_insert lt x s).1) [] l.

(** The order of [std::string]: lexicographic on the codes of the characters. *)
Fixpoint str_lt (a b : str) : bool :=
  match a, b with
  | _, [] => false
  | [], _ :: _ => true
  | x :: a, y :: b =>
      (nat_of_ascii x <? nat_of_ascii y) || (bool_decide (x = y) && str_lt a b)
  end.

(** A strict total order given as a boolean comparator. *)
Class StrictTotal {A} (lt : A → A → bool) : Prop := {
  st_irrefl x : lt x x = false;
  st_trans x y z : lt x y = true → lt y z = true → lt x z = true;
  st_total x y : lt x y = false → lt y x = false → x = y;
}.

Lemma st_asym {A} {lt : A → A → bool} `{!StrictTotal lt} (x y : A) : lt x y = true → lt y x = false.
Proof.
  intros Hxy. destruct (lt y x) eqn:Hyx; [|done].
  pose proof (st_trans _ _ _ Hxy Hyx) as Hc. by rw st_irrefl in Hc.
Qed.

(** A prefix that satisfies [P] followed by a rest that does not is what a
    filter computes. *)
Lemma filter_split {A} (P : A → Prop) `{!∀ x, Decision (P x)} (l : list A) n :
  Forall P (take n l) → Forall (λ x, ¬ P x) (drop n l) → filter P l = take n l.
Proof.
  intros H1 H2. rw -{1}(take_drop n l) filter_app.
  assert (filter P (take n l) = take n l) as ->.
  { induction H1 as [|x l' Hx _ IH]; [done|]. by rw filter_cons_True ?IH. }
  assert (filter P (drop n l) = []) as ->; [|by rw app_nil_r].
  induction H2 as [|x l' Hx _ IH]; [done|]. by rw filter_cons_False.
Qed.

Section facts.
Context {A : Type} {lt : A → A → bool} `{!StrictTotal lt}.
Implicit Types (x y : A) (l : list A).

Lemma sorted_NoDup l : set_sorted lt l → NoDup l.
Proof.
  induction 1 as [|x l _ IH Hx]; constructor; [|done].
  intros Hin. rw Forall_forall in Hx.
  specialize (Hx _ Hin). by rw st_irrefl in Hx.
Qed.

Lemma lower_bound_le x l : lower_bound lt x l ≤ length l.
Proof. induction l as [|y l IH]; simpl; [lia|]. destruct (lt y x); lia. Qed.

Lemma lower_bound_before x l :
  Forall (λ y, lt y x = true) (take (lower_bound lt x l) l).
Proof.
  induction l as [|y l IH]; simpl; [constructor|].
  destruct (lt y x) eqn:Hyx; by constructor.
Qed.

Lemma lower_bound_after x l :
  set_sorted lt l → Forall (λ y, lt y x = false) (drop (lower_bound lt x l) l).
Proof.
  induction 1 as [|y l _ IH Hy]; simpl; [constructor|].
  destruct (lt y x) eqn:Hyx; [done|]. constructor; [done|].
  eapply Forall_impl; [exact Hy|]. intros z Hyz.
  destruct (lt z x) eqn:Hzx; [|done].
  pose proof (st_trans _ _ _ Hyz Hzx). congruence.
Qed.

(** For a sorted sequence the part before [lower_bound] is what a filter
    selects. *)
Lemma take_lower_bound x l :
  set_sorted lt l → take (lower_bound lt x l) l = filter (λ y, lt y x = true) l.
Proof.
  intros Hl. symmetry. apply filter_split.
  - apply lower_bound_before.
  - eapply Forall_impl; [by apply lower_bound_after|]. intros y Hy. cbn. by rw Hy.
Qed.

Lemma set_insert_at x l :
  set_sorted lt l → x ∉ l →
  set_insert lt x l =
    (take (lower_bound lt x l) l ++ x :: drop (lower_bound lt x l) l,
     lower_bound lt x l).
Proof.
  intros Hl Hx. unfold set_insert.
  destruct (l !! lower_bound lt x l) as [y|] eqn:Hy.
  - pose proof (lower_bound_after x l Hl) as Ha.
    rw (drop_S _ _ _ Hy) in Ha. apply Forall_cons in Ha as [Hyx _].
    destruct (lt x y) eqn:Hxy; [done|].
    apply list_elem_of_lookup_2 in Hy. by rw (st_total _ _ Hxy Hyx) in Hx.
  - apply lookup_ge_None in Hy.
    by rw (firstn_all2 _ Hy) (skipn_all2 _ Hy).
Qed.

Lemma set_insert_perm x l :
  set_sorted lt l → x ∉ l → (set_insert lt x l).1 ≡ₚ x :: l.
Proof.
  intros Hl Hx. rw (set_insert_at x l Hl Hx) /=.
  by rw -Permutation_middle take_drop.
Qed.

Lemma set_insert_sorted x l :
  set_sorted lt l → x ∉ l → set_sorted lt (set_insert lt x l).1.
Proof.
  intros Hl Hx. rw (set_insert_at x l Hl Hx) /=.
  pose proof (lower_bound_before x l) as Hb.
  pose proof (lower_bound_after x l Hl) as Ha.
  set (i := lower_bound lt x l) in *.
  rw -(take_drop i l) in Hl Hx.
  apply StronglySorted_app in Hl as (Hlt & Hl1 & Hl2).
  assert (Forall (λ z, lt x z = true) (drop i l)) as Ha'.
  { rw Forall_forall. rw Forall_forall in Ha. intros z Hz.
    destruct (lt x z) eqn:Hxz; [done|].
    specialize (Ha _ Hz). rw (st_total _ _ Hxz Ha) in Hx. set_solver. }
  rw Forall_forall in Hb.
  apply StronglySorted_app. split_and!; [|done|by constructor].
  intros y z Hy [->|Hz]%elem_of_cons; eauto.
Qed.

(** [find] of an element that is in the set returns its position. *)
Lemma set_find_in x l :
  set_sorted lt l → x ∈ l →
  ∃ i, set_find lt x l = Some i ∧ l !! i = Some x.
Proof.
  intros Hl Hx. unfold set_find.
  pose proof (lower_bound_after x l Hl) as Ha.
  pose proof (lower_bound_before x l) as Hb.
  set (i := lower_bound lt x l) in *.
  assert (x ∈ drop i l) as Hd.
  { rw -(take_drop i l) in Hx. apply elem_of_app in Hx as [Hx|Hx]; [|done].
    rw Forall_forall in Hb. specialize (Hb _ Hx). by rw st_irrefl in Hb. }
  destruct (l !! i) as [y|] eqn:Hy.
  - rw (drop_S _ _ _ Hy) in Hd. rw (drop_S _ _ _ Hy) in Ha.
    apply Forall_cons in Ha as [Hyx _].
    rw -(take_drop i l) (drop_S _ _ _ Hy) in Hl.
    apply StronglySorted_app in Hl as (_ & _ & Hl).
    apply StronglySorted_cons in Hl as [Hyl _]. rw Forall_forall in Hyl.
    apply elem_of_cons in Hd as [->|Hd].
    + rw st_irrefl. eauto.
    + specialize (Hyl _ Hd). congruence.
  - apply lookup_ge_None in Hy. rw skipn_all2 in Hd; [done|]. by inversion Hd.
Qed.

Lemma set_find_lookup x l i : set_find lt x l = Some i → is_Some (l !! i).
Proof. unfold set_find. case_match; [|done]. case_match; naive_solver. Qed.

Lemma set_find_notin x l :
  set_sorted lt l → x ∉ l → set_find lt x l = None.
Proof.
  intros Hl Hx. unfold set_find.
  destruct (l !! lower_bound lt x l) as [y|] eqn:Hy; [|done].
  pose proof (lower_bound_after x l Hl) as Ha.
  rw (drop_S _ _ _ Hy) in Ha. apply Forall_cons in Ha as [Hyx _].
  destruct (lt x y) eqn:Hxy; [done|].
  apply list_elem_of_lookup_2 in Hy. by rw (st_total _ _ Hxy Hyx) in Hx.
Qed.

(** The iterator [insert] returns is [begin()] when the new element is
    before all the others. *)
Lemma set_insert_front x l :
  set_sorted lt l → x ∉ l →
  (set_insert lt x l).2 = 0 ↔ Forall (λ y, lt x y = true) l.
Proof.
  intros Hl Hx. rw (set_insert_at x l Hl Hx) /=. destruct l as [|y l]; simpl.
  - split; [constructor|done].
  - apply StronglySorted_cons in Hl as [Hy _].
    destruct (lt y x) eqn:Hyx.
    + split; [done|]. intros [Hxy _]%Forall_cons.
      by rw (st_asym _ _ Hxy) in Hyx.
    + split; [intros _|done].
      assert (lt x y = true) as Hxy.
      { destruct (lt x y) eqn:Hxy; [done|].
        rw (st_total _ _ Hxy Hyx) in Hx. set_solver. }
      constructor; [done|]. eapply Forall_impl; [exact Hy|].
      intros z Hyz. by eapply st_trans.
Qed.
End facts.

(** Sortedness only depends on the comparator's answers on the elements. *)
Lemma set_sorted_ext {A} (lt1 lt2 : A → A → bool) (l : list A) :
  (∀ x y, x ∈ l → y ∈ l → lt1 x y = lt2 x y) →
  set_sorted lt1 l → set_sorted lt2 l.
Proof.
  intros Hext. induction 1 as [|x l Hl IH Hx]; constructor.
  - apply IH. intros y z ??. apply Hext; by right.
  - rw Forall_forall. rw Forall_forall in Hx. intros y Hy.
    rw -Hext; [by left|by right|by apply Hx].
Qed.

Lemma set_sorted_delete {A} (lt : A → A → bool) (l : list A) i :
  set_sorted lt l → set_sorted lt (delete i l).
Proof.
  intros Hl. rw delete_take_drop. destruct (l !! i) as [x|] eqn:Hx.
  - rw -(take_drop_middle l i x Hx) in Hl.
    apply StronglySorted_app in Hl as (H1 & H2 & [_ H3]%StronglySorted_cons).
    apply StronglySorted_app. split_and!; [|done|done].
    intros y z Hy Hz. apply H1; [done|by right].
  - apply lookup_ge_None in Hx.
    rw (firstn_all2 _ Hx) skipn_all2; [lia|]. by rw app_nil_r.
Qed.

Lemma elem_of_delete {A} (l : list A) i x y :
  NoDup l → l !! i = Some x → y ∈ delete i l ↔ y ∈ l ∧ y ≠ x.
Proof.
  intros Hl Hx. pose proof (delete_Permutation _ _ _ Hx) as Hp.
  rw Hp in Hl. apply NoDup_cons in Hl as [Hn _].
  split.
  - intros Hy. split; [rw Hp; by right|]. by intros ->.
  - rw {1}Hp. intros [[->|?]%elem_of_cons ?]; done.
Qed.

(** Elements that come in order are appended. *)
Lemma lower_bound_all {A} (lt : A → A → bool) x l :
  Forall (λ y, lt y x = true) l → lower_bound lt x l = length l.
Proof. induction 1 as [|y l Hy _ IH]; [done|]. cbn. by rw Hy IH. Qed.

Lemma set_insert_last {A} (lt : A → A → bool) x l :
  Forall (λ y, lt y x = true) l → set_insert lt x l = (l ++ [x], length l).
Proof.
  intros Hl. unfold set_insert. rw (lower_bound_all _ _ _ Hl).
  by rw (lookup_ge_None_2 l (length l)).
Qed.

Lemma set_of_sorted {A} (lt : A → A → bool) l : set_sorted lt l → set_of lt l = l.
Proof.
  unfold set_of. intros Hs. induction l as [|x l IH] using rev_ind; [done|].
  apply StronglySorted_app in Hs as (Hcross & Hl & _). rw foldl_app. cbn. rw (IH Hl).
  rw set_insert_last; [|done]. apply Forall_forall. intros y Hy. apply Hcross; [done|by left].
Qed.
