(* ===== verification/Util.v ===== *)
(** The helpers of duan_src/util.{h,cc} that compute something: the clock in
    milliseconds and microseconds, and the text of a backtrace.  What
    [gettimeofday] and [backtrace_symbols] return are arguments. *)

From S2P Require Import Prelude.

(** [struct timeval] *)
Record timeval := MkTimeval { tv_sec : Z; tv_usec : Z }.

(** [GetCurrentMS], [GetCurrentUS] *)
Definition GetCurrentMS (tv : timeval) : Z := u64 (u64 (tv_sec tv * 1000) + Z.quot (tv_usec tv) 1000).
Definition GetCurrentUS (tv : timeval) : Z := u64 (u64 (i64 (tv_sec tv * 1000) * 1000) + tv_usec tv).

(** [Backtrace(bt, size, skip)]: what is appended to [bt], given the strings of
    [backtrace_symbols] ([None] if it failed); a negative [skip] becomes a huge
    [size_t]. *)
Definition Backtrace (strings : option (list str)) (skip : Z) : list str :=
  match strings with
  | None => []
  | Some l => drop (Z.to_nat (u64 skip)) l
  end.

(** [BacktraceToString(size, skip, prefix)] *)
Definition BacktraceToString (strings : option (list str)) (skip : Z) (prefix : str) : str :=
  concat ((λ line, prefix ++ line ++ ["010"%char]) <$> Backtrace strings skip).

(** A clock that the system can show. *)
Definition good_timeval (tv : timeval) : Prop :=
  (0 <= tv_sec tv < 2 ^ 43)%Z ∧ (0 <= tv_usec tv < 1000000)%Z.

(** The two clocks agree, and neither wraps around for the next 278000 years. *)
Lemma clocks_agree tv : good_timeval tv →
  GetCurrentMS tv = (GetCurrentUS tv / 1000)%Z ∧
  GetCurrentUS tv = (tv_sec tv * 1000000 + tv_usec tv)%Z.
Proof.
  intros [Hs Hu]. unfold GetCurrentMS, GetCurrentUS.
  rw (i64_id (tv_sec tv * 1000)); [lia|].
  rw (u64_id (tv_sec tv * 1000)); [unfold in_u64; lia|].
  rw (u64_id (tv_sec tv * 1000 * 1000)); [unfold in_u64; lia|].
  rw (u64_id (tv_sec tv * 1000 * 1000 + _)); [unfold in_u64; lia|].
  rw u64_id; [unfold in_u64; rw Z.quot_div_nonneg; [lia|lia|]; pose proof (Z.div_le_upper_bound (tv_usec tv) 1000 1000); pose proof (Z.div_pos (tv_usec tv) 1000); lia|].
  rw Z.quot_div_nonneg; [lia|lia|]. split; [|lia].
  rw Z.div_add_l; lia.
Qed.

(** A later reading of the clock is not smaller. *)
Lemma GetCurrentMS_mono a b : good_timeval a → good_timeval b →
  (tv_sec a * 1000000 + tv_usec a <= tv_sec b * 1000000 + tv_usec b)%Z →
  (GetCurrentMS a <= GetCurrentMS b)%Z.
Proof.
  intros Ha Hb Hle. destruct (clocks_agree a Ha) as [-> ->], (clocks_agree b Hb) as [-> ->].
  apply Z.div_le_mono; lia.
Qed.
