(* ===== verification/Timer.v ===== *)
(** The timer queue: [Timer] and [TimerManager] of duan_src/timer.{h,cc}.

    [Timer] objects live in a store indexed by their address, [m_timers] is a
    [std::set] of addresses (StdSet.v) ordered by [Timer::Comparator], which
    reads [m_next] from the store.  Every definition is the body of one member
    function between acquiring and releasing [m_mutex], so an interleaving of
    threads is a sequence of these; [listExpiredCb] has two critical sections
    and is composed of two definitions.  [now] arguments are the values
    [GetCurrentMS()] returns.  [onTimerInsertedAtFront()] is pure virtual: an
    operation that ends by calling it returns [true], and the derived class
    (IOManager.v) performs the call. *)

From S2P Require Import Prelude StdSet.

(** A [std::function<void()>]: a user function, or what [addConditionTimer]
    builds with [std::bind(&OnTimer, weak_cond, cb)].  The empty function is
    [None] in the fields below. *)
Inductive callback :=
  | Fun (f : nat)
  | BindOnTimer (weak_cond : nat) (cb : option nat).

Record Timer := MkTimer {
  t_recurring : bool;
  t_ms : Z;
  t_next : Z;
  t_cb : option callback
}.

Record TimerManager := MkTimerManager {
  tm_heap : gmap nat Timer;
  m_timers : list nat;
  m_tickled : bool;
  m_previousTime : Z
}.

Definition set_heap (h : gmap nat Timer) (s : TimerManager) : TimerManager :=
  MkTimerManager h (m_timers s) (m_tickled s) (m_previousTime s).
Definition set_timers (l : list nat) (s : TimerManager) : TimerManager :=
  MkTimerManager (tm_heap s) l (m_tickled s) (m_previousTime s).
Definition set_tickled (b : bool) (s : TimerManager) : TimerManager :=
  MkTimerManager (tm_heap s) (m_timers s) b (m_previousTime s).
Definition set_previousTime (t : Z) (s : TimerManager) : TimerManager :=
  MkTimerManager (tm_heap s) (m_timers s) (m_tickled s) t.

Definition with_cb (c : option callback) (t : Timer) : Timer :=
  MkTimer (t_recurring t) (t_ms t) (t_next t) c.
Definition with_next (n : Z) (t : Timer) : Timer :=
  MkTimer (t_recurring t) (t_ms t) n (t_cb t).
Definition with_ms (ms : Z) (t : Timer) : Timer :=
  MkTimer (t_recurring t) ms (t_next t) (t_cb t).

(** * Operations *)

(** [m_next] of the timer at an address.  A [shared_ptr] keeps its target
    alive, so the default is never read for an element of the set. *)
Definition next_of (h : gmap nat Timer) (p : nat) : Z :=
  match h !! p with Some t => t_next t | None => 0 end.

Definition Comparator (h : gmap nat Timer) (lhs rhs : option nat) : bool :=
  match lhs, rhs with
  | None, None => false
  | None, Some _ => true
  | Some _, None => false
  | Some l, Some r =>
      if (next_of h l <? next_of h r)%Z then true
      else if (next_of h r <? next_of h l)%Z then false
      else l <? r
  end.

(** The comparator as [m_timers] uses it: no element is a null pointer. *)
Definition before (h : gmap nat Timer) (p q : nat) : bool :=
  Comparator h (Some p) (Some q).

(** The two constructors. *)
Definition Timer_new (now ms : Z) (cb : option callback) (recurring : bool) : Timer :=
  MkTimer recurring ms (u64 (now + ms)) cb.
Definition Timer_at (next : Z) : Timer := MkTimer false 0 next None.

Definition TimerManager_new (now : Z) : TimerManager :=
  MkTimerManager ∅ [] false now.

Definition deref (p : nat) : M TimerManager Timer := λ s,
  match tm_heap s !! p with
  | Some t => Ret t s
  | None => Crash (Undefined "dangling Timer")
  end.
Definition set_timer (p : nat) (t : Timer) : M TimerManager unit :=
  mmodify (λ s, set_heap (<[p := t]> (tm_heap s)) s).
Definition find_timer (p : nat) : M TimerManager (option nat) :=
  mgets (λ s, set_find (before (tm_heap s)) p (m_timers s)).
Definition erase_timer (i : nat) : M TimerManager unit :=
  mmodify (λ s, set_timers (delete i (m_timers s)) s).
(** [m_timers.insert(p)]; the iterator it returns. *)
Definition insert_timer (p : nat) : M TimerManager nat := λ s,
  let '(l, i) := set_insert (before (tm_heap s)) p (m_timers s) in
  Ret i (set_timers l s).

(** [Timer::cancel] *)
Definition cancel (p : nat) : M TimerManager bool :=
  t ← deref p;
  match t_cb t with
  | Some _ =>
      set_timer p (with_cb None t) ;;
      it ← find_timer p;
      match it with
      | Some i => erase_timer i ;; mret true
      | None => mcrash (Undefined "m_timers.erase(end())")
      end
  | None => mret false
  end.

(** [Timer::refresh] *)
Definition refresh (now : Z) (p : nat) : M TimerManager bool :=
  t ← deref p;
  match t_cb t with
  | None => mret false
  | Some _ =>
      it ← find_timer p;
      match it with
      | None => mret false
      | Some i =>
          erase_timer i ;;
          set_timer p (with_next (u64 (now + t_ms t)) t) ;;
          _ ← insert_timer p;
          mret true
      end
  end.

(** [TimerManager::addTimer(val, lock)] *)
Definition addTimer_locked (p : nat) : M TimerManager bool :=
  it ← insert_timer p;
  tickled ← mgets m_tickled;
  let at_front := bool_decide (it = 0) && negb tickled in
  mwhen at_front (mmodify (set_tickled true)) ;;
  mret at_front.

(** [Timer::reset]: what it returns, and whether [onTimerInsertedAtFront] is
    called. *)
Definition reset (now : Z) (p : nat) (ms : Z) (from_now : bool) :
    M TimerManager (bool * bool) :=
  t ← deref p;
  if bool_decide (ms = t_ms t) && negb from_now then mret (true, false) else
  match t_cb t with
  | None => mret (false, false)
  | Some _ =>
      it ← find_timer p;
      match it with
      | None => mret (false, false)
      | Some i =>
          erase_timer i ;;
          let start := if from_now then now else u64 (t_next t - t_ms t) in
          set_timer p (with_next (u64 (start + ms)) (with_ms ms t)) ;;
          at_front ← addTimer_locked p;
          mret (true, at_front)
      end
  end.

(** [TimerManager::addTimer(ms, cb, recurring)]; [p] is the address [new]
    returns. *)
Definition addTimer (p : nat) (now ms : Z) (cb : option callback) (recurring : bool) :
    M TimerManager bool :=
  set_timer p (Timer_new now ms cb recurring) ;;
  addTimer_locked p.

(** [OnTimer]: the user functions called, in the order of the calls. *)
Definition OnTimer (alive : nat → bool) (weak_cond : nat) (cb : option nat) :
    M (list nat) unit :=
  if alive weak_cond then
    match cb with
    | Some f => mmodify (λ calls, calls ++ [f])
    | None => mthrow (Exn "bad_function_call")
    end
  else mret tt.

(** Calling what a timer stored. *)
Definition run_callback (alive : nat → bool) (c : callback) : M (list nat) unit :=
  match c with
  | Fun f => mmodify (λ calls, calls ++ [f])
  | BindOnTimer w cb => OnTimer alive w cb
  end.

Definition addConditionTimer (p : nat) (now ms : Z) (cb : option nat)
    (weak_cond : nat) (recurring : bool) : M TimerManager bool :=
  addTimer p now ms (Some (BindOnTimer weak_cond cb)) recurring.

Definition getNextTimer (now : Z) : M TimerManager Z :=
  mmodify (set_tickled false) ;;
  s ← mget;
  match m_timers s with
  | [] => mret u64_max
  | p :: _ =>
      if (next_of (tm_heap s) p <=? now)%Z then mret 0%Z
      else mret (next_of (tm_heap s) p - now)%Z
  end.

Definition hasTimer : M TimerManager bool :=
  mgets (λ s, match m_timers s with [] => false | _ => true end).

(** Unsigned arithmetic: [m_previousTime - 60 * 60 * 1000] wraps. *)
Definition rolled_over (previous now : Z) : bool :=
  (now <? previous)%Z && (now <? u64 (previous - 60 * 60 * 1000))%Z.

Definition detectClockRollover (now : Z) : M TimerManager bool :=
  rollover ← mgets (λ s, rolled_over (m_previousTime s) now);
  mmodify (set_previousTime now) ;;
  mret rollover.

(** The loop that advances [it] over the timers due exactly at [now_ms]. *)
Fixpoint skip_now (h : gmap nat Timer) (now : Z) (l : list nat) : nat :=
  match l with
  | [] => 0
  | p :: l' => if (next_of h p =? now)%Z then S (skip_now h now l') else 0
  end.

(** The end of the range of expired timers; [q] is the address of the
    temporary [now_timer]. *)
Definition expired_end (q : nat) (now : Z) (rollover : bool) (s : TimerManager) : nat :=
  if rollover then length (m_timers s)
  else
    let h := <[q := Timer_at now]> (tm_heap s) in
    let it := lower_bound (before h) q (m_timers s) in
    it + skip_now h now (drop it (m_timers s)).

(** The body of the loop over [expired]. *)
Definition fire (now : Z) (p : nat) : M TimerManager (option callback) :=
  t ← deref p;
  (if t_recurring t then
     set_timer p (with_next (u64 (now + t_ms t)) t) ;;
     _ ← insert_timer p;
     mret tt
   else set_timer p (with_cb None t)) ;;
  mret (t_cb t).

Fixpoint fire_all (now : Z) (expired : list nat) : M TimerManager (list (option callback)) :=
  match expired with
  | [] => mret []
  | p :: expired' =>
      c ← fire now p;
      cbs ← fire_all now expired';
      mret (c :: cbs)
  end.

(** [listExpiredCb]: the critical section under the read lock. *)
Definition listExpired_check : M TimerManager bool :=
  mgets (λ s, match m_timers s with [] => true | _ => false end).

(** [listExpiredCb]: the critical section under the write lock. *)
Definition listExpired_collect (q : nat) (now : Z) : M TimerManager (list (option callback)) :=
  rollover ← detectClockRollover now;
  s ← mget;
  let collect :=
    let n := expired_end q now rollover s in
    let expired := take n (m_timers s) in
    mmodify (set_timers (drop n (m_timers s))) ;;
    fire_all now expired in
  if rollover then collect else
  match m_timers s with
  | [] => mcrash (Undefined "*m_timers.begin() of an empty set")
  | p :: _ => if (now <? next_of (tm_heap s) p)%Z then mret [] else collect
  end.

(** [listExpiredCb] when no other thread runs between the two sections. *)
Definition listExpiredCb (q : nat) (now : Z) : M TimerManager (list (option callback)) :=
  empty ← listExpired_check;
  if (empty : bool) then mret [] else listExpired_collect q now.

(** * The invariant *)

Definition wf_timer (t : Timer) : Prop := in_u64 (t_ms t) ∧ in_u64 (t_next t).

(** The timers in [X] have been taken out of the queue by an operation that
    will put them back or retire them; between critical sections there are
    none. *)
Record wf_except (X : list nat) (s : TimerManager) : Prop := {
  wf_sorted : set_sorted (before (tm_heap s)) (m_timers s);
  wf_live p : p ∈ m_timers s ∨ p ∈ X → is_Some (tm_heap s !! p);
  (** a timer with a callback is queued, so [cancel] finds what it erases *)
  wf_armed p t c :
    tm_heap s !! p = Some t → t_cb t = Some c → p ∈ m_timers s ∨ p ∈ X;
  wf_apart p : p ∈ X → p ∉ m_timers s;
  wf_range p t : tm_heap s !! p = Some t → wf_timer t;
}.

Definition wf (s : TimerManager) : Prop := wf_except [] s.

(** * Specification vocabulary *)

(** [Timer::reset], the branch that re-arms the timer. *)
Definition reset_timer (now : Z) (ms : Z) (from_now : bool) (t : Timer) : Timer :=
  with_next (u64 ((if from_now then now else u64 (t_next t - t_ms t)) + ms))
    (with_ms ms t).

(** What firing does to a timer. *)
Definition fired (now : Z) (t : Timer) : Timer :=
  if t_recurring t then with_next (u64 (now + t_ms t)) t else with_cb None t.

Definition is_recurring (h : gmap nat Timer) (p : nat) : Prop :=
  ∃ t, h !! p = Some t ∧ t_recurring t = true.

(** Which timers are due. *)
Definition due (h : gmap nat Timer) (now : Z) (p : nat) : Prop := (next_of h p <= now)%Z.

#[export] Instance due_dec h now p : Decision (due h now p).
Proof. unfold due. apply _. Defined.

(** The timers one call fires: all of them after a clock rollover, those that
    are due otherwise. *)
Definition expired_at (now : Z) (s : TimerManager) : list nat :=
  if rolled_over (m_previousTime s) now then m_timers s
  else filter (due (tm_heap s) now) (m_timers s).

Definition refired (now : Z) (E : list nat) (h h' : gmap nat Timer) : Prop :=
  ∀ q, h' !! q = if decide (q ∈ E) then fired now <$> h !! q else h !! q.

(** Interleavings: a thread that holds a [shared_ptr] to a timer, or the
    manager, performs one critical section at a time. *)
Inductive tm_op :=
  | OpAdd (p : nat) (now ms : Z) (cb : option callback) (recurring : bool)
  | OpCancel (p : nat)
  | OpRefresh (now : Z) (p : nat)
  | OpReset (now : Z) (p : nat) (ms : Z) (from_now : bool)
  | OpNext (now : Z)
  | OpCheck
  | OpCollect (q : nat) (now : Z).

Definition exec (o : tm_op) : M TimerManager unit :=
  match o with
  | OpAdd p now ms cb recurring => _ ← addTimer p now ms cb recurring; mret tt
  | OpCancel p => _ ← cancel p; mret tt
  | OpRefresh now p => _ ← refresh now p; mret tt
  | OpReset now p ms from_now => _ ← reset now p ms from_now; mret tt
  | OpNext now => _ ← getNextTimer now; mret tt
  | OpCheck => _ ← listExpired_check; mret tt
  | OpCollect q now => _ ← listExpired_collect q now; mret tt
  end.

(** [new] returns an address that is not in use, and the caller of a member
    function of [Timer] holds a reference to it. *)
Definition enabled (o : tm_op) (s : TimerManager) : Prop :=
  match o with
  | OpAdd p _ ms _ _ => tm_heap s !! p = None ∧ in_u64 ms
  | OpCancel p | OpRefresh _ p => is_Some (tm_heap s !! p)
  | OpReset _ p ms _ => is_Some (tm_heap s !! p) ∧ in_u64 ms
  | OpNext _ | OpCheck => True
  | OpCollect q _ => tm_heap s !! q = None
  end.

(** The timers whose callbacks the operation hands out. *)
Definition fires (o : tm_op) (s : TimerManager) : list nat :=
  match o with OpCollect _ now => expired_at now s | _ => [] end.

Inductive tm_steps : TimerManager → list nat → TimerManager → Prop :=
  | tm_steps_refl s : tm_steps s [] s
  | tm_steps_step s o s' fs s'' :
      enabled o s → exec o s = Ret tt s' → tm_steps s' fs s'' →
      tm_steps s (fires o s ++ fs) s''.

(** How one critical section may change the timers that exist. *)
Definition evolves (f : list nat) (s s' : TimerManager) : Prop :=
  wf s' ∧ ∀ p t, tm_heap s !! p = Some t → ∃ t', tm_heap s' !! p = Some t' ∧
    t_recurring t' = t_recurring t ∧ (t_cb t = None → t_cb t' = None) ∧
    (p ∈ m_timers s' → p ∈ m_timers s) ∧
    (p ∈ f → p ∈ m_timers s ∧
       (t_recurring t = false → t_cb t' = None ∧ p ∉ m_timers s')).

(** A timer that is out of the queue with no callback stays so. *)
Definition retired (p : nat) (s : TimerManager) : Prop :=
  p ∉ m_timers s ∧ ∃ t, tm_heap s !! p = Some t ∧ t_cb t = None.

(** A queue with a one-shot timer due at 100, a recurring one due at 150 and a
    one-shot one due at 300; the clock was last read at 90. *)
Definition example_queue : TimerManager :=
  MkTimerManager
    (<[1 := MkTimer false 10 100 (Some (Fun 7))]>
      (<[2 := MkTimer true 50 150 (Some (Fun 8))]>
        (<[3 := MkTimer false 200 300 (Some (Fun 9))]> ∅)))
    [1; 2; 3] false 90.

Definition example_single : TimerManager :=
  MkTimerManager (<[1 := MkTimer false 10 100 (Some (Fun 7))]> ∅) [1] false 90.

(** * Lemmas on the comparator *)

(** [Comparator] is the lexicographic order on deadline and address. *)
Lemma before_spec h p q :
  before h p q = true ↔
  (next_of h p < next_of h q)%Z ∨ (next_of h p = next_of h q ∧ p < q).
Proof.
  unfold before, Comparator. rw -Nat.ltb_lt.
  repeat case_match; intuition (try done; lia).
Qed.

#[export] Instance before_strict h : StrictTotal (before h).
Proof.
  split.
  - intros x. apply not_true_iff_false. rw before_spec. lia.
  - intros x y z. rw !before_spec. lia.
  - intros x y. rw -!not_true_iff_false !before_spec. lia.
Qed.

Lemma before_next h p q : before h p q = true → (next_of h p <= next_of h q)%Z.
Proof. rw before_spec. lia. Qed.

Lemma before_lt h p q : (next_of h p < next_of h q)%Z → before h p q = true.
Proof. rw before_spec. lia. Qed.

Lemma next_of_insert_ne h p q t : p ≠ q → next_of (<[p := t]> h) q = next_of h q.
Proof. intros. unfold next_of. by rw lookup_insert_ne. Qed.

Lemma next_of_insert h p t : next_of (<[p := t]> h) p = t_next t.
Proof. unfold next_of. by rw lookup_insert_eq. Qed.

Lemma next_of_same h p t t' q :
  h !! p = Some t → t_next t' = t_next t → next_of (<[p := t']> h) q = next_of h q.
Proof.
  intros Hp Ht. destruct (decide (p = q)) as [->|?].
  - rw next_of_insert Ht. unfold next_of. by rw Hp.
  - by apply next_of_insert_ne.
Qed.

Lemma before_ext h1 h2 p q :
  next_of h1 p = next_of h2 p → next_of h1 q = next_of h2 q →
  before h1 p q = before h2 p q.
Proof. unfold before, Comparator. by intros -> ->. Qed.

(** Rewriting a timer that is not queued keeps the queue sorted. *)
Lemma sorted_update h p t l :
  p ∉ l → set_sorted (before h) l → set_sorted (before (<[p := t]> h)) l.
Proof.
  intros Hp. apply set_sorted_ext. intros x y Hx Hy.
  apply before_ext; by rw next_of_insert_ne; [set_solver|].
Qed.

(** Rewriting a timer without changing [m_next] keeps the queue sorted. *)
Lemma sorted_same_next h p t t' l :
  h !! p = Some t → t_next t' = t_next t →
  set_sorted (before h) l → set_sorted (before (<[p := t']> h)) l.
Proof.
  intros Hp Ht. apply set_sorted_ext. intros x y _ _.
  by apply before_ext; erewrite next_of_same.
Qed.

(** * The invariant and the primitive updates *)

Lemma wf_queued X s i p :
  wf_except X s → m_timers s !! i = Some p → p ∉ X.
Proof.
  intros Hwf Hi HX. apply (wf_apart _ _ Hwf _ HX). by eapply list_elem_of_lookup_2.
Qed.

Lemma wf_dequeue X s i p :
  wf_except X s → m_timers s !! i = Some p →
  wf_except (p :: X) (set_timers (delete i (m_timers s)) s).
Proof.
  intros Hwf Hi. pose proof (wf_sorted _ _ Hwf) as Hs.
  assert (∀ q, q ∈ delete i (m_timers s) ↔ q ∈ m_timers s ∧ q ≠ p) as Hd.
  { intros q. apply elem_of_delete; [by eapply sorted_NoDup|done]. }
  pose proof (list_elem_of_lookup_2 _ _ _ Hi) as Hp.
  split; simpl; intros *.
  - by apply set_sorted_delete.
  - rw Hd elem_of_cons. intros [[? _]|[->|?]]; apply (wf_live _ _ Hwf); auto.
  - rw Hd elem_of_cons. intros Ht Hc.
    destruct (wf_armed _ _ Hwf _ _ _ Ht Hc); destruct (decide (p0 = p)); auto.
  - rw Hd elem_of_cons. intros [->|HX]; [naive_solver|].
    intros [? _]. by apply (wf_apart _ _ Hwf _ HX).
  - apply (wf_range _ _ Hwf).
Qed.

Lemma wf_retire X s p t :
  wf_except (p :: X) s → p ∉ X → t_cb t = None → wf_timer t →
  wf_except X (set_heap (<[p := t]> (tm_heap s)) s).
Proof.
  intros Hwf HpX Hcb Ht.
  assert (p ∉ m_timers s) as Hp by (apply (wf_apart _ _ Hwf); left).
  split; simpl; intros *.
  - apply sorted_update; [done|apply (wf_sorted _ _ Hwf)].
  - intros Hq. apply lookup_insert_is_Some'. right. apply (wf_live _ _ Hwf).
    rw elem_of_cons. tauto.
  - intros Hq Hc. apply lookup_insert_Some in Hq as [[_ <-]|[Hne Hq]]; [congruence|].
    destruct (wf_armed _ _ Hwf _ _ _ Hq Hc) as [?|[?|?]%elem_of_cons];
      [auto|congruence|auto].
  - intros HX. apply (wf_apart _ _ Hwf). by right.
  - intros [[_ <-]|[_ Hq]]%lookup_insert_Some; [done|by apply (wf_range _ _ Hwf) in Hq].
Qed.

(** [insert] of a timer that was taken out, after rewriting it. *)
Lemma wf_requeue X s p t l :
  wf_except (p :: X) s → p ∉ X → wf_timer t →
  l ≡ₚ p :: m_timers s → set_sorted (before (<[p := t]> (tm_heap s))) l →
  wf_except X (set_timers l (set_heap (<[p := t]> (tm_heap s)) s)).
Proof.
  intros Hwf HpX Ht Hl Hsorted.
  split; simpl; intros *.
  - done.
  - rw Hl elem_of_cons. intros Hq. apply lookup_insert_is_Some'.
    destruct (decide (p = p0)); [by left|right]. apply (wf_live _ _ Hwf).
    rw elem_of_cons. naive_solver.
  - rw Hl elem_of_cons. intros [[-> _]|[Hne Hq]]%lookup_insert_Some Hc; [auto|].
    destruct (wf_armed _ _ Hwf _ _ _ Hq Hc) as [?|[?|?]%elem_of_cons]; auto.
  - rw Hl elem_of_cons. intros HX [->|Hq]; [done|].
    apply (wf_apart _ _ Hwf p0); [by right|done].
  - intros [[_ <-]|[_ Hq]]%lookup_insert_Some; [done|by apply (wf_range _ _ Hwf) in Hq].
Qed.

Lemma wf_fresh s p t :
  wf s → tm_heap s !! p = None → wf_timer t →
  wf_except [p] (set_heap (<[p := t]> (tm_heap s)) s).
Proof.
  intros Hwf Hp Ht.
  assert (p ∉ m_timers s) as Hn.
  { intros Hin. destruct (wf_live _ _ Hwf p) as [? ?]; [auto|congruence]. }
  split; simpl; intros *.
  - apply sorted_update; [done|apply (wf_sorted _ _ Hwf)].
  - intros [Hq| ->%list_elem_of_singleton]; apply lookup_insert_is_Some'; [right|by left].
    apply (wf_live _ _ Hwf). auto.
  - intros [[-> _]|[Hne Hq]]%lookup_insert_Some Hc; [right; left|].
    destruct (wf_armed _ _ Hwf _ _ _ Hq Hc) as [?|Hf]; [auto|by inversion Hf].
  - by intros ->%list_elem_of_singleton.
  - intros [[_ <-]|[_ Hq]]%lookup_insert_Some; [done|by apply (wf_range _ _ Hwf) in Hq].
Qed.

Lemma wf_tickled X b s : wf_except X s → wf_except X (set_tickled b s).
Proof. intros []. by split. Qed.

Lemma wf_previousTime X t s : wf_except X s → wf_except X (set_previousTime t s).
Proof. intros []. by split. Qed.

Lemma wf_same_next s p t t' :
  wf s → tm_heap s !! p = Some t → t_next t' = t_next t → wf_timer t' →
  (t_cb t' = None ∨ t_cb t' = t_cb t) →
  wf (set_heap (<[p := t']> (tm_heap s)) s).
Proof.
  intros Hwf Hp Hn Ht' Hcb. split; simpl; intros *.
  - eapply sorted_same_next; [done|done|apply (wf_sorted _ _ Hwf)].
  - intros Hq. apply lookup_insert_is_Some'. right. by apply (wf_live _ _ Hwf).
  - intros [[-> <-]|[Hne Hq]]%lookup_insert_Some Hc; [|by eapply (wf_armed _ _ Hwf)].
    destruct Hcb as [Hcb|Hcb]; [congruence|].
    eapply (wf_armed _ _ Hwf); [done|]. by rw -Hcb.
  - intros HX. by inversion HX.
  - intros [[_ <-]|[_ Hq]]%lookup_insert_Some; [done|by apply (wf_range _ _ Hwf) in Hq].
Qed.

Lemma wf_forget X s p t :
  wf_except (p :: X) s → tm_heap s !! p = Some t → t_cb t = None → wf_except X s.
Proof.
  intros Hwf Hp Hcb. split; intros *.
  - apply (wf_sorted _ _ Hwf).
  - intros Hq. apply (wf_live _ _ Hwf). rw elem_of_cons. tauto.
  - intros Hq Hc. destruct (wf_armed _ _ Hwf _ _ _ Hq Hc) as [?|[->|?]%elem_of_cons];
      [auto|congruence|auto].
  - intros HX. apply (wf_apart _ _ Hwf). by right.
  - apply (wf_range _ _ Hwf).
Qed.

(** * Specifications of the operations *)

Lemma find_timer_in X s p :
  wf_except X s → p ∈ m_timers s →
  ∃ i, find_timer p s = Ret (Some i) s ∧ m_timers s !! i = Some p.
Proof.
  intros Hwf Hp.
  destruct (set_find_in p (m_timers s) (wf_sorted _ _ Hwf) Hp) as (i & Hf & Hi).
  exists i. split; [|done]. unfold find_timer, mgets. by rw Hf.
Qed.

Lemma deref_ok s p t : tm_heap s !! p = Some t → deref p s = Ret t s.
Proof. unfold deref. by intros ->. Qed.

(** Taking [p] out, rewriting it and putting it back. *)
Lemma insert_timer_ok X s p t :
  wf_except (p :: X) s → p ∉ X → wf_timer t →
  ∃ l i, insert_timer p (set_heap (<[p := t]> (tm_heap s)) s)
           = Ret i (set_timers l (set_heap (<[p := t]> (tm_heap s)) s)) ∧
    l ≡ₚ p :: m_timers s ∧
    wf_except X (set_timers l (set_heap (<[p := t]> (tm_heap s)) s)) ∧
    (i = 0 ↔ Forall (λ q, before (<[p := t]> (tm_heap s)) p q = true) (m_timers s)).
Proof.
  intros Hwf HpX Ht.
  assert (p ∉ m_timers s) as Hp by (apply (wf_apart _ _ Hwf); left).
  pose proof (sorted_update _ p t _ Hp (wf_sorted _ _ Hwf)) as Hs.
  exists (set_insert (before (<[p := t]> (tm_heap s))) p (m_timers s)).1,
         (set_insert (before (<[p := t]> (tm_heap s))) p (m_timers s)).2.
  split_and!.
  - unfold insert_timer; simpl. by destruct (set_insert _ _ _).
  - by apply set_insert_perm.
  - apply wf_requeue; [done..| |]; [by apply set_insert_perm|by apply set_insert_sorted].
  - by apply set_insert_front.
Qed.

Lemma elem_of_dequeued s i p q :
  wf s → m_timers s !! i = Some p →
  q ∈ delete i (m_timers s) ↔ q ∈ m_timers s ∧ q ≠ p.
Proof.
  intros Hwf Hi. apply elem_of_delete; [|done].
  eapply sorted_NoDup, (wf_sorted _ _ Hwf).
Qed.

Lemma armed_queued s p t c :
  wf s → tm_heap s !! p = Some t → t_cb t = Some c → p ∈ m_timers s.
Proof.
  intros Hwf Hp Hc.
  destruct (wf_armed _ _ Hwf _ _ _ Hp Hc) as [?|Hf]; [done|by inversion Hf].
Qed.

Lemma cancel_armed s p t c :
  wf s → tm_heap s !! p = Some t → t_cb t = Some c →
  returns (cancel p) s (λ r s', r = true ∧ wf s' ∧
    tm_heap s' = <[p := with_cb None t]> (tm_heap s) ∧
    ∀ q, q ∈ m_timers s' ↔ q ∈ m_timers s ∧ q ≠ p).
Proof.
  intros Hwf Hp Hc. unfold cancel. mstep_by deref_ok. rw Hc.
  set (s1 := set_heap (<[p := with_cb None t]> (tm_heap s)) s).
  assert (wf s1) as Hwf1.
  { apply (wf_same_next s p t); [done..|apply (wf_range _ _ Hwf _ _ Hp)|by left]. }
  destruct (find_timer_in _ _ _ Hwf1 (armed_queued _ _ _ _ Hwf Hp Hc)) as (i & Hf & Hi).
  mstep. mstep_by Hf. mstep. cbn.
  split_and!; [done| |done|].
  - apply (wf_forget [] _ p (with_cb None t)); [|apply lookup_insert_eq|done].
    by apply (wf_dequeue [] s1).
  - intros q. by apply (elem_of_dequeued s1).
Qed.

Lemma refresh_armed now s p t c :
  wf s → tm_heap s !! p = Some t → t_cb t = Some c →
  returns (refresh now p) s (λ r s', r = true ∧ wf s' ∧
    tm_heap s' = <[p := with_next (u64 (now + t_ms t)) t]> (tm_heap s) ∧
    m_timers s' ≡ₚ m_timers s).
Proof.
  intros Hwf Hp Hc. unfold refresh. mstep_by deref_ok. rw Hc.
  destruct (find_timer_in _ _ _ Hwf (armed_queued _ _ _ _ Hwf Hp Hc)) as (i & Hf & Hi).
  destruct (insert_timer_ok [] (set_timers (delete i (m_timers s)) s) p
              (with_next (u64 (now + t_ms t)) t)) as (l & j & Hins & Hl & Hwf' & _).
  { by apply wf_dequeue. }
  { by inversion 1. }
  { split; [apply (wf_range _ _ Hwf _ _ Hp)|apply u64_range]. }
  mstep_by Hf. mstep. mstep. mstep_by Hins. cbn.
  split_and!; [done|done|done|]. rw Hl. simpl. symmetry. by apply delete_Permutation.
Qed.

Lemma addTimer_locked_ok s p t :
  wf_except [p] s → wf_timer t →
  let s1 := set_heap (<[p := t]> (tm_heap s)) s in
  let front := bool_decide (Forall (λ q, before (tm_heap s1) p q = true) (m_timers s))
               && negb (m_tickled s) in
  returns (addTimer_locked p) s1 (λ r s', r = front ∧ wf s' ∧
    tm_heap s' = tm_heap s1 ∧ m_timers s' ≡ₚ p :: m_timers s ∧
    m_tickled s' = m_tickled s || front ∧ m_previousTime s' = m_previousTime s).
Proof.
  intros Hwf Ht s1 front.
  destruct (insert_timer_ok [] s p t) as (l & j & Hins & Hl & Hwf' & Hj);
    [done|by inversion 1|done|].
  assert (bool_decide (j = 0) && negb (m_tickled s) = front) as Hfront.
  { unfold front. by rw (bool_decide_ext _ _ Hj). }
  unfold addTimer_locked. mstep_by Hins. mstep. cbn. rw Hfront.
  destruct front; cbn; split_and!; try done.
  - by apply wf_tickled.
  - by rw orb_true_r.
  - by rw orb_false_r.
Qed.

Lemma addTimer_spec s p now ms cb rec :
  wf s → tm_heap s !! p = None → in_u64 ms →
  let t := Timer_new now ms cb rec in
  returns (addTimer p now ms cb rec) s (λ front s', wf s' ∧
    tm_heap s' = <[p := t]> (tm_heap s) ∧ m_timers s' ≡ₚ p :: m_timers s ∧
    front = bool_decide (Forall (λ q, before (tm_heap s') p q = true) (m_timers s))
            && negb (m_tickled s) ∧
    m_tickled s' = m_tickled s || front ∧ m_previousTime s' = m_previousTime s).
Proof.
  intros Hwf Hp Hms t. unfold addTimer. mstep.
  set (s0 := set_heap (<[p := t]> (tm_heap s)) s).
  assert (wf_timer t) as Ht by (split; [done|apply u64_range]).
  assert (set_heap (<[p := t]> (tm_heap s0)) s0 = s0) as Hs0.
  { unfold s0, set_heap. cbn. by rw insert_insert_eq. }
  pose proof (addTimer_locked_ok s0 p t (wf_fresh s p t Hwf Hp Ht) Ht) as H.
  cbv zeta in H. rw Hs0 in H. eapply returns_mono; [exact H|].
  intros r s' (-> & Hwf' & Hh & Hl & Htk & Hpt). rw Hh. split_and!; done.
Qed.

Lemma reset_armed now s p t c ms from_now :
  wf s → tm_heap s !! p = Some t → t_cb t = Some c → in_u64 ms →
  bool_decide (ms = t_ms t) && negb from_now = false →
  returns (reset now p ms from_now) s (λ r s', r.1 = true ∧ wf s' ∧
    tm_heap s' = <[p := reset_timer now ms from_now t]> (tm_heap s) ∧
    m_timers s' ≡ₚ m_timers s).
Proof.
  intros Hwf Hp Hc Hms Hb. unfold reset. mstep_by deref_ok. rw Hb Hc.
  destruct (find_timer_in _ _ _ Hwf (armed_queued _ _ _ _ Hwf Hp Hc)) as (i & Hf & Hi).
  mstep_by Hf. mstep. mstep. fold (reset_timer now ms from_now t).
  set (s1 := set_timers (delete i (m_timers s)) s).
  assert (wf_timer (reset_timer now ms from_now t)) as Ht by (split; [done|apply u64_range]).
  pose proof (addTimer_locked_ok s1 p _ (wf_dequeue [] s i p Hwf Hi) Ht) as H.
  cbv zeta in H. apply bind_returns. eapply returns_mono; [exact H|].
  intros r s' (_ & Hwf' & Hh & Hl & _). cbn. split_and!; [done|done|done|].
  rw Hl. simpl. symmetry. by apply delete_Permutation.
Qed.

(** ** [listExpiredCb] *)

Lemma fired_wf now t : wf_timer t → wf_timer (fired now t).
Proof.
  intros [Hm Hn]. unfold fired. destruct (t_recurring t); split; cbn; try done.
  apply u64_range.
Qed.

Lemma fire_ok now s p X t :
  wf_except (p :: X) s → p ∉ X → tm_heap s !! p = Some t →
  returns (fire now p) s (λ c s', c = t_cb t ∧ wf_except X s' ∧
    tm_heap s' = <[p := fired now t]> (tm_heap s) ∧
    (m_timers s' ≡ₚ if t_recurring t then p :: m_timers s else m_timers s) ∧
    m_tickled s' = m_tickled s ∧ m_previousTime s' = m_previousTime s).
Proof.
  intros Hwf HX Hp. pose proof (fired_wf now t (wf_range _ _ Hwf _ _ Hp)) as Hft.
  unfold fire. mstep_by deref_ok. unfold fired in *.
  destruct (t_recurring t) eqn:Hr.
  - destruct (insert_timer_ok X s p _ Hwf HX Hft) as (l & j & Hins & Hl & Hwf' & _).
    apply bind_returns. mstep. mstep_by Hins. cbn. split_and!; done.
  - apply bind_returns. cbn. split_and!; try done. by apply wf_retire.
Qed.

Lemma fire_all_ok now E : ∀ s,
  wf_except E s → NoDup E →
  returns (fire_all now E) s (λ cbs s',
    cbs = map (λ p, tm_heap s !! p ≫= t_cb) E ∧ wf s' ∧
    (∀ q, tm_heap s' !! q = if decide (q ∈ E) then fired now <$> tm_heap s !! q
                            else tm_heap s !! q) ∧
    (∀ q, q ∈ m_timers s' ↔ q ∈ m_timers s ∨ q ∈ E ∧ is_recurring (tm_heap s) q) ∧
    m_tickled s' = m_tickled s ∧ m_previousTime s' = m_previousTime s).
Proof.
  induction E as [|p E IH]; intros s Hwf HE; cbn [fire_all].
  { cbn. split_and!; try done; set_solver. }
  apply NoDup_cons in HE as [HpE HE].
  destruct (wf_live _ _ Hwf p) as [t Hp]; [right; left|].
  apply bind_returns. eapply returns_mono; [by apply (fire_ok now s p E t)|].
  intros c s1 (-> & Hwf1 & Hh1 & Hl1 & Htk1 & Hpt1). cbn beta.
  assert (∀ q, q ≠ p → tm_heap s1 !! q = tm_heap s !! q) as Hne.
  { intros q Hq. by rw Hh1 lookup_insert_ne. }
  apply bind_returns. eapply returns_mono; [by apply (IH s1)|].
  intros cbs s2 (-> & Hwf2 & Hh2 & Hl2 & Htk2 & Hpt2). cbn.
  split_and!; [|done| | |congruence|congruence].
  - rw Hp /=. f_equal. apply map_ext_in. intros q Hq%list_elem_of_In.
    by rw Hne; [set_solver|].
  - intros q. rw Hh2. destruct (decide (q = p)) as [->|Hq].
    + rw decide_False; [done|]. rw decide_True; [by left|].
      by rw Hh1 lookup_insert_eq Hp.
    + rw Hne; [done|]. apply decide_ext. rw elem_of_cons. tauto.
  - intros q. rw Hl2. destruct (decide (q = p)) as [->|Hq].
    + assert (is_recurring (tm_heap s) p ↔ t_recurring t = true) as ->.
      { unfold is_recurring. rw Hp. naive_solver. }
      rw Hl1. clear -HpE. destruct (t_recurring t); rw !elem_of_cons;
        naive_solver.
    + unfold is_recurring. rw (Hne q Hq). rw elem_of_cons.
      assert (q ∈ m_timers s1 ↔ q ∈ m_timers s) as ->; [|tauto].
      rw Hl1. clear -Hq. destruct (t_recurring t); rw ?elem_of_cons; intuition.
Qed.

Lemma skip_now_eq h now l :
  Forall (λ p, next_of h p = now) (take (skip_now h now l) l).
Proof.
  induction l as [|p l IH]; simpl; [constructor|].
  destruct (next_of h p =? now)%Z eqn:Hp; constructor; [lia|done].
Qed.

Lemma skip_now_rest h now l :
  set_sorted (before h) l → Forall (λ p, (now <= next_of h p)%Z) l →
  Forall (λ p, (now < next_of h p)%Z) (drop (skip_now h now l) l).
Proof.
  induction 1 as [|p l Hl IH Hp]; intros Hge; simpl; [constructor|].
  apply Forall_cons in Hge as [Hpn Hge].
  destruct (next_of h p =? now)%Z eqn:He; [by apply IH|]. constructor; [lia|].
  eapply Forall_impl; [exact Hp|]. intros q Hq%before_next. lia.
Qed.

(** The prefix the code cuts off is the set of due timers, whatever the address
    of the temporary timer it searches with. *)
Lemma expired_end_due q now s :
  wf s → tm_heap s !! q = None →
  take (expired_end q now false s) (m_timers s)
    = filter (due (tm_heap s) now) (m_timers s) ∧
  Forall (λ p, ¬ due (tm_heap s) now p) (drop (expired_end q now false s) (m_timers s)).
Proof.
  intros Hwf Hq. unfold expired_end.
  set (h := <[q := Timer_at now]> (tm_heap s)). set (l := m_timers s).
  assert (q ∉ l) as Hql.
  { intros Hin. destruct (wf_live _ _ Hwf q) as [? ?]; [auto|congruence]. }
  assert (set_sorted (before h) l) as Hl by (apply sorted_update; [done|apply (wf_sorted _ _ Hwf)]).
  assert (∀ p, p ∈ l → next_of h p = next_of (tm_heap s) p) as Hn.
  { intros p Hp. apply next_of_insert_ne. by intros ->. }
  assert (next_of h q = now) as Hqn by apply next_of_insert.
  set (it := lower_bound (before h) q l).
  pose proof (lower_bound_before (lt:=before h) q l) as Hb.
  pose proof (lower_bound_after (lt:=before h) q l Hl) as Ha. fold it in Hb, Ha.
  assert (set_sorted (before h) (drop it l)) as Hld.
  { rw -(take_drop it l) in Hl. by apply StronglySorted_app in Hl as (_ & _ & ?). }
  assert (Forall (λ p, (now <= next_of h p)%Z) (drop it l)) as Hge.
  { eapply Forall_impl; [exact Ha|]. intros p Hp.
    destruct (decide (next_of h p < now)%Z) as [Hlt|]; [|lia].
    rw -Hqn in Hlt. apply before_lt in Hlt. congruence. }
  set (k := skip_now h now (drop it l)).
  assert (take (it + k) l = take it l ++ take k (drop it l)) as Htk by (symmetry; apply take_take_drop).
  assert (Forall (due (tm_heap s) now) (take (it + k) l)) as H1.
  { rw Forall_forall. intros p Hp. unfold due. rw -Hn; [by eapply subseteq_take|].
    rw Htk in Hp. apply elem_of_app in Hp as [Hp|Hp].
    - rw Forall_forall in Hb. specialize (Hb p Hp). apply before_next in Hb. lia.
    - pose proof (skip_now_eq h now (drop it l)) as He. rw Forall_forall in He.
      rw (He p Hp). lia. }
  assert (Forall (λ p, ¬ due (tm_heap s) now p) (drop (it + k) l)) as H2.
  { rw Forall_forall. intros p Hp. unfold due. rw -Hn; [by eapply subseteq_drop|].
    pose proof (skip_now_rest h now _ Hld Hge) as Hr. rw Forall_forall in Hr.
    rw -drop_drop in Hp. specialize (Hr p Hp). cbn in Hr. lia. }
  split; [symmetry; by apply filter_split|done].
Qed.

Lemma wf_cut X s n :
  wf_except X s → X = [] →
  wf_except (take n (m_timers s)) (set_timers (drop n (m_timers s)) s).
Proof.
  intros Hwf ->. pose proof (sorted_NoDup _ (wf_sorted _ _ Hwf)) as Hnd.
  pose proof (wf_sorted _ _ Hwf) as Hs.
  rw -(take_drop n (m_timers s)) in Hnd Hs.
  apply NoDup_app in Hnd as (_ & Hdis & _).
  apply StronglySorted_app in Hs as (_ & _ & Hs).
  assert (∀ p, p ∈ m_timers s ↔ p ∈ drop n (m_timers s) ∨ p ∈ take n (m_timers s)) as Hin.
  { intros p. rw -{1}(take_drop n (m_timers s)) elem_of_app. tauto. }
  split; simpl; intros *.
  - done.
  - rw -Hin. intros Hp. apply (wf_live _ _ Hwf). auto.
  - intros Hp Hc. rw -Hin. by eapply armed_queued.
  - apply Hdis.
  - apply (wf_range _ _ Hwf).
Qed.

Lemma due_head h now l p :
  set_sorted (before h) (p :: l) → (now < next_of h p)%Z → filter (due h now) (p :: l) = [].
Proof.
  intros [Hp _]%StronglySorted_cons Hn.
  apply (filter_split (due h now) (p :: l) 0); simpl; [constructor|].
  constructor; [unfold due; lia|]. eapply Forall_impl; [exact Hp|].
  intros q Hq%before_next. unfold due. lia.
Qed.

(** What [listExpiredCb] does under the write lock. *)
Lemma collect_ok q now s :
  wf s → tm_heap s !! q = None →
  (m_timers s ≠ [] ∨ rolled_over (m_previousTime s) now = true) →
  returns (listExpired_collect q now) s (λ cbs s',
    let E := expired_at now s in
    cbs = map (λ p, tm_heap s !! p ≫= t_cb) E ∧ wf s' ∧
    refired now E (tm_heap s) (tm_heap s') ∧
    (∀ p, p ∈ m_timers s' ↔
       p ∈ m_timers s ∧ (p ∉ E ∨ is_recurring (tm_heap s) p)) ∧
    m_previousTime s' = now).
Proof.
  intros Hwf Hq Hne.
  pose proof (sorted_NoDup _ (wf_sorted _ _ Hwf)) as Hnd.
  unfold listExpired_collect, detectClockRollover. mstep. mstep. cbn.
  unfold expired_at. set (ro := rolled_over (m_previousTime s) now) in *.
  set (s1 := set_previousTime now s).
  assert (wf s1) as Hwf1 by by apply wf_previousTime.
  assert (∀ n E, take n (m_timers s) = E →
    returns (mmodify (set_timers (drop n (m_timers s))) ;;
             fire_all now (take n (m_timers s))) s1 (λ cbs s',
      cbs = map (λ p, tm_heap s !! p ≫= t_cb) E ∧ wf s' ∧
      refired now E (tm_heap s) (tm_heap s') ∧
      (∀ p, p ∈ m_timers s' ↔
         p ∈ m_timers s ∧ (p ∉ E ∨ is_recurring (tm_heap s) p)) ∧
      m_previousTime s' = now)) as Hcut.
  { intros n E <-. mstep.
    eapply returns_mono; [apply fire_all_ok|].
    - by apply (wf_cut [] s1 n).
    - eapply sublist_NoDup; [exact Hnd|apply sublist_take].
    - intros cbs s' (-> & Hwf' & Hh & Hl & _ & Hpt). split_and!; try done.
      intros p. rw Hl. cbn.
      rw -{1}(take_drop n (m_timers s)) in Hnd. apply NoDup_app in Hnd as (_ & Hdis & _).
      specialize (Hdis p). rw -{3}(take_drop n (m_timers s)) elem_of_app. tauto. }
  destruct ro eqn:Hro.
  - apply Hcut. unfold expired_end. cbn. by rw firstn_all.
  - destruct Hne as [Hne|?]; [|done].
    destruct (m_timers s) as [|p l] eqn:Hl; [done|].
    destruct (now <? next_of (tm_heap s) p)%Z eqn:Hp.
    + assert (filter (due (tm_heap s) now) (p :: l) = []) as ->.
      { apply due_head; [rw -Hl; apply (wf_sorted _ _ Hwf)|lia]. }
      cbn. rw Hl. split_and!; try done. set_solver.
    + rw -Hl. rw -Hl in Hcut. apply Hcut.
      destruct (expired_end_due q now s1 Hwf1 Hq) as [He _]. exact He.
Qed.

(** * How the operations change existing timers *)

Lemma evolves_same s : wf s → evolves [] s s.
Proof. intros Hwf. split; [done|]. intros p t Hp. exists t. set_solver. Qed.

(** An operation on one timer that keeps the flag and does not arm it. *)
Lemma evolves_update s s' p t t' :
  wf s' → tm_heap s !! p = Some t → tm_heap s' = <[p := t']> (tm_heap s) →
  t_recurring t' = t_recurring t → (t_cb t = None → t_cb t' = None) →
  (∀ q, q ∈ m_timers s' → q ∈ m_timers s) →
  evolves [] s s'.
Proof.
  intros Hwf Hp Hh Hr Hc Hq. split; [done|]. intros q u Hu. rw Hh.
  destruct (decide (p = q)) as [<-|Hne].
  - exists t'. rw lookup_insert_eq. simplify_eq. set_solver.
  - exists u. rw lookup_insert_ne; [done|]. split_and!; try done; set_solver.
Qed.

Lemma exec_bind {A} (m : M TimerManager A) s Q :
  returns m s (λ _ s', Q s') → returns (_ ← m; mret tt) s (λ _ s', Q s').
Proof. intros H. by apply bind_returns. Qed.

Lemma add_evolves p now ms cb rec s :
  wf s → tm_heap s !! p = None → in_u64 ms →
  returns (addTimer p now ms cb rec) s (λ _ s', evolves [] s s').
Proof.
  intros Hwf Hp Hms. eapply returns_mono; [by apply (addTimer_spec s p now ms cb rec)|].
  intros front s' (Hwf' & Hh & Hl & _). split; [done|]. intros q u Hq.
  assert (q ≠ p) by congruence. exists u. rw Hh lookup_insert_ne; [done|].
  rw Hl. set_solver.
Qed.

Lemma cancel_evolves p s t :
  wf s → tm_heap s !! p = Some t → returns (cancel p) s (λ _ s', evolves [] s s').
Proof.
  intros Hwf Hp. destruct (t_cb t) as [c|] eqn:Hc.
  - eapply returns_mono; [by eapply cancel_armed|].
    intros r s' (_ & Hwf' & Hh & Hl). eapply evolves_update; try done. naive_solver.
  - unfold cancel. mstep_by deref_ok. rw Hc. by apply evolves_same.
Qed.

Lemma refresh_evolves now p s t :
  wf s → tm_heap s !! p = Some t → returns (refresh now p) s (λ _ s', evolves [] s s').
Proof.
  intros Hwf Hp. destruct (t_cb t) as [c|] eqn:Hc.
  - eapply returns_mono; [by eapply refresh_armed|].
    intros r s' (_ & Hwf' & Hh & Hl). eapply evolves_update; try done.
    intros q. by rw Hl.
  - unfold refresh. mstep_by deref_ok. rw Hc. by apply evolves_same.
Qed.

Lemma reset_evolves now p ms fn s t :
  wf s → tm_heap s !! p = Some t → in_u64 ms →
  returns (reset now p ms fn) s (λ _ s', evolves [] s s').
Proof.
  intros Hwf Hp Hms. destruct (bool_decide (ms = t_ms t) && negb fn) eqn:Hb.
  { unfold reset. mstep_by deref_ok. rw Hb. by apply evolves_same. }
  destruct (t_cb t) as [c|] eqn:Hc.
  - eapply returns_mono; [by eapply reset_armed|].
    intros r s' (_ & Hwf' & Hh & Hl). eapply evolves_update; try done.
    intros q. by rw Hl.
  - unfold reset. mstep_by deref_ok. rw Hb Hc. by apply evolves_same.
Qed.

Lemma next_evolves now s :
  wf s → returns (getNextTimer now) s (λ _ s', evolves [] s s').
Proof.
  intros Hwf. unfold getNextTimer. mstep. mstep.
  assert (evolves [] s (set_tickled false s)).
  { split; [by apply wf_tickled|]. intros p t Hp. exists t. set_solver. }
  cbn. repeat case_match; done.
Qed.

(** [getNextTimer] returns [~0ull] only when nothing is queued. *)
Lemma getNextTimer_max now s :
  wf s → (0 < now < 2 ^ 64)%Z →
  returns (getNextTimer now) s (λ r s', wf s' ∧ (r = u64_max ↔ m_timers s = [])).
Proof.
  intros Hwf Hnow. unfold getNextTimer. mstep. mstep. cbn.
  destruct (m_timers s) as [|p l] eqn:Hl; [split; [by apply wf_tickled|done]|].
  destruct (wf_live _ _ Hwf p) as [t Ht]; [left; rw Hl; left|].
  destruct (wf_range _ _ Hwf _ _ Ht) as [_ Hr]. unfold in_u64 in Hr.
  assert (next_of (tm_heap s) p = t_next t) as Hn by (unfold next_of; by rw Ht).
  rw Hn. unfold u64_max.
  destruct (t_next t <=? now)%Z eqn:Hle; cbn; (split; [by apply wf_tickled|]);
    (split; [|done]); intros; lia.
Qed.

(** [listExpiredCb] returns and keeps the queue well-formed. *)
Lemma listExpiredCb_wf q now s :
  wf s → tm_heap s !! q = None → returns (listExpiredCb q now) s (λ _ s', wf s').
Proof.
  intros Hwf Hq. unfold listExpiredCb, listExpired_check. mstep.
  destruct (m_timers s) as [|p l] eqn:Hl; [done|].
  eapply returns_mono; [apply collect_ok; [done|done|left; by rw Hl]|].
  by intros cbs s' (_ & Hwf' & _).
Qed.

Lemma collect_empty q now s :
  m_timers s = [] → rolled_over (m_previousTime s) now = false →
  listExpired_collect q now s =
    Crash (Undefined "*m_timers.begin() of an empty set").
Proof.
  destruct s as [h l tk pt]. cbn. intros -> Hro.
  unfold listExpired_collect, detectClockRollover, mbind, M_bind. cbn. by rw Hro.
Qed.

Lemma collect_evolves q now s s' cbs :
  wf s → tm_heap s !! q = None → listExpired_collect q now s = Ret cbs s' →
  evolves (expired_at now s) s s'.
Proof.
  intros Hwf Hq Hrun.
  assert (m_timers s ≠ [] ∨ rolled_over (m_previousTime s) now = true) as Hne.
  { destruct (rolled_over (m_previousTime s) now) eqn:Hro; [by right|left].
    intros Hl. by rw (collect_empty q now s Hl Hro) in Hrun. }
  pose proof (returns_inv _ _ _ _ _ (collect_ok q now s Hwf Hq Hne) Hrun)
    as (_ & Hwf' & Hh & Hl & _).
  split; [done|]. intros p t Hp.
  destruct (decide (p ∈ expired_at now s)) as [HE|HE].
  - exists (fired now t). rw Hh decide_True; [done|]. rw Hp. split; [done|].
    assert (p ∈ m_timers s) as Hin.
    { revert HE. unfold expired_at. case_match; [done|]. by intros [_ ?]%list_elem_of_filter. }
    unfold fired. split_and!; [by destruct (t_recurring t) eqn:?..|done|].
    intros _. split; [done|]. intros Hr. rw Hr. split; [done|]. rw Hl.
    intros [_ [?|(u & Hu & Hur)]]; [done|congruence].
  - exists t. rw Hh decide_False; [done|]. rw Hl. naive_solver.
Qed.

Lemma exec_evolves o s s' :
  wf s → enabled o s → exec o s = Ret tt s' → evolves (fires o s) s s'.
Proof.
  intros Hwf Hen Hrun.
  destruct o; cbn [exec fires enabled] in *.
  7: { revert Hrun. unfold mbind, M_bind.
       destruct (listExpired_collect q now s) eqn:Hc; [|done..].
       intros [= <-]. by eapply collect_evolves. }
  all: refine (returns_inv _ s (λ _ s1, evolves [] s s1) tt s' _ Hrun);
    apply exec_bind.
  - destruct Hen. by apply add_evolves.
  - destruct Hen. by eapply cancel_evolves.
  - destruct Hen. by eapply refresh_evolves.
  - destruct Hen as [[??]?]. by eapply reset_evolves.
  - by apply next_evolves.
  - by apply evolves_same.
Qed.

Lemma steps_wf s fs s' : wf s → tm_steps s fs s' → wf s'.
Proof.
  intros Hwf Hst. induction Hst as [|s o s1 fs s2 Hen Hrun _ IH]; [done|].
  apply IH. by destruct (exec_evolves o s s1 Hwf Hen Hrun).
Qed.

Lemma retired_steps p s fs s' :
  wf s → retired p s → tm_steps s fs s' → p ∉ fs ∧ retired p s'.
Proof.
  intros Hwf Hret Hst. induction Hst as [|s o s1 fs s2 Hen Hrun _ IH]; [by split; [set_solver|]|].
  destruct (exec_evolves o s s1 Hwf Hen Hrun) as [Hwf1 Hev].
  destruct Hret as [Hq (t & Hp & Hc)].
  destruct (Hev p t Hp) as (t' & Hp' & _ & Hc' & Hq' & Hf).
  destruct IH as [Hfs Hret2]; [done|by split; [tauto|eauto]|].
  split; [|done]. rw elem_of_app. intros [Hin|Hin]; [|done]. by destruct (Hf Hin).
Qed.

(** * Properties *)

Lemma example_queue_wf : wf example_queue.
Proof.
  split; simpl.
  - apply (bool_decide_unpack _). by vm_compute.
  - intros p [Hp|Hp]; [|by inversion Hp].
    repeat (apply elem_of_cons in Hp as [->|Hp]; [by eexists|]). by inversion Hp.
  - intros p t c Hp _. left.
    repeat (apply lookup_insert_Some in Hp as [[<- _]|[_ Hp]]; [set_solver|]).
    by rw lookup_empty in Hp.
  - intros p Hp. by inversion Hp.
  - intros p t Hp.
    repeat (apply lookup_insert_Some in Hp as [[_ <-]|[_ Hp]]; [by split; split|]).
    by rw lookup_empty in Hp.
Qed.

Lemma expired_at_order now s :
  wf s → StronglySorted (λ p q, (next_of (tm_heap s) p <= next_of (tm_heap s) q)%Z)
           (expired_at now s).
Proof.
  intros Hwf.
  assert (StronglySorted (λ p q, (next_of (tm_heap s) p <= next_of (tm_heap s) q)%Z)
            (m_timers s)) as Hs.
  { pose proof (wf_sorted _ _ Hwf) as Hs. induction Hs as [|p l _ IH Hp]; constructor; [done|].
    eapply Forall_impl; [exact Hp|]. intros q. apply before_next. }
  unfold expired_at. destruct (rolled_over _ _); [done|].
  induction Hs as [|p l Hl IH Hp]; [constructor|].
  destruct (decide (due (tm_heap s) now p)).
  - rw filter_cons_True; [done|]. constructor; [done|].
    rw Forall_forall. rw Forall_forall in Hp.
    intros q [_ Hq]%list_elem_of_filter. by apply Hp.
  - by rw filter_cons_False.
Qed.

Lemma expired_at_spec now s p :
  p ∈ expired_at now s ↔
  p ∈ m_timers s ∧
    (rolled_over (m_previousTime s) now = true ∨ (next_of (tm_heap s) p <= now)%Z).
Proof.
  unfold expired_at. destruct (rolled_over _ _); [naive_solver|].
  rw list_elem_of_filter. unfold due. naive_solver.
Qed.

(** C5. [listExpiredCb] without interference always returns.  It hands out the
    callbacks of exactly the queued timers that are due (all of them after a
    clock rollover), in the order of their deadlines; it re-arms the recurring
    ones [m_ms] after [now], takes the others out of the queue with their
    callback cleared, leaves every other timer alone, and keeps the queue
    well-formed.  The address of its temporary timer does not matter. *)
Theorem listExpiredCb_fires_due q now s :
  wf s → tm_heap s !! q = None →
  let E := expired_at now s in
  returns (listExpiredCb q now) s (λ cbs s',
    cbs = map (λ p, tm_heap s !! p ≫= t_cb) E ∧
    (∀ p, p ∈ E ↔ p ∈ m_timers s ∧
       (rolled_over (m_previousTime s) now = true ∨ (next_of (tm_heap s) p <= now)%Z)) ∧
    StronglySorted (λ p q, (next_of (tm_heap s) p <= next_of (tm_heap s) q)%Z) E ∧
    refired now E (tm_heap s) (tm_heap s') ∧
    (∀ p, p ∈ m_timers s' ↔ p ∈ m_timers s ∧ (p ∉ E ∨ is_recurring (tm_heap s) p)) ∧
    wf s').
Proof.
  intros Hwf Hq E. pose proof (expired_at_order now s Hwf) as Ho.
  pose proof (expired_at_spec now s) as HE.
  unfold listExpiredCb, listExpired_check. mstep.
  destruct (m_timers s) as [|p0 l] eqn:Hl.
  - assert (E = []) as HE0.
    { unfold E, expired_at. rw Hl. by destruct (rolled_over _ _). }
    cbn. rw Hl. change (expired_at now s) with E in HE, Ho. rw HE0 in HE Ho *.
    split_and!; try done; set_solver.
  - eapply returns_mono; [apply collect_ok; [done|done|left; by rw Hl]|].
    cbv zeta. rw Hl. by intros cbs s' (-> & Hwf' & Hh & Hm & _).
Qed.

Lemma listExpiredCb_fires_due_witness :
  ∃ s', listExpiredCb 9 160 example_queue = Ret [Some (Fun 7); Some (Fun 8)] s' ∧
    m_timers s' = [2; 3] ∧ next_of (tm_heap s') 2 = 210%Z ∧ wf s'.
Proof.
  eexists. split; [vm_compute; reflexivity|]. split; [reflexivity|].
  split; [reflexivity|].
  pose proof (listExpiredCb_fires_due 9 160 example_queue example_queue_wf
                ltac:(reflexivity)) as H.
  by destruct H as (_ & _ & _ & _ & _ & H).
Defined.

Lemma fires_NoDup o s : wf s → NoDup (fires o s).
Proof.
  intros Hwf. destruct o; try constructor. cbn. unfold expired_at.
  pose proof (sorted_NoDup _ (wf_sorted _ _ Hwf)).
  destruct (rolled_over _ _); [done|by apply NoDup_filter].
Qed.



(** [listExpiredCb] tests [m_timers.empty()] under the read lock and reads
    [*m_timers.begin()] under the write lock.  When the queue holds a single
    armed timer and another thread cancels it between the two, the second
    section dereferences [end()]. *)
Theorem listExpiredCb_race q now s p t c :
  wf s → m_timers s = [p] → tm_heap s !! p = Some t → t_cb t = Some c →
  rolled_over (m_previousTime s) now = false →
  listExpired_check s = Ret false s ∧
  ∃ s', cancel p s = Ret true s' ∧ m_previousTime s' = m_previousTime s ∧
    listExpired_collect q now s' =
      Crash (Undefined "*m_timers.begin() of an empty set").
Proof.
  intros Hwf Hl Hp Hc Hro. split.
  { unfold listExpired_check, mgets. by rw Hl. }
  assert (∀ r s', cancel p s = Ret r s' → m_previousTime s' = m_previousTime s) as Hpt.
  { intros r s'. unfold cancel, mbind, M_bind. rw (deref_ok _ _ _ Hp) Hc. cbn.
    by destruct (set_find _ _ _); [intros [= <- <-]|]. }
  pose proof (cancel_armed s p t c Hwf Hp Hc) as H.
  apply returns_ex in H as (r & s' & Hrun & -> & Hwf' & Hh & Hq).
  exists s'. specialize (Hpt _ _ Hrun). split_and!; [done|done|].
  apply collect_empty; [|by rw Hpt].
  destruct (m_timers s') as [|p' l]; [done|].
  assert (p' ∈ m_timers s ∧ p' ≠ p) as [Hin Hne] by (apply Hq; left).
  rw Hl in Hin. by apply list_elem_of_singleton in Hin.
Qed.

Lemma example_single_wf : wf example_single.
Proof.
  split; simpl.
  - repeat constructor.
  - intros p [Hp|Hp]; [|by inversion Hp].
    apply list_elem_of_singleton in Hp as ->. by eexists.
  - intros p t c Hp _. left. apply lookup_insert_Some in Hp as [[<- _]|[_ Hp]]; [set_solver|].
    by rw lookup_empty in Hp.
  - intros p Hp. by inversion Hp.
  - intros p t Hp. apply lookup_insert_Some in Hp as [[_ <-]|[_ Hp]]; [by split; split|].
    by rw lookup_empty in Hp.
Qed.

Lemma listExpiredCb_race_witness :
  ∃ s', cancel 1 example_single = Ret true s' ∧
    listExpired_collect 9 160 s' = Crash (Undefined "*m_timers.begin() of an empty set").
Proof.
  destruct (listExpiredCb_race 9 160 example_single 1 (MkTimer false 10 100 (Some (Fun 7)))
              (Fun 7) example_single_wf eq_refl ltac:(reflexivity) eq_refl eq_refl)
    as (_ & s' & H1 & _ & H2).
  by exists s'.
Defined.

Lemma TimerManager_new_wf now : wf (TimerManager_new now).
Proof.
  split; simpl.
  - constructor.
  - intros p [Hp|Hp]; by inversion Hp.
  - intros p t c Hp. by rw lookup_empty in Hp.
  - intros p Hp. by inversion Hp.
  - intros p t Hp. by rw lookup_empty in Hp.
Qed.

(** C24. Whatever the threads did since the manager was built, the queue is
    sorted for the current deadlines, holds every timer that still has a
    callback, and the operations on an existing timer return: in particular
    [cancel] never erases [end()]. *)
Theorem timer_operations_safe t0 fs s p t :
  tm_steps (TimerManager_new t0) fs s → tm_heap s !! p = Some t →
  wf s ∧
  returns (cancel p) s (λ r s', r = bool_decide (t_cb t ≠ None) ∧ wf s') ∧
  (∀ now, returns (refresh now p) s (λ r s', r = bool_decide (t_cb t ≠ None) ∧ wf s')) ∧
  (∀ now ms from_now, in_u64 ms → returns (reset now p ms from_now) s (λ _ s', wf s')).
Proof.
  intros Hst Hp. pose proof (steps_wf _ _ _ (TimerManager_new_wf t0) Hst) as Hwf.
  split; [done|]. split; [|split].
  - destruct (t_cb t) as [c|] eqn:Hc.
    + eapply returns_mono; [by eapply cancel_armed|]. naive_solver.
    + unfold cancel. mstep_by deref_ok. by rw Hc.
  - intros now. destruct (t_cb t) as [c|] eqn:Hc.
    + eapply returns_mono; [by eapply refresh_armed|]. naive_solver.
    + unfold refresh. mstep_by deref_ok. by rw Hc.
  - intros now ms fn Hms. eapply returns_mono; [by eapply reset_evolves|].
    by intros r s' [Hwf' _].
Qed.

Lemma timer_operations_safe_witness :
  ∃ s, tm_heap s !! 1 = Some (MkTimer false 10 100 (Some (Fun 7))) ∧
    returns (cancel 1) s (λ r s', r = true ∧ wf s').
Proof.
  assert (∃ s, tm_steps (TimerManager_new 90) [] s ∧
            tm_heap s !! 1 = Some (MkTimer false 10 100 (Some (Fun 7)))) as (s & Hst & Hp).
  { eexists. split.
    - eapply (tm_steps_step _ (OpAdd 1 90 10 (Some (Fun 7)) false) _ []);
        [split; [reflexivity|by split]|vm_compute; reflexivity|apply tm_steps_refl].
    - reflexivity. }
  exists s. split; [done|].
  by destruct (timer_operations_safe 90 [] s 1 _ Hst Hp) as (_ & Hc & _).
Defined.

(** [cancel] on an armed timer returns true, takes it out of the queue and
    clears its callback, and nothing else changes; a second [cancel], and a
    [refresh] or an effective [reset] of it, return false and change nothing. *)
Theorem cancel_is_final s p t c :
  wf s → tm_heap s !! p = Some t → t_cb t = Some c →
  returns (cancel p) s (λ r s',
    r = true ∧ wf s' ∧ retired p s' ∧
    tm_heap s' = <[p := with_cb None t]> (tm_heap s) ∧
    (∀ q, q ∈ m_timers s' ↔ q ∈ m_timers s ∧ q ≠ p) ∧
    cancel p s' = Ret false s' ∧
    (∀ now, refresh now p s' = Ret false s') ∧
    (∀ now ms, reset now p ms true s' = Ret (false, false) s')).
Proof.
  intros Hwf Hp Hc. eapply returns_mono; [by eapply cancel_armed|].
  intros r s' (-> & Hwf' & Hh & Hq).
  assert (tm_heap s' !! p = Some (with_cb None t)) as Hp' by by rw Hh lookup_insert_eq.
  assert (deref p s' = Ret (with_cb None t) s') as Hd by by apply deref_ok.
  split_and!; try done.
  - split; [rw Hq; naive_solver|by exists (with_cb None t)].
  - unfold cancel. by erewrite bind_Ret; [|exact Hd].
  - intros now. unfold refresh. by erewrite bind_Ret; [|exact Hd].
  - intros now ms. unfold reset. erewrite bind_Ret; [|exact Hd]. by rw andb_false_r.
Qed.

Lemma cancel_is_final_witness :
  returns (cancel 2) example_queue (λ r s', r = true ∧ retired 2 s').
Proof.
  eapply returns_mono; [apply (cancel_is_final example_queue 2 _ (Fun 8)
    example_queue_wf eq_refl eq_refl)|].
  by intros r s' (? & _ & ? & _).
Defined.

Lemma head_earliest s p l q :
  wf s → m_timers s = p :: l → q ∈ m_timers s →
  (next_of (tm_heap s) p <= next_of (tm_heap s) q)%Z.
Proof.
  intros Hwf Hl. rw Hl. pose proof (wf_sorted _ _ Hwf) as Hs. rw Hl in Hs.
  apply StronglySorted_cons in Hs as [Hp _]. rw Forall_forall in Hp.
  intros [->|Hq]%elem_of_cons; [lia|]. by apply before_next, Hp.
Qed.

(** [getNextTimer] returns [~0ull] when nothing is queued, and otherwise
    the time that remains until the earliest deadline: [now + r] is the
    deadline of some timer (or one is already due and [r] is 0), and no timer
    is due before it.  It re-enables the notification of [addTimer] and leaves
    the timers alone. *)
Theorem getNextTimer_earliest now s :
  wf s → in_u64 now →
  returns (getNextTimer now) s (λ r s',
    s' = set_tickled false s ∧ in_u64 r ∧
    match m_timers s with
    | [] => r = u64_max
    | _ =>
        (∀ q, q ∈ m_timers s → r ≠ 0%Z → (now + r <= next_of (tm_heap s) q)%Z) ∧
        (∃ q, q ∈ m_timers s ∧ (next_of (tm_heap s) q <= now + r)%Z)
    end).
Proof.
  intros Hwf Hnow. unfold getNextTimer. mstep. mstep. cbn.
  destruct (m_timers s) as [|p l] eqn:Hl.
  { by repeat split. }
  destruct (wf_live _ _ Hwf p) as [t Ht]; [left; rw Hl; left|].
  destruct (wf_range _ _ Hwf _ _ Ht) as [_ Hr].
  assert (next_of (tm_heap s) p = t_next t) as Hn by (unfold next_of; by rw Ht).
  assert (p ∈ p :: l) as Hin by left. unfold in_u64 in *.
  destruct (next_of (tm_heap s) p <=? now)%Z eqn:Hle; cbn.
  - split_and!; try done; try lia. exists p. split; [done|lia].
  - split_and!; try done; try lia.
    + intros q Hq _. rw -Hl in Hq. pose proof (head_earliest s p l q Hwf Hl Hq). lia.
    + exists p. split; [done|lia].
Qed.

Lemma getNextTimer_earliest_witness :
  returns (getNextTimer 95) example_queue (λ r _, r = 5%Z ∧ in_u64 r).
Proof.
  pose proof (getNextTimer_earliest 95 example_queue example_queue_wf ltac:(done)) as H.
  by destruct H as (_ & H & _).
Defined.

(** [addTimer] queues the new timer, [ms] after [now] unless that exceeds
    64 bits, and calls [onTimerInsertedAtFront] exactly when the new timer is
    the earliest and no such call was made since the last [getNextTimer]; when
    it does not call it although [m_tickled] is unset, some timer that was
    already queued has a deadline at most the new one. *)
Theorem addTimer_notifies s p now ms cb rec :
  wf s → tm_heap s !! p = None → in_u64 ms → in_u64 now → m_timers s ≠ [] →
  returns (addTimer p now ms cb rec) s (λ front s',
    wf s' ∧ m_timers s' ≡ₚ p :: m_timers s ∧
    ((now + ms < 2 ^ 64)%Z → next_of (tm_heap s') p = (now + ms)%Z) ∧
    (front = true →
       m_tickled s = false ∧ m_tickled s' = true ∧
       ∀ q, q ∈ m_timers s → (next_of (tm_heap s') p <= next_of (tm_heap s') q)%Z) ∧
    (front = false → m_tickled s = false →
       m_tickled s' = false ∧
       ∃ q, q ∈ m_timers s ∧ (next_of (tm_heap s') q <= next_of (tm_heap s') p)%Z)).
Proof.
  intros Hwf Hp Hms Hnow Hne.
  eapply returns_mono; [by apply (addTimer_spec s p now ms cb rec)|].
  intros front s' (Hwf' & Hh & Hl & -> & Htk & _). split_and!; [done|done| | |].
  - intros Hlt. rw Hh next_of_insert /=. apply u64_id. unfold in_u64 in *. lia.
  - rw andb_true_iff negb_true_iff bool_decide_eq_true. intros [Hall Ht].
    rw Htk Ht. split; [done|]. rw Forall_forall in Hall. split.
    + rw bool_decide_eq_true_2; [by apply Forall_forall|done].
    + intros q Hq. apply before_next. by apply Hall.
  - intros Hf Ht. rw Ht andb_true_r in Hf. rw Htk Ht Hf. split; [done|].
    apply bool_decide_eq_false in Hf.
    assert (Exists (λ q, ¬ before (tm_heap s') p q = true) (m_timers s)) as He.
    { apply not_Forall_Exists; [apply _|done]. }
    apply Exists_exists in He as (q & Hq & Hb). exists q. split; [done|].
    destruct (decide (next_of (tm_heap s') p < next_of (tm_heap s') q)%Z) as [Hlt|]; [|lia].
    by apply before_lt in Hlt.
Qed.

Lemma addTimer_notifies_witness :
  returns (addTimer 4 90 5 (Some (Fun 3)) false) example_queue (λ front s',
    wf s' ∧ next_of (tm_heap s') 4 = 95%Z ∧ (front = true → m_tickled s' = true)).
Proof.
  eapply returns_mono; [apply (addTimer_notifies example_queue 4 90 5 (Some (Fun 3)) false
    example_queue_wf eq_refl); done|].
  cbv beta. intros front s' (Hwf & _ & Hn & Hf & _).
  split_and!; [done|by apply Hn|]. intros Hfr. by destruct (Hf Hfr) as (_ & ? & _).
Defined.

(** [reset] of an armed timer with a new period, or from now, moves its
    deadline to [ms] after [now], or to [ms] after the instant the timer was
    last started; it stays queued once and everything else is unchanged.  With
    the same period and [from_now] unset it returns true without looking at
    the callback, so it reports success on a cancelled timer that stays
    cancelled. *)
Theorem reset_rearms s p t now ms from_now :
  wf s → tm_heap s !! p = Some t → in_u64 ms → in_u64 now →
  (from_now = false ∧ ms = t_ms t → reset now p ms from_now s = Ret (true, false) s) ∧
  (∀ c, t_cb t = Some c → ms ≠ t_ms t ∨ from_now = true →
   (from_now = false → t_ms t <= t_next t ∧ t_next t - t_ms t + ms < 2 ^ 64)%Z →
   (from_now = true → now + ms < 2 ^ 64)%Z →
   returns (reset now p ms from_now) s (λ r s', r.1 = true ∧ wf s' ∧
     m_timers s' ≡ₚ m_timers s ∧
     tm_heap s' = <[p := MkTimer (t_recurring t) ms
       ((if from_now then now else t_next t - t_ms t) + ms)%Z (t_cb t)]> (tm_heap s))).
Proof.
  intros Hwf Hp Hms Hnow. split.
  { intros [-> ->]. unfold reset. erewrite bind_Ret; [|by apply deref_ok].
    by rw bool_decide_eq_true_2. }
  intros c Hc Hb Hlo Hhi.
  assert (bool_decide (ms = t_ms t) && negb from_now = false) as Hbd.
  { rw andb_false_iff negb_false_iff bool_decide_eq_false. tauto. }
  eapply returns_mono; [by eapply reset_armed|].
  intros r s' (? & Hwf' & Hh & Hl). split_and!; [done..|]. rw Hh. f_equal.
  destruct (wf_range _ _ Hwf _ _ Hp) as [Htm Htn].
  unfold reset_timer, with_next, with_ms. cbn. f_equal. unfold in_u64 in *.
  destruct from_now; [apply u64_id; unfold in_u64; lia|].
  specialize (Hlo eq_refl).
  by rw !u64_id; unfold in_u64; try lia.
Qed.

Lemma reset_rearms_witness :
  returns (reset 95 1 40 true) example_queue (λ r s', r.1 = true ∧
    next_of (tm_heap s') 1 = 135%Z) ∧
  returns (reset 95 1 40 false) example_queue (λ r s', r.1 = true ∧
    next_of (tm_heap s') 1 = 130%Z).
Proof.
  split.
  - destruct (reset_rearms example_queue 1 _ 95 40 true example_queue_wf eq_refl
      ltac:(done) ltac:(done)) as [_ H].
    eapply returns_mono; [by apply (H (Fun 7)); [|by right|..]|].
    intros r s' (? & _ & _ & ->). by split.
  - destruct (reset_rearms example_queue 1 _ 95 40 false example_queue_wf eq_refl
      ltac:(done) ltac:(done)) as [_ H].
    eapply returns_mono; [by apply (H (Fun 7)); [|by left|..]|].
    intros r s' (? & _ & _ & ->). by split.
Defined.

(** [detectClockRollover] answers true exactly when the clock went back by
    more than an hour.  The subtraction is unsigned: when the previous reading
    was itself less than an hour after the epoch, any step backwards counts. *)
Theorem detectClockRollover_spec now s :
  in_u64 (m_previousTime s) → in_u64 now →
  returns (detectClockRollover now) s (λ r s',
    s' = set_previousTime now s ∧
    (r = true ↔ (now < m_previousTime s)%Z ∧
       (m_previousTime s < 3600000 ∨ now < m_previousTime s - 3600000)%Z)).
Proof.
  unfold in_u64. intros Hp Hn. unfold detectClockRollover. mstep. mstep. cbn.
  split; [done|]. unfold rolled_over. rw andb_true_iff !Z.ltb_lt.
  change (60 * 60 * 1000)%Z with 3600000%Z.
  destruct (decide (m_previousTime s < 3600000)%Z).
  - assert (u64 (m_previousTime s - 3600000) = m_previousTime s - 3600000 + 2 ^ 64)%Z as ->.
    { unfold u64. rw -(Z_mod_plus_full _ 1). apply Z.mod_small. lia. }
    lia.
  - rw u64_id; [unfold in_u64; lia|]. lia.
Qed.

Lemma detectClockRollover_spec_witness :
  returns (detectClockRollover 10) example_queue (λ r s', r = true ∧ m_previousTime s' = 10%Z).
Proof.
  eapply returns_mono; [apply (detectClockRollover_spec 10 example_queue); done|].
  intros r s' [-> Hr]. split; [|done]. apply Hr. cbn. lia.
Defined.

(** A one-shot timer that is due is handed out, and is then retired. *)
Lemma due_handed_out a now t p tm cb :
  wf t → tm_heap t !! a = None → tm_heap t !! p = Some tm → p ∈ m_timers t →
  t_cb tm = Some cb → t_recurring tm = false → (t_next tm <= now)%Z →
  returns (listExpiredCb a now) t (λ cbs t', Some cb ∈ cbs ∧ wf t' ∧ retired p t').
Proof.
  intros Hwf Ha Hp Hq Hcb Hrec Hdue. unfold listExpiredCb, listExpired_check. mstep.
  destruct (m_timers t) as [|x l] eqn:Hl; [by apply elem_of_nil in Hq|].
  rw -Hl in Hq.
  eapply returns_mono; [apply collect_ok; [done|done|left; by rw Hl]|].
  cbv zeta. intros cbs t' (-> & Hwf' & Hh & Hm & _).
  assert (p ∈ expired_at now t) as HE.
  { apply expired_at_spec. split; [done|]. right. unfold next_of. by rw Hp. }
  split; [|split; [done|split]].
  - apply list_elem_of_In, in_map_iff. exists p. split; [by rw Hp|by apply list_elem_of_In].
  - rw Hm. intros [_ [?|(u & Hu & Hr)]]; [done|]. simplify_eq; congruence.
  - eexists. rw Hh decide_True; [done|]. rw Hp. split; [done|]. unfold fired. by rw Hrec.
Qed.

(** A condition timer that is due hands out a function that calls the
    user's function when, at that moment, the object of the condition is still
    alive, and does nothing when it is not. *)
Theorem condition_timer_checks_condition s p now now' ms f w q alive calls :
  wf s → tm_heap s !! p = None → q ≠ p → tm_heap s !! q = None →
  in_u64 ms → in_u64 now → (now + ms < 2 ^ 64)%Z → (now + ms <= now')%Z →
  returns (addConditionTimer p now ms (Some f) w false) s (λ _ s1,
    returns (listExpiredCb q now') s1 (λ cbs s2,
      Some (BindOnTimer w (Some f)) ∈ cbs ∧ retired p s2 ∧
      run_callback alive (BindOnTimer w (Some f)) calls =
        Ret tt (if alive w then calls ++ [f] else calls))).
Proof.
  intros Hwf Hp Hqp Hq Hms Hnow Hlt Hdue. unfold addConditionTimer.
  eapply returns_mono; [by apply (addTimer_spec s p now ms)|].
  intros front s1 (Hwf1 & Hh1 & Hl1 & _). eapply returns_mono; [eapply (due_handed_out q now' s1 p)|].
  { done. } { rw Hh1. by rw lookup_insert_ne. } { rw Hh1. apply lookup_insert_eq. }
  { rw Hl1. by left. } { done. } { done. }
  { cbn [t_next Timer_new]. rw u64_id; [unfold in_u64 in *; lia|done]. }
  intros cbs s2 (Hin & _ & Hret). split; [done|]. split; [done|].
  cbn. unfold OnTimer. by destruct (alive w).
Qed.

Lemma condition_timer_checks_condition_witness :
  returns (addConditionTimer 4 90 5 (Some 11) 2 false) example_queue (λ _ s1,
    returns (listExpiredCb 9 200) s1 (λ cbs s2, retired 4 s2)).
Proof.
  eapply returns_mono; [apply (condition_timer_checks_condition example_queue 4 90 200 5 11 2 9
    (λ _, true) [] example_queue_wf eq_refl ltac:(done) eq_refl); done|].
  cbv beta. intros _ s1 H. eapply returns_mono; [exact H|]. by intros cbs s2 (_ & ? & _).
Defined.
