(* ===== verification/Fiber.v ===== *)
(** Fibers: duan_src/fiber.{h,cc}.

    A [Fiber] object is a record in a store indexed by addresses; [m_ctx] is
    the [ucontext_t], modelled as the control point [swapcontext] saved in it.
    The functions a fiber runs are values of [prog]: a finite behaviour built
    from the switching operations of this file and from effects [E] on the rest
    of the process, which a handler interprets.  The file has two layers:

    - a machine for one thread, with the three thread-local pointers, that
      switches contexts the way the code does ([step]);
    - [resume] and [fiber_run], the big-step view the scheduler uses: run a
      fiber until it next gives up the processor.

    [swapIn_refines] relates them. *)

From S2P Require Import Prelude.

Inductive State := INIT | HOLD | EXEC | TERM | READY | EXCEPT.

#[export] Instance State_eq_dec : EqDecision State.
Proof. solve_decision. Defined.

(** The function [makecontext] was given. *)
Inductive entry := MainFunc | CallerMainFunc.

Inductive prog (E : Set → Type) :=
  | PReturn
  | PThrow (e : exn)
  | PYieldToReady (k : prog E)
  | PYieldToHold (k : prog E)
  | PSwapIn (f : nat) (k : prog E)
  | PCall (f : nat) (k : prog E)
  | PDo {A : Set} (e : E A) (k : A → prog E).
Arguments PReturn {E}.
Arguments PThrow {E} e.
Arguments PYieldToReady {E} k.
Arguments PYieldToHold {E} k.
Arguments PSwapIn {E} f k.
Arguments PCall {E} f k.
Arguments PDo {E A} e k.

(** Calls of one kind, without an answer. *)
Inductive does (X : Type) : Set → Type := Does (x : X) : does X unit.
Arguments Does {X} x.

(** Whose stack a piece of code runs on: the thread's own, or that of the fiber
    [cur] inside [MainFunc] (or [CallerMainFunc]). *)
Inductive frame := FThread | FBody (e : entry) (cur : nat).

Inductive ctx (E : Set → Type) :=
  | CtxNone
  | CtxEntry (e : entry)
  | CtxRun (fr : frame) (p : prog E)
  | CtxDead.
Arguments CtxNone {E}.
Arguments CtxEntry {E} e.
Arguments CtxRun {E} fr p.
Arguments CtxDead {E}.

Record Fiber (E : Set → Type) := MkFiber {
  m_id : Z;
  m_stacksize : Z;
  m_state : State;
  m_stack : bool;
  m_cb : option nat;
  m_ctx : ctx E
}.
Arguments MkFiber {E}.
Arguments m_id {E} f.
Arguments m_stacksize {E} f.
Arguments m_state {E} f.
Arguments m_stack {E} f.
Arguments m_cb {E} f.
Arguments m_ctx {E} f.

Definition with_state {E} (st : State) (F : Fiber E) : Fiber E :=
  MkFiber (m_id F) (m_stacksize F) st (m_stack F) (m_cb F) (m_ctx F).
Definition with_fcb {E} (cb : option nat) (F : Fiber E) : Fiber E :=
  MkFiber (m_id F) (m_stacksize F) (m_state F) (m_stack F) cb (m_ctx F).
Definition with_ctx {E} (c : ctx E) (F : Fiber E) : Fiber E :=
  MkFiber (m_id F) (m_stacksize F) (m_state F) (m_stack F) (m_cb F) c.

(** * Operations on one fiber *)

(** [makecontext] overwrites what a previous call prepared. *)
Definition makecontext {E} (e : entry) (_ : ctx E) : ctx E := CtxEntry e.

(** [Fiber(cb, stacksize, use_caller)]; [id] is [++s_fiber_id], [configured]
    the value of "fiber.stack_size".  [m_stacksize] is a [uint32_t]. *)
Definition Fiber_new {E} (id configured stacksize : Z) (cb : option nat)
    (use_caller : bool) : Fiber E :=
  let size := u32 (if bool_decide (stacksize = 0%Z) then configured else stacksize) in
  let c := makecontext (if use_caller then MainFunc else CallerMainFunc) CtxNone in
  MkFiber id size INIT true cb (makecontext MainFunc c).

(** [Fiber()] *)
Definition Fiber_main {E} : Fiber E := MkFiber 0 0 EXEC false None CtxNone.

Definition finished (st : State) : bool :=
  bool_decide (st = TERM) || bool_decide (st = INIT) || bool_decide (st = EXCEPT).

(** [Fiber::reset] *)
Definition Fiber_reset {S E} (cb : option nat) (F : Fiber E) : M S (Fiber E) :=
  massert (m_stack F) "reset: m_stack" ;;
  massert (finished (m_state F)) "reset: m_state" ;;
  mret (with_state INIT (with_ctx (makecontext MainFunc (m_ctx F)) (with_fcb cb F))).

(** * One thread *)

Section machine.
Context {E : Set → Type} {W : Type} (code : nat → prog E) (handle : ∀ A, E A → M W A).

Record Machine := MkMachine {
  fibers : gmap nat (Fiber E);
  t_fiber : option nat;
  t_threadFiber : option nat;
  (** [t_fiber] of scheduler.cc: [Scheduler::GetMainFiber()] *)
  sched_fiber : option nat;
  s_fiber_id : Z;
  s_fiber_count : Z;
  world : W
}.

Definition set_fibers (fs : gmap nat (Fiber E)) (m : Machine) : Machine :=
  MkMachine fs (t_fiber m) (t_threadFiber m) (sched_fiber m) (s_fiber_id m)
    (s_fiber_count m) (world m).
Definition set_world (w : W) (m : Machine) : Machine :=
  MkMachine (fibers m) (t_fiber m) (t_threadFiber m) (sched_fiber m) (s_fiber_id m)
    (s_fiber_count m) w.
Definition set_ids (id count : Z) (m : Machine) : Machine :=
  MkMachine (fibers m) (t_fiber m) (t_threadFiber m) (sched_fiber m) id count (world m).
Definition set_threadFiber (f : option nat) (m : Machine) : Machine :=
  MkMachine (fibers m) (t_fiber m) f (sched_fiber m) (s_fiber_id m)
    (s_fiber_count m) (world m).

(** [Fiber::SetThis] *)
Definition SetThis (f : option nat) : M Machine unit :=
  mmodify (λ m, MkMachine (fibers m) f (t_threadFiber m) (sched_fiber m)
    (s_fiber_id m) (s_fiber_count m) (world m)).

Definition get_fiber (f : nat) : M Machine (Fiber E) := λ m,
  match fibers m !! f with
  | Some F => Ret F m
  | None => Crash (Undefined "dangling Fiber")
  end.
Definition put_fiber (f : nat) (F : Fiber E) : M Machine unit :=
  mmodify (λ m, set_fibers (<[f := F]> (fibers m)) m).
(** Reading through a [Fiber*] that may be null. *)
Definition nonnull (f : option nat) : M Machine nat :=
  match f with
  | Some p => mret p
  | None => mcrash (Undefined "null Fiber pointer")
  end.

(** [new Fiber], the constructor of a thread's main fiber. *)
Definition new_main : M Machine nat :=
  m ← mget;
  let p := fresh (dom (fibers m)) in
  put_fiber p Fiber_main ;;
  SetThis (Some p) ;;
  mmodify (λ m, set_ids (s_fiber_id m) (u64 (s_fiber_count m + 1)) m) ;;
  mret p.

(** [new Fiber(cb, stacksize, use_caller)] *)
Definition new_fiber (configured stacksize : Z) (cb : option nat) (use_caller : bool) :
    M Machine nat :=
  m ← mget;
  let p := fresh (dom (fibers m)) in
  let id := u64 (s_fiber_id m + 1) in
  mmodify (set_ids id (u64 (s_fiber_count m + 1))) ;;
  put_fiber p (Fiber_new id configured stacksize cb use_caller) ;;
  mret p.

(** [~Fiber] *)
Definition delete_fiber (f : nat) : M Machine unit :=
  F ← get_fiber f;
  mmodify (λ m, set_ids (s_fiber_id m) (u64 (s_fiber_count m - 1)) m) ;;
  (if m_stack F then massert (finished (m_state F)) "~Fiber: m_state"
   else
     massert (bool_decide (m_cb F = None)) "~Fiber: !m_cb" ;;
     massert (bool_decide (m_state F = EXEC)) "~Fiber: m_state == EXEC" ;;
     cur ← mgets t_fiber;
     mwhen (bool_decide (cur = Some f)) (SetThis None)) ;;
  mmodify (λ m, set_fibers (delete f (fibers m)) m).

(** [Fiber::GetThis] *)
Definition GetThis : M Machine nat :=
  cur ← mgets t_fiber;
  match cur with
  | Some f => mret f
  | None =>
      main_fiber ← new_main;
      cur' ← mgets t_fiber;
      massert (bool_decide (cur' = Some main_fiber)) "t_fiber == main_fiber.get()" ;;
      mmodify (set_threadFiber (Some main_fiber)) ;;
      nonnull cur'
  end.

(** [Fiber::GetFiberId] *)
Definition GetFiberId : M Machine Z :=
  cur ← mgets t_fiber;
  match cur with
  | Some f => F ← get_fiber f; mret (m_id F)
  | None => mret 0%Z
  end.

(** [swapcontext(&from->m_ctx, &to->m_ctx)]: [here] is the control point saved
    in [from]; the result is where the thread goes on. *)
Definition swapcontext (from to : nat) (here : ctx E) : M Machine (ctx E) :=
  F ← get_fiber from;
  put_fiber from (with_ctx here F) ;;
  T ← get_fiber to;
  mret (m_ctx T).

(** [Fiber::swapIn] *)
Definition swapIn (f : nat) (here : ctx E) : M Machine (ctx E) :=
  SetThis (Some f) ;;
  F ← get_fiber f;
  massert (bool_decide (m_state F ≠ EXEC)) "swapIn: m_state != EXEC" ;;
  put_fiber f (with_state EXEC F) ;;
  main ← mgets sched_fiber;
  mf ← nonnull main;
  swapcontext mf f here.

(** [Fiber::call] *)
Definition call (f : nat) (here : ctx E) : M Machine (ctx E) :=
  SetThis (Some f) ;;
  F ← get_fiber f;
  put_fiber f (with_state EXEC F) ;;
  main ← mgets t_threadFiber;
  mf ← nonnull main;
  swapcontext mf f here.

(** [Fiber::swapOut] *)
Definition swapOut (f : nat) (here : ctx E) : M Machine (ctx E) :=
  main ← mgets sched_fiber;
  if bool_decide (main ≠ Some f) then
    SetThis main ;;
    mf ← nonnull main;
    swapcontext f mf here
  else
    thread ← mgets t_threadFiber;
    SetThis thread ;;
    tf ← nonnull thread;
    swapcontext f tf here.

(** [Fiber::YieldToReady] and [Fiber::YieldToHold] *)
Definition yield_to (st : State) (here : ctx E) : M Machine (ctx E) :=
  cur ← GetThis;
  F ← get_fiber cur;
  put_fiber cur (with_state st F) ;;
  swapOut cur here.

(** The end of [MainFunc], or of [CallerMainFunc], after the [try] block:
    [back()] does nothing, so [CallerMainFunc] runs into its assertion. *)
Definition leave (e : entry) (cur : nat) (F : Fiber E) : M Machine (ctx E) :=
  put_fiber cur F ;;
  match e with
  | MainFunc => swapOut cur CtxDead
  | CallerMainFunc => mcrash (AssertFailed "never reach")
  end.

(** The start of [MainFunc] or [CallerMainFunc].  Calling an empty
    [std::function] throws [std::bad_function_call], which they catch. *)
Definition enter (e : entry) : M Machine (ctx E) :=
  cur ← GetThis;
  F ← get_fiber cur;
  match m_cb F with
  | Some cb => mret (CtxRun (FBody e cur) (code cb))
  | None => leave e cur (with_state EXCEPT F)
  end.

(** One step of the code that is running; [None] when the thread's own code
    has returned. *)
Definition step (c : ctx E) : M Machine (option (ctx E)) :=
  match c with
  | CtxNone => mcrash (Undefined "uninitialised context")
  | CtxDead => mcrash (AssertFailed "never reach")
  | CtxEntry e => c' ← enter e; mret (Some c')
  | CtxRun fr p =>
      match p with
      | PYieldToReady k => c' ← yield_to READY (CtxRun fr k); mret (Some c')
      | PYieldToHold k => c' ← yield_to HOLD (CtxRun fr k); mret (Some c')
      | PSwapIn f k => c' ← swapIn f (CtxRun fr k); mret (Some c')
      | PCall f k => c' ← call f (CtxRun fr k); mret (Some c')
      | PDo e k => a ← mzoom world set_world (handle _ e); mret (Some (CtxRun fr (k a)))
      | PReturn =>
          match fr with
          | FThread => mret None
          | FBody e cur =>
              F ← get_fiber cur;
              c' ← leave e cur (with_state TERM (with_fcb None F));
              mret (Some c')
          end
      | PThrow ex =>
          match fr with
          | FThread => mcrash (Terminated "uncaught exception")
          | FBody e cur =>
              F ← get_fiber cur;
              c' ← leave e cur (with_state EXCEPT F);
              mret (Some c')
          end
      end
  end.

(** [n] steps. *)
Fixpoint run (n : nat) (c : ctx E) : M Machine (option (ctx E)) :=
  match n with
  | 0 => mret (Some c)
  | S n' => c' ← step c; match c' with Some c'' => run n' c'' | None => mret None end
  end.

(** * The big-step view *)

(** Run code until it gives up the processor: the state it leaves the fiber in
    and what is left to run. *)
Fixpoint resume {T} (handle : ∀ A, E A → M T A) (p : prog E) : M T (State * option (prog E)) :=
  match p with
  | PReturn => mret (TERM, None)
  | PThrow _ => mret (EXCEPT, None)
  | PYieldToReady k => mret (READY, Some k)
  | PYieldToHold k => mret (HOLD, Some k)
  | PDo e k => a ← handle _ e; resume handle (k a)
  | PSwapIn _ _ | PCall _ _ => mcrash (Undefined "switch inside a fiber")
  end.

(** The fiber record after that. *)
Definition suspend (f : nat) (F : Fiber E) (r : State * option (prog E)) : Fiber E :=
  let '(st, rest) := r in
  with_state st
    match rest with
    | Some k => with_ctx (CtxRun (FBody MainFunc f) k) F
    | None => with_ctx CtxDead (if decide (st = TERM) then with_fcb None F else F)
    end.

(** [swapIn] of the fiber [f], up to the [swapcontext] that ends it; [m_state]
    has been set to [EXEC]. *)
Definition fiber_run {T} (handle : ∀ A, E A → M T A) (f : nat) (F : Fiber E) : M T (Fiber E) :=
  match m_ctx F with
  | CtxEntry MainFunc =>
      match m_cb F with
      | Some cb => r ← resume handle (code cb); mret (suspend f F r)
      | None => mret (suspend f F (EXCEPT, None))
      end
  | CtxRun (FBody MainFunc _) p => r ← resume handle p; mret (suspend f F r)
  | CtxDead => mcrash (AssertFailed "never reach")
  | _ => mcrash (Undefined "context of a thread")
  end.

Definition fiber_enter {T} (F : Fiber E) : M T (Fiber E) :=
  massert (bool_decide (m_state F ≠ EXEC)) "swapIn: m_state != EXEC" ;;
  mret (with_state EXEC F).
End machine.

(** * Specification vocabulary *)

(** How [m_state] and the saved context of a fiber agree while it is not
    running; an [INIT] fiber starts at [MainFunc], a yielded one continues in
    its own body, and a finished one has nothing left to run. *)
Definition fiber_ok {E} (f : nat) (F : Fiber E) : Prop :=
  match m_state F with
  | INIT => m_ctx F = CtxEntry MainFunc
  | HOLD | READY => ∃ p, m_ctx F = CtxRun (FBody MainFunc f) p
  | TERM | EXCEPT => m_ctx F = CtxDead
  | EXEC => True
  end.

(** The code of a fiber does not itself switch to another fiber. *)
Fixpoint flat {E} (p : prog E) : Prop :=
  match p with
  | PReturn | PThrow _ => True
  | PYieldToReady k | PYieldToHold k => flat k
  | PDo _ k => ∀ a, flat (k a)
  | PSwapIn _ _ | PCall _ _ => False
  end.

Definition ctx_flat {E} (code : nat → prog E) (F : Fiber E) : Prop :=
  match m_ctx F with
  | CtxRun _ p => flat p
  | CtxEntry _ => ∀ cb, m_cb F = Some cb → flat (code cb)
  | _ => True
  end.

(** The context a fiber was left in belongs to it. *)
Definition owns_ctx {E} (f : nat) (F : Fiber E) : Prop :=
  ∀ g p, m_ctx F = CtxRun (FBody MainFunc g) p → g = f.

(** The machine after the fiber [f] has given up the processor to [mf]. *)
Definition back_in_main {E W} (f : nat) (F : Fiber E) (mf : nat) (w : W)
    (m : @Machine E W) : @Machine E W :=
  MkMachine (<[f := F]> (fibers m)) (Some mf) (t_threadFiber m) (Some mf)
    (s_fiber_id m) (s_fiber_count m) w.

(** [s_fiber_count] is the number of [Fiber] objects that exist. *)
Definition count_ok {E W} (m : @Machine E W) : Prop :=
  s_fiber_count m = u64 (Z.of_nat (size (fibers m))).

(** A thread with a main fiber (0), the fiber [f] 1, and [sched] as the
    scheduler's fiber. *)
Definition two_fibers {E W} (F : Fiber E) (sched : option nat) (w : W) : @Machine E W :=
  MkMachine {[0 := Fiber_main; 1 := F]} (Some 0) (Some 0) sched 1 2 w.

(** A call that counts. *)
Definition demo_add (A : Set) (e : does nat A) : M nat A :=
  match e with Does x => mmodify (Nat.add x) end.

(** * The machine follows the big-step view *)

Section refinement.
Context {E : Set → Type} {W : Type} (code : nat → prog E) (handle : ∀ A, E A → M W A).
Implicit Types (m : @Machine E W) (F : Fiber E).

Lemma run_step n c c' m m' :
  step code handle c m = Ret (Some c') m' →
  run code handle (S n) c m = run code handle n c' m'.
Proof. intros H. cbn. by rw (bind_Ret _ _ _ _ _ H). Qed.

(** [swapOut] of a fiber other than the scheduling fiber. *)
Lemma swapOut_to_main m f F mf Mf here :
  sched_fiber m = Some mf → mf ≠ f →
  fibers m !! f = Some F → fibers m !! mf = Some Mf →
  swapOut f here m = Ret (m_ctx Mf)
    (MkMachine (<[f := with_ctx here F]> (fibers m)) (Some mf) (t_threadFiber m)
       (Some mf) (s_fiber_id m) (s_fiber_count m) (world m)).
Proof.
  intros Hs Hne Hf Hmf. unfold swapOut, swapcontext, get_fiber.
  cbv [mbind M_bind mgets]. rw Hs bool_decide_eq_true_2; [congruence|]. cbn.
  rw Hf. cbn. rw lookup_insert_ne; [done|]. rw Hmf. cbn. by rw Hs.
Qed.

Lemma yield_to_main m f F mf Mf st here :
  t_fiber m = Some f → sched_fiber m = Some mf → mf ≠ f →
  fibers m !! f = Some F → fibers m !! mf = Some Mf →
  yield_to st here m = Ret (m_ctx Mf)
    (MkMachine (<[f := with_ctx here (with_state st F)]> (fibers m)) (Some mf)
       (t_threadFiber m) (Some mf) (s_fiber_id m) (s_fiber_count m) (world m)).
Proof.
  intros Ht Hs Hne Hf Hmf. unfold yield_to.
  erewrite bind_Ret; [|unfold GetThis; cbv [mbind M_bind mgets]; by rw Ht].
  erewrite bind_Ret; [|unfold get_fiber; by rw Hf].
  erewrite bind_Ret; [|reflexivity].
  erewrite swapOut_to_main; [..|cbn; by rw lookup_insert_ne]; [|done|done|apply lookup_insert_eq].
  cbn. by rw insert_insert_eq.
Qed.

Lemma leave_to_main m f F mf Mf :
  sched_fiber m = Some mf → mf ≠ f → fibers m !! mf = Some Mf →
  leave MainFunc f F m = Ret (m_ctx Mf)
    (MkMachine (<[f := with_ctx CtxDead F]> (fibers m)) (Some mf) (t_threadFiber m)
       (Some mf) (s_fiber_id m) (s_fiber_count m) (world m)).
Proof.
  intros Hs Hne Hmf. unfold leave. erewrite bind_Ret; [|reflexivity].
  erewrite swapOut_to_main; [..|cbn; by rw lookup_insert_ne]; [|done|done|apply lookup_insert_eq].
  cbn. by rw insert_insert_eq.
Qed.

Lemma run_body f F mf Mf p : ∀ m r w,
  t_fiber m = Some f → sched_fiber m = Some mf → mf ≠ f →
  fibers m !! f = Some F → fibers m !! mf = Some Mf →
  resume handle p (world m) = Ret r w →
  ∃ n, run code handle n (CtxRun (FBody MainFunc f) p) m
         = Ret (Some (m_ctx Mf)) (back_in_main f (suspend f F r) mf w m).
Proof.
  induction p as [|ex|k _|k _|g k _|g k _|A e k IH]; intros m r w Ht Hs Hne Hf Hmf Hr;
    cbn [resume] in Hr; try done.
  - injection Hr as <- <-. exists 1. erewrite run_step; [done|].
    cbn [step]. erewrite bind_Ret; [|unfold get_fiber; by rw Hf].
    by erewrite bind_Ret; [|by eapply leave_to_main].
  - injection Hr as <- <-. exists 1. erewrite run_step; [done|].
    cbn [step]. erewrite bind_Ret; [|unfold get_fiber; by rw Hf].
    by erewrite bind_Ret; [|by eapply leave_to_main].
  - injection Hr as <- <-. exists 1. erewrite run_step; [done|].
    cbn [step]. by erewrite bind_Ret; [|by eapply yield_to_main].
  - injection Hr as <- <-. exists 1. erewrite run_step; [done|].
    cbn [step]. by erewrite bind_Ret; [|by eapply yield_to_main].
  - unfold mbind, M_bind in Hr. destruct (handle _ e (world m)) as [a w1| |] eqn:He; try done.
    destruct (IH a (set_world w1 m) r w) as [n Hn]; [done..|].
    exists (S n). erewrite run_step; [exact Hn|].
    cbn [step]. erewrite bind_Ret; [reflexivity|]. unfold mzoom. by rw He.
Qed.

Lemma swapIn_switch m f F mf Mf here :
  sched_fiber m = Some mf → mf ≠ f → m_state F ≠ EXEC →
  fibers m !! f = Some F → fibers m !! mf = Some Mf →
  swapIn f here m = Ret (m_ctx F)
    (MkMachine (<[mf := with_ctx here Mf]> (<[f := with_state EXEC F]> (fibers m)))
       (Some f) (t_threadFiber m) (Some mf) (s_fiber_id m) (s_fiber_count m) (world m)).
Proof.
  intros Hs Hne Hst Hf Hmf. unfold swapIn, SetThis, swapcontext, put_fiber, get_fiber.
  cbv [mbind M_bind mgets mmodify massert]. cbn. rw Hf bool_decide_eq_true_2; [done|].
  cbn. rw Hs. cbn. unfold get_fiber. cbn. rw lookup_insert_ne; [done|]. rw Hmf. cbn.
  rw lookup_insert_ne; [done|]. rw lookup_insert_eq. cbn. done.
Qed.

Lemma fiber_enter_inv {T} F F1 (t t1 : T) :
  fiber_enter F t = Ret F1 t1 → m_state F ≠ EXEC ∧ F1 = with_state EXEC F ∧ t1 = t.
Proof.
  unfold fiber_enter, massert, mbind, M_bind.
  destruct (bool_decide (m_state F ≠ EXEC)) eqn:Hd; [|done].
  apply bool_decide_eq_true in Hd. by intros [= <- <-].
Qed.

Lemma suspend_exec f F r : suspend f (with_state EXEC F) r = suspend f F r.
Proof. destruct r as [st [k|]]; [done|]. simpl. by destruct (decide (st = TERM)). Qed.

(** [swapIn] in terms of [fiber_run], from any code of the thread. *)
Lemma swapIn_run m f F F1 mf Mf fr k w :
  sched_fiber m = Some mf → mf ≠ f → owns_ctx f F →
  fibers m !! f = Some F → fibers m !! mf = Some Mf →
  (F0 ← fiber_enter F; fiber_run code handle f F0) (world m) = Ret F1 w →
  ∃ n, run code handle n (CtxRun fr (PSwapIn f k)) m = Ret (Some (CtxRun fr k))
    (MkMachine (<[f := F1]> (<[mf := with_ctx (CtxRun fr k) Mf]> (fibers m)))
       (Some mf) (t_threadFiber m) (Some mf) (s_fiber_id m) (s_fiber_count m) w).
Proof.
  intros Hs Hne Hown Hf Hmf Hrun. unfold mbind, M_bind in Hrun.
  destruct (fiber_enter F (world m)) as [F0 w0| |] eqn:Hen; try done.
  apply fiber_enter_inv in Hen as (Hst & -> & ->).
  set (m1 := MkMachine (<[mf := with_ctx (CtxRun fr k) Mf]> (<[f := with_state EXEC F]> (fibers m)))
     (Some f) (t_threadFiber m) (Some mf) (s_fiber_id m) (s_fiber_count m) (world m)).
  assert (step code handle (CtxRun fr (PSwapIn f k)) m = Ret (Some (m_ctx F)) m1) as Hstep.
  { cbn [step]. by erewrite bind_Ret; [|by eapply swapIn_switch]. }
  assert (fibers m1 !! f = Some (with_state EXEC F)) as Hf1.
  { cbn. rw lookup_insert_ne; [done|]. apply lookup_insert_eq. }
  assert (fibers m1 !! mf = Some (with_ctx (CtxRun fr k) Mf)) as Hmf1 by apply lookup_insert_eq.
  assert (∀ G, back_in_main f G mf w m1 =
    MkMachine (<[f := G]> (<[mf := with_ctx (CtxRun fr k) Mf]> (fibers m)))
       (Some mf) (t_threadFiber m) (Some mf) (s_fiber_id m) (s_fiber_count m) w) as Hback.
  { intros G. unfold back_in_main. cbn. f_equal.
    by rw (insert_insert_ne _ mf f); [|rw insert_insert_eq]. }
  rw -Hback. unfold fiber_run in Hrun. cbn [m_ctx with_state m_cb] in Hrun.
  destruct (m_ctx F) as [|[]|[|[] g] p|] eqn:Hc; try done.
  - destruct (m_cb F) as [cb|] eqn:Hcb.
    + unfold mbind, M_bind in Hrun.
      destruct (resume handle (code cb) (world m)) as [r w1| |] eqn:Hr; try done.
      injection Hrun as <- <-.
      destruct (run_body f (with_state EXEC F) mf (with_ctx (CtxRun fr k) Mf) (code cb) m1 r w1) as [n Hn]; try done.
      exists (S (S n)). erewrite run_step; [|done]. erewrite run_step; [exact Hn|].
      cbn [step]. unfold enter, GetThis. cbv [mbind M_bind mgets]. cbn.
      unfold get_fiber. rw Hf1. cbn. by rw Hcb.
    + injection Hrun as <- <-. exists 2.
      erewrite run_step; [|done]. erewrite run_step; [done|].
      cbn [step]. unfold enter, GetThis. cbv [mbind M_bind mgets]. cbn.
      unfold get_fiber. rw Hf1. cbn. rw Hcb.
      by rw (leave_to_main m1 f _ mf (with_ctx (CtxRun fr k) Mf) eq_refl Hne Hmf1).
  - assert (g = f) as -> by by eapply Hown.
    unfold mbind, M_bind in Hrun.
    destruct (resume handle p (world m)) as [r w1| |] eqn:Hr; try done.
    injection Hrun as <- <-.
    destruct (run_body f (with_state EXEC F) mf (with_ctx (CtxRun fr k) Mf) p m1 r w1) as [n Hn]; try done.
    exists (S n). erewrite run_step; [exact Hn|done].
Qed.
End refinement.

(** * Properties of one fiber *)

Lemma fiber_ok_owns {E} f (F : Fiber E) :
  fiber_ok f F → m_state F ≠ EXEC → owns_ctx f F.
Proof.
  unfold fiber_ok, owns_ctx. intros Hok Hst g p Hc. rw Hc in Hok.
  destruct (m_state F); naive_solver.
Qed.

Section run_total.
Context {E : Set → Type} {T : Type} (code : nat → prog E) (handle : ∀ A, E A → M T A).
Hypothesis handle_total : ∀ A (e : E A) t, ∃ a t', handle _ e t = Ret a t'.

(** Code that does not switch gives up the processor after finitely many
    effects; if something is left to run, it does not switch either. *)
Lemma resume_total p : flat p → ∀ t, ∃ st rest t',
  resume handle p t = Ret (st, rest) t' ∧
  match rest with
  | Some k => flat k ∧ (st = READY ∨ st = HOLD)
  | None => st = TERM ∨ st = EXCEPT
  end.
Proof.
  induction p as [|ex|k _|k _|g k _|g k _|A e k IH]; intros Hp t; cbn in *; try done;
    try (by eexists _, _, _; split; [reflexivity|cbn; auto]).
  destruct (handle_total _ e t) as (a & t1 & Ht1). unfold mbind, M_bind. rw Ht1. by apply IH.
Qed.

Lemma suspend_ok f (F : Fiber E) st rest :
  match rest with
  | Some k => flat k ∧ (st = READY ∨ st = HOLD)
  | None => st = TERM ∨ st = EXCEPT
  end →
  m_state (suspend f F (st, rest)) = st ∧
  fiber_ok f (suspend f F (st, rest)) ∧ ctx_flat code (suspend f F (st, rest)).
Proof.
  intros H. unfold fiber_ok, ctx_flat. destruct rest as [k|]; cbn.
  - split; [done|]. destruct H as [? [-> | ->]]; eauto.
  - destruct H as [-> | ->]; simpl; auto.
Qed.

(** [fiber_run] of a fiber that is not finished always comes back, in one of
    the four states in which a fiber is not running. *)
Lemma fiber_run_total f (F : Fiber E) t :
  fiber_ok f F → ctx_flat code F → m_state F ∈ [INIT; HOLD; READY] →
  ∃ F1 t', fiber_run code handle f (with_state EXEC F) t = Ret F1 t' ∧
    m_state F1 ∈ [HOLD; READY; TERM; EXCEPT] ∧ fiber_ok f F1 ∧ ctx_flat code F1.
Proof.
  intros Hok Hflat Hst. set (G := with_state EXEC F).
  assert (∀ p, flat p → ∃ F1 t',
    (r ← resume handle p; mret (suspend f G r)) t = Ret F1 t' ∧
    m_state F1 ∈ [HOLD; READY; TERM; EXCEPT] ∧ fiber_ok f F1 ∧ ctx_flat code F1) as Hbody.
  { intros p Hp. destruct (resume_total p Hp t) as (st & rest & t' & Hr & Hsh).
    exists (suspend f G (st, rest)), t'. split; [by rw (bind_Ret _ _ _ _ _ Hr)|].
    destruct (suspend_ok f G st rest Hsh) as (-> & ? & ?). split; [|done].
    destruct rest; set_solver. }
  unfold fiber_run. cbn [m_ctx m_cb with_state G]. unfold fiber_ok, ctx_flat in *.
  assert (m_ctx F = CtxEntry MainFunc ∨ ∃ p, m_ctx F = CtxRun (FBody MainFunc f) p) as Hc.
  { destruct (m_state F); try set_solver; naive_solver. }
  destruct Hc as [Hc|[p Hc]]; rw Hc; rw Hc in Hflat; [|by apply Hbody].
  destruct (m_cb F) as [cb|] eqn:Hcb; [by apply Hbody, Hflat|].
  exists (suspend f G (EXCEPT, None)), t. split; [done|].
  destruct (suspend_ok f G EXCEPT None) as (-> & ? & ?); [auto|]. split; [set_solver|done].
Qed.
End run_total.

(** * Number of fibers *)

Section counting.
Context {E : Set → Type} {W : Type} (code : nat → prog E) (handle : ∀ A, E A → M W A).
Implicit Types (m : @Machine E W) (F : Fiber E).

(** Overwriting a fiber that exists. *)
Lemma count_put m f F :
  is_Some (fibers m !! f) → count_ok m → count_ok (set_fibers (<[f := F]> (fibers m)) m).
Proof.
  unfold count_ok. intros Hf Hm. cbn.
  by rw map_size_insert_Some.
Qed.

Lemma keeps_get_put f (g : Fiber E → Fiber E) {A} (k : Fiber E → M Machine A) :
  (∀ F, keeps count_ok (k F)) →
  keeps (@count_ok E W) (F ← get_fiber f; put_fiber f (g F) ;; k F).
Proof.
  intros Hk m Hm. unfold get_fiber, mbind, M_bind.
  destruct (fibers m !! f) as [F|] eqn:Hf; [|done].
  apply (Hk F), count_put; [by rw Hf|done].
Qed.

Lemma keeps_get_fiber f : keeps (@count_ok E W) (get_fiber f).
Proof. intros m Hm. unfold get_fiber. by destruct (fibers m !! f). Qed.

Lemma keeps_nonnull f : keeps (@count_ok E W) (nonnull f).
Proof. destruct f; [apply keeps_ret|apply keeps_crash]. Qed.

Lemma keeps_SetThis f : keeps (@count_ok E W) (SetThis f).
Proof. by apply keeps_modify. Qed.

Lemma keeps_swapcontext from to here : keeps (@count_ok E W) (swapcontext from to here).
Proof.
  apply (keeps_get_put from (with_ctx here)). intros _.
  apply keeps_bind; [apply keeps_get_fiber|intros; apply keeps_ret].
Qed.

Lemma keeps_set_threadFiber f : keeps (@count_ok E W) (mmodify (set_threadFiber f)).
Proof. by apply keeps_modify. Qed.

Lemma count_insert_fresh m F :
  count_ok m →
  u64 (s_fiber_count m + 1)
  = u64 (Z.of_nat (size (<[fresh (dom (fibers m)) := F]> (fibers m)))).
Proof.
  intros Hm. rw map_size_insert_None; [apply not_elem_of_dom, is_fresh|].
  rw Hm. unfold u64. rw Zplus_mod_idemp_l. f_equal. lia.
Qed.

Lemma keeps_new_main : keeps (@count_ok E W) new_main.
Proof.
  intros m Hm. unfold new_main, put_fiber, SetThis. mrun. by apply count_insert_fresh.
Qed.

Lemma keeps_new_fiber configured size cb use_caller :
  keeps (@count_ok E W) (new_fiber configured size cb use_caller).
Proof.
  intros m Hm. unfold new_fiber, put_fiber. mrun. by apply count_insert_fresh.
Qed.

Lemma keeps_GetThis : keeps (@count_ok E W) GetThis.
Proof.
  apply keeps_bind; [apply keeps_gets|]. intros [f|]; [apply keeps_ret|].
  apply keeps_bind; [apply keeps_new_main|]. intros p.
  apply keeps_bind; [apply keeps_gets|]. intros cur.
  apply keeps_bind; [apply keeps_assert|]. intros _.
  apply keeps_bind; [apply keeps_set_threadFiber|]. intros _. apply keeps_nonnull.
Qed.

#[local] Hint Resolve keeps_get_fiber keeps_nonnull keeps_SetThis keeps_swapcontext
  keeps_set_threadFiber keeps_GetThis : duan.

Lemma keeps_swapOut f here : keeps (@count_ok E W) (swapOut f here).
Proof.
  apply keeps_bind; [apply keeps_gets|]. intros main.
  destruct (bool_decide (main ≠ Some f)); auto 10 with duan.
Qed.

Lemma keeps_swapIn f here : keeps (@count_ok E W) (swapIn f here).
Proof.
  apply keeps_bind; [apply keeps_SetThis|]. intros _ m Hm.
  unfold massert. cbv [mbind M_bind get_fiber].
  destruct (fibers m !! f) as [F|] eqn:Hf; [|done].
  destruct (bool_decide (m_state F ≠ EXEC)); [|done]. cbn.
  destruct (sched_fiber m) as [mf|] eqn:Hs; [|done]. cbn. apply keeps_swapcontext.
  apply count_put; [by rw Hf|done].
Qed.

Lemma keeps_call f here : keeps (@count_ok E W) (call f here).
Proof.
  apply keeps_bind; [apply keeps_SetThis|]. intros _.
  apply (keeps_get_put f (with_state EXEC)). auto with duan.
Qed.

Lemma keeps_yield_to st here : keeps (@count_ok E W) (yield_to st here).
Proof.
  apply keeps_bind; [apply keeps_GetThis|]. intros cur.
  apply (keeps_get_put cur (with_state st)). intros. apply keeps_swapOut.
Qed.

(** [MainFunc] writes the state of a fiber it has read. *)
Lemma keeps_get_leave e cur (g : Fiber E → Fiber E) :
  keeps (@count_ok E W)
    (F ← get_fiber cur; c' ← leave e cur (g F); mret (Some c')).
Proof.
  intros m Hm. cbv [mbind M_bind get_fiber].
  destruct (fibers m !! cur) as [F|] eqn:Hf; [|done].
  assert (keeps count_ok (match e with
    | MainFunc => swapOut (E:=E) (W:=W) cur CtxDead
    | CallerMainFunc => mcrash (AssertFailed "never reach") end)) as H.
  { destruct e; [apply keeps_swapOut|apply keeps_crash]. }
  specialize (H _ (count_put m cur (g F) (mk_is_Some _ _ Hf) Hm)).
  unfold leave, put_fiber. cbv [mbind M_bind mmodify]. by destruct e; destruct (_ : result _ _).
Qed.

Lemma keeps_enter e : keeps (@count_ok E W) (enter code e).
Proof.
  apply keeps_bind; [apply keeps_GetThis|]. intros cur m Hm. cbv [mbind M_bind get_fiber].
  destruct (fibers m !! cur) as [F|] eqn:Hf; [|done].
  destruct (m_cb F); [done|].
  pose proof (keeps_get_leave e cur (with_state EXCEPT) m Hm) as H.
  cbv [mbind M_bind get_fiber] in H. rw Hf in H. by destruct (leave _ _ _ _).
Qed.

Lemma keeps_world A (e : E A) : keeps (@count_ok E W) (mzoom world set_world (handle _ e)).
Proof. intros m Hm. unfold mzoom. by destruct (handle _ e (world m)). Qed.

#[local] Hint Resolve keeps_swapIn keeps_call keeps_yield_to keeps_enter keeps_world
  keeps_get_leave : duan.

Lemma keeps_step c : keeps (@count_ok E W) (step code handle c).
Proof.
  destruct c as [|e|fr p|]; cbn [step]; try by auto with duan.
  destruct p; auto 8 with duan; destruct fr; auto with duan.
Qed.

Lemma keeps_run n : ∀ c, keeps (@count_ok E W) (run code handle n c).
Proof.
  induction n as [|n IH]; intros c; [apply keeps_ret|].
  apply keeps_bind; [apply keeps_step|]. intros [c'|]; [apply IH|apply keeps_ret].
Qed.

Lemma keeps_delete f : keeps (@count_ok E W) (delete_fiber f).
Proof.
  intros m Hm. unfold delete_fiber. cbv [mbind M_bind get_fiber].
  destruct (fibers m !! f) as [F|] eqn:Hf; [|done]. cbn.
  assert (u64 (s_fiber_count m - 1) = u64 (Z.of_nat (size (delete f (fibers m))))) as Hsz.
  { rw map_size_delete_Some; [by rw Hf|]. rw Hm /u64. rw Zminus_mod_idemp_l. f_equal.
    assert (size (fibers m) ≠ 0) as Hne; [|lia].
    intros H0%map_size_empty_inv. by rw H0 in Hf. }
  unfold massert, mwhen. destruct (m_stack F); cbn.
  { by destruct (finished (m_state F)). }
  destruct (bool_decide (m_cb F = None)); cbn; [|done].
  destruct (bool_decide (m_state F = EXEC)); cbn; [|done].
  by destruct (bool_decide (t_fiber m = Some f)).
Qed.
End counting.

(** * The properties *)

(** C1. Switching to a fiber is transparent: whatever code of the thread calls
    [swapIn] on a fiber that is not running, the contexts are switched so that
    the fiber runs exactly as the big-step [fiber_run] says, up to its next
    yield or its end; then the caller continues after its [swapIn], on its own
    stack, with [t_fiber] back on the scheduler's fiber, and no other fiber has
    changed. *)
Theorem swapIn_refines {E W} (code : nat → prog E) (handle : ∀ A, E A → M W A)
    (m : Machine) f F F1 mf Mf fr k w :
  sched_fiber m = Some mf → mf ≠ f → fiber_ok f F →
  fibers m !! f = Some F → fibers m !! mf = Some Mf →
  (F0 ← fiber_enter F; fiber_run code handle f F0) (world m) = Ret F1 w →
  ∃ n, run code handle n (CtxRun fr (PSwapIn f k)) m =
    Ret (Some (CtxRun fr k))
      (back_in_main f F1 mf w
        (set_fibers (<[mf := with_ctx (CtxRun fr k) Mf]> (fibers m)) m)).
Proof.
  intros Hs Hne Hok Hf Hmf Hrun. eapply (swapIn_run code handle m); eauto.
  unfold mbind, M_bind in Hrun. destruct (fiber_enter F (world m)) eqn:Hen; try done.
  apply fiber_enter_inv in Hen as (? & _). by apply fiber_ok_owns.
Qed.

Lemma swapIn_refines_witness :
  let m := two_fibers (Fiber_new 1 4096 0 (Some 0) false) (Some 0) 2 in
  ∃ n, run (λ _, PDo (Does 5) (λ _, PReturn)) demo_add n
      (CtxRun FThread (PSwapIn 1 PReturn)) m =
    Ret (Some (CtxRun FThread PReturn))
      (back_in_main 1 (MkFiber 1 4096 TERM true None CtxDead) 0 7
        (set_fibers (<[0 := with_ctx (CtxRun FThread PReturn) Fiber_main]> (fibers m)) m)).
Proof.
  intros m. eapply (swapIn_refines (λ _, PDo (Does 5) (λ _, PReturn)) demo_add m 1
    (Fiber_new 1 4096 0 (Some 0) false)); reflexivity || done.
Defined.

(** C16. A fiber never keeps the processor by itself: if its code only performs
    effects that return and yields, [swapIn] on a fiber that is neither running
    nor finished comes back after finitely many steps; the fiber is then in one
    of the states [HOLD], [READY], [TERM], [EXCEPT], and its saved context
    agrees with that state, so that it can be resumed again when it yielded. *)
Theorem swapIn_comes_back {E W} (code : nat → prog E) (handle : ∀ A, E A → M W A)
    (m : Machine) f F mf Mf fr k :
  (∀ A (e : E A) w, ∃ a w', handle _ e w = Ret a w') →
  sched_fiber m = Some mf → mf ≠ f → fiber_ok f F → ctx_flat code F →
  m_state F ∈ [INIT; HOLD; READY] →
  fibers m !! f = Some F → fibers m !! mf = Some Mf →
  ∃ n m' F', run code handle n (CtxRun fr (PSwapIn f k)) m = Ret (Some (CtxRun fr k)) m' ∧
    fibers m' !! f = Some F' ∧ fiber_ok f F' ∧ ctx_flat code F' ∧
    m_state F' ∈ [HOLD; READY; TERM; EXCEPT] ∧
    t_fiber m' = Some mf ∧ dom (fibers m') = dom (fibers m).
Proof.
  intros Hh Hs Hne Hok Hflat Hst Hf Hmf.
  destruct (fiber_run_total code handle Hh f F (world m)) as (F1 & w & Hrun & HF1 & ? & ?);
    [done..|].
  assert (m_state F ≠ EXEC) as Hx by (intros Hx; rw Hx in Hst; set_solver).
  destruct (swapIn_run code handle m f F F1 mf Mf fr k w) as [n Hn]; try done.
  { by apply fiber_ok_owns. }
  { by erewrite bind_Ret; [|unfold fiber_enter; by rw bool_decide_eq_true_2]. }
  eexists n, _, F1. split; [exact Hn|]. cbn. rw lookup_insert_eq.
  repeat split; try done. rw !dom_insert_L.
  assert (f ∈ dom (fibers m)) by by apply elem_of_dom.
  assert (mf ∈ dom (fibers m)) by by apply elem_of_dom. set_solver.
Qed.

Lemma swapIn_comes_back_witness :
  let m := two_fibers (Fiber_new 1 4096 0 (Some 0) false) (Some 0) 2 in
  ∃ n m' F', run (λ _, PDo (Does 5) (λ _, PYieldToHold PReturn)) demo_add n
      (CtxRun FThread (PSwapIn 1 PReturn)) m = Ret (Some (CtxRun FThread PReturn)) m' ∧
    fibers m' !! 1 = Some F' ∧ fiber_ok 1 F' ∧
    ctx_flat (λ _, PDo (Does 5) (λ _, PYieldToHold PReturn)) F' ∧
    m_state F' ∈ [HOLD; READY; TERM; EXCEPT] ∧
    t_fiber m' = Some 0 ∧ dom (fibers m') = dom (fibers m).
Proof.
  intros m. eapply (swapIn_comes_back _ _ m 1 (Fiber_new 1 4096 0 (Some 0) false));
    try reflexivity; try done; [by intros A []; eexists _, _|set_solver].
Defined.

(** [swapIn] needs a scheduler on the calling thread: with
    [Scheduler::GetMainFiber()] null, switching to a fiber in any state ends
    the program, on a null pointer (or on the assertion if the fiber runs). *)
Theorem swapIn_without_scheduler {E W} (code : nat → prog E) (handle : ∀ A, E A → M W A)
    (m : Machine) f F fr k :
  sched_fiber m = None → fibers m !! f = Some F →
  step code handle (CtxRun fr (PSwapIn f k)) m =
    Crash (if decide (m_state F = EXEC) then AssertFailed "swapIn: m_state != EXEC"
           else Undefined "null Fiber pointer").
Proof.
  intros Hs Hf. cbn [step]. unfold swapIn, SetThis, put_fiber, get_fiber, massert.
  cbv [mbind M_bind mgets mmodify]. cbn. rw Hf.
  destruct (decide (m_state F = EXEC)).
  - by rw bool_decide_eq_false_2; [naive_solver|].
  - rw bool_decide_eq_true_2; [done|]. cbn. by rw Hs.
Qed.

Lemma swapIn_without_scheduler_witness :
  step (E:=does nat) (λ _, PReturn) demo_add (CtxRun FThread (PSwapIn 1 PReturn))
    (two_fibers (Fiber_new 1 4096 0 (Some 0) false) None 0)
  = Crash (Undefined "null Fiber pointer").
Proof.
  apply (swapIn_without_scheduler _ _ _ 1 (Fiber_new 1 4096 0 (Some 0) false)); reflexivity.
Defined.

(** Misuse is always caught: [swapIn] on a running fiber stops at its
    assertion, and [swapIn] on a finished one (state [TERM] or [EXCEPT])
    continues after its last [swapOut] and stops at "never reach". *)
Theorem swapIn_misuse {E W} (code : nat → prog E) (handle : ∀ A, E A → M W A)
    (m : Machine) f F mf Mf fr k :
  sched_fiber m = Some mf → mf ≠ f → fiber_ok f F →
  fibers m !! f = Some F → fibers m !! mf = Some Mf →
  m_state F ∈ [EXEC; TERM; EXCEPT] →
  run code handle 2 (CtxRun fr (PSwapIn f k)) m =
    Crash (AssertFailed (if decide (m_state F = EXEC) then "swapIn: m_state != EXEC"
                         else "never reach")).
Proof.
  intros Hs Hne Hok Hf Hmf Hst. destruct (decide (m_state F = EXEC)) as [Hx|Hx].
  - cbn [run step]. unfold swapIn, SetThis, put_fiber, get_fiber, massert.
    cbv [mbind M_bind mgets mmodify]. cbn. rw Hf.
    by rw bool_decide_eq_false_2; [naive_solver|].
  - erewrite run_step.
    2: { cbn [step]. by erewrite bind_Ret; [|by eapply swapIn_switch]. }
    assert (m_ctx F = CtxDead) as ->; [|done].
    unfold fiber_ok in Hok. destruct (m_state F); set_solver.
Qed.

Lemma swapIn_misuse_witness :
  run (E:=does nat) (λ _, PReturn) demo_add 2 (CtxRun FThread (PSwapIn 1 PReturn))
    (two_fibers (MkFiber 1 4096 TERM true None CtxDead) (Some 0) 0)
  = Crash (AssertFailed "never reach").
Proof.
  apply (swapIn_misuse _ _ _ 1 (MkFiber 1 4096 TERM true None CtxDead) 0 Fiber_main);
    try reflexivity; [done|set_solver].
Defined.

(** [reset] accepts exactly a fiber with a stack of its own that is in
    [INIT], [TERM] or [EXCEPT]; the fiber it leaves keeps its id and stack and
    runs the new function from its beginning at the next [swapIn], whatever it
    was running before. *)
Theorem reset_spec {S E T} (code : nat → prog E) (handle : ∀ A, E A → M T A)
    (F : Fiber E) f cb (s : S) :
  (m_stack F = true ∧ m_state F ∈ [INIT; TERM; EXCEPT] ∧
   ∃ F', Fiber_reset (Some cb) F s = Ret F' s ∧
     m_id F' = m_id F ∧ m_stack F' = true ∧ m_state F' = INIT ∧ fiber_ok f F' ∧
     ∀ t, fiber_run code handle f (with_state EXEC F') t =
       (r ← resume handle (code cb); mret (suspend f F' r)) t) ∨
  ((m_stack F = false ∨ m_state F ∈ [HOLD; EXEC; READY]) ∧
   ∃ site, Fiber_reset (Some cb) F s = Crash (AssertFailed site)).
Proof.
  unfold Fiber_reset, massert, finished. cbv [mbind M_bind].
  destruct (m_stack F) eqn:Hk; [|right; split; [by left|by eexists]].
  destruct (m_state F) eqn:Hst; cbn;
    [left|right|right|left|right|left]; (split; [done || set_solver|]); try (by eexists);
    (split; [set_solver|]); eexists; (repeat split; try done);
    intros t; unfold fiber_run, mbind, M_bind; cbn;
    destruct (resume handle (code cb) t) as [[st [r|]] ?| |]; try done; cbn;
    by destruct (decide (st = TERM)).
Qed.

(** Whatever [use_caller] is, a new fiber starts in [MainFunc] (the third
    [makecontext] overwrites the other two), in a state from which it can be
    switched to or reset; its stack size is the argument, or the configured
    size for 0, truncated to 32 bits. *)
Theorem new_fiber_entry {E} (id configured stacksize : Z) (cb : option nat) use_caller f :
  let F : Fiber E := Fiber_new id configured stacksize cb use_caller in
  m_ctx F = CtxEntry MainFunc ∧ m_state F = INIT ∧ fiber_ok f F ∧ m_cb F = cb ∧
  (0 <= m_stacksize F < 2 ^ 32)%Z ∧
  ((0 < stacksize < 2 ^ 32)%Z → m_stacksize F = stacksize) ∧
  (stacksize = 0%Z → (0 <= configured < 2 ^ 32)%Z → m_stacksize F = configured).
Proof.
  cbn. repeat split; try apply Z.mod_pos_bound; try done.
  - intros. rw bool_decide_eq_false_2; [lia|]. apply Z.mod_small; lia.
  - intros. rw bool_decide_eq_true_2; [done|]. apply Z.mod_small; lia.
Qed.

Lemma new_fiber_entry_witness :
  m_stacksize (Fiber_new (E:=does nat) 1 131072 4096 None false) = 4096%Z.
Proof. apply (new_fiber_entry (E:=does nat) 1 131072 4096 None false 0). lia. Defined.

(** [TotalFibers] is right: creating fibers, deleting them, and any number
    of steps of the code of a thread keep [s_fiber_count] equal to the number
    of [Fiber] objects in existence. *)
Theorem total_fibers {E W} (code : nat → prog E) (handle : ∀ A, E A → M W A) :
  keeps (@count_ok E W) new_main ∧
  (∀ configured size cb use_caller,
     keeps (@count_ok E W) (new_fiber configured size cb use_caller)) ∧
  (∀ f, keeps (@count_ok E W) (delete_fiber f)) ∧
  (∀ n c, keeps (@count_ok E W) (run code handle n c)).
Proof.
  repeat split; intros; [apply keeps_new_main|apply keeps_new_fiber|apply keeps_delete|
    apply keeps_run].
Qed.

(** [GetThis] creates the main fiber of a thread the first time it is
    called there, in state [EXEC] and with id 0, and returns that same fiber
    from then on without further effect. *)
Theorem GetThis_main {E W} (m : @Machine E W) :
  t_fiber m = None →
  ∃ p m', GetThis m = Ret p m' ∧ p ∉ dom (fibers m) ∧
    fibers m' = <[p := Fiber_main]> (fibers m) ∧
    t_fiber m' = Some p ∧ t_threadFiber m' = Some p ∧
    GetThis m' = Ret p m' ∧ GetFiberId m' = Ret 0%Z m'.
Proof.
  intros Ht. exists (fresh (dom (fibers m))).
  set (p := fresh (dom (fibers m))). eexists. split.
  { unfold GetThis. cbv [mbind M_bind mgets]. rw Ht. unfold new_main, put_fiber, SetThis.
    mrun. fold p. rw bool_decide_eq_true_2; done. }
  cbn. split; [apply is_fresh|]. repeat split.
  unfold GetFiberId, get_fiber. mrun. by rw lookup_insert_eq.
Qed.

Lemma GetThis_main_witness :
  let m := MkMachine (E:=does nat) ∅ None None None 0 0 tt in
  ∃ p m', GetThis m = Ret p m' ∧ p ∉ dom (fibers m) ∧
    fibers m' = <[p := Fiber_main]> (fibers m) ∧
    t_fiber m' = Some p ∧ t_threadFiber m' = Some p ∧
    GetThis m' = Ret p m' ∧ GetFiberId m' = Ret 0%Z m'.
Proof. by apply GetThis_main. Defined.
