(* ===== verification/SchedThread.v ===== *)
(** The threads of a scheduler: what duan_src/scheduler.cc keeps per thread.

    Scheduler.v runs the loop of [Scheduler::run]; the switches of Fiber.v need a main
    fiber of the scheduler on the thread ([Scheduler::GetMainFiber()]).  Here is how a
    thread comes to have one: the constructor of [Scheduler] on the thread that creates
    it, and the first statements of [run] on each thread. *)

From S2P Require Import Prelude.
From S2P Require Import Fiber.

(** The thread-local [t_scheduler] (schedulers have numbers), and the members of the
    scheduler that these functions use.  The thread-local [t_fiber] of scheduler.cc is
    [sched_fiber] of the [Machine]. *)
Record Local := MkLocal {
  t_scheduler : option nat;
  l_rootFiber : option nat;
  l_rootThread : Z;
  l_threadIds : list Z;
  l_threadCount : Z
}.

Section thread.
Context {E : Set → Type}.
Notation Mach := (@Machine E Local).
Implicit Types m : Mach.

Definition set_scheduler (s : option nat) : M Mach unit :=
  mmodify (λ m, set_world (MkLocal s (l_rootFiber (world m)) (l_rootThread (world m))
    (l_threadIds (world m)) (l_threadCount (world m))) m).
Definition set_main_fiber (f : nat) : M Mach unit :=
  mmodify (λ m, MkMachine (fibers m) (t_fiber m) (t_threadFiber m) (Some f) (s_fiber_id m)
    (s_fiber_count m) (world m)).

(** [Scheduler::GetThis], [Scheduler::GetMainFiber], [Scheduler::setThis] *)
Definition Scheduler_GetThis : M Mach (option nat) := mgets (λ m, t_scheduler (world m)).
Definition GetMainFiber : M Mach (option nat) := mgets sched_fiber.
Definition setThis (self : nat) : M Mach unit := set_scheduler (Some self).

(** [duan::GetFiberId] of util.cc *)
Definition util_GetFiberId : M Mach Z := id ← GetFiberId; mret (u32 id).

(** [Scheduler(threads, use_caller, name)]; [run_cb] is the function bound to [run]. *)
Definition Scheduler_construct (self : nat) (threads : Z) (use_caller : bool)
    (stack_size : Z) (run_cb : nat) : M Mach unit :=
  massert (bool_decide (0 < threads)%Z) "threads > 0" ;;
  if use_caller then
    _ ← GetThis;
    cur ← Scheduler_GetThis;
    massert (bool_decide (cur = None)) "GetThis() == nullptr" ;;
    setThis self ;;
    f ← new_fiber stack_size 0 (Some run_cb) false;
    set_main_fiber f ;;
    id ← util_GetFiberId;
    let root := i32 id in
    mmodify (λ m, set_world (MkLocal (t_scheduler (world m)) (Some f) root [root] (threads - 1)) m)
  else
    mmodify (λ m, set_world (MkLocal (t_scheduler (world m)) None (-1) [] threads) m).

(** [~Scheduler], after its assertion. *)
Definition Scheduler_destroy (self : nat) : M Mach unit :=
  cur ← Scheduler_GetThis;
  mwhen (bool_decide (cur = Some self)) (set_scheduler None).

(** [Scheduler::run] up to its loop on the thread [tid]; the result is [idle_fiber]. *)
Definition run_start (self : nat) (tid : Z) (stack_size : Z) (idle_cb : nat) : M Mach nat :=
  setThis self ;;
  root ← mgets (λ m, l_rootThread (world m));
  (if bool_decide (tid ≠ root) then f ← GetThis; set_main_fiber f else mret tt) ;;
  new_fiber stack_size 0 (Some idle_cb) false.

(** * Specification *)

(** The running fiber [p] of the thread is the scheduler's main fiber there. *)
Record schedules (self p : nat) (m : Mach) : Prop := {
  sch_self : t_scheduler (world m) = Some self;
  sch_running : t_fiber m = Some p;
  sch_main : sched_fiber m = Some p;
  sch_exists : is_Some (fibers m !! p)
}.

(** The running fiber of a thread exists, if it has one. *)
Definition running_exists (m : Mach) : Prop := ∀ p, t_fiber m = Some p → is_Some (fibers m !! p).

Lemma GetThis_ok m : running_exists m → ∃ p m',
  GetThis m = Ret p m' ∧ t_fiber m' = Some p ∧ is_Some (fibers m' !! p) ∧
  fibers m ⊆ fibers m' ∧ sched_fiber m' = sched_fiber m ∧ world m' = world m.
Proof.
  intros Hr. destruct (t_fiber m) as [p|] eqn:Ht.
  - exists p, m. split; [unfold GetThis; cbv [mbind M_bind mgets]; by rw Ht|]. by auto.
  - set (p := fresh (dom (fibers m))). eexists p, _. split.
    { unfold GetThis. cbv [mbind M_bind mgets]. rw Ht. unfold new_main, put_fiber, SetThis.
      mrun. fold p. rw bool_decide_eq_true_2; done. }
    cbn. split; [done|]. rw lookup_insert_eq. split; [done|]. split; [|done].
    apply insert_subseteq, not_elem_of_dom, is_fresh.
Qed.

Lemma new_fiber_ok size cb m : ∃ f m',
  new_fiber size 0 (Some cb) false m = Ret f m' ∧ fibers m !! f = None ∧
  fibers m' = <[f := Fiber_new (u64 (s_fiber_id m + 1)) size 0 (Some cb) false]> (fibers m) ∧
  t_fiber m' = t_fiber m ∧ sched_fiber m' = sched_fiber m ∧ world m' = world m ∧
  t_threadFiber m' = t_threadFiber m.
Proof.
  exists (fresh (dom (fibers m))). eexists. split; [unfold new_fiber, put_fiber; mrun; reflexivity|].
  split; [apply not_elem_of_dom, is_fresh|]. done.
Qed.

(** With a main fiber of the scheduler, every other fiber that is not running can be
    switched to. *)
Lemma schedules_swapIn self p m f F here :
  schedules self p m → f ≠ p → fibers m !! f = Some F → m_state F ≠ EXEC →
  ∃ m', swapIn f here m = Ret (m_ctx F) m' ∧ t_fiber m' = Some f ∧ sched_fiber m' = Some p.
Proof.
  intros [_ _ Hs [P HP]] Hne HF Hst. eexists.
  split; [by eapply swapIn_switch; [exact Hs| |exact Hst|exact HF|exact HP]|]. by cbn.
Qed.

(** [run_start] as a whole. *)
Lemma thread_start_ok self tid size idle_cb m :
  running_exists m → tid ≠ l_rootThread (world m) → ∃ idle p m',
  run_start self tid size idle_cb m = Ret idle m' ∧ schedules self p m' ∧ idle ≠ p ∧
  (t_fiber m = None ∨ t_fiber m = Some p) ∧ fibers m ⊆ fibers m'.
Proof.
  intros Hr Htid. set (m1 := set_world (MkLocal (Some self) (l_rootFiber (world m)) (l_rootThread (world m))
    (l_threadIds (world m)) (l_threadCount (world m))) m).
  destruct (GetThis_ok m1 Hr) as (p & m2 & HGet & Ht & Hp & Hsub & _ & Hw).
  set (m3 := MkMachine (fibers m2) (t_fiber m2) (t_threadFiber m2) (Some p) (s_fiber_id m2)
    (s_fiber_count m2) (world m2)).
  destruct (new_fiber_ok size idle_cb m3) as (idle & m4 & Hnew & Hfresh & Hf4 & Ht4 & Hs4 & Hw4 & _).
  assert (schedules self p m4) as Hsch.
  { split; [by rw Hw4 /= Hw|by rw Ht4|by rw Hs4|rw Hf4; apply lookup_insert_is_Some'; by right]. }
  exists idle, p, m4. split.
  { unfold run_start, setThis, set_scheduler, set_main_fiber. erewrite bind_Ret by reflexivity.
    fold m1. erewrite bind_Ret by reflexivity. rw bool_decide_eq_true_2; [done|].
    erewrite bind_Ret; [exact Hnew|]. by rw (bind_Ret _ _ _ _ _ HGet). }
  split; [done|]. split; [intros ->; cbn in Hfresh; rw Hfresh in Hp; by destruct Hp|].
  split.
  - destruct (t_fiber m) as [q|] eqn:Hq; [right|by left].
    unfold GetThis in HGet. revert HGet. cbv [mbind M_bind mgets]. cbn [t_fiber m1 set_world]. rw Hq.
    by intros [= ->].
  - rw Hf4. etransitivity; [exact Hsub|]. by apply insert_subseteq.
Qed.

(** The constructor on a thread without fibers, of which [p] becomes the main fiber. *)
Lemma construct_root self threads size run_cb m :
  t_fiber m = None → t_scheduler (world m) = None → (0 < threads)%Z → ∃ f p m1 F,
  Scheduler_construct self threads true size run_cb m = Ret tt m1 ∧
  world m1 = MkLocal (Some self) (Some f) 0 [0%Z] (threads - 1) ∧ p ≠ f ∧
  fibers m1 !! f = Some F ∧ m_ctx F = CtxEntry MainFunc ∧ fibers m1 !! p = Some Fiber_main ∧
  t_threadFiber m1 = Some p.
Proof.
  intros Ht Hw Hthreads. set (p := fresh (dom (fibers m))).
  set (m0 := MkMachine (<[p := Fiber_main]> (fibers m)) (Some p) (Some p) (sched_fiber m) (s_fiber_id m)
    (u64 (s_fiber_count m + 1)) (world m)).
  assert (GetThis m = Ret p m0) as HGet.
  { unfold GetThis. cbv [mbind M_bind mgets]. rw Ht. unfold new_main, put_fiber, SetThis.
    mrun. fold p. rw bool_decide_eq_true_2; done. }
  set (m0' := set_world (MkLocal (Some self) (l_rootFiber (world m)) (l_rootThread (world m))
    (l_threadIds (world m)) (l_threadCount (world m))) m0).
  destruct (new_fiber_ok size run_cb m0') as (f & m4 & Hnew & Hfresh & Hf4 & Ht4 & Hs4 & Hw4 & Hth4).
  assert (p ≠ f) as Hne by (intros <-; cbn in Hfresh; by rw lookup_insert_eq in Hfresh).
  assert (fibers m4 !! p = Some Fiber_main) as Hp4
    by (rw Hf4 lookup_insert_ne; [done|]; apply lookup_insert_eq).
  eexists f, p, _, _. split.
  { unfold Scheduler_construct, massert. rw bool_decide_eq_true_2; [done|].
    erewrite bind_Ret by reflexivity. erewrite bind_Ret by exact HGet.
    erewrite bind_Ret by reflexivity. cbn [world m0]. rw Hw. erewrite bind_Ret by reflexivity.
    erewrite bind_Ret by reflexivity. fold m0'. erewrite bind_Ret by exact Hnew.
    erewrite bind_Ret by reflexivity. erewrite bind_Ret; [reflexivity|].
    unfold util_GetFiberId, GetFiberId, get_fiber. cbv [mbind M_bind mgets]. cbn. by rw Ht4 /= Hp4. }
  cbn. rw Hw4. split; [done|]. split; [done|]. rw Hf4 lookup_insert_eq. split; [done|]. split; [done|].
  rw -Hf4. by rw Hth4.
Qed.

(** * Properties *)

(** C20. Every thread that starts [Scheduler::run] under its own id gets a main fiber of
    the scheduler: the fiber it is running, made if there is none.  From then on [swapIn] of
    any other fiber that is not running switches to it; without these statements it would
    follow a null pointer ([swapIn_without_scheduler]). *)
Theorem thread_starts self tid size idle_cb m :
  running_exists m → tid ≠ l_rootThread (world m) → ∃ idle p m',
  run_start self tid size idle_cb m = Ret idle m' ∧ schedules self p m' ∧ idle ≠ p ∧
  (t_fiber m = None ∨ t_fiber m = Some p) ∧ fibers m ⊆ fibers m' ∧
  ∀ f F here, f ≠ p → fibers m' !! f = Some F → m_state F ≠ EXEC → ∃ m'',
    swapIn f here m' = Ret (m_ctx F) m'' ∧ t_fiber m'' = Some f ∧ sched_fiber m'' = Some p.
Proof.
  intros Hr Htid. destruct (thread_start_ok self tid size idle_cb m Hr Htid)
    as (idle & p & m' & Hrun & Hsch & Hne & Ht & Hsub).
  exists idle, p, m'. do 5 (split; [done|]). intros. by eapply schedules_swapIn.
Qed.

(** The thread that creates the scheduler with [use_caller].  The constructor makes a
    main fiber for the thread and the root fiber that will run [run], and keeps the id 0
    of the main fiber as [m_rootThread], which is the id of no thread.  So [run], once
    [call] has entered the root fiber, takes the branch meant for the other threads; as the
    fiber it finds running is the root fiber, that is the main fiber of the scheduler all
    the same. *)
Theorem root_thread_starts self threads tid size run_cb idle_cb here m :
  t_fiber m = None → t_scheduler (world m) = None → (0 < threads)%Z → (0 < tid)%Z →
  ∃ f m1 m2 idle m3,
  Scheduler_construct self threads true size run_cb m = Ret tt m1 ∧
  world m1 = MkLocal (Some self) (Some f) 0 [0%Z] (threads - 1) ∧
  call f here m1 = Ret (CtxEntry MainFunc) m2 ∧
  run_start self tid size idle_cb m2 = Ret idle m3 ∧
  tid ≠ l_rootThread (world m2) ∧ schedules self f m3.
Proof.
  intros Ht Hw Hthreads Htid.
  destruct (construct_root self threads size run_cb m Ht Hw Hthreads)
    as (f & p & m1 & F & Hrun & Hworld & Hne & Hf & HF & Hp & Hthread).
  set (m2 := MkMachine (<[p := with_ctx here Fiber_main]> (<[f := with_state EXEC F]> (fibers m1)))
    (Some f) (Some p) (sched_fiber m1) (s_fiber_id m1) (s_fiber_count m1) (world m1)).
  assert (call f here m1 = Ret (CtxEntry MainFunc) m2) as Hcall.
  { unfold call, SetThis, swapcontext, put_fiber, get_fiber. cbv [mbind M_bind mgets mmodify]. cbn.
    rw Hf. cbn. rw Hthread. cbn. rw lookup_insert_ne; [done|]. rw Hp. cbn.
    rw lookup_insert_ne; [done|]. rw lookup_insert_eq. cbn. by rw HF. }
  assert (running_exists m2) as Hr.
  { intros q [= <-]. cbn. rw lookup_insert_ne; [done|]. by rw lookup_insert_eq. }
  assert (tid ≠ l_rootThread (world m2)) as Hroot by (cbn; rw Hworld; cbn; lia).
  destruct (thread_start_ok self tid size idle_cb m2 Hr Hroot) as (idle & q & m3 & Hstart & Hsch & _ & Hq & _).
  assert (q = f) as -> by (cbn in Hq; destruct Hq; congruence).
  by exists f, m1, m2, idle, m3.
Qed.
End thread.

(** ** A new thread *)

Definition demo_thread : @Machine (does nat) Local :=
  MkMachine ∅ None None None 0 0 (MkLocal None None 0 [] 2).

Lemma thread_starts_witness : ∃ idle p m',
  run_start 1 42 131072 5 demo_thread = Ret idle m' ∧ schedules 1 p m' ∧ idle ≠ p ∧
  ∃ m'', swapIn idle CtxNone m' = Ret (CtxEntry MainFunc) m'' ∧ t_fiber m'' = Some idle.
Proof.
  assert (running_exists demo_thread) as Hr by (intros q [=]).
  assert (42%Z ≠ l_rootThread (world demo_thread)) as Hid by discriminate.
  destruct (thread_starts 1 42 131072 5 demo_thread Hr Hid)
    as (idle & p & m' & Hrun & Hsch & Hne & _ & _ & Hswap).
  exists idle, p, m'. split; [exact Hrun|]. split; [exact Hsch|]. split; [exact Hne|].
  vm_compute in Hrun. injection Hrun as <- <-.
  destruct (Hswap _ _ CtxNone Hne eq_refl ltac:(discriminate)) as (m'' & H1 & H2 & _).
  exists m''. split; [exact H1|exact H2].
Defined.

Lemma root_thread_starts_witness : ∃ f m1 m2 idle m3,
  Scheduler_construct 1 2 true 131072 5 demo_thread = Ret tt m1 ∧
  world m1 = MkLocal (Some 1) (Some f) 0 [0%Z] 1 ∧
  call f (CtxRun FThread PReturn) m1 = Ret (CtxEntry MainFunc) m2 ∧
  run_start 1 42 131072 6 m2 = Ret idle m3 ∧ 42%Z ≠ l_rootThread (world m2) ∧ schedules 1 f m3.
Proof.
  exact (root_thread_starts 1 2 42 131072 5 6 (CtxRun FThread PReturn) demo_thread eq_refl eq_refl
    eq_refl eq_refl).
Defined.
