(* ===== verification/Scheduler.v ===== *)
(** The scheduler: duan_src/scheduler.{h,cc}.

    One [Scheduler] object shared by several threads.  Its queue, counters and
    flags and the [Fiber] objects of the process are the record [Sched]; what a
    derived class or the rest of the process adds is its component [host].
    [Scheduler::run] is a loop on each thread; [worker_step] is one of the
    atomic pieces the loop is made of (the critical section that takes a task,
    entering a fiber, one effect of its code, the bookkeeping after it gave up
    the processor, one run of the idle fiber), and [sys_step] lets the threads
    take them in any order.

    The virtual functions are the class [SchedHost], with [base_host] for the
    class [Scheduler] itself. *)

From S2P Require Import Prelude.
From S2P Require Import Fiber.

(** * State *)

(** The argument of [scheduler]: a [Fiber::ptr] or a [std::function], possibly
    empty. *)
Inductive FiberOrcb := FcFiber (f : option nat) | FcCb (cb : option nat).

Record FiberAndThread := MkFiberAndThread {
  ft_fiber : option nat;
  ft_cb : option nat;
  ft_thread : Z
}.

Definition FiberAndThread_new (fc : FiberOrcb) (thread : Z) : FiberAndThread :=
  match fc with
  | FcFiber f => MkFiberAndThread f None thread
  | FcCb cb => MkFiberAndThread None cb thread
  end.

(** The constructors that take a pointer [swap] with its target, which they
    leave empty. *)
Definition FiberAndThread_swap (fc : FiberOrcb) (thread : Z) : FiberAndThread * FiberOrcb :=
  match fc with
  | FcFiber f => (MkFiberAndThread f None thread, FcFiber None)
  | FcCb cb => (MkFiberAndThread None cb thread, FcCb None)
  end.

(** [FiberAndThread()] and [FiberAndThread::reset] *)
Definition FiberAndThread_empty : FiberAndThread := MkFiberAndThread None None (-1).

Definition has_task (ft : FiberAndThread) : bool :=
  bool_decide (is_Some (ft_fiber ft)) || bool_decide (is_Some (ft_cb ft)).

Record Sched (E : Set → Type) (H : Type) := MkSched {
  m_fibers : list FiberAndThread;
  m_activeThreadCount : Z;
  m_idleThreadCount : Z;
  m_stopping : bool;
  m_autoStop : bool;
  m_rootThread : Z;
  m_rootFiber : option nat;
  m_threadIds : list Z;
  m_threadCount : Z;
  (** the system thread ids of [m_threads] *)
  m_threads : list Z;
  heap : gmap nat (Fiber E);
  last_fiber_id : Z;
  host : H
}.
Arguments MkSched {E H}.
Arguments m_fibers {E H}.
Arguments m_activeThreadCount {E H}.
Arguments m_idleThreadCount {E H}.
Arguments m_stopping {E H}.
Arguments m_autoStop {E H}.
Arguments m_rootThread {E H}.
Arguments m_rootFiber {E H}.
Arguments m_threadIds {E H}.
Arguments m_threadCount {E H}.
Arguments m_threads {E H}.
Arguments heap {E H}.
Arguments last_fiber_id {E H}.
Arguments host {E H}.

Section setters.
Context {E : Set → Type} {H : Type}.
Implicit Types s : Sched E H.

Definition set_queue (q : list FiberAndThread) s : Sched E H :=
  MkSched q (m_activeThreadCount s) (m_idleThreadCount s) (m_stopping s) (m_autoStop s)
    (m_rootThread s) (m_rootFiber s) (m_threadIds s) (m_threadCount s) (m_threads s)
    (heap s) (last_fiber_id s) (host s).
Definition set_active (n : Z) s : Sched E H :=
  MkSched (m_fibers s) n (m_idleThreadCount s) (m_stopping s) (m_autoStop s)
    (m_rootThread s) (m_rootFiber s) (m_threadIds s) (m_threadCount s) (m_threads s)
    (heap s) (last_fiber_id s) (host s).
Definition set_idle (n : Z) s : Sched E H :=
  MkSched (m_fibers s) (m_activeThreadCount s) n (m_stopping s) (m_autoStop s)
    (m_rootThread s) (m_rootFiber s) (m_threadIds s) (m_threadCount s) (m_threads s)
    (heap s) (last_fiber_id s) (host s).
Definition set_flags (stopping autoStop : bool) s : Sched E H :=
  MkSched (m_fibers s) (m_activeThreadCount s) (m_idleThreadCount s) stopping autoStop
    (m_rootThread s) (m_rootFiber s) (m_threadIds s) (m_threadCount s) (m_threads s)
    (heap s) (last_fiber_id s) (host s).
Definition set_threads (ts ids : list Z) s : Sched E H :=
  MkSched (m_fibers s) (m_activeThreadCount s) (m_idleThreadCount s) (m_stopping s)
    (m_autoStop s) (m_rootThread s) (m_rootFiber s) ids (m_threadCount s) ts
    (heap s) (last_fiber_id s) (host s).
Definition set_heap (fs : gmap nat (Fiber E)) (id : Z) s : Sched E H :=
  MkSched (m_fibers s) (m_activeThreadCount s) (m_idleThreadCount s) (m_stopping s)
    (m_autoStop s) (m_rootThread s) (m_rootFiber s) (m_threadIds s) (m_threadCount s)
    (m_threads s) fs id (host s).
Definition set_host (h : H) s : Sched E H :=
  MkSched (m_fibers s) (m_activeThreadCount s) (m_idleThreadCount s) (m_stopping s)
    (m_autoStop s) (m_rootThread s) (m_rootFiber s) (m_threadIds s) (m_threadCount s)
    (m_threads s) (heap s) (last_fiber_id s) h.

(** The atomic counters are [size_t]. *)
Definition add_active (d : Z) : M (Sched E H) unit :=
  mmodify (λ s, set_active (u64 (m_activeThreadCount s + d)) s).
Definition add_idle (d : Z) : M (Sched E H) unit :=
  mmodify (λ s, set_idle (u64 (m_idleThreadCount s + d)) s).

Definition load (f : nat) : M (Sched E H) (Fiber E) := λ s,
  match heap s !! f with
  | Some F => Ret F s
  | None => Crash (Undefined "dangling Fiber")
  end.
Definition store (f : nat) (F : Fiber E) : M (Sched E H) unit :=
  mmodify (λ s, set_heap (<[f := F]> (heap s)) (last_fiber_id s) s).

(** [new Fiber(cb)] *)
Definition make_fiber (configured : Z) (cb : option nat) : M (Sched E H) nat :=
  s ← mget;
  let p := fresh (dom (heap s)) in
  let id := u64 (last_fiber_id s + 1) in
  mmodify (set_heap (<[p := Fiber_new id configured 0 cb false]> (heap s)) id) ;;
  mret p.
End setters.

(** * The virtual functions

    [tickle], [stopping] and [idle]; [idle] is one run of the idle fiber, from
    where it starts or last yielded to where it next gives up the processor,
    and returns the state it is then in. *)
Class SchedTickle (E : Set → Type) (H : Type) := tickle : M (Sched E H) unit.
Class SchedHost (E : Set → Type) (H : Type) := {
  host_tickle :: SchedTickle E H;
  stopping : M (Sched E H) bool;
  idle : M (Sched E H) State
}.

(** What [Scheduler] relies on: they leave the counters of threads alone. *)
Class SchedHostLaws (E : Set → Type) (H : Type) `{!SchedHost E H} := {
  tickle_counts : ∀ n i,
    keeps (λ s : Sched E H, m_activeThreadCount s = n ∧ m_idleThreadCount s = i) tickle;
  idle_counts : ∀ n i,
    keeps (λ s : Sched E H, m_activeThreadCount s = n ∧ m_idleThreadCount s = i) idle
}.

(** [Scheduler::hasIdleThreads] *)
Definition hasIdleThreads {E H} (s : Sched E H) : bool :=
  bool_decide (0 < m_idleThreadCount s)%Z.

(** [Scheduler::stopping] *)
Definition Scheduler_stopping {E H} : M (Sched E H) bool :=
  mgets (λ s : Sched E H, m_autoStop s && m_stopping s && bool_decide (m_fibers s = []) &&
    bool_decide (m_activeThreadCount s = 0)%Z).

(** [Scheduler::tickle] only logs. *)
Definition Scheduler_tickle {E H} : M (Sched E H) unit := mret tt.

(** One run of [Scheduler::idle]. *)
Definition Scheduler_idle {E H} : M (Sched E H) State :=
  stop ← Scheduler_stopping (E:=E) (H:=H);
  mret (if (stop : bool) then TERM else HOLD).

Definition base_host {E H} : SchedHost E H :=
  {| host_tickle := Scheduler_tickle; stopping := Scheduler_stopping; idle := Scheduler_idle |}.

(** * Scheduling *)

Section schedule.
Context {E : Set → Type} {H : Type} `{!SchedTickle E H}.

(** [Scheduler::scheduleNoLock] *)
Definition push (ft : FiberAndThread) : M (Sched E H) bool :=
  need_tickle ← mgets (λ s : Sched E H, bool_decide (m_fibers s = []));
  mwhen (has_task ft) (mmodify (λ s, set_queue (m_fibers s ++ [ft]) s)) ;;
  mret need_tickle.
Definition scheduleNoLock (fc : FiberOrcb) (thread : Z) : M (Sched E H) bool :=
  push (FiberAndThread_new fc thread).
Definition scheduleNoLock_ptr (fc : FiberOrcb) (thread : Z) :
    M (Sched E H) (bool * FiberOrcb) :=
  let '(ft, rest) := FiberAndThread_swap fc thread in
  need_tickle ← push ft; mret (need_tickle, rest).

(** [Scheduler::scheduler(fc, thread)] *)
Definition scheduler (fc : FiberOrcb) (thread : Z) : M (Sched E H) unit :=
  need_tickle ← scheduleNoLock fc thread;
  mwhen need_tickle tickle.

(** [Scheduler::scheduler(begin, end)]: returns what is left in the range. *)
Fixpoint schedule_range (fcs : list FiberOrcb) (need_tickle : bool) :
    M (Sched E H) (bool * list FiberOrcb) :=
  match fcs with
  | [] => mret (need_tickle, [])
  | fc :: fcs' =>
      r ← scheduleNoLock_ptr fc (-1);
      r' ← schedule_range fcs' (r.1 || need_tickle);
      mret (r'.1, r.2 :: r'.2)
  end.
Definition scheduler_range (fcs : list FiberOrcb) : M (Sched E H) (list FiberOrcb) :=
  r ← schedule_range fcs false;
  mwhen r.1 tickle ;;
  mret r.2.

End schedule.

(** * The loop of [Scheduler::run] *)

Section run.
Context {E : Set → Type} {H : Type} `{!SchedHost E H}.
Context (code : nat → prog E) (handle : ∀ A, E A → M (Sched E H) A).
(** The value of "fiber.stack_size". *)
Context (stack_size : Z).

(** The scan of the queue, under the lock, by the thread [tid]: the task taken,
    the queue it leaves and [tickle_me]. *)
Fixpoint scan (tid : Z) (st : nat → option State) (q : list FiberAndThread) :
    sum fault (option FiberAndThread * list FiberAndThread * bool) :=
  match q with
  | [] => inr (None, [], false)
  | ft :: q' =>
      if negb (bool_decide (ft_thread ft = -1)%Z) && negb (bool_decide (ft_thread ft = tid))
      then
        match scan tid st q' with
        | inl e => inl e
        | inr (r, rest, _) => inr (r, ft :: rest, true)
        end
      else if negb (has_task ft) then inl (AssertFailed "it->fiber || it->cb")
      else
        let skip := match scan tid st q' with
          | inl e => inl e
          | inr (r, rest, tickle_me) => inr (r, ft :: rest, tickle_me)
          end in
        match ft_fiber ft with
        | Some f =>
            match st f with
            | None => inl (Undefined "dangling Fiber")
            | Some EXEC => skip
            | Some _ => inr (Some ft, q', false)
            end
        | None => inr (Some ft, q', false)
        end
  end.

Inductive kind := KFiber | KCb.

(** Where a thread is in its loop. *)
Inductive pc :=
  | PcScan
  | PcDispatch (ft : FiberAndThread) (tickle_me is_active : bool)
  | PcRun (k : kind) (f : nat) (p : prog E)
  | PcAfter (k : kind) (f : nat)
  | PcIdle
  | PcDone.

(** The locals of [run] on one thread; [idle_fiber] is represented by its
    state. *)
Record Worker := MkWorker {
  w_tid : Z;
  cb_fiber : option nat;
  idle_state : State;
  w_pc : pc
}.
Definition goto (p : pc) (w : Worker) : Worker :=
  MkWorker (w_tid w) (cb_fiber w) (idle_state w) p.

(** The critical section. *)
Definition run_scan (tid : Z) : M (Sched E H) pc :=
  s ← mget;
  match scan tid (λ f, m_state <$> heap s !! f) (m_fibers s) with
  | inl e => mcrash e
  | inr (Some ft, rest, tickle_me) =>
      mmodify (set_queue rest) ;; add_active 1 ;;
      mret (PcDispatch ft tickle_me true)
  | inr (None, _, tickle_me) => mret (PcDispatch FiberAndThread_empty tickle_me false)
  end.

(** [f->swapIn()], up to the switch. *)
Definition swap_in (k : kind) (f : nat) : M (Sched E H) pc :=
  F ← load f;
  F1 ← fiber_enter F;
  store f F1 ;;
  match m_ctx F1 with
  | CtxEntry MainFunc =>
      match m_cb F1 with
      | Some cb => mret (PcRun k f (code cb))
      | None => store f (suspend f F1 (EXCEPT, None)) ;; mret (PcAfter k f)
      end
  | CtxRun (FBody MainFunc _) p => mret (PcRun k f p)
  | CtxDead => mcrash (AssertFailed "never reach")
  | _ => mcrash (Undefined "context of a thread")
  end.

(** One action of the code of the fiber [f]. *)
Definition run_body (k : kind) (f : nat) (p : prog E) : M (Sched E H) pc :=
  match p with
  | PDo e q => a ← handle _ e; mret (PcRun k f (q a))
  | _ =>
      r ← resume handle p;
      F ← load f;
      store f (suspend f F r) ;;
      mret (PcAfter k f)
  end.

(** The condition [m_state != TERM || m_state != EXCEPT], as written. *)
Definition may_run (st : State) : bool :=
  negb (bool_decide (st = TERM)) || negb (bool_decide (st = EXCEPT)).

(** After the critical section: [tickle_me], and the branch on the task. *)
Definition dispatch (w : Worker) (ft : FiberAndThread) (tickle_me is_active : bool) :
    M (Sched E H) Worker :=
  mwhen tickle_me tickle ;;
  runnable ← (match ft_fiber ft with
    | Some f => F ← load f; mret (if may_run (m_state F) then Some f else None)
    | None => mret None
    end);
  match runnable, ft_cb ft with
  | Some f, _ =>
      add_active 1 ;;
      p ← swap_in KFiber f; mret (goto p w)
  | None, Some cb =>
      f ← (match cb_fiber w with
        | Some f => F ← load f; F' ← Fiber_reset (Some cb) F; store f F' ;; mret f
        | None => make_fiber stack_size (Some cb)
        end);
      p ← swap_in KCb f;
      mret (MkWorker (w_tid w) (Some f) (idle_state w) p)
  | None, None =>
      if is_active then add_active (-1) ;; mret (goto PcScan w)
      else if bool_decide (idle_state w = TERM) then tickle ;; mret (goto PcDone w)
      else
        add_idle 1 ;;
        (if bool_decide (idle_state w = EXCEPT)
         then mcrash (AssertFailed "never reach") else mret tt) ;;
        mret (goto PcIdle w)
  end.

(** After [swapIn] has come back. *)
Definition after_fiber (w : Worker) (f : nat) : M (Sched E H) Worker :=
  add_active (-1) ;;
  F ← load f;
  (if bool_decide (m_state F = READY) then scheduler (FcFiber (Some f)) (-1)
   else if bool_decide (m_state F ≠ TERM) && bool_decide (m_state F ≠ EXCEPT)
     then store f (with_state HOLD F) else mret tt) ;;
  mret (goto PcScan w).

Definition after_cb (w : Worker) (f : nat) : M (Sched E H) Worker :=
  add_active (-1) ;;
  F ← load f;
  if bool_decide (m_state F = READY) then
    scheduler (FcFiber (Some f)) (-1) ;;
    mret (MkWorker (w_tid w) None (idle_state w) PcScan)
  else if bool_decide (m_state F = EXCEPT) || bool_decide (m_state F = TERM) then
    F' ← Fiber_reset None F; store f F' ;; mret (goto PcScan w)
  else
    store f (with_state HOLD F) ;;
    mret (MkWorker (w_tid w) None (idle_state w) PcScan).

Definition run_idle (w : Worker) : M (Sched E H) Worker :=
  st ← idle;
  add_idle (-1) ;;
  let st' := if bool_decide (st ≠ TERM) && bool_decide (st ≠ EXCEPT) then HOLD else st in
  mret (MkWorker (w_tid w) (cb_fiber w) st' PcScan).

Definition worker_step (w : Worker) : M (Sched E H) Worker :=
  match w_pc w with
  | PcScan => p ← run_scan (w_tid w); mret (goto p w)
  | PcDispatch ft tickle_me is_active => dispatch w ft tickle_me is_active
  | PcRun k f p => p' ← run_body k f p; mret (goto p' w)
  | PcAfter KFiber f => after_fiber w f
  | PcAfter KCb f => after_cb w f
  | PcIdle => run_idle w
  | PcDone => mret w
  end.

(** The start of [Scheduler::run] on the thread [tid]. *)
Definition Worker_new (tid : Z) : Worker := MkWorker tid None INIT PcScan.

(** [n] pieces of the loop on one thread. *)
Fixpoint worker_run (n : nat) (w : Worker) : M (Sched E H) Worker :=
  match n with
  | 0 => mret w
  | S n' => w' ← worker_step w; worker_run n' w'
  end.
End run.

(** * Construction, [start] and [stop] *)

Section control.
Context {E : Set → Type} {H : Type} `{!SchedHost E H}.

(** [Scheduler(threads, use_caller, name)] on a thread whose running fiber has
    the id [fiber_id] (0 for its main fiber) and which already has a scheduler
    if [t_scheduler]; [run_cb] is the function bound to [run]. *)
Definition Scheduler_new (threads : Z) (use_caller : bool) (fiber_id : Z)
    (t_scheduler : bool) (stack_size : Z) (run_cb : nat) : M (Sched E H) unit :=
  massert (bool_decide (0 < threads)%Z) "threads > 0" ;;
  (if use_caller then
     massert (negb t_scheduler) "GetThis() == nullptr" ;;
     f ← make_fiber stack_size (Some run_cb);
     let root := i32 (u32 fiber_id) in
     mmodify (λ s, MkSched [] 0 0 true false root (Some f) [root] (threads - 1) []
       (heap s) (last_fiber_id s) (host s))
   else
     mmodify (λ s, MkSched [] 0 0 true false (-1) None [] threads []
       (heap s) (last_fiber_id s) (host s))).

(** [Scheduler::~Scheduler] *)
Definition Scheduler_delete : M (Sched E H) unit :=
  b ← mgets m_stopping; massert b "m_stopping".

(** [Scheduler::start]; [tids] are the ids the system gives to the threads it
    creates. *)
Definition start (tids : list Z) : M (Sched E H) unit :=
  s ← mget;
  if negb (m_stopping s) then mret tt
  else
    mmodify (λ s, set_flags false (m_autoStop s) s) ;;
    massert (bool_decide (m_threads s = [])) "m_threads.empty()" ;;
    let ts := take (Z.to_nat (m_threadCount s)) tids in
    mmodify (λ s, set_threads ts (m_threadIds s ++ ts) s).

(** [Scheduler::stop] up to where it switches or waits: it has returned, or it
    calls [m_rootFiber], or it goes on to join the threads. *)
Inductive stop_next := StopReturned | StopCallRoot (f : nat) | StopJoin.

Definition stop (this_is_current : bool) : M (Sched E H) stop_next :=
  mmodify (λ s, set_flags (m_stopping s) true s) ;;
  s ← mget;
  st ← (match m_rootFiber s with
    | Some f => F ← load f; mret (Some (m_state F))
    | None => mret None
    end);
  let early := bool_decide (m_threadCount s = 0)%Z &&
    (bool_decide (st = Some TERM) || bool_decide (st = Some INIT)) in
  mwhen early (mmodify (λ s, set_flags true (m_autoStop s) s)) ;;
  over ← (if early then stopping else mret false);
  if (over : bool) then mret StopReturned
  else
    massert (if bool_decide (m_rootThread s ≠ -1)%Z then this_is_current
             else negb this_is_current) "GetThis() == this" ;;
    mmodify (λ s, set_flags true (m_autoStop s) s) ;;
    miter (λ _, tickle) (seq 0 (Z.to_nat (m_threadCount s))) ;;
    match m_rootFiber s with
    | Some f => tickle ;; b ← stopping; mret (if (b : bool) then StopJoin else StopCallRoot f)
    | None => mret StopJoin
    end.

(** Its last part: the threads it waits for. *)
Definition stop_join : M (Sched E H) (list Z) :=
  thrs ← mgets m_threads;
  mmodify (λ s, set_threads [] (m_threadIds s) s) ;;
  mret thrs.
End control.

(** * Threads together *)

Section system.
Context {E : Set → Type} {H : Type} `{!SchedHost E H}.
Context (code : nat → prog E) (handle : ∀ A, E A → M (Sched E H) A).
Context (stack_size : Z).

(** One thread's piece of its loop, or a call from outside the loops; the label
    counts the fiber tasks whose run has been accounted for. *)
Definition completes (w : Worker (E:=E)) : nat :=
  match w_pc w with PcAfter KFiber _ => 1 | _ => 0 end.

Inductive sys_step : nat → Sched E H * list Worker → Sched E H * list Worker → Prop :=
  | Sys_worker i w w' s s' ws :
      ws !! i = Some w →
      worker_step code handle stack_size w s = Ret w' s' →
      sys_step (completes w) (s, ws) (s', <[i := w']> ws)
  | Sys_spawn tid s ws :
      sys_step 0 (s, ws) (s, ws ++ [Worker_new tid])
  | Sys_schedule fc thread s s' ws :
      scheduler fc thread s = Ret tt s' →
      sys_step 0 (s, ws) (s', ws)
  | Sys_schedule_range fcs rest s s' ws :
      scheduler_range fcs s = Ret rest s' →
      sys_step 0 (s, ws) (s', ws)
  | Sys_stop b r s s' ws :
      stop b s = Ret r s' →
      sys_step 0 (s, ws) (s', ws).

Inductive sys_steps : nat → Sched E H * list Worker → Sched E H * list Worker → Prop :=
  | Sys_refl c : sys_steps 0 c c
  | Sys_step n m c c1 c2 :
      sys_steps n c c1 → sys_step m c1 c2 → sys_steps (n + m) c c2.

(** The threads take their steps in the order of a schedule, from [n] completed
    fiber tasks on. *)
Fixpoint sys_run (order : list nat) (n : nat) (s : Sched E H) (ws : list Worker) :
    option (nat * Sched E H * list Worker) :=
  match order with
  | [] => Some (n, s, ws)
  | i :: order' =>
      match ws !! i with
      | Some w =>
          match worker_step code handle stack_size w s with
          | Ret w' s' => sys_run order' (n + completes w) s' (<[i := w']> ws)
          | _ => None
          end
      | None => None
      end
  end.
End system.

(** * Specification vocabulary *)

(** What the thread [w] has added to [m_activeThreadCount] and not yet taken
    away. *)
Definition weight {E} (w : Worker (E:=E)) : Z :=
  (match w_pc w with
   | PcDispatch _ _ is_active => if is_active then 1 else 0
   | PcRun KFiber _ _ | PcAfter KFiber _ => 2
   | PcRun KCb _ _ | PcAfter KCb _ => 1
   | PcScan | PcIdle | PcDone => 0
   end)%Z.
Definition weights {E} (ws : list (Worker (E:=E))) : Z :=
  foldr (λ w n, weight w + n)%Z 0%Z ws.

(** A thread that took something from the queue is active. *)
Definition dispatch_ok {E} (w : Worker (E:=E)) : Prop :=
  match w_pc w with
  | PcDispatch ft _ is_active => is_active = has_task ft
  | _ => True
  end.

(** Whether the thread [tid] takes [ft] from the queue. *)
Definition eligible (tid : Z) (st : nat → option State) (ft : FiberAndThread) : Prop :=
  (ft_thread ft = (-1)%Z ∨ ft_thread ft = tid) ∧
  (∀ f, ft_fiber ft = Some f → st f ≠ Some EXEC).

(** The code only performs effects; it does not yield. *)
Fixpoint ends {E} (p : prog E) : Prop :=
  match p with
  | PReturn | PThrow _ => True
  | PDo _ k => ∀ a, ends (k a)
  | _ => False
  end.
Fixpoint effects {E : Set → Type} {H : Type} (h : ∀ A, E A → H → A * H) (p : prog E) (x : H) : H :=
  match p with PDo e k => let '(a, x') := h _ e x in effects h (k a) x' | _ => x end.
Definition host_effect {E : Set → Type} {H : Type} (h : ∀ A, E A → H → A * H) (A : Set) (e : E A) :
    M (Sched E H) A :=
  λ s, let '(a, x) := h _ e (host s) in Ret a (set_host x s).

(** A thread at the top of its loop whose [cb_fiber], if any, can be reset. *)
Definition settled {E H} (w : Worker (E:=E)) (s : Sched E H) : Prop :=
  w_pc w = PcScan ∧ idle_state w ∈ [INIT; HOLD] ∧
  ∀ f, cb_fiber w = Some f →
    ∃ F, heap s !! f = Some F ∧ m_stack F = true ∧ m_state F = INIT.

(** A queued callback that the thread [tid] may run and that runs to its end. *)
Definition plain_callback {E} (code : nat → prog E) (tid : Z) (ft : FiberAndThread) : Prop :=
  ft_fiber ft = None ∧ (ft_thread ft = (-1)%Z ∨ ft_thread ft = tid) ∧
  ∃ cb, ft_cb ft = Some cb ∧ ends (code cb).

(** The effects of a queue of callbacks, in its order. *)
Definition queue_effects {E H} (code : nat → prog E) (h : ∀ A, E A → H → A * H) :
    H → list FiberAndThread → H :=
  foldl (λ x ft, match ft_cb ft with Some cb => effects h (code cb) x | None => x end).

(** [ft] is pinned to a thread other than [tid]. *)
Definition elsewhere (tid : Z) (ft : FiberAndThread) : Prop :=
  ft_thread ft ≠ (-1)%Z ∧ ft_thread ft ≠ tid.

(** The scan takes the first eligible task, keeps the others in their order,
    and reports whether it passed a task pinned elsewhere. *)
Definition scan_result (tid : Z) (st : nat → option State) (q : list FiberAndThread)
    (r : option FiberAndThread) (rest : list FiberAndThread) (tickle_me : bool) : Prop :=
  ∃ passed, Forall (λ x, ¬ eligible tid st x) passed ∧
    (tickle_me = true ↔ Exists (elsewhere tid) passed) ∧
    match r with
    | Some ft => has_task ft = true ∧ eligible tid st ft ∧
        ∃ q2, q = passed ++ ft :: q2 ∧ rest = passed ++ q2
    | None => q = passed ∧ rest = passed
    end.

(** ** A small process for the examples: fiber 1 runs the code 0, and the host is
    a log of effects. *)
Definition demo_code (body : prog (does nat)) : nat → prog (does nat) := λ _, body.
Definition demo_append (A : Set) (e : does nat A) (log : list nat) : A * list nat :=
  match e with Does x => (tt, log ++ [x]) end.
Definition demo_log : ∀ A : Set, does nat A → M (Sched (does nat) (list nat)) A :=
  host_effect demo_append.
Definition demo (q : list FiberAndThread) : Sched (does nat) (list nat) :=
  MkSched q 0 0 true true 0 None [] 2 []
    {[1 := Fiber_new 1 131072 0 (Some 0) false]} 1 [].
Definition fiber_task (f : nat) : FiberAndThread := MkFiberAndThread (Some f) None (-1).
Definition cb_task (cb : nat) : FiberAndThread := MkFiberAndThread None (Some cb) (-1).

(** * The queue *)

Lemma scan_result_skip tid st x q r rest tm tm' :
  ¬ eligible tid st x → (tm' = true ↔ elsewhere tid x ∨ tm = true) →
  scan_result tid st q r rest tm → scan_result tid st (x :: q) r (x :: rest) tm'.
Proof.
  intros Hx Htm (passed & Hp & Ht & Hr). exists (x :: passed).
  split; [by constructor|]. split; [by rw Exists_cons Htm Ht|].
  destruct r as [ft|]; [|by destruct Hr as [-> ->]].
  destruct Hr as (? & ? & q2 & -> & ->). eauto 10.
Qed.

Lemma scan_result_take tid st ft q :
  has_task ft = true → eligible tid st ft → scan_result tid st (ft :: q) (Some ft) q false.
Proof.
  intros Ht He. exists []. split; [constructor|]. rw Exists_nil. split; [done|]. eauto.
Qed.

Lemma scan_spec tid st q : ∀ r rest tm,
  scan tid st q = inr (r, rest, tm) → scan_result tid st q r rest tm.
Proof.
  induction q as [|ft q IH]; intros r rest tm; simpl.
  { intros [= <- <- <-]. exists []. split; [constructor|]. by rw Exists_nil. }
  destruct (bool_decide (ft_thread ft = -1)%Z) eqn:H1; simpl.
  2: destruct (bool_decide (ft_thread ft = tid)) eqn:H2; simpl.
  3: { apply bool_decide_eq_false in H1, H2.
       destruct (scan tid st q) as [|[[r' rest'] tm']]; [done|]. intros [= <- <- <-].
       eapply scan_result_skip; [by intros [[] _]| |by apply IH].
       unfold elsewhere. tauto. }
  all: assert (ft_thread ft = (-1)%Z ∨ ft_thread ft = tid) as Hmine
    by (first [apply bool_decide_eq_true in H2 | apply bool_decide_eq_true in H1]; tauto).
  all: destruct (has_task ft) eqn:Hht; simpl; [|done].
  all: destruct (ft_fiber ft) as [f|] eqn:Hf;
    [|intros [= <- <- <-]; apply scan_result_take; [done|split; [done|congruence]]].
  all: destruct (st f) as [[]|] eqn:Hst; try done;
    try (intros [= <- <- <-]; apply scan_result_take; [done|split; [done|congruence]]).
  all: destruct (scan tid st q) as [|[[r' rest'] tm']]; [done|]; intros [= <- <- <-].
  all: eapply scan_result_skip; [by intros [_ He]; eapply He| |by apply IH].
  all: unfold elsewhere; naive_solver.
Qed.

Lemma scan_total tid st q :
  Forall (λ ft, has_task ft = true ∧ ∀ f, ft_fiber ft = Some f → is_Some (st f)) q →
  ∀ e, scan tid st q ≠ inl e.
Proof.
  induction 1 as [|ft q [Hht Hf] _ IH]; intros e; simpl; [done|]. rw Hht. cbn.
  destruct (scan tid st q) as [e'|[[]]]; [by destruct (IH e')|].
  destruct (negb _ && negb _); [done|]. destruct (ft_fiber ft) as [f|]; [|done].
  destruct (Hf f eq_refl) as [x ->]. by destruct x.
Qed.

(** * The counter of active threads *)

Section active_count.
Context {E : Set → Type} {H : Type} `{!SchedHost E H, !SchedHostLaws E H}.
Context (code : nat → prog E) (handle : ∀ A, E A → M (Sched E H) A) (stack_size : Z).
Hypothesis handle_counts : ∀ A (e : E A) n i,
  keeps (λ s, m_activeThreadCount s = n ∧ m_idleThreadCount s = i) (handle _ e).

Definition act (n : Z) (s : Sched E H) : Prop := m_activeThreadCount s = u64 n.

Lemma counts_act {A} n (m : M (Sched E H) A) :
  (∀ k i, keeps (λ s, m_activeThreadCount s = k ∧ m_idleThreadCount s = i) m) →
  keeps (act n) m.
Proof.
  intros Hm s Hs. specialize (Hm _ _ s (conj Hs eq_refl)).
  by destruct (m s); [destruct Hm..|].
Qed.

Lemma act_tickle n : keeps (act n) tickle.
Proof. apply counts_act, tickle_counts. Qed.
Lemma act_idle n : keeps (act n) idle.
Proof. apply counts_act, idle_counts. Qed.
Lemma act_handle n A (e : E A) : keeps (act n) (handle _ e).
Proof. apply counts_act, handle_counts. Qed.
Lemma act_load n f : keeps (act n) (load f).
Proof. intros s Hs. unfold load. by destruct (heap s !! f). Qed.
Lemma act_store n f F : keeps (act n) (store f F).
Proof. by apply keeps_modify. Qed.
Lemma act_make n size cb : keeps (act n) (make_fiber size cb).
Proof. by intros s Hs. Qed.
Lemma act_add_idle n d : keeps (act n) (add_idle d).
Proof. by apply keeps_modify. Qed.
Lemma act_add n d : triple (act n) (add_active d) (λ _, act (n + d)).
Proof. apply triple_modify. unfold act. intros s Hs. cbn. by rw Hs u64_add_l. Qed.
Lemma act_resume n p : keeps (act n) (resume handle p).
Proof.
  induction p; try apply keeps_ret; try apply keeps_crash.
  apply keeps_bind; [apply act_handle|done].
Qed.
Lemma act_enter n (F : Fiber E) : keeps (act n) (fiber_enter F).
Proof. apply keeps_bind; [apply keeps_assert|intros; apply keeps_ret]. Qed.
Lemma act_reset n cb (F : Fiber E) : keeps (act n) (Fiber_reset cb F).
Proof. repeat first [apply keeps_bind; [|intros] | apply keeps_assert | apply keeps_ret]. Qed.
Lemma act_push n ft : keeps (act n) (push ft).
Proof.
  apply keeps_bind; [apply keeps_gets|]. intros b.
  apply keeps_bind; [|intros; apply keeps_ret]. by apply keeps_when, keeps_modify.
Qed.
Lemma act_scheduler n fc thread : keeps (act n) (scheduler fc thread).
Proof.
  apply keeps_bind; [apply act_push|]. intros b. apply keeps_when, act_tickle.
Qed.

#[local] Hint Resolve act_tickle act_idle act_handle act_load act_store act_make
  act_add_idle act_resume act_enter act_reset act_push act_scheduler : duan.
#[local] Hint Extern 1 (keeps (act _) (match ?x with _ => _ end)) => destruct x : duan.
#[local] Hint Extern 1 (keeps (act _) (if ?x then _ else _)) => destruct x : duan.

Lemma act_schedule_range n fcs : ∀ b, keeps (act n) (schedule_range fcs b).
Proof.
  induction fcs as [|fc fcs IH]; intros b; [apply keeps_ret|].
  apply keeps_bind; [|auto with duan]. destruct fc; cbn; auto with duan.
Qed.

(** The state of a thread between two pieces, given what it has added. *)
Definition after_step n (w : Worker (E:=E)) (s : Sched E H) : Prop :=
  act (n + weight w) s ∧ dispatch_ok w.

Lemma act_scan n tid :
  triple (act n) (run_scan tid) (λ p s, ∀ w, after_step n (goto p w) s).
Proof.
  intros s Hs. unfold run_scan. mrun.
  destruct (scan _ _ _) as [|[[[ft|] rest] tm]] eqn:Hscan; [done|..].
  - apply scan_spec in Hscan as (? & _ & _ & Ht & _). mrun. intros w.
    split; [|done]. unfold act. cbn. by rw Hs u64_add_l.
  - mrun. intros w. split; [|done]. cbn. by rw Z.add_0_r.
Qed.

Lemma act_swap_in n k f :
  triple (act n) (swap_in code k f)
    (λ p s, act n s ∧ ((∃ q, p = PcRun k f q) ∨ p = PcAfter k f)).
Proof.
  eapply triple_bind; [apply triple_keeps, act_load|]. intros F.
  eapply triple_bind; [apply triple_keeps, act_enter|]. intros F1.
  eapply triple_bind; [apply triple_keeps, act_store|]. intros [].
  destruct (m_ctx F1) as [|[]|[|[] g] p|]; try apply triple_crash;
    [destruct (m_cb F1)|]; try (apply triple_ret; eauto).
  eapply triple_bind; [apply triple_keeps, act_store|]. intros []. apply triple_ret; eauto.
Qed.

Lemma act_body n k f p :
  triple (act n) (run_body handle k f p)
    (λ p s, act n s ∧ ((∃ q, p = PcRun k f q) ∨ p = PcAfter k f)).
Proof.
  assert (triple (act n) (r ← resume handle p; F ← load f;
      store f (suspend f F r) ;; mret (PcAfter (E:=E) k f))
    (λ p s, act n s ∧ ((∃ q, p = PcRun k f q) ∨ p = PcAfter k f))) as Hend.
  { eapply triple_bind; [apply triple_keeps, act_resume|]. intros r.
    eapply triple_bind; [apply triple_keeps, act_load|]. intros F.
    eapply triple_bind; [apply triple_keeps, act_store|]. intros []. apply triple_ret; auto. }
  destruct p; try exact Hend.
  eapply triple_bind; [apply triple_keeps, act_handle|]. intros a. apply triple_ret; eauto.
Qed.

Lemma act_runnable n ft :
  triple (act n)
    (match ft_fiber ft with
     | Some f => F ← load f; mret (if may_run (m_state F) then Some f else None)
     | None => mret None
     end)
    (λ r s, act n s ∧ (is_Some r → has_task ft = true)).
Proof.
  unfold has_task. destruct (ft_fiber ft) as [f|].
  - eapply triple_bind; [apply triple_keeps, act_load|]. intros F. by apply triple_ret.
  - apply triple_ret. intros s Hs. split; [done|]. by intros [? ?].
Qed.

Lemma act_cb_fiber n (o : option nat) cb :
  keeps (act n)
    (match o with
     | Some f => F ← load f; F' ← Fiber_reset (Some cb) F; store f F' ;; mret f
     | None => make_fiber stack_size (Some cb)
     end).
Proof. destruct o; auto 8 with duan. Qed.

Lemma act_dispatch n w ft tm b :
  b = has_task ft →
  triple (act (n + if b then 1 else 0)%Z) (dispatch code stack_size w ft tm b)
    (λ w', after_step n w').
Proof.
  intros ->. unfold dispatch.
  eapply triple_bind; [apply triple_keeps; auto with duan|]. intros [].
  eapply triple_bind; [apply act_runnable|]. intros r.
  destruct r as [f|].
  { intros s [Hs Hb]. rw (Hb (mk_is_Some _ _ eq_refl)) in Hs. clear Hb. revert s Hs.
    change (triple (act (n + 1)) (add_active 1;; p ← swap_in code KFiber f; mret (goto p w))
      (λ w', after_step n w')).
    eapply triple_bind; [apply act_add|]. intros [].
    eapply triple_bind; [apply act_swap_in|]. intros p. apply triple_ret.
    intros s [Hs Hp]. replace (n + 1 + 1)%Z with (n + 2)%Z in Hs by lia.
    by destruct Hp as [[q ->]| ->]. }
  destruct (ft_cb ft) as [cb|] eqn:Hcb.
  - assert (has_task ft = true) as ->.
    { unfold has_task. rw Hcb. by apply orb_true_r. }
    eapply triple_bind; [eapply triple_conseq; [apply triple_keeps, act_cb_fiber| |];
      [by intros s [Hs _]; exact Hs|done]|]. intros f. simpl.
    eapply triple_bind; [apply act_swap_in|]. intros p. apply triple_ret.
    intros s [Hs Hp]. by destruct Hp as [[q ->]| ->].
  - destruct (has_task ft).
    { eapply triple_bind.
      - eapply triple_conseq; [apply act_add| |]; [by intros s [Hs _]; exact Hs|done].
      - intros []. apply triple_ret. intros s Hs. split; [|done].
        unfold act in *. rw Hs. f_equal. cbn [weight goto w_pc]. lia. }
    eapply triple_conseq with (P' := act n); [|intros s [Hs _]; by rw Z.add_0_r in Hs|done].
    assert (∀ s w', act n s → weight w' = 0%Z → dispatch_ok w' → after_step n w' s) as Hdone.
    { intros s w' Hs Hw Hok. split; [|done]. by rw Hw Z.add_0_r. }
    destruct (bool_decide (idle_state w = TERM)).
    + eapply triple_bind; [apply triple_keeps, act_tickle|]. intros []. apply triple_ret. intros s Hs. by apply Hdone.
    + eapply triple_bind; [apply triple_keeps, act_add_idle|]. intros [].
      eapply triple_bind; [apply triple_keeps; destruct (bool_decide _); auto with duan|].
      intros []. apply triple_ret. intros s Hs. by apply Hdone.
Qed.

Lemma act_after_fiber n w f :
  triple (act (n + 2)) (after_fiber w f) (λ w', after_step (n + 1) w').
Proof.
  eapply triple_bind; [apply act_add|]. intros [].
  replace (n + 2 + -1)%Z with (n + 1)%Z by lia.
  eapply triple_bind; [apply triple_keeps, act_load|]. intros F.
  eapply triple_bind; [apply triple_keeps; auto with duan|]. intros [].
  apply triple_ret. intros s Hs. split; [|done]. simpl. by rw Z.add_0_r.
Qed.

Lemma act_after_cb n w f :
  triple (act (n + 1)) (after_cb w f) (λ w', after_step n w').
Proof.
  eapply triple_bind; [apply act_add|]. intros [].
  replace (n + 1 + -1)%Z with n by lia.
  assert (∀ s w', act n s → w_pc w' = PcScan → after_step n w' s) as Hdone.
  { intros s w' Hs Hw. unfold after_step, dispatch_ok, weight. rw Hw. by rw Z.add_0_r. }
  eapply triple_bind; [apply triple_keeps, act_load|]. intros F.
  destruct (bool_decide (m_state F = READY)).
  { eapply triple_bind; [apply triple_keeps, act_scheduler|]. intros [].
    apply triple_ret; auto. }
  destruct (_ || _).
  { eapply triple_bind; [apply triple_keeps, act_reset|]. intros F'.
    eapply triple_bind; [apply triple_keeps, act_store|]. intros []. apply triple_ret; auto. }
  eapply triple_bind; [apply triple_keeps, act_store|]. intros []. apply triple_ret; auto.
Qed.

(** Each piece of the loop changes the counter by what it changes the thread's
    own share, and by one more when it completes a fiber task. *)
Lemma act_worker_step n w :
  dispatch_ok w →
  triple (act (n + weight w)) (worker_step code handle stack_size w)
    (λ w', after_step (n + Z.of_nat (completes w)) w').
Proof.
  intros Hok. unfold worker_step, weight, completes, dispatch_ok in *.
  destruct (w_pc w) as [|ft tm b|k f p|[] f| |] eqn:Hpc; rw ?Z.add_0_r.
  - eapply triple_bind; [apply act_scan|]. intros p. apply triple_ret. auto.
  - by apply act_dispatch.
  - eapply triple_bind; [apply act_body|]. intros q. apply triple_ret.
    intros s [Hs Hp]. by destruct Hp as [[q' ->]| ->], k.
  - apply act_after_fiber.
  - apply act_after_cb.
  - eapply triple_bind; [apply triple_keeps, act_idle|]. intros st.
    eapply triple_bind; [apply triple_keeps, act_add_idle|]. intros [].
    apply triple_ret. intros s Hs. split; [|done]. simpl. by rw Z.add_0_r.
  - apply triple_ret. intros s Hs. unfold after_step, weight, dispatch_ok.
    by rw Hpc Z.add_0_r.
Qed.

Lemma weights_insert ws i w w' :
  ws !! i = Some w →
  weights (<[i := w']> ws) = (weights ws - weight w + weight (E:=E) w')%Z.
Proof.
  revert i. induction ws as [|x ws IH]; intros [|i] Hi; simplify_eq/=; [lia|].
  rw (IH i Hi). lia.
Qed.

Lemma weights_snoc ws (w : Worker (E:=E)) : weights (ws ++ [w]) = (weights ws + weight w)%Z.
Proof. induction ws as [|x ws IH]; simpl; lia. Qed.

(** The counter against the threads, after [n] completed fiber tasks. *)
Definition count_inv (n : nat) (c : Sched E H * list (Worker (E:=E))) : Prop :=
  act (weights c.2 + Z.of_nat n) c.1 ∧ Forall dispatch_ok c.2.

Lemma act_stop n b :
  keeps (act n) stopping → keeps (act n) (stop b).
Proof.
  intros Hst.
  apply keeps_bind; [by apply keeps_modify|]. intros _.
  apply keeps_bind; [apply keeps_get|]. intros s.
  apply keeps_bind; [destruct (m_rootFiber s); auto with duan|]. intros st.
  apply keeps_bind; [by apply keeps_when, keeps_modify|]. intros _.
  apply keeps_bind; [destruct (_ && _); auto with duan|]. intros [|]; [apply keeps_ret|].
  apply keeps_bind; [apply keeps_assert|]. intros _.
  apply keeps_bind; [by apply keeps_modify|]. intros _.
  apply keeps_bind; [apply keeps_iter; auto with duan|]. intros _.
  destruct (m_rootFiber s); auto with duan.
Qed.

Lemma act_scheduler_range n fcs : keeps (act n) (scheduler_range fcs).
Proof.
  apply keeps_bind; [apply act_schedule_range|]. intros r.
  apply keeps_bind; [apply keeps_when, act_tickle|]. intros _. apply keeps_ret.
Qed.

Lemma count_inv_step n m c c' :
  (∀ k, keeps (act k) stopping) →
  count_inv n c → sys_step code handle stack_size m c c' → count_inv (n + m) c'.
Proof.
  intros Hst [Ha Hok] Hstep.
  destruct Hstep as [i w w' s s' ws Hi Hs|tid s ws|fc t s s' ws Hs|fcs r s s' ws Hs|b r s s' ws Hs];
    cbn [fst snd] in *; rw ?Nat.add_0_r.
  - assert (dispatch_ok w) as Hw by by eapply Forall_lookup_1.
    pose proof (act_worker_step (weights ws - weight w + Z.of_nat n) w Hw s) as H1.
    rw Hs in H1. destruct H1 as [H1 H2].
    { by replace (_ + weight w)%Z with (weights ws + Z.of_nat n)%Z by lia. }
    split; cbn [fst snd]; [|by apply Forall_insert].
    rw (weights_insert ws i w w' Hi).
    by replace (_ + Z.of_nat (n + _))%Z with
      (weights ws - weight w + Z.of_nat n + Z.of_nat (completes w) + weight w')%Z by lia.
  - split; cbn [fst snd]; [|apply Forall_app; split; [done|by repeat constructor]].
    rw weights_snoc. cbn [weight Worker_new w_pc]. by rw Z.add_0_r.
  - split; [|done]. pose proof (act_scheduler _ fc t s Ha) as H1. by rw Hs in H1.
  - split; [|done]. pose proof (act_scheduler_range _ fcs s Ha) as H1. by rw Hs in H1.
  - split; [|done]. pose proof (act_stop _ b (Hst _) s Ha) as H1. by rw Hs in H1.
Qed.

Lemma count_inv_steps n c c' :
  (∀ k, keeps (act k) stopping) →
  count_inv 0 c → sys_steps code handle stack_size n c c' → count_inv n c'.
Proof.
  intros Hst Hc. induction 1 as [c|n m c c1 c2 _ IH Hs]; [done|].
  eapply count_inv_step; eauto.
Qed.
End active_count.

Lemma base_host_laws E H : @SchedHostLaws E H base_host.
Proof.
  split.
  - intros n i. apply keeps_ret.
  - intros n i. apply (keeps_bind _ Scheduler_stopping); [apply keeps_gets|].
    intros b. apply keeps_ret.
Qed.

Lemma weight_bound {E} (w : Worker (E:=E)) : (0 <= weight w <= 2)%Z.
Proof. unfold weight. destruct (w_pc w) as [|? ? []|[]|[]| |]; lia. Qed.

Lemma weights_bound {E} (ws : list (Worker (E:=E))) :
  (0 <= weights ws <= 2 * Z.of_nat (length ws))%Z.
Proof.
  induction ws as [|w ws IH]; simpl; [lia|]. pose proof (weight_bound w). lia.
Qed.

(** * Callbacks on one thread *)

Section callbacks.
Context {E : Set → Type} {H : Type}.
#[local] Existing Instance base_host.
Context (code : nat → prog E) (h : ∀ A, E A → H → A * H) (stack_size : Z).
Notation run1 := (worker_run (H:=H) code (host_effect h) stack_size).

Lemma worker_run_app n m : ∀ w s w1 s1,
  run1 n w s = Ret w1 s1 → run1 (n + m) w s = run1 m w1 s1.
Proof.
  induction n as [|n IH]; intros w s w1 s1; simpl.
  { by intros [= -> ->]. }
  unfold mbind, M_bind. destruct (worker_step _ _ _ w s) as [w2 s2| |]; [|done..].
  apply IH.
Qed.

Lemma worker_run_step n w s w1 s1 :
  worker_step code (host_effect h) stack_size w s = Ret w1 s1 →
  run1 (S n) w s = run1 n w1 s1.
Proof. intros Hs. simpl. by rw (bind_Ret _ _ _ _ _ Hs). Qed.

(** The body of a callback, from its first action to its end. *)
Lemma body_ends w f p : ends p → ∀ s F,
  heap s !! f = Some F → m_stack F = true →
  ∃ n F' h', run1 n (goto (PcRun KCb f p) w) s =
      Ret (goto (PcAfter KCb f) w)
        (set_host h' (set_heap (<[f := F']> (heap s)) (last_fiber_id s) s)) ∧
    h' = effects h p (host s) ∧ m_stack F' = true ∧ m_state F' ∈ [TERM; EXCEPT].
Proof.
  induction p as [|ex|k _|k _|g k _|g k _|A e k IH]; intros Hp s F Hf Hk; try done.
  - exists 1, (suspend f F (TERM, None)), (host s). split; [|split; [done|set_solver]].
    cbn [worker_run worker_step goto w_pc run_body resume]. unfold load, store.
    cbv [mbind M_bind mret M_ret mmodify]. by rw Hf.
  - exists 1, (suspend f F (EXCEPT, None)), (host s). split; [|split; [done|set_solver]].
    cbn [worker_run worker_step goto w_pc run_body resume]. unfold load, store.
    cbv [mbind M_bind mret M_ret mmodify]. by rw Hf.
  - cbn [effects]. destruct (h _ e (host s)) as [a x] eqn:He.
    destruct (IH a (Hp a) (set_host x s) F) as (n & F' & h' & Hn & -> & ? & ?); [done..|].
    exists (S n), F', (effects h (k a) x). split; [|done].
    erewrite worker_run_step; [exact Hn|].
    cbn [worker_step goto w_pc run_body]. unfold host_effect. cbv [mbind M_bind]. by rw He.
Qed.

Lemma scan_callback w s cb thread q :
  m_fibers s = MkFiberAndThread None (Some cb) thread :: q →
  thread = (-1)%Z ∨ thread = w_tid w → w_pc w = PcScan →
  worker_step code (host_effect h) stack_size w s =
    Ret (goto (PcDispatch (MkFiberAndThread None (Some cb) thread) false true) w)
      (set_active (u64 (m_activeThreadCount s + 1)) (set_queue q s)).
Proof.
  intros Hq Ht Hpc. unfold worker_step. rw Hpc. unfold run_scan.
  cbv [mbind M_bind mget]. rw Hq. cbn [scan ft_thread].
  assert (negb (bool_decide (thread = -1)%Z) && negb (bool_decide (thread = w_tid w)) = false)
    as ->; [|reflexivity].
  destruct Ht as [->| ->]; rw (bool_decide_eq_true_2 (_ = _) eq_refl);
    [done|by rw andb_false_r].
Qed.

(** [cb_fiber] is reset, or created, and entered. *)
Lemma dispatch_callback w s cb thread :
  (∀ f, cb_fiber w = Some f →
    ∃ F, heap s !! f = Some F ∧ m_stack F = true ∧ m_state F = INIT) →
  ∃ f F hp id,
    worker_step code (host_effect h) stack_size
      (goto (PcDispatch (MkFiberAndThread None (Some cb) thread) false true) w) s =
    Ret (goto (PcRun KCb f (code cb)) (MkWorker (w_tid w) (Some f) (idle_state w) PcScan))
      (set_heap hp id s) ∧ hp !! f = Some F ∧ m_stack F = true.
Proof.
  intros Hcb. cbn [worker_step goto w_pc]. unfold dispatch. cbn [ft_fiber ft_cb].
  assert (∀ F : Fiber E, m_stack F = true → m_state F = INIT →
    Fiber_reset (S:=Sched E H) (Some cb) F =
      mret (with_state INIT (with_ctx (CtxEntry MainFunc) (with_fcb (Some cb) F)))) as Hreset.
  { intros F Hk Hst. unfold Fiber_reset, massert. rw Hk Hst. reflexivity. }
  cbn [cb_fiber goto]. destruct (cb_fiber w) as [f|] eqn:Hw.
  - destruct (Hcb f eq_refl) as (F & Hf & Hk & Hst).
    eexists f, _, _, _. unfold swap_in, load, store.
    cbv [mbind M_bind mret M_ret mwhen mmodify]. rw Hf Hreset; [done..|].
    cbv [mret M_ret]. cbn. rw lookup_insert_eq. cbn. split; [reflexivity|].
    rw lookup_insert_eq. done.
  - eexists (fresh (dom (heap s))), _, _, _. unfold make_fiber, swap_in, load, store.
    cbv [mbind M_bind mret M_ret mwhen mmodify mget]. cbn.
    rw lookup_insert_eq. cbn. split; [reflexivity|]. rw lookup_insert_eq. done.
Qed.

(** After the callback has ended [cb_fiber] is kept for the next one. *)
Lemma after_callback w s f F :
  cb_fiber w = Some f → heap s !! f = Some F → m_stack F = true →
  m_state F ∈ [TERM; EXCEPT] →
  ∃ F', worker_step code (host_effect h) stack_size (goto (PcAfter KCb f) w) s =
      Ret (goto PcScan w)
        (set_heap (<[f := F']> (heap s)) (last_fiber_id s)
          (set_active (u64 (m_activeThreadCount s + -1)) s)) ∧
    m_stack F' = true ∧ m_state F' = INIT.
Proof.
  intros Hw Hf Hk Hst. cbn [worker_step goto w_pc]. unfold after_cb, load, store, add_active.
  eexists. cbv [mbind M_bind mret M_ret mmodify]. cbn. rw Hf. cbn.
  unfold Fiber_reset, massert. rw Hk.
  assert (m_state F = TERM ∨ m_state F = EXCEPT) as [-> | ->] by set_solver;
    cbn; (split; [reflexivity|done]).
Qed.

(** One callback: taken, run to its end, and the thread back at the top. *)
Lemma callback_round w s cb thread q :
  settled w s → m_fibers s = MkFiberAndThread None (Some cb) thread :: q →
  thread = (-1)%Z ∨ thread = w_tid w → ends (code cb) → in_u64 (m_activeThreadCount s) →
  ∃ n w' s', run1 n w s = Ret w' s' ∧ settled w' s' ∧ w_tid w' = w_tid w ∧
    m_fibers s' = q ∧ host s' = effects h (code cb) (host s) ∧
    m_activeThreadCount s' = m_activeThreadCount s ∧
    m_idleThreadCount s' = m_idleThreadCount s ∧
    m_autoStop s' = m_autoStop s ∧ m_stopping s' = m_stopping s.
Proof.
  intros (Hpc & Hidle & Hcb) Hq Ht Hends Hact.
  set (s1 := set_active (u64 (m_activeThreadCount s + 1)) (set_queue q s)).
  destruct (dispatch_callback w s1 cb thread Hcb) as (f & F & hp & id & Hd & Hf & Hk).
  set (w2 := MkWorker (w_tid w) (Some f) (idle_state w) PcScan) in *.
  destruct (body_ends w2 f (code cb) Hends (set_heap hp id s1) F Hf Hk)
    as (n & F' & h' & Hn & Hh & Hk' & Hst').
  set (s3 := set_host h' _) in Hn.
  destruct (after_callback w2 s3 f F') as (F'' & Ha & Hk'' & Hst'');
    [done|apply lookup_insert_eq|done..|].
  exists (S (S (n + 1))). eexists _, _. split.
  { erewrite worker_run_step; [|by apply (scan_callback w s cb thread q)].
    erewrite worker_run_step; [|exact Hd]. erewrite worker_run_app; [|exact Hn].
    erewrite worker_run_step; [reflexivity|exact Ha]. }
  assert (u64 (u64 (m_activeThreadCount s + 1) + -1) = m_activeThreadCount s) as Hact'.
  { rw u64_add_l. rw u64_id; [|lia]. by replace (_ + 1 + -1)%Z with (m_activeThreadCount s) by lia. }
  repeat split; try done.
  intros g [= <-]. exists F''. split; [apply lookup_insert_eq|done].
Qed.

(** An empty queue while the scheduler is being stopped: the idle fiber ends and
    the loop is left. *)
Lemma drained_stops w s :
  settled w s → m_fibers s = [] → m_activeThreadCount s = 0%Z →
  m_autoStop s = true → m_stopping s = true → in_u64 (m_idleThreadCount s) →
  ∃ w' s', run1 5 w s = Ret w' s' ∧ w_pc w' = PcDone ∧ m_fibers s' = [] ∧
    host s' = host s ∧ m_activeThreadCount s' = 0%Z ∧
    m_idleThreadCount s' = m_idleThreadCount s.
Proof.
  intros (Hpc & Hidle & Hcb) Hq Ha Hauto Hstop Hi.
  destruct s as [q a i stp aut rt rf ids tc ts hp id hst], w as [tid cbf ist p]. simpl in *. subst.
  eexists _, _. split.
  { unfold worker_run, worker_step. mrun.
    assert (ist = INIT ∨ ist = HOLD) as [-> | ->] by set_solver; cbn; reflexivity. }
  cbn. repeat split; try done. rw u64_add_l. rw u64_id; [|lia]. 
  by replace (_ + 1 + -1)%Z with i by lia.
Qed.

Lemma callback_rounds q : ∀ w s,
  settled w s → m_fibers s = q → Forall (plain_callback code (w_tid w)) q →
  in_u64 (m_activeThreadCount s) →
  ∃ n w' s', run1 n w s = Ret w' s' ∧ settled w' s' ∧ m_fibers s' = [] ∧
    host s' = queue_effects code h (host s) q ∧
    m_activeThreadCount s' = m_activeThreadCount s ∧
    m_idleThreadCount s' = m_idleThreadCount s ∧
    m_autoStop s' = m_autoStop s ∧ m_stopping s' = m_stopping s.
Proof.
  induction q as [|[fb o t] q IH]; intros w s Hw Hq Hall Hact.
  { exists 0, w, s. done. }
  inversion Hall as [|? ? (Hfb & Ht & cb & Ho & He) Hall']; simplify_eq/=.
  destruct (callback_round w s cb t q) as (n1 & w1 & s1 & Hn1 & Hw1 & Htid & Hq1 & Hh1 &
    Ha1 & Hi1 & Hf1 & Hf2); [done..|].
  destruct (IH w1 s1) as (n2 & w2 & s2 & Hn2 & Hw2 & Hq2 & Hh2 & Ha2 & Hi2 & Hg1 & Hg2);
    [done|done|by rw Htid|by rw Ha1|].
  exists (n1 + n2), w2, s2. split; [by erewrite worker_run_app|].
  rw Hh2 Hh1 Ha2 Ha1 Hi2 Hi1 Hg1 Hf1 Hg2 Hf2. done.
Qed.
End callbacks.

Lemma sys_run_steps {E H} `{!SchedHost E H} (code : nat → prog E) handle stack_size
    order c : ∀ n (s : Sched E H) ws n' s' ws',
  sys_steps code handle stack_size n c (s, ws) →
  sys_run code handle stack_size order n s ws = Some (n', s', ws') →
  sys_steps code handle stack_size n' c (s', ws').
Proof.
  induction order as [|i order IH]; intros n s ws n' s' ws' Hs; simpl.
  { by intros [= <- <- <-]. }
  destruct (ws !! i) as [w|] eqn:Hi; [|done].
  destruct (worker_step _ _ _ w s) as [w1 s1| |] eqn:Hw; [|done..].
  apply IH. eapply Sys_step; [exact Hs|]. by apply Sys_worker.
Qed.

Lemma sys_spawn_steps {E H} `{!SchedHost E H} (code : nat → prog E) handle stack_size
    tids (s : Sched E H) : 
  sys_steps code handle stack_size 0 (s, []) (s, Worker_new <$> tids).
Proof.
  induction tids as [|tid tids IH] using rev_ind; [constructor|].
  rw fmap_app. eapply (Sys_step _ _ _ 0 0); [exact IH|]. constructor.
Qed.

Lemma demo_handle_counts A (e : does nat A) n i :
  keeps (λ s : Sched (does nat) (list nat), m_activeThreadCount s = n ∧ m_idleThreadCount s = i)
    (demo_log A e).
Proof. destruct e. by intros s Hs. Qed.

(** ** What the loop keeps

    An invariant kept by the critical section of a thread and by the primitive
    operations of the loop is kept by each piece of the loop. *)
Section loop_invariant.
Context {E : Set → Type} {H : Type} `{!SchedHost E H}.
Context (code : nat → prog E) (handle : ∀ A, E A → M (Sched E H) A) (stack_size : Z).
Context (I : Sched E H → Prop).
Hypothesis I_active : ∀ d, keeps I (add_active d).
Hypothesis I_idle_count : ∀ d, keeps I (add_idle d).
Hypothesis I_store : ∀ f F, keeps I (store f F).
Hypothesis I_make : ∀ size cb, keeps I (make_fiber size cb).
Hypothesis I_tickle : keeps I tickle.
Hypothesis I_idle : keeps I idle.
Hypothesis I_handle : ∀ A (e : E A), keeps I (handle _ e).
Hypothesis I_push : ∀ ft, keeps I (push ft).

Lemma I_load f : keeps I (load f).
Proof. intros s Hs. unfold load. by destruct (heap s !! f). Qed.
Lemma I_resume p : keeps I (resume handle p).
Proof.
  induction p; try apply keeps_ret; try apply keeps_crash.
  apply keeps_bind; [apply I_handle|done].
Qed.
Lemma I_enter (F : Fiber E) : keeps I (fiber_enter F).
Proof. apply keeps_bind; [apply keeps_assert|intros; apply keeps_ret]. Qed.
Lemma I_reset cb (F : Fiber E) : keeps I (Fiber_reset cb F).
Proof. repeat first [apply keeps_bind; [|intros] | apply keeps_assert | apply keeps_ret]. Qed.
Lemma I_scheduler fc thread : keeps I (scheduler fc thread).
Proof. apply keeps_bind; [apply I_push|]. intros b. by apply keeps_when. Qed.
Lemma I_schedule_range fcs : ∀ b, keeps I (schedule_range fcs b).
Proof.
  induction fcs as [|fc fcs IH]; intros b; [apply keeps_ret|].
  apply keeps_bind; [|intros; apply keeps_bind; [apply IH|intros; apply keeps_ret]].
  destruct fc; (apply keeps_bind; [apply I_push|intros; apply keeps_ret]).
Qed.
Lemma I_scheduler_range fcs : keeps I (scheduler_range fcs).
Proof.
  apply keeps_bind; [apply I_schedule_range|]. intros r.
  apply keeps_bind; [by apply keeps_when|]. intros _. apply keeps_ret.
Qed.

#[local] Hint Resolve I_load I_resume I_enter I_reset I_scheduler : duan.
#[local] Hint Extern 1 (keeps I (match ?x with _ => _ end)) => destruct x : duan.
#[local] Hint Extern 1 (keeps I (if ?x then _ else _)) => destruct x : duan.

Lemma I_swap_in k f : keeps I (swap_in code k f).
Proof.
  unfold swap_in. apply keeps_bind; [auto with duan|]. intros F.
  apply keeps_bind; [auto with duan|]. intros F1.
  apply keeps_bind; [auto with duan|]. intros _.
  destruct (m_ctx F1) as [|[]|[|[] g] p|]; auto with duan.
Qed.

Lemma I_dispatch w ft tm b : keeps I (dispatch code stack_size w ft tm b).
Proof.
  unfold dispatch. apply keeps_bind; [auto with duan|]. intros _.
  apply keeps_bind; [destruct (ft_fiber ft); auto with duan|]. intros [f|].
  { apply keeps_bind; [auto|]. intros _. apply keeps_bind; [apply I_swap_in|auto with duan]. }
  destruct (ft_cb ft) as [cb|].
  - apply keeps_bind; [destruct (cb_fiber w); auto 8 with duan|]. intros f.
    apply keeps_bind; [apply I_swap_in|auto with duan].
  - destruct b; [auto with duan|]. destruct (bool_decide _); [auto with duan|].
    apply keeps_bind; [auto|]. intros _.
    apply keeps_bind; [destruct (bool_decide _); auto with duan|auto with duan].
Qed.

Lemma I_worker_step w :
  keeps I (run_scan (E:=E) (w_tid w)) → keeps I (worker_step code handle stack_size w).
Proof.
  intros Hscan. unfold worker_step. destruct (w_pc w) as [|ft tm b|k f p|[] f| |].
  - auto with duan.
  - apply I_dispatch.
  - apply keeps_bind; [|auto with duan]. destruct p; cbn; auto 8 with duan.
  - apply keeps_bind; [auto|]. intros _. apply keeps_bind; [auto with duan|]. intros F.
    apply keeps_bind; auto with duan.
  - apply keeps_bind; [auto|]. intros _. apply keeps_bind; [auto with duan|]. intros F.
    destruct (bool_decide _); [auto with duan|]. destruct (_ || _); auto with duan.
  - apply keeps_bind; [auto|]. intros st. auto with duan.
  - auto with duan.
Qed.

Lemma I_stop b :
  keeps I stopping → (∀ x y s, I s → I (set_flags x y s)) → keeps I (stop b).
Proof.
  intros Hst Hf.
  apply keeps_bind; [apply keeps_modify; auto|]. intros _.
  apply keeps_bind; [apply keeps_get|]. intros s.
  apply keeps_bind; [destruct (m_rootFiber s); auto with duan|]. intros st.
  apply keeps_bind; [apply keeps_when, keeps_modify; auto|]. intros _.
  apply keeps_bind; [destruct (_ && _); auto with duan|]. intros [|]; [apply keeps_ret|].
  apply keeps_bind; [apply keeps_assert|]. intros _.
  apply keeps_bind; [apply keeps_modify; auto|]. intros _.
  apply keeps_bind; [apply keeps_iter; auto with duan|]. intros _.
  destruct (m_rootFiber s); auto with duan.
Qed.
End loop_invariant.

Lemma worker_step_tid {E H} `{!SchedHost E H} (code : nat → prog E) handle stack_size
    w w' (s s' : Sched E H) :
  worker_step code handle stack_size w s = Ret w' s' → w_tid w' = w_tid w.
Proof.
  assert (triple (λ _, True) (worker_step code handle stack_size w)
    (λ w' _, w_tid w' = w_tid w)) as Ht.
  { assert (∀ A (m : M (Sched E H) A), triple (λ _, True) m (λ _ _, True)) as Hany.
    { intros A m s0 _. by destruct (m s0). }
    unfold worker_step, dispatch, after_fiber, after_cb, run_idle.
    repeat match goal with
      | |- triple _ (mret _) _ => by apply triple_ret
      | |- triple _ (mcrash _) _ => apply triple_crash
      | |- triple _ (match ?x with _ => _ end) _ => destruct x
      | |- triple _ (_ ≫= _) _ => eapply triple_bind; [apply Hany|intros ?; cbn beta]
      end. }
  intros Hs. specialize (Ht s I). by rw Hs in Ht.
Qed.

(** A task pinned to a thread stays in the queue while only others scan it. *)
Lemma keeps_pinned_scan {E H} tid ft :
  ft_thread ft ≠ (-1)%Z → ft_thread ft ≠ tid →
  keeps (λ s : Sched E H, ft ∈ m_fibers s) (run_scan (E:=E) tid).
Proof.
  intros H1 H2 s Hs. unfold run_scan. cbv [mbind M_bind mget].
  destruct (scan _ _ _) as [|[[[x|] rest] tm]] eqn:Hscan; [done| |done].
  apply scan_spec in Hscan as (passed & _ & _ & _ & [[?|?] _] & q2 & Hq & ->);
    cbn; rw Hq in Hs; set_solver.
Qed.

Lemma push_spec {E H} ft (s : Sched E H) :
  push ft s = Ret (bool_decide (m_fibers s = []))
    (set_queue (if has_task ft then m_fibers s ++ [ft] else m_fibers s) s).
Proof. destruct s as [q]. unfold push. mrun. by destruct (has_task ft). Qed.

(** What a range is left with, and the tasks it stands for. *)
Definition emptied (fc : FiberOrcb) : FiberOrcb :=
  match fc with FcFiber _ => FcFiber None | FcCb _ => FcCb None end.
Definition range_tasks (fcs : list FiberOrcb) : list FiberAndThread :=
  filter (λ ft, has_task ft = true) (map (λ fc, FiberAndThread_new fc (-1)) fcs).

Lemma schedule_ptr_spec {E H} fc (s : Sched E H) :
  scheduleNoLock_ptr fc (-1) s =
    Ret (bool_decide (m_fibers s = []), emptied fc)
      (set_queue (m_fibers s ++ range_tasks [fc]) s).
Proof.
  assert (range_tasks [fc] = if has_task (FiberAndThread_new fc (-1))
    then [FiberAndThread_new fc (-1)] else []) as ->.
  { unfold range_tasks. cbn [map]. by rw filter_cons; destruct (has_task _). }
  unfold scheduleNoLock_ptr.
  destruct fc; cbn [FiberAndThread_swap FiberAndThread_new];
    rw (bind_Ret _ _ _ _ _ (push_spec _ _)); unfold mret, M_ret;
    destruct (has_task _); by rw ?app_nil_r.
Qed.

Lemma schedule_range_spec {E H} fcs : ∀ b (s : Sched E H),
  schedule_range fcs b s =
    Ret (b || bool_decide (m_fibers s = []) && bool_decide (fcs ≠ []), map emptied fcs)
      (set_queue (m_fibers s ++ range_tasks fcs) s).
Proof.
  induction fcs as [|fc fcs IH]; intros b s; cbn [schedule_range].
  - unfold mret, M_ret. cbn. rw app_nil_r andb_false_r orb_false_r. by destruct s.
  - rw (bind_Ret _ _ _ _ _ (schedule_ptr_spec fc s)). cbn [fst snd].
    rw (bind_Ret _ _ _ _ _ (IH _ _)). cbn [fst snd map].
    unfold mret, M_ret. f_equal; [f_equal|].
    + rw (bool_decide_eq_true_2 (fc :: fcs ≠ [])); [done|]. cbn [m_fibers set_queue].
      destruct (m_fibers s); cbn; [by rw orb_true_r|]. by rw orb_false_r.
    + unfold set_queue. cbn. f_equal. rw -app_assoc. f_equal.
      symmetry. exact (filter_app _ [FiberAndThread_new fc (-1)] _).
Qed.

Lemma pinned_stays {E H} `{!SchedHost E H} (code : nat → prog E)
    (handle : ∀ A, E A → M (Sched E H) A) (stack_size : Z) ft n c c' :
  ft_thread ft ≠ (-1)%Z →
  keeps (λ s, ft ∈ m_fibers s) tickle → keeps (λ s, ft ∈ m_fibers s) idle →
  keeps (λ s, ft ∈ m_fibers s) stopping →
  (∀ A (e : E A), keeps (λ s, ft ∈ m_fibers s) (handle _ e)) →
  sys_steps code handle stack_size n c c' →
  ft ∈ m_fibers c.1 → Forall (λ w, w_tid w ≠ ft_thread ft) c'.2 → ft ∈ m_fibers c'.1.
Proof.
  intros Hp Ht Hi Hst Hh. set (I := λ s : Sched E H, ft ∈ m_fibers s).
  assert (∀ x, keeps I (push x)) as Hpush.
  { intros x s Hs. rw push_spec. destruct (has_task x); [|done].
    cbn. unfold I. apply elem_of_app. by left. }
  assert (∀ d, keeps I (add_active d)) as Hactive by (intros; by apply keeps_modify).
  assert (∀ d, keeps I (add_idle d)) as Hcount by (intros; by apply keeps_modify).
  assert (∀ f F, keeps I (store f F)) as Hstore by (intros; by apply keeps_modify).
  assert (∀ size cb, keeps I (make_fiber size cb)) as Hmake by (by intros size cb s Hs).
  induction 1 as [c|n m c c1 c2 _ IH Hs]; [done|]. intros Hft Hall.
  destruct Hs as [i w w' s s' ws Hw Hs|tid s ws|fc t s s' ws Hs|fcs r s s' ws Hs|b r s s' ws Hs];
    cbn [fst snd] in *.
  - assert (w_tid w' = w_tid w) as Htid by by eapply worker_step_tid.
    assert (Forall (λ w, w_tid w ≠ ft_thread ft) ws) as Hws.
    { apply Forall_lookup. intros j x Hx. destruct (decide (i = j)) as [<-|Hij].
      - simplify_eq. rw -Htid. apply (Forall_lookup_1 _ _ i w' Hall).
        apply list_lookup_insert_eq. by eapply lookup_lt_Some.
      - apply (Forall_lookup_1 _ _ j x Hall). by rw list_lookup_insert_ne. }
    assert (keeps I (worker_step code handle stack_size w)) as Hk.
    { apply I_worker_step; auto. apply keeps_pinned_scan; [done|].
      intros Heq. by apply (Forall_lookup_1 _ _ i w Hws Hw). }
    specialize (Hk s (IH Hft Hws)). by rw Hs in Hk.
  - apply Forall_app in Hall as [Hall _]. auto.
  - pose proof (I_scheduler I Ht Hpush fc t s (IH Hft Hall)) as Hk. by rw Hs in Hk.
  - pose proof (I_scheduler_range I Ht Hpush fcs s (IH Hft Hall)) as Hk. by rw Hs in Hk.
  - pose proof (I_stop I Ht b Hst (λ x y s Hs, Hs) s (IH Hft Hall)) as Hk. by rw Hs in Hk.
Qed.

Lemma stop_eval {E H} (s : Sched E H) mine (root : option (Fiber E)) :
  match m_rootFiber s with
  | Some f => root = heap s !! f ∧ is_Some root
  | None => root = None
  end →
  let over := bool_decide (m_fibers s = []) && bool_decide (m_activeThreadCount s = 0%Z) in
  let early := bool_decide (m_threadCount s = 0%Z) &&
    (bool_decide (m_state <$> root = Some TERM) || bool_decide (m_state <$> root = Some INIT)) in
  stop (SchedHost0 := base_host) mine s =
    if early && over then Ret StopReturned (set_flags true true s)
    else if (if bool_decide (m_rootThread s ≠ (-1)%Z) then mine else negb mine)
      then Ret match m_rootFiber s with
               | Some f => if over then StopJoin else StopCallRoot f
               | None => StopJoin
               end (set_flags true true s)
      else Crash (AssertFailed "GetThis() == this").
Proof.
  intros Hroot over early.
  assert (∀ l s0, miter (λ _ : nat, @Scheduler_tickle E H) l s0 = Ret tt s0) as Hiter.
  { intros l s0. by induction l. }
  assert (∀ x, Scheduler_stopping (set_flags true true (set_flags x true s)) =
    Ret over (set_flags true true s)) as Hover by done.
  unfold stop. erewrite bind_Ret; [|reflexivity]. erewrite bind_Ret; [|reflexivity].
  erewrite (bind_Ret _ _ _ (m_state <$> root)).
  2: { cbn [m_rootFiber set_flags]. destruct (m_rootFiber s) as [f|]; [|by subst].
       destruct Hroot as [-> [F HF]]. rw HF. unfold load, mbind, M_bind. cbn. by rw HF. }
  change (m_threadCount (set_flags (m_stopping s) true s)) with (m_threadCount s).
  fold early. cbn zeta. cbn [stopping tickle base_host].
  assert (∀ b0 : bool, (massert
     (if bool_decide (m_rootThread s ≠ (-1)%Z) then mine else negb mine) "GetThis() == this" ;;
     mmodify (λ s, set_flags true (m_autoStop s) s) ;;
     miter (λ _, Scheduler_tickle) (seq 0 (Z.to_nat (m_threadCount s))) ;;
     match m_rootFiber s with
     | Some f => Scheduler_tickle ;; b ← Scheduler_stopping;
         mret (if (b : bool) then StopJoin else StopCallRoot f)
     | None => mret StopJoin
     end) (set_flags b0 true s) =
    if (if bool_decide (m_rootThread s ≠ (-1)%Z) then mine else negb mine)
      then Ret match m_rootFiber s with
               | Some f => if over then StopJoin else StopCallRoot f
               | None => StopJoin
               end (set_flags true true s)
      else Crash (AssertFailed "GetThis() == this")) as Hrest.
  { intros b0. destruct (if bool_decide _ then mine else _); [|done].
    erewrite bind_Ret; [|reflexivity]. erewrite bind_Ret; [|reflexivity].
    erewrite bind_Ret; [|apply Hiter]. destruct (m_rootFiber s); [|done].
    erewrite bind_Ret; [|reflexivity]. by erewrite bind_Ret; [|apply Hover]. }
  destruct early; cbn [andb mwhen].
  - erewrite bind_Ret; [|reflexivity]. erewrite bind_Ret; [|apply Hover].
    destruct over; [done|apply (Hrest true)].
  - erewrite bind_Ret; [|reflexivity]. erewrite bind_Ret; [|reflexivity].
    apply (Hrest (m_stopping s)).
Qed.

(** Evaluates the tests on concrete fiber states. *)
Ltac eval_states :=
  repeat match goal with
  | |- context [@bool_decide ?P ?D] =>
      let v := eval vm_compute in (@bool_decide P D) in
      lazymatch v with
      | true => change (@bool_decide P D) with true
      | false => change (@bool_decide P D) with false
      end
  end.

(** * The properties *)

(** C2. Accounting of active threads.  In every state the threads can reach,
    in any interleaving of their loops with calls of [scheduler] and [stop],
    [m_activeThreadCount] is what the threads are running now plus one for each
    task that was a fiber and has been completed: the loop adds two for such a
    task and takes one away. *)
Theorem active_count_leaks {E H} `{!SchedHost E H, !SchedHostLaws E H}
    (code : nat → prog E) (handle : ∀ A, E A → M (Sched E H) A) (stack_size : Z) n s s' ws' :
  (∀ A (e : E A) n i, keeps (λ s, m_activeThreadCount s = n ∧ m_idleThreadCount s = i) (handle _ e)) →
  (∀ n, keeps (λ s, m_activeThreadCount s = n) stopping) →
  m_activeThreadCount s = 0%Z →
  sys_steps code handle stack_size n (s, []) (s', ws') →
  m_activeThreadCount s' = u64 (weights ws' + Z.of_nat n).
Proof.
  intros Hh Hst Ha Hs.
  destruct (count_inv_steps code handle stack_size Hh n (s, []) (s', ws')) as [H1 _];
    [intros k; apply Hst|by split|done|exact H1].
Qed.

Lemma active_count_leaks_witness :
  ∃ s' ws', sys_steps (SchedHost0 := base_host) (demo_code PReturn) demo_log 131072 1
      (demo [fiber_task 1], []) (s', ws') ∧
    m_activeThreadCount s' = u64 (weights ws' + 1).
Proof.
  eassert (sys_steps (SchedHost0 := base_host) (demo_code PReturn) demo_log 131072 1
    (demo [fiber_task 1], []) _) as Hs.
  { eapply (sys_run_steps (SchedHost0 := base_host)) with (order := [0; 0; 0; 0]);
      [apply (sys_spawn_steps (SchedHost0 := base_host) _ _ _ [7%Z])|vm_compute; reflexivity]. }
  eexists _, _. split; [exact Hs|].
  eapply (active_count_leaks (SchedHost0 := base_host)
    (SchedHostLaws0 := base_host_laws (does nat) (list nat)) (demo_code PReturn) demo_log 131072 1);
    [apply demo_handle_counts|intros n; apply keeps_gets| |exact Hs]. reflexivity.
Defined.

(** After one fiber task the scheduler can no longer stop: whatever happens
    later, [Scheduler::stopping] is false, also when [stop] has been called, the
    queue is empty and no thread is running anything, so that the idle fibers of
    its threads never end and [stop] waits for ever to join them. *)
Theorem never_stops_after_fiber {E H} (code : nat → prog E)
    (handle : ∀ A, E A → M (Sched E H) A) (stack_size : Z) n s s' ws' :
  (∀ A (e : E A) n i, keeps (λ s, m_activeThreadCount s = n ∧ m_idleThreadCount s = i) (handle _ e)) →
  m_activeThreadCount s = 0%Z →
  sys_steps (SchedHost0 := base_host) code handle stack_size n (s, []) (s', ws') →
  0 < n → (2 * Z.of_nat (length ws') + Z.of_nat n < 2 ^ 64)%Z →
  Scheduler_stopping s' = Ret false s' ∧ Scheduler_idle s' = Ret HOLD s'.
Proof.
  intros Hh Ha Hs Hn Hb.
  destruct (count_inv_steps (SchedHost0 := base_host)
    (SchedHostLaws0 := base_host_laws E H) code handle stack_size Hh n (s, []) (s', ws'))
    as [H1 _]; [intros k; apply keeps_gets|by split|done|].
  unfold act in H1. cbn [fst snd] in H1. pose proof (weights_bound ws').
  rw u64_id in H1; [unfold in_u64; lia|].
  assert (Scheduler_stopping s' = Ret false s') as Hfalse.
  { unfold Scheduler_stopping, mgets. rw H1.
    rw (bool_decide_eq_false_2 (_ = 0%Z)); [lia|]. by rw andb_false_r. }
  split; [done|]. unfold Scheduler_idle. by rw (bind_Ret _ _ _ _ _ Hfalse).
Qed.

Lemma never_stops_after_fiber_witness :
  ∃ s' ws', sys_steps (SchedHost0 := base_host) (demo_code PReturn) demo_log 131072 1
      (demo [fiber_task 1], []) (s', ws') ∧ m_fibers s' = [] ∧ m_autoStop s' = true ∧
    m_stopping s' = true ∧ Forall (λ w, w_pc w = PcScan) ws' ∧
    Scheduler_stopping s' = Ret false s' ∧ Scheduler_idle s' = Ret HOLD s'.
Proof.
  eassert (sys_steps (SchedHost0 := base_host) (demo_code PReturn) demo_log 131072 1
    (demo [fiber_task 1], []) _) as Hs.
  { eapply (sys_run_steps (SchedHost0 := base_host)) with (order := [0; 0; 0; 0]);
      [apply (sys_spawn_steps (SchedHost0 := base_host) _ _ _ [7%Z])|vm_compute; reflexivity]. }
  eexists _, _. split; [exact Hs|]. do 4 (split; [by repeat constructor|]).
  eapply (never_stops_after_fiber (demo_code PReturn) demo_log 131072 1 (demo [fiber_task 1]));
    [apply demo_handle_counts|reflexivity|exact Hs|lia|vm_compute; reflexivity].
Defined.

(** C13. A worker that is told to stop drains the queue first: it runs every
    callback queued for it, in the order of the queue and each to its end, gives
    the counters back as it found them, and its loop ends. *)
Theorem callbacks_drain {E H} (code : nat → prog E) (h : ∀ A, E A → H → A * H) (stack_size : Z)
    (w : Worker) (s : Sched E H) :
  settled w s → Forall (plain_callback code (w_tid w)) (m_fibers s) →
  m_activeThreadCount s = 0%Z → in_u64 (m_idleThreadCount s) →
  m_autoStop s = true → m_stopping s = true →
  ∃ n w' s',
    worker_run (SchedHost0 := base_host) code (host_effect h) stack_size n w s = Ret w' s' ∧
    w_pc w' = PcDone ∧ m_fibers s' = [] ∧
    host s' = queue_effects code h (host s) (m_fibers s) ∧
    m_activeThreadCount s' = 0%Z ∧ m_idleThreadCount s' = m_idleThreadCount s.
Proof.
  intros Hw Hall Ha Hi Hauto Hstop.
  destruct (callback_rounds code h stack_size (m_fibers s) w s) as (n & w1 & s1 & Hn & Hw1 &
    Hq & Hh & Ha1 & Hi1 & Hf1 & Hf2); [done..|by rw Ha|].
  destruct (drained_stops code h stack_size w1 s1) as (w2 & s2 & H2 & Hpc & Hq2 & Hh2 & Ha2 & Hi2);
    try congruence.
  exists (n + 5), w2, s2. split; [by erewrite worker_run_app|].
  repeat split; congruence.
Qed.

Lemma callbacks_drain_witness :
  let code := λ cb, PDo (Does cb) (λ _, PDo (Does (cb + 10)) (λ _, PReturn)) in
  ∃ n w' s',
    worker_run (SchedHost0 := base_host) code demo_log 131072 n (Worker_new 7)
      (demo [cb_task 3; cb_task 4]) = Ret w' s' ∧
    w_pc w' = PcDone ∧ m_fibers s' = [] ∧ host s' = [3; 13; 4; 14] ∧
    m_activeThreadCount s' = 0%Z ∧ m_idleThreadCount s' = 0%Z.
Proof.
  intros code. apply (callbacks_drain code demo_append 131072 (Worker_new 7)
    (demo [cb_task 3; cb_task 4])); try reflexivity; try done.
  - split; [done|]. split; [set_solver|]. done.
  - repeat constructor; eexists; done.
Defined.

(** [scheduler] queues a task at the end of the queue, unless it is empty,
    and calls [tickle] exactly when the queue was empty before; the range form
    does so for each element, with thread -1, calls [tickle] at most once, after
    the whole range, and leaves every element of the range empty. *)
Theorem scheduler_spec {E H} `{!SchedTickle E H} (s : Sched E H) :
  (∀ fc thread,
    let ft := FiberAndThread_new fc thread in
    scheduler fc thread s =
      mwhen (bool_decide (m_fibers s = [])) tickle
        (set_queue (if has_task ft then m_fibers s ++ [ft] else m_fibers s) s)) ∧
  (∀ fcs,
    scheduler_range fcs s =
      (mwhen (bool_decide (m_fibers s = []) && bool_decide (fcs ≠ [])) tickle ;;
       mret (map emptied fcs)) (set_queue (m_fibers s ++ range_tasks fcs) s)).
Proof.
  split.
  - intros fc thread ft. unfold scheduler, scheduleNoLock.
    by rw (bind_Ret _ _ _ _ _ (push_spec _ _)).
  - intros fcs. unfold scheduler_range.
    by rw (bind_Ret _ _ _ _ _ (schedule_range_spec _ _ _)).
Qed.

(** C31. The critical section of the loop takes the first task of the queue that
    this thread may run and whose fiber is not running, leaves the others in
    their order, counts the thread active, and asks for a [tickle] exactly if it
    passed a task pinned to another thread; a queue without empty tasks and
    without dangling fibers never stops it. *)
Theorem run_scan_spec {E H} (tid : Z) (s : Sched E H) :
  let st := λ f, m_state <$> heap s !! f in
  Forall (λ ft, has_task ft = true ∧ ∀ f, ft_fiber ft = Some f → is_Some (heap s !! f))
    (m_fibers s) →
  ∃ r rest tickle_me, scan_result tid st (m_fibers s) r rest tickle_me ∧
    run_scan tid s = match r with
      | Some ft => Ret (PcDispatch ft tickle_me true)
          (set_active (u64 (m_activeThreadCount s + 1)) (set_queue rest s))
      | None => Ret (PcDispatch FiberAndThread_empty tickle_me false) s
      end.
Proof.
  intros st Hall. unfold run_scan. cbv [mbind M_bind mget].
  fold st. destruct (scan tid st (m_fibers s)) as [e|[[r rest] tm]] eqn:Hscan.
  { exfalso. eapply scan_total; [|exact Hscan]. eapply Forall_impl; [exact Hall|].
    intros ft [Ht Hf]. split; [done|]. intros f Hff. unfold st.
    by destruct (Hf f Hff) as [F ->]. }
  exists r, rest, tm. split; [by apply scan_spec|]. by destruct r.
Qed.

Lemma run_scan_spec_witness :
  ∃ r rest tickle_me,
    scan_result 7 (λ f, m_state <$> heap (demo [MkFiberAndThread None (Some 2) 9; fiber_task 1]) !! f)
      [MkFiberAndThread None (Some 2) 9; fiber_task 1] r rest tickle_me ∧
    run_scan 7 (demo [MkFiberAndThread None (Some 2) 9; fiber_task 1]) = match r with
      | Some ft => Ret (PcDispatch ft tickle_me true)
          (set_active (u64 1)
            (set_queue rest (demo [MkFiberAndThread None (Some 2) 9; fiber_task 1])))
      | None => Ret (PcDispatch FiberAndThread_empty tickle_me false)
          (demo [MkFiberAndThread None (Some 2) 9; fiber_task 1])
      end.
Proof.
  apply (run_scan_spec 7 (demo [MkFiberAndThread None (Some 2) 9; fiber_task 1])).
  repeat constructor; try done. intros f [= <-]. by eexists.
Defined.

(** C27. A fiber can end up on two threads.  The loop writes [m_state = HOLD]
    after [swapIn] has come back without looking whether another thread has
    resumed the fiber meanwhile; from then on the test for [EXEC] in the scan no
    longer protects it, and a third scheduling makes a second thread run the
    code that the first one is still running. *)
Theorem two_threads_one_fiber :
  ∃ n s' w0 w1 p,
    sys_steps (SchedHost0 := base_host) (demo_code (PYieldToHold (PDo (Does 5) (λ _, PReturn))))
      demo_log 131072 n (demo [fiber_task 1], []) (s', [w0; w1]) ∧
    w_tid w0 ≠ w_tid w1 ∧ w_pc w0 = PcRun KFiber 1 p ∧ w_pc w1 = PcRun KFiber 1 p.
Proof.
  set (code := demo_code (PYieldToHold (PDo (Does 5) (λ _, PReturn)))).
  pose proof (sys_spawn_steps (SchedHost0 := base_host) code demo_log 131072 [7%Z; 8%Z]
    (demo [fiber_task 1])) as H0.
  eapply (sys_run_steps (SchedHost0 := base_host) code demo_log 131072 [0; 0; 0]) in H0;
    [|vm_compute; reflexivity].
  eapply (Sys_step (SchedHost0 := base_host)) in H0;
    [|apply (Sys_schedule (SchedHost0 := base_host) code demo_log 131072 (FcFiber (Some 1)) (-1));
      vm_compute; reflexivity].
  eapply (sys_run_steps (SchedHost0 := base_host) code demo_log 131072 [1; 1; 0]) in H0;
    [|vm_compute; reflexivity].
  eapply (Sys_step (SchedHost0 := base_host)) in H0;
    [|apply (Sys_schedule (SchedHost0 := base_host) code demo_log 131072 (FcFiber (Some 1)) (-1));
      vm_compute; reflexivity].
  eapply (sys_run_steps (SchedHost0 := base_host) code demo_log 131072 [0; 0]) in H0;
    [|vm_compute; reflexivity].
  eexists _, _, _, _, _. split; [exact H0|]. done.
Qed.

(** A fiber that has finished and is still queued is not skipped: the test
    [m_state != TERM || m_state != EXCEPT] is always true, so the thread that
    takes it swaps it in and the program stops at "never reach". *)
Theorem finished_fiber_not_skipped {E H} `{!SchedHost E H} (code : nat → prog E)
    (stack_size : Z) w f F thread b (s : Sched E H) :
  heap s !! f = Some F → m_state F ∈ [TERM; EXCEPT] → fiber_ok f F →
  dispatch code stack_size w (MkFiberAndThread (Some f) None thread) false b s =
    Crash (AssertFailed "never reach").
Proof.
  intros Hf Hst Hok. unfold dispatch, load, swap_in, add_active.
  cbv [mbind M_bind mret M_ret mwhen mmodify]. cbn [ft_fiber]. rw Hf.
  assert (may_run (m_state F) = true) as -> by by destruct (m_state F).
  unfold load, store. cbn. rw Hf.
  assert (m_state F ≠ EXEC) by (intros Hx; rw Hx in Hst; set_solver).
  unfold fiber_enter. cbv [massert mbind M_bind mret M_ret mmodify].
  rw bool_decide_eq_true_2; [done|]. cbn.
  assert (m_ctx F = CtxDead) as ->; [|done].
  unfold fiber_ok in Hok. destruct (m_state F); set_solver.
Qed.

Lemma finished_fiber_not_skipped_witness :
  dispatch (SchedHost0 := base_host) (demo_code PReturn) 131072 (Worker_new 7) (fiber_task 1)
    false true
    (set_heap {[1 := MkFiber 1 131072 TERM true None CtxDead]} 1 (demo []))
  = Crash (AssertFailed "never reach").
Proof.
  apply (finished_fiber_not_skipped (SchedHost0 := base_host) (demo_code PReturn) 131072 _ 1
    (MkFiber 1 131072 TERM true None CtxDead)); [done|set_solver|done].
Defined.

(** What a thread does with a fiber that gave up the processor: one that is
    [READY] goes to the end of the queue, for any thread; a finished one keeps
    its state and any other becomes [HOLD], and neither is queued.  A callback's
    fiber is kept for the next callback, ready to be reset, exactly if it has
    finished. *)
Theorem after_run_spec {E H} (w : Worker (E:=E)) f F (s : Sched E H) :
  heap s !! f = Some F →
  let requeued := if decide (m_state F = READY) then [fiber_task f] else [] in
  let fin := bool_decide (m_state F ∈ [TERM; EXCEPT]) in
  (∃ w' s' F', after_fiber (SchedHost0 := base_host) w f s = Ret w' s' ∧
     w_pc w' = PcScan ∧ cb_fiber w' = cb_fiber w ∧
     m_fibers s' = m_fibers s ++ requeued ∧ heap s' = <[f := F']> (heap s) ∧
     m_state F' = if fin || bool_decide (m_state F = READY) then m_state F else HOLD) ∧
  (m_stack F = true → cb_fiber w = Some f →
   ∃ w' s' F', after_cb (SchedHost0 := base_host) w f s = Ret w' s' ∧
     w_pc w' = PcScan ∧ cb_fiber w' = (if fin then Some f else None) ∧
     m_fibers s' = m_fibers s ++ requeued ∧ heap s' = <[f := F']> (heap s) ∧
     m_state F' = (if fin then INIT else if decide (m_state F = READY) then READY else HOLD) ∧
     (fin = true → m_cb F' = None)).
Proof.
  intros Hf requeued fin. subst requeued fin.
  unfold after_fiber, after_cb, scheduler, scheduleNoLock, push, load, store, Fiber_reset.
  cbv [mbind M_bind mret M_ret mwhen mmodify add_active mgets massert]. cbn. rw Hf. cbn.
  split.
  - destruct (m_state F) eqn:Hst; eval_states; cbn; eexists _, _, _;
      (split; [try (destruct (bool_decide (m_fibers s = []))); reflexivity|]); cbn;
      rw ?app_nil_r; try (rw Hst); repeat split; by rw ?insert_id.
  - intros Hk Hw. rw Hk.
    destruct (m_state F) eqn:Hst; eval_states; cbn; eexists _, _, _;
      (split; [try (destruct (bool_decide (m_fibers s = []))); reflexivity|]); cbn;
      rw ?app_nil_r; try (rw Hst); repeat split; by rw ?insert_id.
Qed.

Lemma after_run_spec_witness :
  let F := MkFiber 1 131072 HOLD true (Some 0) (CtxRun (FBody MainFunc 1) (PDo (Does 5) (λ _, PReturn))) in
  let s := set_heap {[1 := F]} 1 (demo [cb_task 3]) in
  ∃ w' s' F', after_fiber (SchedHost0 := base_host) (Worker_new 7) 1 s = Ret w' s' ∧
     w_pc w' = PcScan ∧ cb_fiber w' = None ∧
     m_fibers s' = [cb_task 3] ∧ heap s' = <[1 := F']> (heap s) ∧ m_state F' = HOLD.
Proof.
  intros F s. exact (proj1 (after_run_spec (Worker_new 7) 1 F s eq_refl)).
Defined.

(** A task pinned to a thread that does not run the loop waits for ever and
    keeps the scheduler from stopping.  The id a scheduler records for the
    thread that created it is the id of that thread's running fiber, 0 for its
    main fiber, so a task pinned to [m_rootThread] is such a task. *)
Theorem pinned_waits {E H} `{!SchedHost E H} (code : nat → prog E)
    (handle : ∀ A, E A → M (Sched E H) A) (stack_size : Z) ft n c c' :
  ft_thread ft ≠ (-1)%Z →
  keeps (λ s, ft ∈ m_fibers s) tickle → keeps (λ s, ft ∈ m_fibers s) idle →
  keeps (λ s, ft ∈ m_fibers s) stopping →
  (∀ A (e : E A), keeps (λ s, ft ∈ m_fibers s) (handle _ e)) →
  sys_steps code handle stack_size n c c' →
  ft ∈ m_fibers c.1 → Forall (λ w, w_tid w ≠ ft_thread ft) c'.2 →
  ft ∈ m_fibers c'.1 ∧ Scheduler_stopping c'.1 = Ret false c'.1.
Proof.
  intros Hp Ht Hi Hst Hh Hs Hft Hall.
  assert (ft ∈ m_fibers c'.1) as Hin by by eapply pinned_stays.
  split; [done|]. unfold Scheduler_stopping, mgets.
  rw (bool_decide_eq_false_2 (_ = [])); [by intros Hq; rw Hq in Hin; apply not_elem_of_nil in Hin|].
  by rw andb_false_r.
Qed.

Lemma pinned_waits_witness :
  ∃ s0 s1, Scheduler_new 2 true 0 false 131072 0 (demo []) = Ret tt s0 ∧
    scheduler (SchedTickle0 := Scheduler_tickle) (FcCb (Some 3)) (m_rootThread s0) s0 = Ret tt s1 ∧
    sys_steps (SchedHost0 := base_host) (demo_code PReturn) demo_log 131072 0 (s1, [])
      (s1, [Worker_new 7]) ∧
    MkFiberAndThread None (Some 3) 0 ∈ m_fibers s1 ∧ Scheduler_stopping s1 = Ret false s1.
Proof.
  eexists _, _. split; [vm_compute; reflexivity|]. split; [vm_compute; reflexivity|].
  split; [apply (sys_spawn_steps (SchedHost0 := base_host) _ _ _ [7%Z])|].
  match goal with |- _ ∈ m_fibers ?s1 ∧ _ =>
    apply (pinned_waits (SchedHost0 := base_host) (demo_code PReturn) demo_log 131072
      (MkFiberAndThread None (Some 3) 0) 0 (s1, []) (s1, [Worker_new 7]))
  end; try done;
    first [ apply (sys_spawn_steps (SchedHost0 := base_host) _ _ _ [7%Z])
          | by apply list_elem_of_singleton | by repeat constructor
          | by apply keeps_gets | intros A []; by intros s
          | by apply (keeps_bind _ Scheduler_stopping);
              [apply keeps_gets|intros; apply keeps_ret] ].
Defined.

(** [stop]: it records the request; a scheduler without threads of its own
    whose root fiber is not suspended and that has nothing left returns at once;
    otherwise the call must come from the right thread, and it goes on to run the
    root fiber, if there is one and work is left, and to join the threads. *)
Theorem stop_spec {E H} (s : Sched E H) mine :
  (∀ f, m_rootFiber s = Some f → is_Some (heap s !! f)) →
  let over := bool_decide (m_fibers s = []) && bool_decide (m_activeThreadCount s = 0%Z) in
  let s' := set_flags true true s in
  let root_idle := ∃ f F, m_rootFiber s = Some f ∧ heap s !! f = Some F ∧
    m_state F ∈ [TERM; INIT] in
  (m_threadCount s = 0%Z → root_idle → over = true →
     stop (SchedHost0 := base_host) mine s = Ret StopReturned s') ∧
  (¬ (m_threadCount s = 0%Z ∧ root_idle ∧ over = true) →
     mine ≠ bool_decide (m_rootThread s ≠ (-1)%Z) →
     stop (SchedHost0 := base_host) mine s = Crash (AssertFailed "GetThis() == this")) ∧
  (¬ (m_threadCount s = 0%Z ∧ root_idle ∧ over = true) →
     mine = bool_decide (m_rootThread s ≠ (-1)%Z) →
     stop (SchedHost0 := base_host) mine s =
       Ret match m_rootFiber s with
           | Some f => if over then StopJoin else StopCallRoot f
           | None => StopJoin
           end s').
Proof.
  intros Hroot over s' root_idle.
  set (root := m_rootFiber s ≫= λ f, heap s !! f).
  assert (match m_rootFiber s with
    | Some f => root = heap s !! f ∧ is_Some root | None => root = None end) as Hr.
  { unfold root. destruct (m_rootFiber s); naive_solver. }
  rw (stop_eval s mine root Hr). fold over.
  assert (root_idle ↔ m_state <$> root = Some TERM ∨ m_state <$> root = Some INIT) as Hidle.
  { unfold root_idle, root. destruct (m_rootFiber s) as [f|]; cbn; [|naive_solver].
    assert (∀ st, st ∈ [TERM; INIT] ↔ Some st = Some TERM ∨ Some st = Some INIT) as Hin.
    { clear. intros st. set_solver. }
    destruct (heap s !! f) as [F|] eqn:HF; cbn; [|naive_solver]. rw -Hin.
    split; [intros (f' & F' & [= <-] & HF' & Hst); congruence|eauto]. }
  fold s'. set (early := bool_decide (m_threadCount s = 0%Z) && _).
  assert (early && over = true ↔ m_threadCount s = 0%Z ∧ root_idle ∧ over = true) as He.
  { unfold early. rw !andb_true_iff orb_true_iff !bool_decide_eq_true Hidle. tauto. }
  split; [intros; by rw (proj2 He)|].
  assert (¬ (m_threadCount s = 0%Z ∧ root_idle ∧ over = true) → early && over = false) as Hf.
  { intros Hn. by destruct (early && over); [destruct Hn; apply He|]. }
  split; intros Hn Hm; rw (Hf Hn).
  - by destruct (bool_decide (m_rootThread s ≠ _)), mine.
  - by rw Hm; destruct (bool_decide (m_rootThread s ≠ _)).
Qed.

Lemma stop_spec_witness :
  let s := MkSched (E:=does nat) (H:=list nat) [cb_task 3] 0 0 false false 0 (Some 1) [0%Z] 1 [7%Z]
    {[1 := Fiber_new 1 131072 0 (Some 0) false]} 1 [] in
  stop (SchedHost0 := base_host) true s = Ret (StopCallRoot 1) (set_flags true true s).
Proof.
  intros s. apply (stop_spec s true).
  - intros f [= <-]. by eexists.
  - by intros [? _].
  - reflexivity.
Defined.
