(* ===== verification/IOManager.v ===== *)
(** The I/O scheduler: duan_src/iomanager.{h,cc}.

    An [IOManager] is a [Scheduler] whose [host] component is the record [IO]:
    the table of [FdContext]s, the number of pending events, the timers it
    inherits from [TimerManager], and the kernel.  The kernel (epoll, the tickle
    pipe, the clock) is the class [Kernel]; the timers are used through the class
    [TimerQueue], which the instance [timer_queue] implements with Timer.v.
    The operations on a descriptor are split at their critical sections, the
    lookup in the table under [m_mutex] and the work under the mutex of the
    [FdContext]. *)

From S2P Require Import Prelude.
From S2P Require Import Timer.
From S2P Require Import Fiber.
From S2P Require Import Scheduler.

(** * Events *)

Definition NONE : Z := 0.
Definition READ : Z := 1.
Definition WRITE : Z := 4.

(** The constants of <sys/epoll.h>. *)
Definition EPOLLIN : Z := 1.
Definition EPOLLOUT : Z := 4.
Definition EPOLLERR : Z := 8.
Definition EPOLLHUP : Z := 16.
Definition EPOLLET : Z := 2 ^ 31.
Definition EPOLL_CTL_ADD : Z := 1.
Definition EPOLL_CTL_DEL : Z := 2.
Definition EPOLL_CTL_MOD : Z := 3.

Definition has (events event : Z) : bool := negb (Z.land events event =? 0)%Z.
Definition without (events event : Z) : Z := Z.land events (Z.lnot event).

(** * State *)

(** [ec_scheduler] is the scheduler a task goes to; 0 is this [IOManager]. *)
Record EventContext := MkEventContext {
  ec_scheduler : option nat;
  ec_fiber : option nat;
  ec_cb : option nat
}.

Record FdContext := MkFdContext {
  fc_fd : Z;
  m_events : Z;
  read : EventContext;
  write : EventContext
}.

Definition EventContext_empty : EventContext := MkEventContext None None None.
(** [new FdContext] followed by the assignment of [fd] in [contextResize]. *)
Definition FdContext_new (fd : Z) : FdContext :=
  MkFdContext fd NONE EventContext_empty EventContext_empty.

(** [epoll_data_t] *)
Inductive epoll_data := DataFd (fd : Z) | DataPtr (p : nat).

Inductive wait_result :=
  | WaitIntr
  | WaitError
  | WaitReady (events : list (Z * epoll_data)).

(** The system calls. *)
Class Kernel (K : Type) := {
  sys_epoll_create : K → Z * K;
  sys_pipe : K → (Z * (Z * Z)) * K;
  sys_fcntl : Z → K → Z * K;
  sys_epoll_ctl : Z → Z → Z → epoll_data → K → Z * K;
  sys_epoll_wait : Z → K → wait_result * K;
  sys_write : K → Z * K;
  sys_read : K → Z * K;
  sys_time : K → Z * K
}.

(** What the I/O scheduler needs from [TimerManager]: [getNextTimer] and
    [listExpiredCb], given the clock. *)
Class TimerQueue (T : Type) := {
  tq_next : Z → M T Z;
  tq_expired : Z → M T (list (option nat))
}.

Record IO (T K : Type) := MkIO {
  m_fdContexts : list nat;
  fd_heap : gmap nat FdContext;
  m_pendingEventCount : Z;
  m_tickleFds : Z * Z;
  timers : T;
  kernel : K;
  (** tasks handed to other schedulers *)
  foreign : list (nat * FiberAndThread)
}.
Arguments MkIO {T K}.
Arguments m_fdContexts {T K}.
Arguments fd_heap {T K}.
Arguments m_pendingEventCount {T K}.
Arguments m_tickleFds {T K}.
Arguments timers {T K}.
Arguments kernel {T K}.
Arguments foreign {T K}.

Section iomanager.
Context {E : Set → Type} {T K : Type} `{!Kernel K, !TimerQueue T}.
(** Bound on the retries of the loops around [epoll_wait] and [read]. *)
Context (fuel : nat).
Notation Io := (IO T K).
Notation St := (Sched E Io).

Definition set_table (l : list nat) (x : Io) : Io :=
  MkIO l (fd_heap x) (m_pendingEventCount x) (m_tickleFds x) (timers x) (kernel x) (foreign x).
Definition set_fd_heap (h : gmap nat FdContext) (x : Io) : Io :=
  MkIO (m_fdContexts x) h (m_pendingEventCount x) (m_tickleFds x) (timers x) (kernel x)
    (foreign x).
Definition set_pending (n : Z) (x : Io) : Io :=
  MkIO (m_fdContexts x) (fd_heap x) n (m_tickleFds x) (timers x) (kernel x) (foreign x).
Definition set_pipe (p : Z * Z) (x : Io) : Io :=
  MkIO (m_fdContexts x) (fd_heap x) (m_pendingEventCount x) p (timers x) (kernel x) (foreign x).
Definition set_tq (t : T) (x : Io) : Io :=
  MkIO (m_fdContexts x) (fd_heap x) (m_pendingEventCount x) (m_tickleFds x) t (kernel x)
    (foreign x).
Definition set_kernel (k : K) (x : Io) : Io :=
  MkIO (m_fdContexts x) (fd_heap x) (m_pendingEventCount x) (m_tickleFds x) (timers x) k
    (foreign x).
Definition set_foreign (l : list (nat * FiberAndThread)) (x : Io) : Io :=
  MkIO (m_fdContexts x) (fd_heap x) (m_pendingEventCount x) (m_tickleFds x) (timers x)
    (kernel x) l.

(** Operations on the [IO] part, and system calls, inside the scheduler. *)
Definition io {A} (m : M Io A) : M St A := mzoom host set_host m.
Definition syscall {A} (call : K → A * K) : M St A :=
  io (λ x, let '(a, k) := call (kernel x) in Ret a (set_kernel k x)).
Definition timer_op {A} (m : M T A) : M St A := io (mzoom timers set_tq m).

Definition get_ctx (p : nat) : M St FdContext :=
  io (λ x, match fd_heap x !! p with
    | Some c => Ret c x
    | None => Crash (Undefined "dangling FdContext")
    end).
Definition put_ctx (p : nat) (c : FdContext) : M St unit :=
  io (mmodify (λ x, set_fd_heap (<[p := c]> (fd_heap x)) x)).
Definition add_pending (d : Z) : M St unit :=
  io (mmodify (λ x, set_pending (u64 (m_pendingEventCount x + d)) x)).

(** * The contexts of a descriptor *)

(** [FdContext::getContext] *)
Definition getContext (event : Z) (c : FdContext) : M St EventContext :=
  if (event =? READ)%Z then mret (read c)
  else if (event =? WRITE)%Z then mret (write c)
  else mcrash (AssertFailed "getContext").
(** Writing through the reference it returns. *)
Definition setContext (event : Z) (e : EventContext) (c : FdContext) : FdContext :=
  if (event =? READ)%Z then MkFdContext (fc_fd c) (m_events c) e (write c)
  else MkFdContext (fc_fd c) (m_events c) (read c) e.
Definition with_events (events : Z) (c : FdContext) : FdContext :=
  MkFdContext (fc_fd c) events (read c) (write c).

(** [FdContext::resetContext] *)
Definition resetContext (e : EventContext) : EventContext := EventContext_empty.

(** [IOManager::tickle] *)
Definition IO_tickle : SchedTickle E Io :=
  s ← mget;
  if hasIdleThreads s then mret tt
  else
    rt ← syscall sys_write;
    massert (rt =? 1)%Z "rt == 1".

(** [ctx.scheduler->scheduler(...)] *)
Definition schedule_on (target : option nat) (fc : FiberOrcb) : M St unit :=
  match target with
  | None => mcrash (Undefined "null Scheduler pointer")
  | Some 0 => scheduler (SchedTickle0 := IO_tickle) fc (-1)
  | Some t =>
      let ft := FiberAndThread_new fc (-1) in
      mwhen (has_task ft) (io (mmodify (λ x, set_foreign (foreign x ++ [(t, ft)]) x)))
  end.

(** [FdContext::triggerEvent]: the task is swapped out of the context. *)
Definition triggerEvent (p : nat) (event : Z) : M St unit :=
  c ← get_ctx p;
  massert (has (m_events c) event) "m_events & event" ;;
  let c1 := with_events (without (m_events c) event) c in
  put_ctx p c1 ;;
  ctx ← getContext event c1;
  match ec_cb ctx with
  | Some cb =>
      schedule_on (ec_scheduler ctx) (FcCb (Some cb)) ;;
      put_ctx p (setContext event (MkEventContext None (ec_fiber ctx) None) c1)
  | None =>
      schedule_on (ec_scheduler ctx) (FcFiber (ec_fiber ctx)) ;;
      put_ctx p (setContext event (MkEventContext None None None) c1)
  end.

(** [IOManager::contextResize] *)
Fixpoint new_contexts (n : nat) (x : Io) : Io :=
  match n with
  | 0 => x
  | S n' =>
      let p := fresh (dom (fd_heap x)) in
      let c := FdContext_new (Z.of_nat (length (m_fdContexts x))) in
      new_contexts n' (set_table (m_fdContexts x ++ [p]) (set_fd_heap (<[p := c]> (fd_heap x)) x))
  end.
Definition contextResize (size : nat) : M St unit :=
  io (mmodify (λ x,
    if decide (size <= length (m_fdContexts x))
    then set_table (take size (m_fdContexts x)) x
    else new_contexts (size - length (m_fdContexts x)) x)).

(** [m_fdContexts[fd]] *)
Definition table_at (fd : Z) : M St nat := λ s,
  match (if (fd <? 0)%Z then None else m_fdContexts (host s) !! Z.to_nat fd) with
  | Some p => Ret p s
  | None => Crash (Undefined "m_fdContexts[fd]")
  end.
Definition table_size : M St Z := mgets (λ s, i32 (Z.of_nat (length (m_fdContexts (host s))))).

(** The lookup under the read lock; [None] if the table is too short. *)
Definition lookup_ctx (fd : Z) : M St (option nat) :=
  size ← table_size;
  if (fd <? size)%Z then p ← table_at fd; mret (Some p) else mret None.

(** [addEvent]: the table is grown under the write lock. *)
Definition grow_ctx (fd : Z) : M St nat :=
  contextResize (Z.to_nat (Z.quot (fd * 3) 2)) ;;
  table_at fd.

(** [addEvent]: the part under the mutex of the context; [cb] is the callback,
    [this_sched] is [Scheduler::GetThis()] and [this_fiber] [Fiber::GetThis()]. *)
Definition addEvent_locked (p : nat) (fd event : Z) (cb : option nat)
    (this_sched : option nat) (this_fiber : nat) : M St Z :=
  c ← get_ctx p;
  massert (negb (has (m_events c) event)) "!(fd_ctx->m_events & event)" ;;
  let op := if (m_events c =? 0)%Z then EPOLL_CTL_ADD else EPOLL_CTL_MOD in
  rt ← syscall (sys_epoll_ctl op fd (Z.lor EPOLLET (Z.lor (m_events c) event)) (DataPtr p));
  if negb (rt =? 0)%Z then mret (-1)%Z
  else
    add_pending 1 ;;
    let c1 := with_events (Z.lor (m_events c) event) c in
    ctx ← getContext event c1;
    massert (bool_decide (ec_scheduler ctx = None) && bool_decide (ec_fiber ctx = None) &&
      bool_decide (ec_cb ctx = None)) "!event_ctx" ;;
    (match cb with
     | Some _ => put_ctx p (setContext event (MkEventContext this_sched None cb) c1)
     | None =>
         put_ctx p (setContext event (MkEventContext this_sched (Some this_fiber) None) c1) ;;
         F ← load this_fiber;
         massert (bool_decide (m_state F = EXEC)) "event_ctx.fiber->getState() == EXEC"
     end) ;;
    mret 0%Z.

(** [IOManager::addEvent] *)
Definition addEvent (fd event : Z) (cb : option nat) (this_sched : option nat)
    (this_fiber : nat) : M St Z :=
  found ← lookup_ctx fd;
  p ← (match found with Some p => mret p | None => grow_ctx fd end);
  addEvent_locked p fd event cb this_sched this_fiber.

Definition delEvent_locked (p : nat) (fd event : Z) : M St bool :=
  c ← get_ctx p;
  if negb (has (m_events c) event) then mret false
  else
    let new_events := without (m_events c) event in
    let op := if (new_events =? 0)%Z then EPOLL_CTL_DEL else EPOLL_CTL_MOD in
    rt ← syscall (sys_epoll_ctl op fd (Z.lor EPOLLET new_events) (DataPtr p));
    if negb (rt =? 0)%Z then mret false
    else
      add_pending (-1) ;;
      let c1 := with_events new_events c in
      ctx ← getContext event c1;
      put_ctx p (setContext event (resetContext ctx) c1) ;;
      mret true.

Definition cancelEvent_locked (p : nat) (fd event : Z) : M St bool :=
  c ← get_ctx p;
  if negb (has (m_events c) event) then mret false
  else
    let new_events := without (m_events c) event in
    let op := if (new_events =? 0)%Z then EPOLL_CTL_DEL else EPOLL_CTL_MOD in
    rt ← syscall (sys_epoll_ctl op fd (Z.lor EPOLLET new_events) (DataPtr p));
    if negb (rt =? 0)%Z then mret false
    else
      triggerEvent p event ;;
      add_pending (-1) ;;
      mret true.

(** [if(fd_ctx->m_events & event){ triggerEvent(event); --m_pendingEventCount; }] *)
Definition trigger_if_set (p : nat) (event : Z) : M St unit :=
  c ← get_ctx p;
  mwhen (has (m_events c) event) (triggerEvent p event ;; add_pending (-1)).

Definition cancelAll_locked (p : nat) (fd : Z) : M St bool :=
  c ← get_ctx p;
  if (m_events c =? 0)%Z then mret false
  else
    rt ← syscall (sys_epoll_ctl EPOLL_CTL_DEL fd 0 (DataPtr p));
    if negb (rt =? 0)%Z then mret false
    else
      trigger_if_set p READ ;;
      trigger_if_set p WRITE ;;
      c' ← get_ctx p;
      massert (m_events c' =? 0)%Z "fd_ctx->m_events == 0" ;;
      mret true.

(** [delEvent], [cancelEvent] and [cancelAll] *)
Definition on_ctx (fd : Z) (f : nat → M St bool) : M St bool :=
  found ← lookup_ctx fd;
  match found with Some p => f p | None => mret false end.
Definition delEvent (fd event : Z) : M St bool :=
  on_ctx fd (λ p, delEvent_locked p fd event).
Definition cancelEvent (fd event : Z) : M St bool :=
  on_ctx fd (λ p, cancelEvent_locked p fd event).
Definition cancelAll (fd : Z) : M St bool :=
  on_ctx fd (λ p, cancelAll_locked p fd).

(** * Stopping and the idle fiber *)

(** [IOManager::stopping(timeout)], with the timeout it sets. *)
Definition IO_stopping_timeout : M St (bool * Z) :=
  now ← syscall sys_time;
  timeout ← timer_op (tq_next now);
  pending ← mgets (λ s : St, m_pendingEventCount (host s));
  if (timeout =? u64_max)%Z && (pending =? 0)%Z
  then b ← Scheduler_stopping; mret (b, timeout)
  else mret (false, timeout).
Definition IO_stopping : M St bool := r ← IO_stopping_timeout; mret r.1.

Definition MAX_TIMEOUT : Z := 3000.
(** The argument of [epoll_wait]. *)
Definition clamp_timeout (next_timeout : Z) : Z :=
  if (next_timeout =? u64_max)%Z then MAX_TIMEOUT
  else if (MAX_TIMEOUT <? i32 next_timeout)%Z then MAX_TIMEOUT else next_timeout.

(** The loop around [epoll_wait]. *)
Fixpoint wait_loop (n : nat) (next_timeout : Z) : M St (list (Z * epoll_data)) :=
  match n with
  | 0 => mcrash (Terminated "interrupted without end")
  | S n' =>
      let next := clamp_timeout next_timeout in
      rt ← syscall (sys_epoll_wait (i32 next));
      match rt with
      | WaitIntr => wait_loop n' next
      | WaitError => mret []
      | WaitReady events => mret events
      end
  end.

(** [while(read(m_tickleFds[0], &dummy, 1) == 1);] *)
Fixpoint drain_pipe (n : nat) : M St unit :=
  match n with
  | 0 => mcrash (Terminated "the pipe never runs dry")
  | S n' => rt ← syscall sys_read; if (rt =? 1)%Z then drain_pipe n' else mret tt
  end.

(** The events of the descriptor that are taken to have happened. *)
Definition real_events (events : Z) : Z :=
  let events' := if has events (Z.lor EPOLLERR EPOLLHUP)
    then Z.lor events (Z.lor EPOLLIN EPOLLOUT) else events in
  Z.lor (if has events' EPOLLIN then READ else NONE) (if has events' EPOLLOUT then WRITE else NONE).

(** The body of the loop over the ready events. *)
Definition handle_event (ev : Z * epoll_data) : M St unit :=
  let '(events, data) := ev in
  pipe ← mgets (λ s : St, m_tickleFds (host s));
  match data with
  | DataFd fd =>
      if bool_decide (fd = pipe.1) then drain_pipe fuel
      else mcrash (Undefined "event.data.ptr")
  | DataPtr p =>
      c ← get_ctx p;
      let real := real_events events in
      if (Z.land (m_events c) real =? NONE)%Z then mret tt
      else
        let left := without (m_events c) real in
        let op := if (left =? 0)%Z then EPOLL_CTL_DEL else EPOLL_CTL_MOD in
        rt2 ← syscall (sys_epoll_ctl op (fc_fd c) (Z.lor EPOLLET left) (DataPtr p));
        if negb (rt2 =? 0)%Z then mret tt
        else
          mwhen (has real READ) (triggerEvent p READ ;; add_pending (-1)) ;;
          mwhen (has real WRITE) (triggerEvent p WRITE ;; add_pending (-1))
  end.

(** One run of [IOManager::idle], up to [swapOut] or its end. *)
Definition IO_idle : M St State :=
  r ← IO_stopping_timeout;
  if (r : bool * Z).1 then mret TERM
  else
    events ← wait_loop fuel r.2;
    now ← syscall sys_time;
    cbs ← timer_op (tq_expired now);
    (if decide (cbs = []) then mret tt
     else _ ← scheduler_range (SchedTickle0 := IO_tickle) (FcCb <$> cbs); mret tt) ;;
    miter handle_event events ;;
    mret EXEC.

(** [IOManager::onTimerInsertedAtFront] *)
Definition onTimerInsertedAtFront : M St unit := IO_tickle.

(** The overridden virtual functions. *)
Definition io_host : SchedHost E Io :=
  {| host_tickle := IO_tickle; stopping := IO_stopping; idle := IO_idle |}.

(** [IOManager(threads, use_caller, name)] *)
Definition IOManager_new (threads : Z) (use_caller : bool) (fiber_id : Z)
    (t_scheduler : bool) (stack_size : Z) (run_cb : nat) (tids : list Z) : M St unit :=
  Scheduler_new threads use_caller fiber_id t_scheduler stack_size run_cb ;;
  io (mmodify (λ x, set_table [] (set_pending 0 x))) ;;
  epfd ← syscall sys_epoll_create;
  massert (0 <? epfd)%Z "m_epfd > 0" ;;
  r ← syscall sys_pipe;
  massert (r.1 =? 0)%Z "rt == 0" ;;
  io (mmodify (set_pipe r.2)) ;;
  rt ← syscall (sys_fcntl r.2.1);
  massert (rt =? 0)%Z "rt == 0" ;;
  rt2 ← syscall (sys_epoll_ctl EPOLL_CTL_ADD r.2.1 (Z.lor EPOLLIN EPOLLET) (DataFd r.2.1));
  massert (rt2 =? 0)%Z "rt == 0" ;;
  contextResize 32 ;;
  start tids.

(** The end of [~IOManager], after [stop]: the contexts in the table are freed. *)
Definition delete_contexts : M St unit :=
  io (mmodify (λ x, set_fd_heap
    (foldr delete (fd_heap x) (m_fdContexts x)) x)).
End iomanager.

(** Timer.v implements [TimerQueue]; [fn_of] identifies the functions it hands
    out with the callbacks of the scheduler. *)
#[export] Instance timer_queue (fn_of : callback → nat) : TimerQueue TimerManager := {|
  tq_next := getNextTimer;
  tq_expired now :=
    s ← mget;
    cbs ← listExpiredCb (fresh (dom (tm_heap s))) now;
    mret (fmap (M := option) fn_of <$> cbs)
|}.

(** * Specification vocabulary *)

(** The slot of an event, and the task waiting in it. *)
Definition slot (event : Z) (c : FdContext) : EventContext :=
  if (event =? READ)%Z then read c else write c.
Definition task_of (e : EventContext) : FiberAndThread :=
  MkFiberAndThread (ec_fiber e) (ec_cb e) (-1).

(** Exactly one of a callback and a fiber waits. *)
Definition occupied (e : EventContext) : Prop :=
  (is_Some (ec_cb e) ∧ ec_fiber e = None) ∨ (ec_cb e = None ∧ is_Some (ec_fiber e)).
Definition slot_ok (event : Z) (c : FdContext) : Prop :=
  if has (m_events c) event then occupied (slot event c)
  else slot event c = EventContext_empty.

(** A context waits for the events of its mask, one task each. *)
Definition ctx_ok (c : FdContext) : Prop :=
  m_events c ∈ [0; 1; 4; 5]%Z ∧ slot_ok READ c ∧ slot_ok WRITE c.

(** The number of events a context waits for, and all contexts together. *)
Definition count (c : FdContext) : Z :=
  ((if has (m_events c) READ then 1 else 0) + (if has (m_events c) WRITE then 1 else 0))%Z.
Definition registered (h : gmap nat FdContext) : Z :=
  map_fold (λ _ c n, count c + n)%Z 0%Z h.

(** The table leads to live contexts, each with its index as descriptor; the
    contexts are well-formed and [m_pendingEventCount] is their sum. *)
Record io_ok (tb : list nat) (h : gmap nat FdContext) (n : Z) : Prop := {
  io_table i p : tb !! i = Some p → ∃ c, h !! p = Some c ∧ fc_fd c = Z.of_nat i;
  io_ctxs p c : h !! p = Some c → ctx_ok c;
  io_pending : n = u64 (registered h)
}.

(** A context after the task of an event has been taken out of it. *)
Definition released (event : Z) (c : FdContext) : FdContext :=
  setContext event EventContext_empty (with_events (without (m_events c) event) c).

(** The same for an event that may or may not be taken. *)
Definition release_if (b : bool) (event : Z) (c : FdContext) : FdContext :=
  if b then released event c else c.
(** What [triggerEvent] adds to the queue of this scheduler. *)
Definition released_task (event : Z) (c : FdContext) : list FiberAndThread :=
  if decide (ec_scheduler (slot event c) = Some 0) then [task_of (slot event c)] else [].
Definition tasks_if (b : bool) (event : Z) (c : FdContext) : list FiberAndThread :=
  if b then released_task event c else [].
Definition pending_if (b : bool) (n : Z) : Z := if b then u64 (n + -1) else n.

(** The task [addEvent] leaves in the context. *)
Definition new_task (cb this_sched : option nat) (this_fiber : nat) : EventContext :=
  MkEventContext this_sched (if cb then None else Some this_fiber) cb.

(** A context with one more event registered. *)
Definition registered_ctx (event : Z) (e : EventContext) (c : FdContext) : FdContext :=
  setContext event e (with_events (Z.lor (m_events c) event) c).

(** The event can be taken out of the context, up to the faults that are
    allowed. *)
Definition takeable (crashes : fault → Prop) (event : Z) (c : FdContext) : Prop :=
  (has (m_events c) event = true ∨ crashes (AssertFailed "m_events & event")) ∧
  (has (m_events c) event = true →
     ec_scheduler (slot event c) ≠ None ∨ crashes (Undefined "null Scheduler pointer")).

Section view.
Context {E : Set → Type} {T K : Type}.

(** The parts of the state the operations on events are about. *)
Definition at_view (hp : gmap nat (Fiber E)) (q : list FiberAndThread) (tb : list nat)
    (h : gmap nat FdContext) (n : Z) (s : Sched E (IO T K)) : Prop :=
  heap s = hp ∧ m_fibers s = q ∧ m_fdContexts (host s) = tb ∧ fd_heap (host s) = h ∧
  m_pendingEventCount (host s) = n.

Definition io_inv (s : Sched E (IO T K)) : Prop :=
  io_ok (m_fdContexts (host s)) (fd_heap (host s)) (m_pendingEventCount (host s)).
End view.

(** ** A small process for the examples: a kernel whose calls succeed, which
    counts the bytes written to the tickle pipe, and an [IOManager] with a table
    of [n] contexts. *)
#[local] Instance demo_kernel : Kernel nat := {|
  sys_epoll_create k := (3%Z, k);
  sys_pipe k := ((0%Z, (4%Z, 5%Z)), k);
  sys_fcntl _ k := (0%Z, k);
  sys_epoll_ctl _ _ _ _ k := (0%Z, k);
  sys_epoll_wait _ k := (WaitReady [], k);
  sys_write k := (1%Z, S k);
  sys_read k := (0%Z, k);
  sys_time k := (1000%Z, k)
|}.
Definition demo_fn (c : callback) : nat := match c with Fun f => f | BindOnTimer _ _ => 0 end.
#[local] Instance demo_timers : TimerQueue TimerManager := timer_queue demo_fn.
Definition demo_io (n : nat) : Sched (does nat) (IO TimerManager nat) :=
  MkSched [] 0 0 true true 0 None [] 1 [] ∅ 0
    (new_contexts n (MkIO [] ∅ 0 (4, 5)%Z (TimerManager_new 0) 0 [])).
(** Its context 7 waiting for reads, and for both events. *)
Definition after {S A} (m : M S A) (s : S) : S := match m s with Ret _ s' => s' | _ => s end.
Definition demo_read : Sched (does nat) (IO TimerManager nat) :=
  after (addEvent 7 READ (Some 2) (Some 0) 0) (demo_io 8).
Definition demo_both : Sched (does nat) (IO TimerManager nat) :=
  after (addEvent 7 WRITE (Some 3) (Some 0) 0) demo_read.

(** * The contexts *)

Lemma events_cases e :
  e ∈ [0; 1; 4; 5]%Z → e = 0%Z ∨ e = 1%Z ∨ e = 4%Z ∨ e = 5%Z.
Proof. set_solver. Qed.

Lemma ctx_ok_new fd : ctx_ok (FdContext_new fd).
Proof. split; [set_solver|]. split; reflexivity. Qed.

Lemma count_bound c : (0 <= count c <= 2)%Z.
Proof. unfold count. destruct (has _ READ), (has _ WRITE); lia. Qed.

(** Taking a registered event out of a context. *)
Lemma released_ok event c :
  event = READ ∨ event = WRITE → ctx_ok c → has (m_events c) event = true →
  ctx_ok (released event c) ∧ count (released event c) = (count c - 1)%Z ∧
  fc_fd (released event c) = fc_fd c ∧ has (m_events (released event c)) event = false ∧
  m_events (released event c) = without (m_events c) event.
Proof.
  destruct c as [fd ev r w]. intros He (Hev & Hr & Hw) Hh. cbn in *. revert Hr Hw Hh.
  unfold ctx_ok, slot_ok, count, released. cbn.
  apply events_cases in Hev as [-> |[-> |[-> | ->]]]; destruct He as [-> | ->]; cbn;
    intros Hr Hw Hh; try done; repeat split; try done; set_solver.
Qed.

Lemma registered_ok event e c :
  event = READ ∨ event = WRITE → ctx_ok c → has (m_events c) event = false → occupied e →
  ctx_ok (registered_ctx event e c) ∧ count (registered_ctx event e c) = (count c + 1)%Z ∧
  fc_fd (registered_ctx event e c) = fc_fd c.
Proof.
  destruct c as [fd ev r w]. intros He (Hev & Hr & Hw) Hh Ho. cbn in *. revert Hr Hw Hh.
  unfold ctx_ok, slot_ok, count, registered_ctx. cbn.
  apply events_cases in Hev as [-> |[-> |[-> | ->]]]; destruct He as [-> | ->]; cbn;
    intros Hr Hw Hh; try done; repeat split; try done; set_solver.
Qed.

Lemma registered_delete h p c :
  h !! p = Some c → registered h = (count c + registered (delete p h))%Z.
Proof.
  intros Hp. apply (map_fold_delete_L (λ (_ : nat) c n, count c + n)%Z); [intros; lia|done].
Qed.

Lemma registered_insert h p c c' :
  h !! p = Some c → registered (<[p := c']> h) = (registered h - count c + count c')%Z.
Proof.
  intros Hp. rw (registered_delete (<[p := c']> h) p c' (lookup_insert_eq _ _ _)).
  rw (registered_delete h p c Hp) delete_insert_eq. lia.
Qed.

Lemma registered_insert_new h p c' :
  h !! p = None → registered (<[p := c']> h) = (registered h + count c')%Z.
Proof.
  intros Hp. rw (registered_delete (<[p := c']> h) p c' (lookup_insert_eq _ _ _)).
  rw delete_insert_id; [done|]. lia.
Qed.

(** Replacing a context, with the counter adjusted. *)
Lemma io_ok_insert tb h n p c c' n' :
  io_ok tb h n → h !! p = Some c → ctx_ok c' → fc_fd c' = fc_fd c →
  n' = u64 (n + count c' - count c) → io_ok tb (<[p := c']> h) n'.
Proof.
  intros [Ht Hc Hn] Hp Hc' Hfd ->. split.
  - intros i q Hq. destruct (Ht i q Hq) as (d & Hd & Hi).
    destruct (decide (q = p)) as [->|]; [|exists d; by rw lookup_insert_ne].
    exists c'. rw lookup_insert_eq. split; [done|]. congruence.
  - intros q d. destruct (decide (q = p)) as [->|].
    + rw lookup_insert_eq. by intros [= <-].
    + rw lookup_insert_ne; [done|]. apply Hc.
  - rw (registered_insert h p c c' Hp) Hn.
    replace (u64 (registered h) + count c' - count c)%Z
      with (u64 (registered h) + (count c' - count c))%Z by lia.
    rw u64_add_l. f_equal. lia.
Qed.

(** Growing and cutting the table. *)
Lemma io_ok_take tb h n k : io_ok tb h n → io_ok (take k tb) h n.
Proof.
  intros [Ht Hc Hn]. split; [|done|done]. intros i p Hi. apply Ht.
  by apply lookup_take_Some in Hi as [? ?].
Qed.

Lemma io_ok_snoc tb h n p :
  io_ok tb h n → h !! p = None →
  io_ok (tb ++ [p]) (<[p := FdContext_new (Z.of_nat (length tb))]> h) n.
Proof.
  intros [Ht Hc Hn] Hp. split.
  - intros i q. rw lookup_snoc_Some. intros [[Hi Hq]|[-> ->]].
    + destruct (Ht i q Hq) as (c & Hqc & ?). exists c.
      rw lookup_insert_ne; [congruence|done].
    + eexists. rw lookup_insert_eq. done.
  - intros q c. destruct (decide (q = p)) as [->|].
    + rw lookup_insert_eq. intros [= <-]. apply ctx_ok_new.
    + rw lookup_insert_ne; [done|]. apply Hc.
  - rw registered_insert_new; [done|]. by rw Z.add_0_r.
Qed.

Lemma new_contexts_ok {T K} k : ∀ x : IO T K,
  io_ok (m_fdContexts x) (fd_heap x) (m_pendingEventCount x) →
  let y := new_contexts k x in
  io_ok (m_fdContexts y) (fd_heap y) (m_pendingEventCount y) ∧
  length (m_fdContexts y) = length (m_fdContexts x) + k.
Proof.
  induction k as [|k IH]; intros x Hx; cbn [new_contexts]; [split; [done|lia]|].
  set (p := fresh (dom (fd_heap x))). set (x1 := set_table _ _).
  destruct (IH x1) as [H1 H2].
  { apply io_ok_snoc; [done|]. apply not_elem_of_dom, is_fresh. }
  split; [done|]. rw H2. cbn. rw length_app. simpl. lia.
Qed.

(** * The loops around [epoll_wait] and [read] end when the kernel lets them

    [calls_from call n k] is the kernel after [n] calls; the first [n] ask for another
    one and the next does not. *)

Fixpoint calls_from {K A} (call : K → A * K) (n : nat) (k : K) : K :=
  match n with 0 => k | S n => calls_from call n (call k).2 end.
Definition settles {K A} (call : K → A * K) (retry : A → Prop) (n : nat) (k : K) : Prop :=
  (∀ i, i < n → retry (call (calls_from call i k)).1) ∧ ¬ retry (call (calls_from call n k)).1.

Section loops_end.
Context {E : Set → Type} {T K : Type} `{!Kernel K, !TimerQueue T}.
Implicit Types (s : Sched E (IO T K)).

Definition with_kernel (k : K) (s : Sched E (IO T K)) : Sched E (IO T K) :=
  set_host (set_kernel k (host s)) s.

Lemma syscall_step {A} (call : K → A * K) s :
  syscall call s = Ret (call (kernel (host s))).1 (with_kernel (call (kernel (host s))).2 s).
Proof. unfold syscall, io, mzoom. by destruct (call (kernel (host s))). Qed.

Lemma settles_S {A} (call : K → A * K) retry n k :
  settles call retry (S n) k → retry (call k).1 ∧ settles call retry n (call k).2.
Proof.
  intros [Hi Hn]. split; [apply (Hi 0); lia|]. split; [|done].
  intros i H. apply (Hi (S i)). lia.
Qed.

Lemma clamp_idem t : clamp_timeout (clamp_timeout t) = clamp_timeout t.
Proof.
  unfold clamp_timeout, MAX_TIMEOUT. destruct (t =? u64_max)%Z eqn:H1; [done|].
  destruct (3000 <? i32 t)%Z eqn:H2; [done|]. by rw H1 H2.
Qed.

(** Interrupted [n] times, the wait takes the answer of the next call, with
    any fuel above [n]. *)
Lemma wait_loop_ends n m t s :
  let call := sys_epoll_wait (i32 (clamp_timeout t)) in
  let k := kernel (host s) in
  settles call (λ r, r = WaitIntr) n k → n < m →
  wait_loop m t s =
    Ret (match (call (calls_from call n k)).1 with WaitReady events => events | _ => [] end)
      (with_kernel (calls_from call (S n) k) s).
Proof.
  revert m t s. induction n as [|n IH]; intros [|m] t s call k Hs Hm; try lia.
  all: cbn [wait_loop]; rw (bind_Ret _ _ _ _ _ (syscall_step _ s)); fold call k.
  - destruct Hs as [_ Hs]. cbn in Hs |- *. by destruct (call k) as [[] k'].
  - apply settles_S in Hs as [H0 Hs]. rw H0. rw IH; cbn -[clamp_timeout]; rw ?clamp_idem.
    1,2: done || lia.
    done.
Qed.

(** The pipe is drained when it holds [n] bytes. *)
Lemma drain_pipe_ends n m s :
  settles sys_read (λ r, r = 1%Z) n (kernel (host s)) → n < m →
  drain_pipe m s = Ret tt (with_kernel (calls_from sys_read (S n) (kernel (host s))) s).
Proof.
  revert m s. induction n as [|n IH]; intros [|m] s Hs Hm; try lia.
  all: cbn [drain_pipe]; rw (bind_Ret _ _ _ _ _ (syscall_step _ s)).
  - destruct Hs as [_ Hs]. cbn in Hs. destruct (Z.eqb_spec (sys_read (kernel (host s))).1 1); done.
  - apply settles_S in Hs as [H0 Hs]. rw H0. cbn [Z.eqb Pos.eqb]. apply (IH m (with_kernel (sys_read (kernel (host s))).2 s)); [done|lia].
Qed.
End loops_end.

(** * The operations on the view *)

Section ops.
Context {E : Set → Type} {T K : Type} `{!Kernel K, !TimerQueue T}.
Context (crashes : fault → Prop) (hp : gmap nat (Fiber E)).
(** Writing to the tickle pipe succeeds, or its assertion may fail. *)
Hypothesis tickle_fine : (∀ k, (sys_write k).1 = 1%Z) ∨ crashes (AssertFailed "rt == 1").
Implicit Types (s : Sched E (IO T K)).
Notation view := (@at_view E T K hp).
Notation spec := (spec crashes).

Lemma view_syscall q tb h n {A} (f : K → A * K) :
  spec (view q tb h n) (syscall f) (λ a s, (∃ k, a = (f k).1) ∧ view q tb h n s).
Proof.
  intros s Hs. unfold syscall, io, mzoom. destruct (f (kernel (host s))) as [a k] eqn:Hf.
  split; [exists (kernel (host s)); by rw Hf|done].
Qed.

Lemma view_get q tb h n p c :
  h !! p = Some c →
  spec (view q tb h n) (get_ctx p) (λ a s, a = c ∧ view q tb h n s).
Proof.
  intros Hp s (Hf & Hq & Ht & Hh & Hn). unfold get_ctx, io, mzoom. rw Hh Hp. by destruct s.
Qed.

Lemma view_put q tb h n p c :
  spec (view q tb h n) (put_ctx p c) (λ _, view q tb (<[p := c]> h) n).
Proof. intros s (Hf & Hq & Ht & Hh & Hn). cbn. unfold at_view. cbn. by rw Hh. Qed.

Lemma view_pending q tb h n d :
  spec (view q tb h n) (add_pending d) (λ _, view q tb h (u64 (n + d))).
Proof. intros s (Hf & Hq & Ht & Hh & Hn). cbn. unfold at_view. cbn. by rw Hn. Qed.

Lemma view_tickle q tb h n :
  spec (view q tb h n) IO_tickle (λ _, view q tb h n).
Proof.
  intros s Hs. unfold IO_tickle. cbv [mbind M_bind mget].
  destruct (hasIdleThreads s); [done|].
  pose proof (view_syscall q tb h n sys_write s Hs) as H.
  destruct (syscall sys_write s) as [rt s'| |]; [|done..].
  destruct H as [[k ->] Hs']. unfold massert.
  destruct (_ =? 1)%Z eqn:Hrt; [done|]. destruct tickle_fine as [Hk|]; [|done].
  by rw Hk in Hrt.
Qed.

Lemma view_scheduler q tb h n fc thread :
  spec (view q tb h n) (scheduler (SchedTickle0 := IO_tickle) fc thread)
    (λ _, view (q ++ (if has_task (FiberAndThread_new fc thread)
                      then [FiberAndThread_new fc thread] else [])) tb h n).
Proof.
  intros s Hs. unfold scheduler, scheduleNoLock. rw (bind_Ret _ _ _ _ _ (push_spec _ _)).
  destruct Hs as (Hf & Hq & Ht & Hh & Hn).
  assert (view (q ++ (if has_task (FiberAndThread_new fc thread)
      then [FiberAndThread_new fc thread] else [])) tb h n
    (set_queue (if has_task (FiberAndThread_new fc thread)
      then m_fibers s ++ [FiberAndThread_new fc thread] else m_fibers s) s)) as Hv.
  { split; [done|]. split; [|done]. cbn. rw Hq. destruct (has_task _); [done|]. by rw app_nil_r. }
  destruct (bool_decide (m_fibers s = [])); [|done]. by apply view_tickle.
Qed.

Lemma view_schedule_on q tb h n target fc :
  (target ≠ None ∨ crashes (Undefined "null Scheduler pointer")) →
  spec (view q tb h n) (schedule_on target fc)
    (λ _, view (q ++ (if decide (target = Some 0) then
      if has_task (FiberAndThread_new fc (-1)) then [FiberAndThread_new fc (-1)] else []
      else [])) tb h n).
Proof.
  intros Ht. destruct target as [[|t]|]; cbn [schedule_on].
  - apply view_scheduler.
  - intros s Hs. rw app_nil_r. by destruct (has_task _).
  - apply spec_crash. naive_solver.
Qed.

Lemma view_getContext q tb h n event c :
  event = READ ∨ event = WRITE →
  spec (view q tb h n) (getContext event c) (λ a s, a = slot event c ∧ view q tb h n s).
Proof. intros [-> | ->]; by apply spec_ret. Qed.

Lemma slot_has event c :
  event = READ ∨ event = WRITE → ctx_ok c → has (m_events c) event = true →
  occupied (slot event c).
Proof. intros He (_ & Hr & Hw) Hh. unfold slot_ok in *. by destruct He as [-> | ->]; rw Hh in Hr Hw. Qed.

Lemma view_trigger q tb h n p c event :
  event = READ ∨ event = WRITE → h !! p = Some c → ctx_ok c →
  takeable crashes event c →
  spec (view q tb h n) (triggerEvent p event)
    (λ _ s, has (m_events c) event = true ∧
       view (q ++ released_task event c) tb (<[p := released event c]> h) n s).
Proof.
  intros He Hp Hc [Hhas Hs]. unfold triggerEvent.
  eapply spec_bind; [by apply view_get|]. intros c0. apply spec_pure. intros ->.
  eapply spec_bind with (R := λ _ s, has (m_events c) event = true ∧ view q tb h n s);
    [by apply spec_assert|]. intros []. apply spec_pure. intros Hb.
  eapply spec_bind; [apply view_put|]. intros [].
  eapply spec_bind; [by apply view_getContext|]. intros ctx. apply spec_pure. intros ->.
  assert (slot event (with_events (without (m_events c) event) c) = slot event c) as -> by done.
  assert (∀ target fc (e : EventContext),
    FiberAndThread_new fc (-1) = task_of (slot event c) → has_task (task_of (slot event c)) = true →
    target = ec_scheduler (slot event c) → e = EventContext_empty →
    spec (view q tb (<[p := with_events (without (m_events c) event) c]> h) n)
      (schedule_on target fc ;;
       put_ctx p (setContext event e (with_events (without (m_events c) event) c)))
      (λ _ s, has (m_events c) event = true ∧
        view (q ++ released_task event c) tb (<[p := released event c]> h) n s)) as Hgo.
  { intros target fc e Hfc Ht -> ->. eapply spec_bind; [by apply view_schedule_on, Hs|]. intros [].
    rw Hfc Ht. eapply spec_conseq; [apply view_put|done|]. intros [] s Hv. split; [done|].
    by rw insert_insert_eq in Hv. }
  pose proof (slot_has event c He Hc Hb) as Ho. unfold task_of in Hgo. unfold occupied in Ho.
  destruct (slot event c) as [sch f cb]. cbn in *.
  destruct Ho as [[[x ->] ->]|[-> [x ->]]]; by apply Hgo.
Qed.

(** Triggering an event and counting it, from a consistent state. *)
Lemma view_trigger_count q tb h n p c event :
  event = READ ∨ event = WRITE → h !! p = Some c → io_ok tb h n →
  takeable crashes event c →
  spec (view q tb h n) (triggerEvent p event ;; add_pending (-1))
    (λ _ s, has (m_events c) event = true ∧
       view (q ++ released_task event c) tb (<[p := released event c]> h) (u64 (n + -1)) s ∧
       io_ok tb (<[p := released event c]> h) (u64 (n + -1))).
Proof.
  intros He Hp Hok Htake.
  eapply spec_bind; [apply view_trigger; eauto using io_ctxs|]. intros []. apply spec_pure.
  intros Hb. eapply spec_conseq; [apply view_pending|done|]. intros [] s Hv.
  split; [done|]. split; [done|].
  destruct (released_ok event c He (io_ctxs _ _ _ Hok _ _ Hp) Hb) as (? & Hcnt & ? & _).
  eapply io_ok_insert; eauto. f_equal. lia.
Qed.

(** The end of [delEvent] and [cancelEvent]: with the event registered, and
    [epoll_ctl] successful, the task leaves the context. *)
Lemma view_del q tb h n p c fd event :
  event = READ ∨ event = WRITE → h !! p = Some c → io_ok tb h n →
  spec (view q tb h n) (delEvent_locked p fd event)
    (λ b s, if (b : bool)
      then has (m_events c) event = true ∧
        view q tb (<[p := released event c]> h) (u64 (n + -1)) s ∧
        io_ok tb (<[p := released event c]> h) (u64 (n + -1))
      else view q tb h n s ∧ (has (m_events c) event = false ∨ ∃ op ev k,
        (sys_epoll_ctl op fd ev (DataPtr p) k).1 ≠ 0%Z)).
Proof.
  intros He Hp Hok. unfold delEvent_locked.
  eapply spec_bind; [by apply view_get|]. intros c0. apply spec_pure. intros ->.
  destruct (has (m_events c) event) eqn:Hb; cbn [negb]; [|by apply spec_ret; auto].
  eapply spec_bind; [apply view_syscall|]. intros rt. apply spec_pure. intros [k ->].
  destruct (Z.eqb_spec (sys_epoll_ctl (if (without (m_events c) event =? 0)%Z
    then EPOLL_CTL_DEL else EPOLL_CTL_MOD) fd (Z.lor EPOLLET (without (m_events c) event))
    (DataPtr p) k).1 0) as [H0|H0]; cbn [negb]; [|apply spec_ret; eauto 8].
  eapply spec_bind; [apply view_pending|]. intros [].
  eapply spec_bind; [by apply view_getContext|]. intros ctx. apply spec_pure. intros ->.
  eapply spec_bind; [apply view_put|]. intros [].
  apply spec_ret. intros s Hv. split; [done|]. split; [exact Hv|].
  destruct (released_ok event c He (io_ctxs _ _ _ Hok _ _ Hp) Hb) as (? & Hcnt & ? & _).
  eapply io_ok_insert; eauto. f_equal. lia.
Qed.

Lemma view_cancel q tb h n p c fd event :
  event = READ ∨ event = WRITE → h !! p = Some c → io_ok tb h n →
  ec_scheduler (slot event c) ≠ None ∨ crashes (Undefined "null Scheduler pointer") →
  spec (view q tb h n) (cancelEvent_locked p fd event)
    (λ b s, if (b : bool)
      then has (m_events c) event = true ∧
        view (q ++ released_task event c) tb (<[p := released event c]> h) (u64 (n + -1)) s ∧
        io_ok tb (<[p := released event c]> h) (u64 (n + -1))
      else view q tb h n s ∧ (has (m_events c) event = false ∨ ∃ op ev k,
        (sys_epoll_ctl op fd ev (DataPtr p) k).1 ≠ 0%Z)).
Proof.
  intros He Hp Hok Hs. unfold cancelEvent_locked.
  eapply spec_bind; [by apply view_get|]. intros c0. apply spec_pure. intros ->.
  destruct (has (m_events c) event) eqn:Hb; cbn [negb]; [|by apply spec_ret; auto].
  eapply spec_bind; [apply view_syscall|]. intros rt. apply spec_pure. intros [k ->].
  destruct (Z.eqb_spec (sys_epoll_ctl (if (without (m_events c) event =? 0)%Z
    then EPOLL_CTL_DEL else EPOLL_CTL_MOD) fd (Z.lor EPOLLET (without (m_events c) event))
    (DataPtr p) k).1 0) as [H0|H0]; cbn [negb]; [|apply spec_ret; eauto 8].
  eapply spec_bind; [apply view_trigger; unfold takeable; eauto using io_ctxs|].
  intros []. apply spec_pure. intros _. eapply spec_bind; [apply view_pending|]. intros [].
  apply spec_ret. intros s Hv. split; [done|]. split; [exact Hv|].
  destruct (released_ok event c He (io_ctxs _ _ _ Hok _ _ Hp) Hb) as (? & Hcnt & ? & _).
  eapply io_ok_insert; eauto. f_equal. lia.
Qed.

Lemma view_load q tb h n f F :
  hp !! f = Some F → spec (view q tb h n) (load f) (λ a s, a = F ∧ view q tb h n s).
Proof. intros Hf s Hs. destruct (Hs) as (Hh & _). unfold load. by rw Hh Hf. Qed.

Lemma view_add q tb h n p c fd event cb this_sched this_fiber :
  event = READ ∨ event = WRITE → h !! p = Some c → io_ok tb h n →
  has (m_events c) event = false ∨ crashes (AssertFailed "!(fd_ctx->m_events & event)") →
  is_Some cb ∨ (∃ F, hp !! this_fiber = Some F ∧ m_state F = EXEC) ∨ (∀ f, crashes f) →
  spec (view q tb h n) (addEvent_locked p fd event cb this_sched this_fiber)
    (λ rt s, has (m_events c) event = false ∧
      let c' := registered_ctx event (new_task cb this_sched this_fiber) c in
      (rt = 0%Z ∧ view q tb (<[p := c']> h) (u64 (n + 1)) s ∧
         io_ok tb (<[p := c']> h) (u64 (n + 1))) ∨
      (rt = (-1)%Z ∧ view q tb h n s ∧ ∃ op ev k,
        (sys_epoll_ctl op fd ev (DataPtr p) k).1 ≠ 0%Z)).
Proof.
  intros He Hp Hok Hhas Hcb. unfold addEvent_locked.
  eapply spec_bind; [by apply view_get|]. intros c0. apply spec_pure. intros ->.
  eapply spec_bind with (R := λ _ s, has (m_events c) event = false ∧ view q tb h n s).
  { apply spec_assert; destruct (has (m_events c) event); naive_solver. }
  intros []. apply spec_pure. intros Hb.
  eapply spec_bind; [apply view_syscall|]. intros rt. apply spec_pure. intros [k ->].
  destruct (Z.eqb_spec (sys_epoll_ctl (if (m_events c =? 0)%Z then EPOLL_CTL_ADD
    else EPOLL_CTL_MOD) fd (Z.lor EPOLLET (Z.lor (m_events c) event)) (DataPtr p) k).1 0)
    as [H0|H0]; cbn [negb]; [|apply spec_ret; eauto 10].
  pose proof (io_ctxs _ _ _ Hok _ _ Hp) as Hc.
  assert (occupied (new_task cb this_sched this_fiber)) as Ho.
  { unfold occupied, new_task. destruct cb; cbn; eauto. }
  destruct (registered_ok event (new_task cb this_sched this_fiber) c He Hc Hb Ho)
    as (? & Hcnt & ?).
  assert (slot event c = EventContext_empty) as Hempty.
  { destruct Hc as (_ & Hr & Hw). unfold slot_ok in *. by destruct He as [-> | ->]; rw Hb in Hr Hw. }
  eapply spec_bind; [apply view_pending|]. intros [].
  eapply spec_bind; [by apply view_getContext|]. intros ctx. apply spec_pure. intros ->.
  assert (slot event (with_events (Z.lor (m_events c) event) c) = EventContext_empty) as ->
    by exact Hempty.
  eapply spec_bind with (R := λ _, view q tb h (u64 (n + 1)));
    [apply spec_assert; [by left|done]|]. intros [].
  eapply spec_bind with (R := λ _ s, view q tb
    (<[p := registered_ctx event (new_task cb this_sched this_fiber) c]> h) (u64 (n + 1)) s).
  { destruct cb as [x|]; [apply view_put|].
    eapply spec_bind; [apply view_put|]. intros [].
    destruct Hcb as [[? ?]|[(F & HF & Hst)|Hany]]; [done| |].
    - eapply spec_bind; [by apply view_load|]. intros F'. apply spec_pure. intros ->.
      apply spec_assert; [left; by apply bool_decide_eq_true_2|by intros _ s Hs].
    - intros s Hs. unfold load, massert. cbv [mbind M_bind].
      destruct (heap s !! this_fiber); [|apply Hany].
      destruct (bool_decide _); [exact Hs|apply Hany]. }
  intros []. apply spec_ret. intros s Hv. split; [done|]. left. split; [done|].
  split; [exact Hv|]. eapply io_ok_insert; eauto. f_equal. lia.
Qed.

Lemma view_when q tb h n p c b event :
  event = READ ∨ event = WRITE → h !! p = Some c → io_ok tb h n →
  (b = true → takeable crashes event c) →
  spec (view q tb h n) (mwhen b (triggerEvent p event ;; add_pending (-1)))
    (λ _ s, ((b = true → has (m_events c) event = true) ∧
        io_ok tb (<[p := release_if b event c]> h) (pending_if b n)) ∧
      view (q ++ tasks_if b event c) tb (<[p := release_if b event c]> h) (pending_if b n) s).
Proof.
  intros He Hp Hok Htake. apply spec_when; intros ->; cbn.
  - eapply spec_conseq; [by apply view_trigger_count; auto|done|]. intros []. naive_solver.
  - intros s Hv. rw insert_id; [done|]. rw app_nil_r. naive_solver.
Qed.

Lemma release_if_read b c :
  ctx_ok c →
  has (m_events (release_if b READ c)) WRITE = has (m_events c) WRITE ∧
  slot WRITE (release_if b READ c) = slot WRITE c.
Proof.
  intros (Hev & _). destruct b; [|done]. split; [|done]. cbn.
  by apply events_cases in Hev as [-> |[-> |[-> | ->]]].
Qed.

(** Both events of a context in turn, as [cancelAll] and the idle loop do. *)
Lemma view_when_both q tb h n p c b1 b2 :
  h !! p = Some c → io_ok tb h n →
  (b1 = true → takeable crashes READ c) → (b2 = true → takeable crashes WRITE c) →
  let c' := release_if b2 WRITE (release_if b1 READ c) in
  spec (view q tb h n)
    (mwhen b1 (triggerEvent p READ ;; add_pending (-1)) ;;
     mwhen b2 (triggerEvent p WRITE ;; add_pending (-1)))
    (λ _ s, ((b1 = true → has (m_events c) READ = true) ∧
        (b2 = true → has (m_events c) WRITE = true) ∧
        io_ok tb (<[p := c']> h) (pending_if b2 (pending_if b1 n))) ∧
      view (q ++ tasks_if b1 READ c ++ tasks_if b2 WRITE c) tb (<[p := c']> h)
        (pending_if b2 (pending_if b1 n)) s).
Proof.
  intros Hp Hok H1 H2 c'.
  destruct (release_if_read b1 c (io_ctxs _ _ _ Hok _ _ Hp)) as [Hhas Hslot].
  eapply spec_bind.
  { by apply (view_when q tb h n p c b1 READ); auto. }
  intros []. apply spec_pure. intros [Hb1 Hok1].
  eapply spec_conseq; [apply (view_when (q ++ tasks_if b1 READ c) tb
    (<[p := release_if b1 READ c]> h) (pending_if b1 n) p (release_if b1 READ c) b2 WRITE)|done|];
    auto.
  - apply lookup_insert_eq.
  - unfold takeable. by rw Hhas Hslot.
  - intros [] s [[Hb2 Hok2] Hv]. rw insert_insert_eq in Hok2 Hv. rw Hhas in Hb2.
    rw -app_assoc in Hv. unfold tasks_if, released_task in *. rw Hslot in Hv. done.
Qed.

Lemma view_trigger_if q tb h n p c event :
  event = READ ∨ event = WRITE → h !! p = Some c → io_ok tb h n →
  (has (m_events c) event = true →
     ec_scheduler (slot event c) ≠ None ∨ crashes (Undefined "null Scheduler pointer")) →
  let b := has (m_events c) event in
  spec (view q tb h n) (trigger_if_set p event)
    (λ _ s, io_ok tb (<[p := release_if b event c]> h) (pending_if b n) ∧
      view (q ++ tasks_if b event c) tb (<[p := release_if b event c]> h) (pending_if b n) s).
Proof.
  intros He Hp Hok Hs b. unfold trigger_if_set.
  eapply spec_bind; [by apply view_get|]. intros c0. apply spec_pure. intros ->.
  eapply spec_conseq; [apply (view_when q tb h n p c b event); unfold takeable; auto|done|].
  naive_solver.
Qed.

Lemma release_both_events c :
  ctx_ok c →
  m_events (release_if (has (m_events c) WRITE) WRITE
    (release_if (has (m_events c) READ) READ c)) = 0%Z.
Proof.
  destruct c as [fd ev r w]. intros (Hev & _). cbn in *.
  by apply events_cases in Hev as [-> |[-> |[-> | ->]]].
Qed.

Lemma view_cancelAll q tb h n p c fd :
  h !! p = Some c → io_ok tb h n →
  (∀ e, e ∈ [READ; WRITE] → has (m_events c) e = true →
    ec_scheduler (slot e c) ≠ None ∨ crashes (Undefined "null Scheduler pointer")) →
  let b1 := has (m_events c) READ in
  let b2 := has (m_events c) WRITE in
  let c' := release_if b2 WRITE (release_if b1 READ c) in
  spec (view q tb h n) (cancelAll_locked p fd)
    (λ b s, if (b : bool)
      then m_events c ≠ 0%Z ∧ m_events c' = 0%Z ∧
        io_ok tb (<[p := c']> h) (pending_if b2 (pending_if b1 n)) ∧
        view (q ++ tasks_if b1 READ c ++ tasks_if b2 WRITE c) tb (<[p := c']> h)
          (pending_if b2 (pending_if b1 n)) s
      else view q tb h n s ∧ (m_events c = 0%Z ∨ ∃ k,
        (sys_epoll_ctl EPOLL_CTL_DEL fd 0 (DataPtr p) k).1 ≠ 0%Z)).
Proof.
  intros Hp Hok Hs b1 b2 c'. unfold cancelAll_locked.
  pose proof (io_ctxs _ _ _ Hok _ _ Hp) as Hc.
  eapply spec_bind; [by apply view_get|]. intros c0. apply spec_pure. intros ->.
  destruct (Z.eqb_spec (m_events c) 0) as [H0|H0]; [by apply spec_ret; auto|].
  eapply spec_bind; [apply view_syscall|]. intros rt. apply spec_pure. intros [k ->].
  destruct (Z.eqb_spec (sys_epoll_ctl EPOLL_CTL_DEL fd 0 (DataPtr p) k).1 0) as [Hk|Hk];
    cbn [negb]; [|apply spec_ret; eauto 8].
  destruct (release_if_read b1 c Hc) as [Hhas Hslot].
  eapply spec_bind.
  { apply (view_trigger_if q tb h n p c READ); auto. apply Hs. set_solver. }
  intros []. apply spec_pure. fold b1. intros Hok1.
  eapply spec_bind.
  { apply (view_trigger_if (q ++ tasks_if b1 READ c) tb (<[p := release_if b1 READ c]> h)
      (pending_if b1 n) p (release_if b1 READ c) WRITE); auto; [apply lookup_insert_eq|].
    rw Hhas Hslot. apply Hs. set_solver. }
  intros []. apply spec_pure. rw Hhas insert_insert_eq. fold b2 c'. intros Hok2.
  eapply spec_bind; [apply view_get, lookup_insert_eq|]. intros c1. apply spec_pure. intros ->.
  pose proof (release_both_events c Hc) as Hzero. fold b1 b2 c' in Hzero.
  eapply spec_bind with (R := λ _, view ((q ++ tasks_if b1 READ c) ++
    tasks_if b2 WRITE (release_if b1 READ c)) tb (<[p := c']> h) (pending_if b2 (pending_if b1 n))).
  { apply spec_assert; [left; by rw Hzero|done]. }
  intros []. apply spec_ret. intros s Hv. split; [done|]. split; [done|]. split; [done|].
  rw -app_assoc in Hv. unfold tasks_if, released_task in *. by rw Hslot in Hv.
Qed.

(** One ready event of a descriptor. *)
Lemma view_handle q tb h n p c ev fuel :
  h !! p = Some c → io_ok tb h n →
  let real := real_events ev in
  let b1 := has real READ in
  let b2 := has real WRITE in
  (b1 = true → takeable crashes READ c) → (b2 = true → takeable crashes WRITE c) →
  let c' := release_if b2 WRITE (release_if b1 READ c) in
  spec (view q tb h n) (handle_event fuel (ev, DataPtr p))
    (λ _ s,
      ((Z.land (m_events c) real ≠ 0%Z ∧ (b1 = true → has (m_events c) READ = true) ∧
          (b2 = true → has (m_events c) WRITE = true)) ∧
       io_ok tb (<[p := c']> h) (pending_if b2 (pending_if b1 n)) ∧
       view (q ++ tasks_if b1 READ c ++ tasks_if b2 WRITE c) tb (<[p := c']> h)
         (pending_if b2 (pending_if b1 n)) s) ∨
      (view q tb h n s ∧ (Z.land (m_events c) real = 0%Z ∨ ∃ op ev k,
         (sys_epoll_ctl op (fc_fd c) ev (DataPtr p) k).1 ≠ 0%Z))).
Proof.
  intros Hp Hok real b1 b2 H1 H2 c'. unfold handle_event.
  eapply spec_bind with (R := λ _, view q tb h n); [by apply spec_gets|]. intros pipe.
  eapply spec_bind; [by apply view_get|]. intros c0. apply spec_pure. intros ->. fold real.
  change NONE with 0%Z.
  destruct (Z.eqb_spec (Z.land (m_events c) real) 0) as [H0|H0]; [by apply spec_ret; auto|].
  eapply spec_bind; [apply view_syscall|]. intros rt. apply spec_pure. intros [k ->].
  set (rt := (sys_epoll_ctl _ _ _ _ _).1).
  destruct (Z.eqb_spec rt 0) as [Hk|Hk]; cbn [negb]; [|apply spec_ret; eauto 10].
  eapply spec_conseq; [by apply (view_when_both q tb h n p c b1 b2)|done|]. naive_solver.
Qed.
End ops.

(** * The invariant *)

Section invariant.
Context {E : Set → Type} {T K : Type} `{!Kernel K, !TimerQueue T}.
Notation inv := (@io_inv E T K).
Notation any := (λ _ : fault, True).

Lemma inv_view hp q tb h n (s : Sched E (IO T K)) :
  at_view hp q tb h n s → io_ok tb h n → inv s.
Proof. intros (_ & _ & <- & <- & <-) H. exact H. Qed.

(** An operation that meets a specification on the view keeps the invariant. *)
Lemma keeps_inv {A} (m : M (Sched E (IO T K)) A) :
  (∀ hp q tb h n, io_ok tb h n → spec any (at_view hp q tb h n) m (λ _, inv)) →
  keeps inv m.
Proof.
  intros H. apply spec_keeps. intros s Hs.
  by apply (H (heap s) (m_fibers s) (m_fdContexts (host s)) (fd_heap (host s))
    (m_pendingEventCount (host s))).
Qed.

(** The same for an operation on one context, which must be live. *)
Lemma keeps_inv_ctx {A} p (k : FdContext → M (Sched E (IO T K)) A) :
  (∀ hp q tb h n c, h !! p = Some c → io_ok tb h n →
     spec any (at_view hp q tb h n) (c ← get_ctx p; k c) (λ _, inv)) →
  keeps inv (c ← get_ctx p; k c).
Proof.
  intros H. apply keeps_inv. intros hp q tb h n Hok.
  destruct (h !! p) as [c|] eqn:Hp; [by eapply H|].
  intros s (_ & _ & _ & Hh & _). unfold get_ctx, io, mzoom, mbind, M_bind. by rw Hh Hp.
Qed.

Lemma inv_syscall {A} (f : K → A * K) : keeps inv (syscall f).
Proof. intros s Hs. unfold syscall, io, mzoom. by destruct (f (kernel (host s))). Qed.
Lemma inv_timer_op {A} (m : M T A) : keeps inv (timer_op m).
Proof. intros s Hs. unfold timer_op, io, mzoom. by destruct (m (timers (host s))). Qed.
Lemma inv_push ft : keeps inv (push ft).
Proof. intros s Hs. by rw push_spec; destruct (has_task ft). Qed.
Lemma inv_tickle : keeps inv IO_tickle.
Proof.
  apply keeps_bind; [apply keeps_get|]. intros s.
  destruct (hasIdleThreads s); [apply keeps_ret|].
  apply keeps_bind; [apply inv_syscall|]. intros rt. apply keeps_assert.
Qed.

Lemma inv_add p fd event cb sch f :
  event = READ ∨ event = WRITE → keeps inv (addEvent_locked p fd event cb sch f).
Proof.
  intros He. apply keeps_inv_ctx. intros hp q tb h n c Hp Hok.
  eapply spec_conseq; [eapply (view_add any hp); eauto|done|].
  intros rt s [_ [(_ & Hv & Hok')|(_ & Hv & _)]]; by eapply inv_view.
Qed.

Lemma inv_del p fd event :
  event = READ ∨ event = WRITE → keeps inv (delEvent_locked p fd event).
Proof.
  intros He. apply keeps_inv_ctx. intros hp q tb h n c Hp Hok.
  eapply spec_conseq; [by eapply (view_del any hp)|done|].
  intros [] s; [intros (_ & Hv & Hok')|intros [Hv _]]; by eapply inv_view.
Qed.

Lemma inv_cancel p fd event :
  event = READ ∨ event = WRITE → keeps inv (cancelEvent_locked p fd event).
Proof.
  intros He. apply keeps_inv_ctx. intros hp q tb h n c Hp Hok.
  eapply spec_conseq; [eapply (view_cancel any hp); eauto|done|].
  intros [] s; [intros (_ & Hv & Hok')|intros [Hv _]]; by eapply inv_view.
Qed.

Lemma inv_cancelAll p fd : keeps inv (cancelAll_locked p fd).
Proof.
  apply keeps_inv_ctx. intros hp q tb h n c Hp Hok.
  eapply spec_conseq; [eapply (view_cancelAll any hp); eauto|done|].
  intros [] s; [intros (_ & _ & Hok' & Hv)|intros [Hv _]]; by eapply inv_view.
Qed.

Lemma inv_resize size : keeps inv (contextResize size).
Proof.
  intros s Hs. unfold contextResize, io, mzoom, mmodify. cbn. unfold io_inv in *. cbn.
  destruct (decide (size <= length (m_fdContexts (host s)))).
  - by apply io_ok_take.
  - by apply new_contexts_ok.
Qed.

Lemma inv_table_at fd : keeps inv (table_at fd).
Proof.
  intros s Hs. unfold table_at.
  by destruct (if (fd <? 0)%Z then None else m_fdContexts (host s) !! Z.to_nat fd).
Qed.

Lemma inv_lookup fd : keeps inv (lookup_ctx fd).
Proof.
  apply keeps_bind; [apply keeps_gets|]. intros size.
  destruct (fd <? size)%Z; [|apply keeps_ret].
  apply keeps_bind; [apply inv_table_at|]. intros; apply keeps_ret.
Qed.

Lemma inv_grow fd : keeps inv (grow_ctx fd).
Proof. apply keeps_bind; [apply inv_resize|]. intros _. apply inv_table_at. Qed.

Lemma inv_addEvent fd event cb sch f :
  event = READ ∨ event = WRITE → keeps inv (addEvent fd event cb sch f).
Proof.
  intros He. apply keeps_bind; [apply inv_lookup|]. intros found.
  apply keeps_bind; [destruct found; [apply keeps_ret|apply inv_grow]|].
  intros p. by apply inv_add.
Qed.

Lemma inv_drain n : keeps inv (drain_pipe n).
Proof.
  induction n as [|n IH]; [apply keeps_crash|].
  apply keeps_bind; [apply inv_syscall|]. intros rt.
  destruct (rt =? 1)%Z; [done|apply keeps_ret].
Qed.

Lemma inv_handle fuel ev : keeps inv (handle_event fuel ev).
Proof.
  destruct ev as [ev [fd|p]].
  - apply keeps_bind; [apply keeps_gets|]. intros pipe.
    destruct (bool_decide _); [apply inv_drain|apply keeps_crash].
  - apply keeps_inv. intros hp q tb h n Hok. destruct (h !! p) as [c|] eqn:Hp.
    + eapply spec_conseq; [eapply (view_handle any hp); unfold takeable; eauto|done|].
      intros [] s [(_ & Hok' & Hv)|[Hv _]]; by eapply inv_view.
    + intros s (_ & _ & _ & Hh & _). unfold handle_event, get_ctx, io, mzoom.
      cbv [mbind M_bind mgets]. by rw Hh Hp.
Qed.

Lemma inv_stopping : keeps inv IO_stopping_timeout.
Proof.
  apply keeps_bind; [apply inv_syscall|]. intros now.
  apply keeps_bind; [apply inv_timer_op|]. intros timeout.
  apply keeps_bind; [apply keeps_gets|]. intros pending.
  destruct (_ && _); [|apply keeps_ret].
  apply (keeps_bind inv Scheduler_stopping); [apply keeps_gets|]. intros; apply keeps_ret.
Qed.

Lemma inv_wait n : ∀ t, keeps inv (wait_loop n t).
Proof.
  induction n as [|n IH]; intros t; [apply keeps_crash|].
  apply keeps_bind; [apply inv_syscall|]. intros []; [apply IH|apply keeps_ret..].
Qed.

Lemma inv_idle fuel : keeps inv (IO_idle fuel).
Proof.
  apply keeps_bind; [apply inv_stopping|]. intros [[|] t]; [apply keeps_ret|].
  apply keeps_bind; [apply inv_wait|]. intros events.
  apply keeps_bind; [apply inv_syscall|]. intros now.
  apply keeps_bind; [apply inv_timer_op|]. intros cbs.
  apply keeps_bind.
  { destruct (decide (cbs = [])); [apply keeps_ret|].
    apply keeps_bind; [|intros; apply keeps_ret].
    apply (I_scheduler_range (SchedHost0 := io_host fuel)); [apply inv_tickle|apply inv_push]. }
  intros _. apply keeps_bind; [apply keeps_iter, inv_handle|]. intros; apply keeps_ret.
Qed.
End invariant.

(** * The timers behind the interface *)

(** What the I/O scheduler relies on: from a well-formed queue both operations
    return and keep it so, and the timeout is [~0ull] exactly when no timer is
    queued. *)
Class TimerQueueLaws (T : Type) `{!TimerQueue T} := {
  tq_wf : T → Prop;
  tq_none : T → Prop;
  tq_next_law now t : tq_wf t → (0 < now < 2 ^ 64)%Z →
    returns (tq_next now) t (λ d t', tq_wf t' ∧ (d = u64_max ↔ tq_none t));
  tq_expired_law now t : tq_wf t → returns (tq_expired now) t (λ _ t', tq_wf t')
}.

Section timers.
Context (fn_of : callback → nat).
#[local] Existing Instance timer_queue.

Lemma timer_queue_next now t :
  wf t → (0 < now < 2 ^ 64)%Z →
  returns (tq_next (TimerQueue := timer_queue fn_of) now) t
    (λ d t', wf t' ∧ (d = u64_max ↔ m_timers t = [])).
Proof. apply getNextTimer_max. Qed.

Lemma timer_queue_expired now t :
  wf t → returns (tq_expired (TimerQueue := timer_queue fn_of) now) t (λ _ t', wf t').
Proof.
  intros Hwf. cbn. mstep. eapply bind_returns, returns_mono.
  - apply listExpiredCb_wf; [done|]. apply not_elem_of_dom, is_fresh.
  - intros cbs t' Ht'. exact Ht'.
Qed.

Definition timer_queue_laws : TimerQueueLaws TimerManager (TimerQueue0 := timer_queue fn_of) := {|
  tq_wf := wf;
  tq_none t := m_timers t = [];
  tq_next_law now t := timer_queue_next now t;
  tq_expired_law now t := timer_queue_expired now t
|}.
End timers.

(** * The counters of the scheduler *)

Section counts.
Context {E : Set → Type} {T K : Type} `{!Kernel K, !TimerQueue T}.
Context (fuel : nat) (n i : Z).
Notation cnt := (λ s : Sched E (IO T K), m_activeThreadCount s = n ∧ m_idleThreadCount s = i).

Lemma cnt_io {A} (m : M (IO T K) A) : keeps cnt (io m).
Proof. intros s Hs. unfold io, mzoom. by destruct (m (host s)). Qed.
Lemma cnt_syscall {A} (f : K → A * K) : keeps cnt (syscall f).
Proof. apply cnt_io. Qed.
Lemma cnt_tickle : keeps cnt IO_tickle.
Proof.
  apply keeps_bind; [apply keeps_get|]. intros s.
  destruct (hasIdleThreads s); [apply keeps_ret|].
  apply keeps_bind; [apply cnt_syscall|]. intros rt. apply keeps_assert.
Qed.
Lemma cnt_push ft : keeps cnt (push ft).
Proof. intros s Hs. by rw push_spec; destruct (has_task ft). Qed.
Lemma cnt_schedule_on t fc : keeps cnt (schedule_on t fc).
Proof.
  destruct t as [[|t]|]; cbn; [|apply keeps_when, cnt_io|apply keeps_crash].
  apply (I_scheduler (SchedHost0 := io_host fuel)); [apply cnt_tickle|apply cnt_push].
Qed.
Lemma cnt_trigger p event : keeps cnt (triggerEvent p event).
Proof.
  apply keeps_bind; [apply cnt_io|]. intros c. apply keeps_bind; [apply keeps_assert|].
  intros _. apply keeps_bind; [apply cnt_io|]. intros _.
  apply keeps_bind.
  { unfold getContext. destruct (event =? READ)%Z; [apply keeps_ret|].
    destruct (event =? WRITE)%Z; [apply keeps_ret|apply keeps_crash]. }
  intros ctx. destruct (ec_cb ctx);
    (apply keeps_bind; [apply cnt_schedule_on|intros; apply cnt_io]).
Qed.
Lemma cnt_handle ev : keeps cnt (handle_event fuel ev).
Proof.
  destruct ev as [ev [fd|p]]; cbn.
  - apply keeps_bind; [apply keeps_gets|]. intros pipe.
    destruct (bool_decide _); [|apply keeps_crash].
    generalize fuel as k. intros k. induction k as [|k IH]; [apply keeps_crash|].
    apply keeps_bind; [apply cnt_syscall|]. intros rt.
    destruct (rt =? 1)%Z; [done|apply keeps_ret].
  - apply (keeps_bind cnt (mgets (λ s, m_tickleFds (host s)))); [apply keeps_gets|]. intros _.
    apply keeps_bind; [apply cnt_io|]. intros c.
    destruct (_ =? NONE)%Z; [apply keeps_ret|].
    apply keeps_bind; [apply cnt_syscall|]. intros rt. destruct (negb _); [apply keeps_ret|].
    apply keeps_bind; [|intros _];
      (apply keeps_when, keeps_bind; [apply cnt_trigger|intros; apply cnt_io]).
Qed.
Lemma cnt_stopping : keeps cnt IO_stopping_timeout.
Proof.
  apply keeps_bind; [apply cnt_syscall|]. intros now.
  apply keeps_bind; [apply cnt_io|]. intros timeout.
  apply keeps_bind; [apply keeps_gets|]. intros pending.
  destruct (_ && _); [|apply keeps_ret].
  apply (keeps_bind cnt Scheduler_stopping); [apply keeps_gets|]. intros; apply keeps_ret.
Qed.
Lemma cnt_wait k : ∀ t, keeps cnt (wait_loop k t).
Proof.
  induction k as [|k IH]; intros t; [apply keeps_crash|].
  apply keeps_bind; [apply cnt_syscall|]. intros []; [apply IH|apply keeps_ret..].
Qed.
Lemma cnt_idle : keeps cnt (IO_idle fuel).
Proof.
  apply keeps_bind; [apply cnt_stopping|]. intros [[|] t]; [apply keeps_ret|].
  apply keeps_bind; [apply cnt_wait|]. intros events.
  apply keeps_bind; [apply cnt_syscall|]. intros now.
  apply keeps_bind; [apply cnt_io|]. intros cbs.
  apply keeps_bind.
  { destruct (decide (cbs = [])); [apply keeps_ret|].
    apply keeps_bind; [|intros; apply keeps_ret].
    apply (I_scheduler_range (SchedHost0 := io_host fuel)); [apply cnt_tickle|apply cnt_push]. }
  intros _. apply keeps_bind; [apply keeps_iter, cnt_handle|]. intros; apply keeps_ret.
Qed.
End counts.

Lemma io_host_laws {E : Set → Type} {T K : Type} `{!Kernel K, !TimerQueue T} fuel :
  @SchedHostLaws E (IO T K) (io_host fuel).
Proof. split; intros n i; [apply cnt_tickle|apply cnt_idle]. Qed.

Lemma real_cases ev : real_events ev ∈ [0; 1; 4; 5]%Z.
Proof.
  unfold real_events. destruct (has _ EPOLLIN), (has _ EPOLLOUT); cbn; set_solver.
Qed.

Lemma release_both_without c real :
  ctx_ok c → real ∈ [0; 1; 4; 5]%Z →
  m_events (release_if (has real WRITE) WRITE (release_if (has real READ) READ c)) =
    without (m_events c) real.
Proof.
  destruct c as [fd ev r w]. intros (Hev & _) Hreal. cbn in *.
  by apply events_cases in Hev as [-> |[-> |[-> | ->]]];
    apply events_cases in Hreal as [-> |[-> |[-> | ->]]].
Qed.

Lemma released_registered event e c :
  event = READ ∨ event = WRITE → ctx_ok c → has (m_events c) event = false →
  released event (registered_ctx event e c) = c ∧ slot event (registered_ctx event e c) = e ∧
  has (m_events (registered_ctx event e c)) event = true.
Proof.
  destruct c as [fd ev r w]. intros He (Hev & Hr & Hw) Hh. cbn in *. revert Hr Hw Hh.
  unfold slot_ok, slot, released, registered_ctx. cbn.
  apply events_cases in Hev as [-> |[-> |[-> | ->]]]; destruct He as [-> | ->]; cbn;
    intros Hr Hw Hh; try done; first [rw Hh in Hr; subst r|rw Hh in Hw; subst w]; done.
Qed.

Lemma view_lookup {E T K} crashes hp q tb h n fd p :
  tb !! Z.to_nat fd = Some p → (0 <= fd < i32 (Z.of_nat (length tb)))%Z →
  spec crashes (@at_view E T K hp q tb h n) (lookup_ctx fd)
    (λ r s, r = Some p ∧ at_view hp q tb h n s).
Proof.
  intros Hp Hfd s Hs. pose proof Hs as (_ & _ & Ht & _).
  unfold lookup_ctx, table_size, table_at. cbv [mbind M_bind mgets]. rw Ht.
  destruct (Z.ltb_spec fd (i32 (Z.of_nat (length tb)))); [|lia].
  destruct (Z.ltb_spec fd 0); [lia|]. by rw Ht Hp.
Qed.

(** With a kernel that accepts the calls, an event that is not registered is added. *)
Lemma view_addEvent {E T K} `{!Kernel K} hp q tb h n fd event cb f p c :
  event = READ ∨ event = WRITE → tb !! Z.to_nat fd = Some p →
  (0 <= fd < i32 (Z.of_nat (length tb)))%Z → h !! p = Some c → io_ok tb h n →
  has (m_events c) event = false → is_Some cb ∨ (∃ F, hp !! f = Some F ∧ m_state F = EXEC) →
  (∀ op fd ev d k, (sys_epoll_ctl op fd ev d k).1 = 0%Z) → (∀ k, (sys_write k).1 = 1%Z) →
  let h' := <[p := registered_ctx event (new_task cb (Some 0) f) c]> h in
  spec (λ _, False) (@at_view E T K hp q tb h n) (addEvent fd event cb (Some 0) f)
    (λ rt s, rt = 0%Z ∧ io_ok tb h' (u64 (n + 1)) ∧ at_view hp q tb h' (u64 (n + 1)) s).
Proof.
  intros He Hp Hfd Hc Hok Hhas Hcb Hctl Hwr h'. unfold addEvent.
  eapply spec_bind; [by apply view_lookup|]. intros r. apply spec_pure. intros ->.
  eapply spec_bind with (R := λ p' s', p' = p ∧ at_view hp q tb h n s'); [by apply spec_ret|].
  intros p'. apply spec_pure. intros ->.
  eapply spec_conseq; [eapply (view_add _ hp (or_introl Hwr)); eauto; naive_solver|done|].
  intros rt s' [_ [(-> & ? & ?)|(_ & _ & op & ev & k & Hk)]]; [done|]. by rw Hctl in Hk.
Qed.

Lemma demo_io_ok n : io_inv (demo_io n).
Proof.
  apply (new_contexts_ok n (MkIO (T := TimerManager) (K := nat) [] ∅ 0 (4, 5)%Z
    (TimerManager_new 0) 0 [])).
  split; [done|done|done].
Qed.

Lemma after_ok {A} (m : M (Sched (does nat) (IO TimerManager nat)) A) s :
  keeps io_inv m → io_inv s → io_inv (after m s).
Proof. intros Hm Hs. specialize (Hm s Hs). unfold after. by destruct (m s). Qed.

Lemma demo_read_ok : io_inv demo_read.
Proof. apply after_ok; [apply inv_addEvent; by left|apply demo_io_ok]. Qed.

Lemma demo_both_ok : io_inv demo_both.
Proof. apply after_ok; [apply inv_addEvent; by right|apply demo_read_ok]. Qed.

(** * The properties *)

(** C4. The state of the I/O scheduler stays consistent.  Every critical section
    of [addEvent], [delEvent], [cancelEvent] and [cancelAll], the resizing of the
    table and one run of the idle loop keep: every entry of the table is a live
    context with its index as descriptor; a context holds exactly one task for
    each event of its mask and none for the others; and [m_pendingEventCount] is
    the number of tasks that wait. *)
Theorem io_invariant {E T K} `{!Kernel K, !TimerQueue T} (fuel : nat) p fd event cb sch f ev size :
  event = READ ∨ event = WRITE →
  let inv := @io_inv E T K in
  keeps inv (addEvent_locked p fd event cb sch f) ∧
  keeps inv (delEvent_locked p fd event) ∧
  keeps inv (cancelEvent_locked p fd event) ∧
  keeps inv (cancelAll_locked p fd) ∧
  keeps inv (lookup_ctx fd) ∧ keeps inv (grow_ctx fd) ∧ keeps inv (contextResize size) ∧
  keeps inv (handle_event fuel ev) ∧ keeps inv (IO_idle fuel) ∧ keeps inv IO_tickle.
Proof.
  intros He inv. split_and!; first
    [ by apply inv_add | by apply inv_del | by apply inv_cancel | apply inv_cancelAll
    | apply inv_lookup | apply inv_grow | apply inv_resize | apply inv_handle
    | apply inv_idle | apply inv_tickle ].
Qed.

Lemma io_invariant_witness :
  keeps (@io_inv (does nat) TimerManager nat)
    (addEvent_locked 3 7 READ (Some 2) (Some 0) 1).
Proof. apply (io_invariant 8 3 7 READ (Some 2) (Some 0) 1 (0%Z, DataPtr 0) 0). by left. Defined.

(** C23. Registering and taking back.  With a kernel that accepts the calls, an
    event that is not registered yet can be added, with a callback or with the
    running fiber as its task; then [delEvent] leaves every context, the counter
    and the queue as they were before, and [cancelEvent] does the same but also
    queues exactly that task. *)
Theorem add_then_remove {E T K} `{!Kernel K, !TimerQueue T} (s : Sched E (IO T K))
    p fd event c cb f :
  event = READ ∨ event = WRITE → io_inv s → in_u64 (m_pendingEventCount (host s)) →
  m_fdContexts (host s) !! Z.to_nat fd = Some p → (0 <= fd < i32 (Z.of_nat (length (m_fdContexts (host s)))))%Z →
  fd_heap (host s) !! p = Some c → has (m_events c) event = false →
  is_Some cb ∨ (∃ F, heap s !! f = Some F ∧ m_state F = EXEC) →
  (∀ op fd ev d k, (sys_epoll_ctl op fd ev d k).1 = 0%Z) → (∀ k, (sys_write k).1 = 1%Z) →
  let task := task_of (new_task cb (Some 0) f) in
  let back q (b : bool) s' := b = true ∧
    at_view (heap s) q (m_fdContexts (host s)) (fd_heap (host s)) (m_pendingEventCount (host s)) s' in
  returns (addEvent fd event cb (Some 0) f ;; delEvent fd event) s (back (m_fibers s)) ∧
  returns (addEvent fd event cb (Some 0) f ;; cancelEvent fd event) s
    (back (m_fibers s ++ [task])).
Proof.
  intros He Hinv Hn Hp Hfd Hc Hhas Hcb Hctl Hwr task back.
  set (q := m_fibers s). set (tb := m_fdContexts (host s)) in *.
  set (h := fd_heap (host s)) in *. set (n := m_pendingEventCount (host s)) in *.
  set (none := λ _ : fault, False).
  assert (at_view (heap s) q tb h n s) as Hv by done.
  pose proof (io_ctxs _ _ _ Hinv _ _ Hc) as Hok.
  set (c' := registered_ctx event (new_task cb (Some 0) f) c).
  destruct (released_registered event (new_task cb (Some 0) f) c He Hok Hhas) as (Hrel & Hslot & Hh').
  assert (u64 (u64 (n + 1) + -1) = n) as Hback.
  { rw u64_add_l. replace (n + 1 + -1)%Z with n by lia. by apply u64_id. }
  set (view := @at_view E T K (heap s)).
  assert (∀ (m : nat → M (Sched E (IO T K)) bool) q',
    (io_ok tb (<[p := c']> h) (u64 (n + 1)) →
     spec none (view q tb (<[p := c']> h) (u64 (n + 1))) (m p)
      (λ b s', b = true ∧ view q' tb (<[p := released event c']> (<[p := c']> h))
         (u64 (u64 (n + 1) + -1)) s')) →
    returns (addEvent fd event cb (Some 0) f ;; on_ctx fd m) s (back q')) as Hthen.
  { intros m q' Hm. eapply spec_returns; [|exact Hv].
    eapply spec_bind; [by apply (view_addEvent _ q tb h n fd event cb f p c)|].
    intros rt. apply spec_pure. intros _. apply spec_pure. intros Hok'.
    eapply spec_bind; [by apply view_lookup|]. intros r. apply spec_pure. intros ->.
    eapply spec_conseq; [by apply Hm|done|]. intros b s' [-> Hs']. split; [done|].
    rw Hback insert_insert_eq Hrel in Hs'. rw insert_id in Hs'; [done|]. exact Hs'. }
  fold c' in Hrel, Hslot, Hh'. split; apply Hthen; intros Hok'.
  - eapply spec_conseq; [eapply (view_del none (heap s) q tb (<[p := c']> h)); eauto;
      apply lookup_insert_eq|done|].
    intros [] s' Hs'; [naive_solver|].
    destruct Hs' as [_ [Hn'|(op & ev & k & Hk)]]; [congruence|by destruct (Hk (Hctl _ _ _ _ _))].
  - eapply spec_conseq;
      [eapply (view_cancel none (heap s) (or_introl Hwr) q tb (<[p := c']> h)); eauto;
        [apply lookup_insert_eq|]|done|].
    { left. by rw Hslot. }
    intros [] s' Hs'.
    + destruct Hs' as (_ & Hs' & _). split; [done|].
      unfold released_task in Hs'. rw Hslot in Hs'. exact Hs'.
    + destruct Hs' as [_ [Hn'|(op & ev & k & Hk)]]; [congruence|by destruct (Hk (Hctl _ _ _ _ _))].
Qed.

Lemma add_then_remove_witness :
  let s := demo_io 8 in
  returns (addEvent 7 READ (Some 2) (Some 0) 0 ;; cancelEvent 7 READ) s
    (λ b s', b = true ∧ at_view (heap s) (m_fibers s ++ [cb_task 2]) (m_fdContexts (host s))
       (fd_heap (host s)) (m_pendingEventCount (host s)) s').
Proof.
  intros s.
  refine (proj2 (add_then_remove s 7 7 READ (FdContext_new 7) (Some 2) 0 _ _ _ _ _ _ _ _ _ _));
    [by left|apply demo_io_ok|done|reflexivity|by vm_compute|by vm_compute|reflexivity
    |left; by eexists|done|done].
Defined.

(** C28. A ready descriptor: when the kernel reports events of a context that are
    all registered there, exactly the tasks of these events are queued, reads
    first, they leave the context, the others stay, and the counter goes down by
    as many. *)
Theorem ready_events {E T K} `{!Kernel K, !TimerQueue T} (s : Sched E (IO T K)) fuel p c ev :
  io_inv s → fd_heap (host s) !! p = Some c →
  let real := real_events ev in
  let b1 := has real READ in
  let b2 := has real WRITE in
  Z.land (m_events c) real ≠ 0%Z →
  (b1 = true → has (m_events c) READ = true ∧ ec_scheduler (read c) = Some 0) →
  (b2 = true → has (m_events c) WRITE = true ∧ ec_scheduler (write c) = Some 0) →
  (∀ op fd ev d k, (sys_epoll_ctl op fd ev d k).1 = 0%Z) → (∀ k, (sys_write k).1 = 1%Z) →
  returns (handle_event fuel (ev, DataPtr p)) s (λ _ s',
    ∃ c', at_view (heap s)
      (m_fibers s ++ (if b1 then [task_of (read c)] else []) ++
                     (if b2 then [task_of (write c)] else []))
      (m_fdContexts (host s)) (<[p := c']> (fd_heap (host s)))
      (pending_if b2 (pending_if b1 (m_pendingEventCount (host s)))) s' ∧
    ctx_ok c' ∧ m_events c' = without (m_events c) real).
Proof.
  intros Hinv Hc real b1 b2 Hland H1 H2 Hctl Hwr.
  pose proof (io_ctxs _ _ _ Hinv _ _ Hc) as Hok.
  set (c' := release_if b2 WRITE (release_if b1 READ c)).
  eapply returns_mono.
  { eapply spec_returns; [eapply (view_handle (λ _, False) (heap s) (or_introl Hwr) (m_fibers s)
      _ _ _ p c ev fuel Hc Hinv)|done].
    - intros Hb. destruct (H1 Hb) as [? Hs]. split; left; [done|]. cbn. by rw Hs.
    - intros Hb. destruct (H2 Hb) as [? Hs]. split; left; [done|]. cbn. by rw Hs. }
  intros [] s' [(_ & Hok' & Hv)|[_ [Hz|(op & e & k & Hk)]]];
    [|by destruct Hland|by destruct (Hk (Hctl _ _ _ _ _))].
  exists c'. fold real b1 b2 c' in Hok', Hv.
  split; [|split; [apply (io_ctxs _ _ _ Hok' p), lookup_insert_eq|]].
  - unfold tasks_if, released_task, slot in Hv. cbn in Hv.
    destruct b1; [rw (proj2 (H1 eq_refl)) in Hv|]; (destruct b2; [rw (proj2 (H2 eq_refl)) in Hv|]);
      exact Hv.
  - by apply release_both_without, real_cases.
Qed.


Lemma ready_events_witness :
  let s := demo_both in
  ∃ c, fd_heap (host s) !! 7 = Some c ∧
  returns (handle_event 8 (EPOLLIN, DataPtr 7)) s (λ _ s',
    ∃ c', at_view (heap s) (m_fibers s ++ [cb_task 2] ++ [])
      (m_fdContexts (host s)) (<[7 := c']> (fd_heap (host s)))
      (pending_if false (pending_if true (m_pendingEventCount (host s)))) s' ∧
    ctx_ok c' ∧ m_events c' = WRITE).
Proof.
  intros s. eexists. split; [vm_compute; reflexivity|].
  refine (ready_events s 8 7
    (MkFdContext 7 5 (MkEventContext (Some 0) None (Some 2)) (MkEventContext (Some 0) None (Some 3)))
    EPOLLIN _ _ _ _ _ _ _); [apply demo_both_ok|by vm_compute|done|done|done|done|done].
Defined.

(** C32. A hang-up of a descriptor for which only one event is registered stops
    the program: the loop adds both events to those the kernel reported without
    masking them with the registered ones, and [triggerEvent] asserts that the
    other one is registered. *)
Theorem hangup_assertion {E T K} `{!Kernel K, !TimerQueue T} (s : Sched E (IO T K)) fuel p c ev :
  io_inv s → fd_heap (host s) !! p = Some c →
  m_events c = READ ∨ m_events c = WRITE →
  has ev (Z.lor EPOLLERR EPOLLHUP) = true →
  ec_scheduler (read c) = Some 0 ∨ m_events c ≠ READ →
  ec_scheduler (write c) ≠ None ∨ m_events c ≠ WRITE →
  (∀ op fd ev d k, (sys_epoll_ctl op fd ev d k).1 = 0%Z) → (∀ k, (sys_write k).1 = 1%Z) →
  handle_event fuel (ev, DataPtr p) s = Crash (AssertFailed "m_events & event").
Proof.
  intros Hinv Hc Hev Hhup Hsch Hwsch' Hctl Hwr.
  assert (m_events c = WRITE → ec_scheduler (write c) ≠ None) as Hwsch by tauto.
  set (only := λ f : fault, f = AssertFailed "m_events & event").
  assert (real_events ev = 5%Z) as Hreal.
  { unfold real_events. rw Hhup. unfold has, EPOLLIN, EPOLLOUT.
    rw !Z.land_lor_distr_l. cbn. destruct (Z.land ev 1), (Z.land ev 4); done. }
  assert (m_events c = READ → ec_scheduler (read c) = Some 0) as Hsch' by tauto.
  assert (takeable only READ c) as H1.
  { split; [by right|]. intros Hr. left. cbn.
    destruct Hev as [Hev|Hev]; [by rw (Hsch' Hev)|by rw Hev in Hr]. }
  assert (takeable only WRITE c) as H2.
  { split; [by right|]. intros Hr. left. cbn.
    destruct Hev as [Hev|Hev]; [by rw Hev in Hr|]. exact (Hwsch Hev). }
  pose proof (view_handle only (heap s) (or_introl Hwr) (m_fibers s) (m_fdContexts (host s))
    _ (m_pendingEventCount (host s)) p c ev fuel Hc Hinv (λ _, H1) (λ _, H2) s ltac:(done)) as H.
  rw Hreal in H. destruct (handle_event fuel (ev, DataPtr p) s) as [[] s'| |f]; [|done|by rw H].
  exfalso. destruct H as [((_ & Hr & Hw) & _)|(_ & [Hz|(op & e & k & Hk)])].
  - specialize (Hr eq_refl). specialize (Hw eq_refl).
    destruct Hev as [Hev|Hev]; [by rw Hev in Hw|by rw Hev in Hr].
  - by destruct Hev as [Hev|Hev]; rw Hev in Hz.
  - by destruct (Hk (Hctl _ _ _ _ _)).
Qed.

Lemma hangup_assertion_witness :
  handle_event 8 (EPOLLHUP, DataPtr 7) demo_read = Crash (AssertFailed "m_events & event").
Proof.
  refine (hangup_assertion demo_read 8 7
    (MkFdContext 7 1 (MkEventContext (Some 0) None (Some 2)) EventContext_empty)
    EPOLLHUP _ _ _ _ _ _ _ _);
    [apply demo_read_ok|by vm_compute|by left|done|by left|by right|done|done].
Defined.

(** When an [IOManager] may stop: [stopping] always returns, and is true
    exactly when no timer is queued, no event is pending, and the scheduler has
    been told to stop, has nothing queued and no active thread. *)
Theorem io_stopping_spec {E T K} `{!Kernel K, !TimerQueue T, !TimerQueueLaws T}
    (s : Sched E (IO T K)) :
  tq_wf (timers (host s)) → (∀ k, 0 < (sys_time k).1 < 2 ^ 64)%Z →
  returns IO_stopping s (λ b s',
    tq_wf (timers (host s')) ∧
    at_view (heap s) (m_fibers s) (m_fdContexts (host s)) (fd_heap (host s))
      (m_pendingEventCount (host s)) s' ∧
    (b = true ↔ tq_none (timers (host s)) ∧ m_pendingEventCount (host s) = 0%Z ∧
       m_autoStop s = true ∧ m_stopping s = true ∧ m_fibers s = [] ∧
       m_activeThreadCount s = 0%Z)).
Proof.
  intros Hwf Htime. unfold IO_stopping, IO_stopping_timeout, syscall, timer_op, io, mzoom, mgets.
  unfold returns, mbind, M_bind.
  destruct (sys_time (kernel (host s))) as [now k] eqn:Hk. cbn.
  pose proof (Htime (kernel (host s))) as Hn. rw Hk in Hn. cbn in Hn.
  pose proof (tq_next_law now (timers (host s)) Hwf Hn) as Hnext. unfold returns in Hnext.
  destruct (tq_next now (timers (host s))) as [d t'| |]; [|done..].
  destruct Hnext as [Hwf' Hd]. cbn.
  destruct (Z.eqb_spec d u64_max) as [H1|H1];
    destruct (Z.eqb_spec (m_pendingEventCount (host s)) 0) as [H2|H2]; cbn;
    (split; [done|split; [done|]]); try (split; [done|naive_solver]).
  rw !andb_true_iff !bool_decide_eq_true. naive_solver.
Qed.

Lemma io_stopping_spec_witness :
  returns IO_stopping (demo_io 8) (λ b _, b = true).
Proof.
  pose proof (io_stopping_spec (TimerQueueLaws0 := timer_queue_laws demo_fn) (demo_io 8)) as H.
  eapply returns_mono; [apply H|].
  - exact (TimerManager_new_wf 0).
  - intros k. done.
  - intros b s' (_ & _ & Hb). by apply Hb.
Defined.

(** The leak of the scheduler reaches the I/O scheduler: after one completed
    fiber task [IOManager::stopping] is never true again, whatever the events,
    timers and threads do, so its idle fibers never end. *)
Theorem io_never_stops {E T K} `{!Kernel K, !TimerQueue T} (fuel : nat)
    (code : nat → prog E) (handle : ∀ A, E A → M (Sched E (IO T K)) A) (stack_size : Z) n s s' ws' :
  (∀ A (e : E A) n i, keeps (λ s, m_activeThreadCount s = n ∧ m_idleThreadCount s = i) (handle _ e)) →
  m_activeThreadCount s = 0%Z →
  sys_steps (SchedHost0 := io_host fuel) code handle stack_size n (s, []) (s', ws') →
  0 < n → (2 * Z.of_nat (length ws') + Z.of_nat n < 2 ^ 64)%Z →
  (∀ b s'', IO_stopping s' = Ret b s'' → b = false) ∧
  (∀ st s'', IO_idle fuel s' = Ret st s'' → st = EXEC).
Proof.
  intros Hh Ha Hs Hn Hb.
  destruct (count_inv_steps (SchedHost0 := io_host fuel) (SchedHostLaws0 := io_host_laws fuel)
    code handle stack_size Hh n (s, []) (s', ws')) as [H1 _];
    [|by split|done|].
  { intros k x Hx. unfold act in *.
    apply (keeps_bind (λ s, m_activeThreadCount s = u64 k) IO_stopping_timeout); [|intros; apply keeps_ret|done].
    intros y Hy. pose proof (cnt_stopping (E:=E) (K:=K) (T:=T) _ _ y (conj Hy eq_refl)) as H.
    by destruct (IO_stopping_timeout y); [destruct H..|]. }
  unfold act in H1. cbn [fst snd] in H1. pose proof (weights_bound ws').
  rw u64_id in H1; [unfold in_u64; lia|].
  assert (∀ r s'', IO_stopping_timeout s' = Ret r s'' → r.1 = false) as Hfalse.
  { intros r s''. unfold IO_stopping_timeout, syscall, timer_op, io, mzoom, mgets.
    unfold mbind, M_bind. destruct (sys_time _) as [now k]. cbn.
    destruct (tq_next now _) as [d t'| |]; [|done..]. cbn.
    destruct (_ && _); [|by intros [= <- _]]. intros [= <- _]. cbn.
    rw H1. rw (bool_decide_eq_false_2 (_ = 0%Z)); [lia|]. by rw andb_false_r. }
  split.
  - intros b s''. unfold IO_stopping, mbind, M_bind.
    destruct (IO_stopping_timeout s') as [r x| |] eqn:Hr; [|done..]. intros [= <- _]. eauto.
  - intros st s''. unfold IO_idle. unfold mbind at 1, M_bind at 1.
    destruct (IO_stopping_timeout s') as [r x| |] eqn:Hr; [|done..].
    rw (Hfalse r x eq_refl). clear Hr.
    match goal with |- ?m x = _ → _ =>
      assert (triple (λ _, True) m (λ st _, st = EXEC)) as Ht;
        [|intros Hrun; specialize (Ht x I); by rw Hrun in Ht] end.
    assert (∀ A (m : M (Sched E (IO T K)) A), triple (λ _, True) m (λ _ _, True)) as Hany.
    { intros A m x0 _. by destruct (m x0). }
    do 5 (eapply triple_bind; [apply Hany|intros ?; cbn beta]). by apply triple_ret.
Qed.

Lemma io_never_stops_witness :
  let code : nat → prog (does nat) := λ _, PReturn in
  let handle : ∀ A : Set, does nat A → M (Sched (does nat) (IO TimerManager nat)) A :=
    λ A e, match e with Does _ => mret tt end in
  let s := set_heap {[1 := Fiber_new 1 131072 0 (Some 0) false]} 1
    (set_queue [fiber_task 1] (demo_io 2)) in
  ∃ s' ws', sys_steps (SchedHost0 := io_host 8) code handle 131072 1 (s, []) (s', ws') ∧
    (∀ b s'', IO_stopping s' = Ret b s'' → b = false).
Proof.
  intros code handle s.
  eassert (sys_steps (SchedHost0 := io_host 8) code handle 131072 1 (s, []) _) as Hs.
  { eapply (sys_run_steps (SchedHost0 := io_host 8)) with (order := [0; 0; 0; 0]);
      [apply (sys_spawn_steps (SchedHost0 := io_host 8) _ _ _ [7%Z])|vm_compute; reflexivity]. }
  eexists _, _. split; [exact Hs|].
  refine (proj1 (io_never_stops 8 code handle 131072 1 s _ _ _ _ Hs _ _));
    [intros A []; intros; apply keeps_ret|reflexivity|lia|vm_compute; reflexivity].
Defined.

(** [tickle] does the opposite of its name: when some thread is idle,
    waiting in [epoll_wait], it writes nothing, so that a task that is scheduled
    then, or a timer that becomes the earliest, wakes nobody; it writes to the
    pipe only when no thread waits for it. *)
Theorem tickle_spec {E T K} `{!Kernel K, !TimerQueue T} (s : Sched E (IO T K)) fc thread :
  (hasIdleThreads s = true →
     onTimerInsertedAtFront s = Ret tt s ∧
     ∃ s', scheduler (SchedTickle0 := IO_tickle) fc thread s = Ret tt s' ∧
       host s' = host s ∧
       m_fibers s' = m_fibers s ++ (if has_task (FiberAndThread_new fc thread)
                                    then [FiberAndThread_new fc thread] else [])) ∧
  (hasIdleThreads s = false → (∀ k, (sys_write k).1 = 1%Z) →
     onTimerInsertedAtFront s =
       Ret tt (set_host (set_kernel (sys_write (kernel (host s))).2 (host s)) s)).
Proof.
  unfold onTimerInsertedAtFront. split; intros Hi.
  - assert (∀ x : Sched E (IO T K), hasIdleThreads x = true → IO_tickle x = Ret tt x) as Ht.
    { intros x Hx. unfold IO_tickle. cbv [mbind M_bind mget]. by rw Hx. }
    split; [by apply Ht|]. unfold scheduler, scheduleNoLock.
    rw (bind_Ret _ _ _ _ _ (push_spec _ _)).
    eexists. split; [|split].
    + unfold mwhen, tickle. destruct (bool_decide (m_fibers s = [])); [by apply Ht|reflexivity].
    + done.
    + cbn. destruct (has_task _); [done|by rw app_nil_r].
  - intros Hw. unfold IO_tickle, syscall, io, mzoom. cbv [mbind M_bind mget]. rw Hi.
    pose proof (Hw (kernel (host s))) as H1. destruct (sys_write _) as [rt k]. cbn in *.
    by subst.
Qed.

Lemma tickle_spec_witness :
  let s := set_idle 1 (demo_io 4) in
  hasIdleThreads s = true ∧ onTimerInsertedAtFront s = Ret tt s.
Proof.
  intros s. split; [reflexivity|].
  exact (proj1 (proj1 (tickle_spec s (FcCb None) (-1)) eq_refl)).
Defined.

(** The timeout of [epoll_wait].  For a next timer up to 2^31 - 1 ms ahead it
    is the time to the timer, at most 3000 ms, and 3000 ms without timers; but
    for one that is 2^31 to 2^32 ms ahead (25 to 50 days) the conversion to [int]
    makes it negative, and [epoll_wait] then waits without limit. *)
Theorem clamp_spec t :
  in_u64 t →
  (clamp_timeout u64_max = 3000%Z) ∧
  ((t < 2 ^ 31)%Z → clamp_timeout t = Z.min t 3000 ∧ i32 (clamp_timeout t) = Z.min t 3000) ∧
  ((2 ^ 31 <= t < 2 ^ 32)%Z → (i32 (clamp_timeout t) < 0)%Z) ∧
  clamp_timeout (clamp_timeout t) = clamp_timeout t.
Proof.
  intros Ht. unfold in_u64 in Ht. split; [done|].
  assert ((t < 2 ^ 31)%Z → clamp_timeout t = Z.min t 3000) as H1.
  { intros H. unfold clamp_timeout, u64_max, MAX_TIMEOUT. rw i32_id; [lia|].
    destruct (Z.eqb_spec t (2 ^ 64 - 1)); [lia|]. destruct (Z.ltb_spec 3000 t); lia. }
  assert ((2 ^ 31 <= t < 2 ^ 32)%Z → i32 t = (t - 2 ^ 32)%Z) as H2.
  { intros H. unfold i32. replace (t + 2 ^ 31)%Z with (t - 2 ^ 31 + 1 * 2 ^ 32)%Z by lia.
    rw Z.mod_add; [lia|]. rw Z.mod_small; lia. }
  split; [|split].
  - intros H. rw (H1 H). split; [done|]. apply i32_id. lia.
  - intros H. unfold clamp_timeout, u64_max, MAX_TIMEOUT. rw (H2 H).
    destruct (Z.eqb_spec t (2 ^ 64 - 1)); [lia|].
    destruct (Z.ltb_spec 3000 (t - 2 ^ 32)); [lia|]. rw (H2 H). lia.
  - unfold clamp_timeout at 2 3.
    destruct (Z.eqb_spec t u64_max) as [_|Hm]; [done|].
    destruct (Z.ltb_spec MAX_TIMEOUT (i32 t)) as [_|Hlt]; [done|].
    unfold clamp_timeout. destruct (Z.eqb_spec t u64_max); [done|].
    by destruct (Z.ltb_spec MAX_TIMEOUT (i32 t)); [lia|].
Qed.

Lemma clamp_spec_witness : clamp_timeout 500 = 500%Z ∧ (i32 (clamp_timeout (2 ^ 31 + 5)) < 0)%Z.
Proof.
  split; [refine (proj1 (proj1 (proj2 (clamp_spec 500 _)) _)); done|].
  refine (proj1 (proj2 (proj2 (clamp_spec (2 ^ 31 + 5) _))) _); done.
Defined.

(** The table can shrink under registered events.  [addEvent] sees under the
    read lock that the table is too short, and resizes it under the write lock to
    one and a half times its own descriptor, without looking again: if meanwhile
    another thread has grown the table further, the contexts above are dropped,
    with the events that wait in them.  Here descriptor 100 is registered and
    then lost: it can no longer be cancelled or deleted, and its pending event
    keeps the scheduler from ever stopping. *)
Theorem resize_race :
  ∃ s1 s2 p,
    lookup_ctx 50 (demo_io 32) = Ret None (demo_io 32) ∧
    addEvent 100 READ (Some 2) (Some 0) 0 (demo_io 32) = Ret 0%Z s1 ∧
    grow_ctx 50 s1 = Ret p s2 ∧
    length (m_fdContexts (host s1)) = 150 ∧ length (m_fdContexts (host s2)) = 75 ∧
    cancelEvent 100 READ s2 = Ret false s2 ∧ delEvent 100 READ s2 = Ret false s2 ∧
    m_pendingEventCount (host s2) = 1%Z ∧ io_inv s2.
Proof.
  set (s1 := after (addEvent 100 READ (Some 2) (Some 0) 0) (demo_io 32)).
  set (s2 := after (grow_ctx 50) s1).
  exists s1, s2. eexists. split; [by vm_compute|]. split; [by vm_compute|].
  split; [by vm_compute|]. do 5 (split; [by vm_compute|]).
  apply after_ok; [apply inv_grow|]. apply after_ok; [apply inv_addEvent; by left|].
  apply demo_io_ok.
Qed.
