(* ===== verification/Yaml.v ===== *)
(** The YAML library (yaml-cpp) as the log and configuration code uses it.

    yaml-cpp is not part of the repository: [Yaml] is the interface, with the
    documented behaviour the code relies on as its laws, and every component
    that reads or writes YAML is proved against it.  [document_yaml] is a small
    implementation, with its own text format, that shows the laws can hold
    together and that the witnesses compute with. *)

From S2P Require Import Prelude.

(** Operations on [YAML::Node].  A [None] of [load], [get] and [as_string] is
    the exception the library throws; a [Some None] of [get] is a node that is
    not defined. *)
Class Yaml := {
  node : Type;
  (** [YAML::Load], [os << node] *)
  load : str → option node;
  emit : node → str;
  (** [YAML::Node node;] *)
  null : node;
  (** a node assigned from a string, [node.as<std::string>()] *)
  scalar : str → node;
  as_string : node → option str;
  (** [node[key]], [node[key] = value] *)
  get : node → str → option (option node);
  set : node → str → node → node;
  (** [node.push_back(value)], [node.size()], [node[i]] *)
  push : node → node → node;
  size : node → nat;
  at_index : node → nat → option node;
  (** [IsMap], [IsScalar] and iteration over a map *)
  is_map : node → bool;
  is_scalar : node → bool;
  members : node → list (str * node);
}.

(** What the code builds: sequences by [push] from [null], maps by [set] from
    [null]. *)
Definition sequence `{Yaml} (l : list node) : node := foldl push null l.
Definition mapping `{Yaml} (l : list (str * node)) : node :=
  foldl (λ n kv, set n kv.1 kv.2) null l.

(** The laws: a written document reads as itself; a sequence has the elements
    pushed on it; a map built from distinct keys has them in order, and no
    others; a scalar is the string it was made from. *)
Class YamlLaws `{Yaml} : Prop := {
  load_emit n : load (emit n) = Some n;
  as_scalar s : as_string (scalar s) = Some s;
  is_scalar_scalar s : is_scalar (scalar s) = true;
  as_string_scalar n : is_scalar n = true → is_Some (as_string n);
  size_sequence l : size (sequence l) = length l;
  at_sequence l i : at_index (sequence l) i = l !! i;
  get_mapping l k : NoDup l.*1 → get (mapping l) k = Some (list_to_map (M := gmap str node) l !! k);
  members_mapping l : NoDup l.*1 → members (mapping l) = l;
  is_map_mapping l : l ≠ [] → is_map (mapping l) = true;
}.

(** A node without aliases to a node that contains it: [depth] bounds the nesting
    of its maps. *)
Class YamlDepth `{Yaml} := {
  depth : node → nat;
  depth_members n k c : (k, c) ∈ members n → depth c < depth n;
}.

(** * An implementation *)

Inductive document :=
  | DNull
  | DScalar (s : str)
  | DSeq (l : list document)
  | DMap (l : list (str * document)).

(** ** Its text format: the bits of the document's number *)

Fixpoint doc_tree (d : document) : gen_tree str :=
  match d with
  | DNull => GenNode 0 []
  | DScalar s => GenLeaf s
  | DSeq l => GenNode 1 (doc_tree <$> l)
  | DMap l => GenNode 2 ((λ kv, GenNode 0 [GenLeaf kv.1; doc_tree kv.2]) <$> l)
  end.

Fixpoint tree_doc (t : gen_tree str) : document :=
  match t with
  | GenLeaf s => DScalar s
  | GenNode 0 _ => DNull
  | GenNode 1 l => DSeq (tree_doc <$> l)
  | GenNode _ l =>
      DMap ((λ kv, match kv with
                   | GenNode _ [GenLeaf k; v] => (k, tree_doc v)
                   | _ => ([], DNull)
                   end) <$> l)
  end.

Fixpoint bits (p : positive) : str :=
  match p with
  | xH => []
  | xO p => "0"%char :: bits p
  | xI p => "1"%char :: bits p
  end.

Fixpoint of_bits (s : str) : positive :=
  match s with
  | [] => xH
  | c :: s => if decide (c = "0"%char) then xO (of_bits s) else xI (of_bits s)
  end.

Definition doc_emit (d : document) : str := bits (encode (doc_tree d)).
Definition doc_load (s : str) : option document := tree_doc <$> decode (of_bits s).

(** ** Its operations *)

Fixpoint assoc {A} (k : str) (l : list (str * A)) : option A :=
  match l with
  | [] => None
  | (k', v) :: l => if decide (k = k') then Some v else assoc k l
  end.

Fixpoint assoc_set {A} (k : str) (v : A) (l : list (str * A)) : list (str * A) :=
  match l with
  | [] => [(k, v)]
  | (k', v') :: l => if decide (k = k') then (k, v) :: l else (k', v') :: assoc_set k v l
  end.

Definition doc_members (d : document) : list (str * document) :=
  match d with DMap l => l | _ => [] end.
Definition doc_elems (d : document) : list document :=
  match d with DSeq l => l | _ => [] end.

#[export] Instance document_yaml : Yaml := {|
  node := document;
  load := doc_load;
  emit := doc_emit;
  null := DNull;
  scalar := DScalar;
  as_string d := match d with DScalar s => Some s | _ => None end;
  get d k := match d with DScalar _ => None | _ => Some (assoc k (doc_members d)) end;
  set d k v := DMap (assoc_set k v (doc_members d));
  push d v := DSeq (doc_elems d ++ [v]);
  size d := length (doc_elems d);
  at_index d i := doc_elems d !! i;
  is_map d := match d with DMap _ => true | _ => false end;
  is_scalar d := match d with DScalar _ => true | _ => false end;
  members := doc_members
|}.

Fixpoint doc_depth (d : document) : nat :=
  match d with
  | DMap l => S (max_list (snd <$> ((λ kv, (kv.1, doc_depth kv.2)) <$> l)))
  | _ => 0
  end.

(** ** Its laws *)

Section document_ind.
Context (P : document → Prop) (Hnull : P DNull) (Hscalar : ∀ s, P (DScalar s))
  (Hseq : ∀ l, Forall P l → P (DSeq l)) (Hmap : ∀ l, Forall (λ kv, P kv.2) l → P (DMap l)).

Fixpoint document_nested_ind (d : document) : P d :=
  match d with
  | DNull => Hnull
  | DScalar s => Hscalar s
  | DSeq l => Hseq l ((fix go l : Forall P l :=
      match l with [] => Forall_nil_2 _ | x :: l => Forall_cons_2 _ x l (document_nested_ind x) (go l) end) l)
  | DMap l => Hmap l ((fix go l : Forall (λ kv, P kv.2) l :=
      match l with [] => Forall_nil_2 _ | x :: l => Forall_cons_2 _ x l (document_nested_ind x.2) (go l) end) l)
  end.
End document_ind.

Lemma tree_doc_tree d : tree_doc (doc_tree d) = d.
Proof.
  induction d as [|s|l IH|l IH] using document_nested_ind; [done|done| |]; cbn [doc_tree tree_doc];
    f_equal; induction IH as [|x l Hx _ IHl]; [done| |done|]; rw !fmap_cons IHl; f_equal; [done|].
  destruct x as [k v]. cbn in *. by rw Hx.
Qed.

Lemma of_bits_bits p : of_bits (bits p) = p.
Proof. induction p as [p IH|p IH|]; [| |done]; cbn; by rw IH. Qed.

Lemma doc_elems_sequence l d : doc_elems (foldl push d l) = doc_elems d ++ l.
Proof.
  revert d. induction l as [|x l IH]; intros d; [by rw app_nil_r|]. cbn [foldl].
  rw IH. cbn. by rw -app_assoc.
Qed.

Lemma assoc_set_fresh {A} k (v : A) l : k ∉ l.*1 → assoc_set k v l = l ++ [(k, v)].
Proof.
  induction l as [|[k' v'] l IH]; [done|]. rw fmap_cons not_elem_of_cons. intros [Hk Hl]. cbn.
  by rw decide_False; [|rw IH].
Qed.

Lemma doc_members_mapping l d :
  NoDup (doc_members d ++ l).*1 →
  doc_members (foldl (λ n kv, set n kv.1 kv.2) d l) = doc_members d ++ l.
Proof.
  revert d. induction l as [|[k v] l IH]; intros d Hnd; [by rw app_nil_r|].
  assert (k ∉ (doc_members d).*1) as Hk.
  { intros Hin. rw fmap_app in Hnd. apply NoDup_app in Hnd as (_ & H & _).
    apply (H k Hin). rw fmap_cons. by left. }
  cbn [foldl]. rw IH; cbn; rw (assoc_set_fresh _ _ _ Hk) -app_assoc; done.
Qed.

Lemma assoc_lookup {A} k (l : list (str * A)) :
  assoc k l = list_to_map (M := gmap str A) l !! k.
Proof.
  induction l as [|[k' v] l IH]; [by rw lookup_empty|]. cbn.
  case_decide as Hd; [subst; by rw lookup_insert_eq|]. by rw lookup_insert_ne; [|].
Qed.

#[export] Instance document_yaml_laws : YamlLaws.
Proof.
  split.
  - intros n. cbn. unfold doc_load, doc_emit. by rw of_bits_bits decode_encode /= tree_doc_tree.
  - done.
  - done.
  - intros n. by destruct n.
  - intros l. cbn. by rw (doc_elems_sequence l DNull).
  - intros l i. cbn. by rw (doc_elems_sequence l DNull).
  - intros l k Hnd. rw -assoc_lookup.
    pose proof (doc_members_mapping l DNull Hnd) as Hm. change (doc_members DNull ++ l) with l in Hm.
    rw -{2}Hm. unfold mapping. destruct l as [|x l _] using rev_ind; [done|]. by rw foldl_app.
  - intros l Hnd. by apply (doc_members_mapping l DNull).
  - intros l Hl. unfold mapping. destruct l as [|x l _] using rev_ind; [done|]. by rw foldl_app.
Qed.

#[export] Program Instance document_depth : YamlDepth := {| depth := doc_depth |}.
Next Obligation.
  intros n k c Hin. destruct n as [|s|l|l]; try by apply elem_of_nil in Hin. cbn in *.
  apply Nat.lt_succ_r, max_list_elem_of_le, list_elem_of_fmap.
  exists (k, doc_depth c). split; [done|]. apply list_elem_of_fmap. by exists (k, c).
Qed.
