(* ===== verification/LogFormat.v ===== *)
(** Log formatting: the levels, the events, the format items and the pattern
    parser of duan_src/log.{h,cc}.

    [std::string] is [list ascii].  [LogFormatter::init] reads its pattern by
    index; [init_loop] and [directive_loop] are its two loops, with fuel that
    [init_total] shows to be enough.  [lexes] describes declaratively what the
    loops compute, and is what the other properties are proved from.  The
    conversion of a time to text ([localtime_r], [strftime]) is a parameter. *)

From S2P Require Import Prelude.
From stdpp Require Import pretty.

(** * Levels *)

Definition UNKNOW : Z := 0.
Definition DEBUG : Z := 1.
Definition INFO : Z := 2.
Definition WARN : Z := 3.
Definition ERROR : Z := 4.
Definition FATAL : Z := 5.

(** [LogLevel::toString] *)
Definition toString (level : Z) : str :=
  if (level =? DEBUG)%Z then L "DEBUG"
  else if (level =? INFO)%Z then L "INFO"
  else if (level =? WARN)%Z then L "WARN"
  else if (level =? ERROR)%Z then L "ERROR"
  else if (level =? FATAL)%Z then L "FATAL"
  else L "UNKNOW".

(** [LogLevel::FromString] *)
Definition FromString (s : str) : Z :=
  if decide (s = L "debug") then DEBUG
  else if decide (s = L "info") then INFO
  else if decide (s = L "warn") then WARN
  else if decide (s = L "error") then ERROR
  else if decide (s = L "fatal") then FATAL
  else if decide (s = L "DEBUG") then DEBUG
  else if decide (s = L "INFO") then INFO
  else if decide (s = L "WARN") then WARN
  else if decide (s = L "ERROR") then ERROR
  else if decide (s = L "FATAL") then FATAL
  else UNKNOW.

(** * Events *)

Record LogEvent := MkLogEvent {
  m_file : str;
  m_line : Z;
  m_elapse : Z;
  m_threadId : Z;
  m_fiberId : Z;
  m_time : Z;
  m_threadName : str;
  m_ss : str;
  (** the name of the logger of the event *)
  e_logger : str;
  e_level : Z
}.

(** The constructor; the message is empty. *)
Definition LogEvent_new (logger : str) (level : Z) (file : str) (line elapse thread_id fiber_id time : Z)
    (thread_name : str) : LogEvent :=
  MkLogEvent file line elapse thread_id fiber_id time thread_name [] logger level.

(** [getSS() << text] *)
Definition LogEvent_write (text : str) (e : LogEvent) : LogEvent :=
  MkLogEvent (m_file e) (m_line e) (m_elapse e) (m_threadId e) (m_fiberId e)
    (m_time e) (m_threadName e) (m_ss e ++ text) (e_logger e) (e_level e).

(** [LogEvent::format(fmt, ...)] and [LogEvent::format(fmt, al)], given what [vasprintf] produced; [None] if it
    failed. *)
Definition LogEvent_format (buf : option str) (e : LogEvent) : LogEvent :=
  match buf with
  | Some s => LogEvent_write s e
  | None => e
  end.

(** * Format items *)

Inductive FormatItem :=
  | MessageFormatItem
  | LevelFormatItem
  | ElapseFormatItem
  | NameFormatItem
  | ThreadIdFormatItem
  | NewLineFormatItem
  | DateTimeFormatItem (m_format : str)
  | FilenameFormatItem
  | LineFormatItem
  | TabFormatItem
  | FiberIdFormatItem
  | ThreadNameFormatItem
  | StringFormatItem (m_string : str).

(** The constructor of [DateTimeFormatItem]. *)
Definition DateTimeFormatItem_new (fmt : str) : FormatItem :=
  DateTimeFormatItem (if decide (fmt = []) then L "%Y-%m-%d %H:%M:%S" else fmt).

(** [os << n] for an integer. *)
Definition show_int (n : Z) : str := L (pretty n).

Definition newline : ascii := "010".
Definition tab : ascii := "009".

(** [FormatItem::format]; [level] is the level [Logger::log] was called with,
    and [strftime] the formatted local time. *)
Definition format_item (strftime : str → Z → str) (level : Z) (e : LogEvent)
    (i : FormatItem) : str :=
  match i with
  | MessageFormatItem => m_ss e
  | LevelFormatItem => toString level
  | ElapseFormatItem => show_int (m_elapse e)
  | NameFormatItem => e_logger e
  | ThreadIdFormatItem => show_int (m_threadId e)
  | NewLineFormatItem => [newline]
  | DateTimeFormatItem fmt => strftime fmt (m_time e)
  | FilenameFormatItem => m_file e
  | LineFormatItem => show_int (m_line e)
  | TabFormatItem => [tab]
  | FiberIdFormatItem => show_int (m_fiberId e)
  | ThreadNameFormatItem => m_threadName e
  | StringFormatItem s => s
  end.

(** * The pattern *)

(** [isalpha] in the C locale. *)
Definition isalpha (c : ascii) : bool :=
  let n := nat_of_ascii c in
  ((65 <=? n) && (n <=? 90)) || ((97 <=? n) && (n <=? 122)).

(** An element of [vec]: text (type 0), or a directive with its argument. *)
Inductive token := TStr (s : str) | TDir (name fmt : str).

(** [m_pattern.substr(pos, len)] *)
Definition substr (p : str) (pos len : nat) : str := take len (drop pos p).

(** The variables of the inner loop. *)
Record scan_state := MkScan {
  sc_n : nat;
  sc_status : Z;
  sc_begin : nat;
  sc_str : str;
  sc_fmt : str
}.

(** The inner loop, for the directive that starts at [i]. *)
Fixpoint directive_loop (fuel : nat) (p : str) (i : nat) (x : scan_state) : option scan_state :=
  match fuel with
  | 0 => None
  | S fuel' =>
      let '(MkScan n status begin s fmt) := x in
      match p !! n with
      | None => Some x
      | Some c =>
          if (status =? 0)%Z && (negb (isalpha c) && negb (bool_decide (c = "{"%char)) &&
               negb (bool_decide (p !! i = Some "}"%char)))
          then Some (MkScan n status begin (substr p (i + 1) (n - i - 1)) fmt)
          else if (status =? 0)%Z && bool_decide (c = "{"%char)
          then directive_loop fuel' p i
            (MkScan (n + 1) 1 n (substr p (i + 1) (n - i - 1)) fmt)
          else if (status =? 1)%Z && bool_decide (c = "}"%char)
          then Some (MkScan (n + 1) 0 begin s (substr p (begin + 1) (n - begin - 1)))
          else
            let s' := if bool_decide (n + 1 = length p) && bool_decide (s = [])
                      then drop (i + 1) p else s in
            directive_loop fuel' p i (MkScan (n + 1) status begin s' fmt)
      end
  end.

Definition pattern_error : str := L "<<pattern_error>>".

(** [if(!nstr.empty()) vec.push_back(nstr)] *)
Definition flush (nstr : str) : list token := if decide (nstr = []) then [] else [TStr nstr].

(** The outer loop: [vec] and [m_error]. *)
Fixpoint init_loop (fuel : nat) (p : str) (i : nat) (nstr : str) (vec : list token)
    (err : bool) : option (list token * bool) :=
  match fuel with
  | 0 => None
  | S fuel' =>
      match p !! i with
      | None => Some (vec ++ flush nstr, err)
      | Some c =>
          if negb (bool_decide (c = "%"%char))
          then init_loop fuel' p (i + 1) (nstr ++ [c]) vec err
          else if bool_decide (p !! (i + 1) = Some "%"%char)
          then init_loop fuel' p (i + 1) (nstr ++ ["%"%char]) vec err
          else
            x ← directive_loop (S (length p)) p i (MkScan (i + 1) 0 0 [] []);
            if (sc_status x =? 0)%Z
            then init_loop fuel' p (sc_n x) []
                   (vec ++ flush nstr ++ [TDir (sc_str x) (sc_fmt x)]) err
            else init_loop fuel' p (i + 1) nstr (vec ++ [TStr pattern_error]) true
      end
  end.

(** [s_format_items] *)
Definition s_format_items (name fmt : str) : option FormatItem :=
  if decide (name = L "m") then Some MessageFormatItem
  else if decide (name = L "p") then Some LevelFormatItem
  else if decide (name = L "r") then Some ElapseFormatItem
  else if decide (name = L "c") then Some NameFormatItem
  else if decide (name = L "t") then Some ThreadIdFormatItem
  else if decide (name = L "n") then Some NewLineFormatItem
  else if decide (name = L "d") then Some (DateTimeFormatItem_new fmt)
  else if decide (name = L "f") then Some FilenameFormatItem
  else if decide (name = L "l") then Some LineFormatItem
  else if decide (name = L "T") then Some TabFormatItem
  else if decide (name = L "F") then Some FiberIdFormatItem
  else if decide (name = L "N") then Some ThreadNameFormatItem
  else None.

(** The loop over [vec]. *)
Definition item_of (t : token) : FormatItem * bool :=
  match t with
  | TStr s => (StringFormatItem s, false)
  | TDir name fmt =>
      match s_format_items name fmt with
      | Some i => (i, false)
      | None => (StringFormatItem (L "<<error_format %" ++ name ++ L ">>"), true)
      end
  end.

Record LogFormatter := MkLogFormatter {
  m_pattern : str;
  m_items : list FormatItem;
  m_error : bool
}.

(** [LogFormatter(pattern)] and [LogFormatter::init] *)
Definition LogFormatter_new (pattern : str) : option LogFormatter :=
  r ← init_loop (S (length pattern)) pattern 0 [] [] false;
  let items := item_of <$> r.1 in
  Some (MkLogFormatter pattern items.*1 (r.2 || existsb snd items)).

(** [LogFormatter::format] *)
Definition LogFormatter_format (strftime : str → Z → str) (f : LogFormatter) (level : Z)
    (e : LogEvent) : str :=
  concat (format_item strftime level e <$> m_items f).

(** * What the parser computes

    [lexes nstr rest vec err]: with the text [nstr] pending, the rest of the
    pattern gives the elements [vec], and an error if [err].  A ["%%"] stands
    for a pending ["%"], but only its first character is consumed; an unclosed
    brace gives an error element before the pending text, and the directive is
    read again as text. *)
Inductive lexes : str → str → list token → bool → Prop :=
  | lex_end nstr : lexes nstr [] (flush nstr) false
  | lex_char nstr c rest v e :
      c ≠ "%"%char → lexes (nstr ++ [c]) rest v e → lexes nstr (c :: rest) v e
  | lex_percent nstr rest v e :
      lexes (nstr ++ ["%"%char]) ("%"%char :: rest) v e →
      lexes nstr ("%"%char :: "%"%char :: rest) v e
  | lex_dir nstr name rest v e :
      Forall (λ c, isalpha c = true) name →
      (∀ c, head rest = Some c → isalpha c = false ∧ c ≠ "{"%char) →
      (name = [] → head rest ≠ Some "%"%char) →
      lexes [] rest v e →
      lexes nstr ("%"%char :: name ++ rest) (flush nstr ++ TDir name [] :: v) e
  | lex_dir_fmt nstr name fmt rest v e :
      Forall (λ c, isalpha c = true) name → "}"%char ∉ fmt →
      lexes [] rest v e →
      lexes nstr ("%"%char :: name ++ "{"%char :: fmt ++ "}"%char :: rest)
        (flush nstr ++ TDir name fmt :: v) e
  | lex_error nstr name rest v e :
      Forall (λ c, isalpha c = true) name → "}"%char ∉ rest →
      lexes nstr (name ++ "{"%char :: rest) v e →
      lexes nstr ("%"%char :: name ++ "{"%char :: rest) (TStr pattern_error :: v) true.

(** ** Patterns as lists of pieces *)

Inductive piece := PText (s : str) | PDir (name : str) | PDirFmt (name fmt : str).

Definition print_piece (x : piece) : str :=
  match x with
  | PText s => s
  | PDir name => "%"%char :: name
  | PDirFmt name fmt => "%"%char :: name ++ "{"%char :: fmt ++ ["}"%char]
  end.
Definition print_pattern (xs : list piece) : str := concat (print_piece <$> xs).

Definition token_of (x : piece) : token :=
  match x with
  | PText s => TStr s
  | PDir name => TDir name []
  | PDirFmt name fmt => TDir name fmt
  end.

(** Text is not empty, contains no percent sign and is not followed by text;
    names are letters; a directive without argument is not followed by a letter
    or a brace, nor, if its name is empty, by a percent sign. *)
Fixpoint good_pieces (xs : list piece) : bool :=
  match xs with
  | [] => true
  | x :: xs' =>
      good_pieces xs' &&
      match x with
      | PText s => bool_decide (s ≠ []) && bool_decide ("%"%char ∉ s) &&
          match xs' with PText _ :: _ => false | _ => true end
      | PDir name => bool_decide (name ≠ []) && forallb isalpha name &&
          match print_pattern xs' with
          | [] => true
          | c :: _ => negb (isalpha c) && bool_decide (c ≠ "{"%char)
          end
      | PDirFmt name fmt => forallb isalpha name && bool_decide ("}"%char ∉ fmt)
      end
  end.

(** What a piece contributes to a line. *)
Definition render_piece (strftime : str → Z → str) (level : Z) (e : LogEvent) (x : piece) : str :=
  match token_of x with
  | TStr s => s
  | TDir name fmt =>
      match s_format_items name fmt with
      | Some i => format_item strftime level e i
      | None => L "<<error_format %" ++ name ++ L ">>"
      end
  end.

(** The directives the parser knows. *)
Definition item_names : list str :=
  [L "m"; L "p"; L "r"; L "c"; L "t"; L "n"; L "d"; L "f"; L "l"; L "T"; L "F"; L "N"].

Definition known_piece (x : piece) : bool :=
  match token_of x with
  | TStr _ => true
  | TDir name _ => bool_decide (name ∈ item_names)
  end.

(** The pattern of the constructor of [Logger]. *)
Definition default_pattern : str :=
  L "%d{%Y-%m-%d %H:%M:%S}%T%t%T%N%T%F%T[%p]%T[%c]%T%f:%l%T%m%n".

(** The line it stands for. *)
Definition default_text (strftime : str → Z → str) (level : Z) (e : LogEvent) : str :=
  strftime (L "%Y-%m-%d %H:%M:%S") (m_time e) ++ [tab] ++ show_int (m_threadId e) ++ [tab] ++
  m_threadName e ++ [tab] ++ show_int (m_fiberId e) ++ [tab] ++
  L "[" ++ toString level ++ L "]" ++ [tab] ++ L "[" ++ e_logger e ++ L "]" ++ [tab] ++
  m_file e ++ L ":" ++ show_int (m_line e) ++ [tab] ++ m_ss e ++ [newline].

(** The variable [str] of the inner loop while the name is read: [a] has been read and [b] is to come. *)
Definition name_str (a b r : str) : str :=
  if decide (b = []) then if decide (r = []) then a else [] else [].

(** * The inner loop *)

Section directive.
Context (p : str) (i : nat).
Hypothesis at_percent : p !! i = Some "%"%char.

Lemma drop_step n (c : ascii) r : drop n p = c :: r → p !! n = Some c ∧ drop (n + 1) p = r.
Proof.
  intros Hd. split.
  - pose proof (lookup_drop p n 0) as Hl. rw Hd Nat.add_0_r in Hl. by rw -Hl.
  - rw -drop_drop Hd. done.
Qed.

Lemma drop_end n : drop n p = [] → p !! n = None.
Proof. intros Hd. pose proof (lookup_drop p n 0) as Hl. rw Hd Nat.add_0_r in Hl. by rw -Hl. Qed.

Lemma drop_last n (c : ascii) r :
  drop n p = c :: r → n + 1 = length p ↔ r = [].
Proof.
  intros Hd. pose proof (length_drop p n) as Hl. rw Hd in Hl. cbn in Hl.
  destruct r; cbn in Hl; split; intros; try done; lia.
Qed.

Lemma name_steps r b : ∀ a n k,
  Forall (λ c, isalpha c = true) b →
  drop (i + 1) p = a ++ b ++ r → n = i + 1 + length a →
  directive_loop (length b + k) p i (MkScan n 0 0 (name_str a b r) []) =
  directive_loop k p i (MkScan (n + length b) 0 0 (name_str (a ++ b) [] r) []).
Proof.
  induction b as [|c b IH]; intros a n k Hb Hd ->.
  { by rw Nat.add_0_r app_nil_r. }
  apply Forall_cons in Hb as [Hc Hb].
  assert (drop (i + 1 + length a) p = c :: b ++ r) as Hdn by by rw -drop_drop Hd drop_app_length.
  destruct (drop_step _ _ _ Hdn) as [Hn _]. pose proof (drop_last _ _ _ Hdn) as Hlast.
  cbn [length Nat.add directive_loop]. rw Hn Hc. cbn.
  rw (bool_decide_eq_false_2 (c = _)); [by intros ->|]. cbn.
  replace (if bool_decide (i + 1 + length a + 1 = length p) &&
      bool_decide (name_str a (c :: b) r = []) then drop (i + 1) p else name_str a (c :: b) r)
    with (name_str (a ++ [c]) b r).
  2: { assert (name_str a (c :: b) r = []) as ->.
       { unfold name_str. by destruct (decide (c :: b = [])). }
       rw (bool_decide_eq_true_2 ([] = [])); [done|]. rw andb_true_r. unfold name_str.
       repeat case_decide; subst; cbn [app] in *; try done.
       - by rw bool_decide_eq_true_2; [by apply Hlast|].
       - by rw bool_decide_eq_false_2; [intros Heq; by apply Hlast in Heq|].
       - rw bool_decide_eq_false_2; [|done]. intros Heq. apply Hlast in Heq. by destruct b. }
  rw (IH (a ++ [c])); [done|by rw -app_assoc|rw length_app; cbn; lia|].
  rw -app_assoc. f_equal. f_equal. lia.
Qed.

Lemma directive_plain name r k :
  Forall (λ c, isalpha c = true) name → drop (i + 1) p = name ++ r →
  (∀ c, head r = Some c → isalpha c = false ∧ c ≠ "{"%char) → length name < k →
  directive_loop k p i (MkScan (i + 1) 0 0 [] []) =
    Some (MkScan (i + 1 + length name) 0 0 name []).
Proof.
  intros Hname Hd Hr Hk.
  assert (([] : str) = name_str [] name r) as H0.
  { unfold name_str. by repeat case_decide. }
  replace k with (length name + S (k - length name - 1)) by lia.
  rw {1}H0 (name_steps r name [] (i + 1)); [done|done|by rw Nat.add_0_r|].
  assert (drop (i + 1 + length name) p = r) as Hdn by by rw -drop_drop Hd drop_app_length.
  cbn [directive_loop app]. destruct r as [|c r].
  - rw (drop_end _ Hdn). unfold name_str. done.
  - destruct (drop_step _ _ _ Hdn) as [-> _]. destruct (Hr c eq_refl) as [Hc Hb].
    rw Hc (bool_decide_eq_false_2 _ Hb) at_percent. cbn. do 2 f_equal.
    unfold substr. rw Hd. replace (i + 1 + length name - i - 1) with (length name) by lia.
    apply take_app_length.
Qed.

(** Reading the argument. *)
Lemma fmt_steps bg r b : ∀ n s k,
  "}"%char ∉ b → drop n p = b ++ r →
  ∃ s', directive_loop (length b + k) p i (MkScan n 1 bg s []) =
      directive_loop k p i (MkScan (n + length b) 1 bg s' []) ∧ (r ≠ [] → s' = s).
Proof.
  induction b as [|c b IH]; intros n s k Hb Hd.
  { exists s. by rw Nat.add_0_r. }
  apply not_elem_of_cons in Hb as [Hc Hb].
  destruct (drop_step _ _ _ Hd) as [Hn Hd']. pose proof (drop_last _ _ _ Hd) as Hlast.
  cbn [length Nat.add directive_loop]. rw Hn. cbn.
  rw (bool_decide_eq_false_2 (c = _)); [done|].
  set (s1 := if bool_decide (n + 1 = length p) && bool_decide (s = []) then drop (i + 1) p else s).
  destruct (IH (n + 1) s1 k Hb Hd') as (s' & Hs & Hs').
  exists s'. replace (n + S (length b)) with (n + 1 + length b) by lia. split; [exact Hs|].
  intros Hr. rw (Hs' Hr). unfold s1. rw bool_decide_eq_false_2; [|done].
  intros H. apply Hlast in H. by destruct (app_eq_nil _ _ H).
Qed.

Lemma directive_brace name r k :
  Forall (λ c, isalpha c = true) name → drop (i + 1) p = name ++ "{"%char :: r →
  directive_loop (length name + S k) p i (MkScan (i + 1) 0 0 [] []) =
    directive_loop k p i (MkScan (i + 1 + length name + 1) 1 (i + 1 + length name) name []).
Proof.
  intros Hname Hd.
  assert (([] : str) = name_str [] name ("{"%char :: r)) as H0.
  { unfold name_str. by repeat case_decide. }
  rw {1}H0 (name_steps ("{"%char :: r) name [] (i + 1)); [done|done|by rw Nat.add_0_r|].
  assert (drop (i + 1 + length name) p = "{"%char :: r) as Hdn
    by by rw -drop_drop Hd drop_app_length.
  destruct (drop_step _ _ _ Hdn) as [Hn _]. cbn [directive_loop app]. rw Hn at_percent. cbn.
  unfold substr. rw Hd. replace (i + 1 + length name - i - 1) with (length name) by lia.
  by rw take_app_length.
Qed.

Lemma directive_fmt name fmt r k :
  Forall (λ c, isalpha c = true) name → "}"%char ∉ fmt →
  drop (i + 1) p = name ++ "{"%char :: fmt ++ "}"%char :: r →
  length name + length fmt + 1 < k →
  ∃ bg, directive_loop k p i (MkScan (i + 1) 0 0 [] []) =
    Some (MkScan (i + 1 + length name + length fmt + 2) 0 bg name fmt).
Proof.
  intros Hname Hfmt Hd Hk. exists (i + 1 + length name).
  replace k with (length name + S (length fmt + S (k - length name - length fmt - 2))) by lia.
  rw (directive_brace name _ _ Hname Hd).
  assert (drop (i + 1 + length name + 1) p = fmt ++ "}"%char :: r) as Hdn.
  { rw -drop_drop -drop_drop Hd drop_app_length. done. }
  destruct (fmt_steps (i + 1 + length name) ("}"%char :: r) fmt _ name
    (S (k - length name - length fmt - 2)) Hfmt Hdn) as (s' & -> & Hs').
  rw (Hs' ltac:(done)).
  assert (drop (i + 1 + length name + 1 + length fmt) p = "}"%char :: r) as Hdn'
    by by rw -drop_drop Hdn drop_app_length.
  destruct (drop_step _ _ _ Hdn') as [Hn _]. cbn [directive_loop]. rw Hn. cbn. do 2 f_equal; [lia|].
  unfold substr. rw Hdn.
  replace (i + 1 + length name + 1 + length fmt - (i + 1 + length name) - 1) with (length fmt) by lia.
  apply take_app_length.
Qed.

Lemma directive_unclosed name r k :
  Forall (λ c, isalpha c = true) name → "}"%char ∉ r →
  drop (i + 1) p = name ++ "{"%char :: r → length name + length r + 1 < k →
  ∃ x, directive_loop k p i (MkScan (i + 1) 0 0 [] []) = Some x ∧ sc_status x = 1%Z.
Proof.
  intros Hname Hfmt Hd Hk.
  replace k with (length name + S (length r + S (k - length name - length r - 2))) by lia.
  rw (directive_brace name _ _ Hname Hd).
  assert (drop (i + 1 + length name + 1) p = r ++ []) as Hdn.
  { rw app_nil_r -drop_drop -drop_drop Hd drop_app_length. done. }
  destruct (fmt_steps (i + 1 + length name) [] r _ name
    (S (k - length name - length r - 2)) Hfmt Hdn) as (s' & -> & _).
  assert (drop (i + 1 + length name + 1 + length r) p = []) as Hdn'
    by by rw -drop_drop Hdn drop_app_length.
  cbn [directive_loop]. rw (drop_end _ Hdn'). by eexists.
Qed.
End directive.

(** * The outer loop *)

Lemma next_not_percent (p : str) (i : nat) (rest : str) :
  drop (i + 1) p = rest → head rest ≠ Some "%"%char → p !! (i + 1) ≠ Some "%"%char.
Proof.
  intros Hd Hr Heq. destruct rest as [|c rest].
  - pose proof (drop_end p _ Hd) as Hn. by rw Hn in Heq.
  - destruct (drop_step p _ _ _ Hd) as [Hn _]. rw Hn in Heq. by apply Hr.
Qed.

Lemma head_name (name rest : str) (c : ascii) :
  Forall (λ c, isalpha c = true) name → isalpha c = false → head rest ≠ Some c →
  head (name ++ rest) ≠ Some c.
Proof.
  intros Hname Hc Hr. destruct name as [|c' name]; [done|]. intros [= ->].
  apply Forall_cons in Hname as [Ht _]. by rw Hc in Ht.
Qed.

Lemma init_directive fuel (p : str) i nstr vec err :
  p !! i = Some "%"%char → p !! (i + 1) ≠ Some "%"%char →
  init_loop (S fuel) p i nstr vec err =
    (x ← directive_loop (S (length p)) p i (MkScan (i + 1) 0 0 [] []);
     if (sc_status x =? 0)%Z
     then init_loop fuel p (sc_n x) []
            (vec ++ flush nstr ++ [TDir (sc_str x) (sc_fmt x)]) err
     else init_loop fuel p (i + 1) nstr (vec ++ [TStr pattern_error]) true).
Proof.
  intros Hi Hn. cbn [init_loop]. rw Hi. rw (bool_decide_eq_false_2 _ Hn).
  by rw (bool_decide_eq_true_2 ("%"%char = "%"%char)).
Qed.

(** One round of the loop for each kind of directive. *)
Lemma init_plain fuel (p : str) i nstr name rest vec err :
  drop i p = "%"%char :: name ++ rest → Forall (λ c, isalpha c = true) name →
  (∀ c, head rest = Some c → isalpha c = false ∧ c ≠ "{"%char) →
  (name = [] → head rest ≠ Some "%"%char) →
  drop (i + 1 + length name) p = rest ∧
  init_loop (S fuel) p i nstr vec err =
    init_loop fuel p (i + 1 + length name) [] (vec ++ flush nstr ++ [TDir name []]) err.
Proof.
  intros Hd Hname Hrest Hpct. destruct (drop_step p _ _ _ Hd) as [Hi Hd'].
  pose proof (length_drop p i) as Hlen. rw Hd in Hlen. cbn in Hlen. rw length_app in Hlen.
  split; [by rw -drop_drop Hd' drop_app_length|].
  assert (p !! (i + 1) ≠ Some "%"%char) as Hnext.
  { apply (next_not_percent p i _ Hd'). destruct name as [|c name]; [by apply Hpct|].
    apply Forall_cons in Hname as [Hc _]. by intros [= ->]. }
  rw (init_directive _ _ _ _ _ _ Hi Hnext).
  by rw (directive_plain p i Hi name rest (S (length p)) Hname Hd' Hrest); [lia|].
Qed.

Lemma init_fmt fuel (p : str) i nstr name fmt rest vec err :
  drop i p = "%"%char :: name ++ "{"%char :: fmt ++ "}"%char :: rest →
  Forall (λ c, isalpha c = true) name → "}"%char ∉ fmt →
  drop (i + 1 + length name + length fmt + 2) p = rest ∧
  init_loop (S fuel) p i nstr vec err =
    init_loop fuel p (i + 1 + length name + length fmt + 2) []
      (vec ++ flush nstr ++ [TDir name fmt]) err.
Proof.
  intros Hd Hname Hfmt. destruct (drop_step p _ _ _ Hd) as [Hi Hd'].
  pose proof (length_drop p i) as Hlen. rw Hd in Hlen. cbn in Hlen.
  rw length_app in Hlen. cbn in Hlen. rw length_app in Hlen. cbn in Hlen. split.
  - replace (i + 1 + length name + length fmt + 2)
      with (i + 1 + (length name + (1 + (length fmt + 1)))) by lia.
    rw -drop_drop Hd' -drop_drop drop_app_length -drop_drop. cbn [drop].
    by rw -drop_drop drop_app_length.
  - rw (init_directive _ _ _ _ _ _ Hi (next_not_percent p i _ Hd' 
      (head_name name ("{"%char :: fmt ++ "}"%char :: rest) "%"%char Hname eq_refl ltac:(done)))).
    destruct (directive_fmt p i Hi name fmt rest (S (length p)) Hname Hfmt Hd') as [bg ->]; [lia|done].
Qed.

Lemma init_unclosed fuel (p : str) i nstr name rest vec err :
  drop i p = "%"%char :: name ++ "{"%char :: rest →
  Forall (λ c, isalpha c = true) name → "}"%char ∉ rest →
  init_loop (S fuel) p i nstr vec err =
    init_loop fuel p (i + 1) nstr (vec ++ [TStr pattern_error]) true.
Proof.
  intros Hd Hname Hrest. destruct (drop_step p _ _ _ Hd) as [Hi Hd'].
  pose proof (length_drop p i) as Hlen. rw Hd in Hlen. cbn in Hlen. rw length_app in Hlen. cbn in Hlen.
  rw (init_directive _ _ _ _ _ _ Hi (next_not_percent p i _ Hd' 
    (head_name name ("{"%char :: rest) "%"%char Hname eq_refl ltac:(done)))).
  destruct (directive_unclosed p i Hi name rest (S (length p)) Hname Hrest Hd') as (x & -> & Hx); [lia|].
  cbn. by rw Hx.
Qed.

Lemma init_lexes nstr rest v e : lexes nstr rest v e → ∀ (p : str) i vec err fuel,
  drop i p = rest → length rest < fuel →
  init_loop fuel p i nstr vec err = Some (vec ++ v, err || e).
Proof.
  induction 1 as [nstr|nstr c rest v e Hc _ IH|nstr rest v e _ IH
    |nstr name rest v e Hname Hrest Hpct _ IH|nstr name fmt rest v e Hname Hfmt _ IH
    |nstr name rest v e Hname Hfmt _ IH]; intros p i vec err fuel Hd Hf;
    (destruct fuel as [|fuel]; [lia|]); cbn in Hf; rewrite ?length_app /= ?length_app /= in Hf.
  - cbn [init_loop]. by rw (drop_end p _ Hd) orb_false_r.
  - cbn [init_loop]. destruct (drop_step p _ _ _ Hd) as [-> Hd']. rw (bool_decide_eq_false_2 _ Hc). cbn.
    apply IH; [done|lia].
  - destruct (drop_step p _ _ _ Hd) as [Hi Hd']. cbn [init_loop]. rw Hi.
    destruct (drop_step p _ _ _ Hd') as [Hn _].
    rw (bool_decide_eq_true_2 ("%"%char = "%"%char)); [done|]. cbn [negb].
    rw (bool_decide_eq_true_2 (p !! (i + 1) = Some "%"%char) Hn). apply IH; [done|cbn; lia].
  - destruct (init_plain fuel p i nstr name rest vec err Hd Hname Hrest Hpct) as [Hd' ->].
    rw (IH p _ _ err fuel Hd'); [lia|]. by rw -!app_assoc.
  - destruct (init_fmt fuel p i nstr name fmt rest vec err Hd Hname Hfmt) as [Hd' ->].
    rw (IH p _ _ err fuel Hd'); [lia|]. by rw -!app_assoc.
  - rw (init_unclosed fuel p i nstr name rest vec err Hd Hname Hfmt).
    destruct (drop_step p _ _ _ Hd) as [_ Hd'].
    rw (IH p (i + 1) _ true fuel Hd'); [rw length_app; cbn; lia|]. rw -app_assoc. cbn. by rw orb_true_r.
Qed.

Lemma alpha_span (r : str) : ∃ name r1, r = name ++ r1 ∧
  Forall (λ c, isalpha c = true) name ∧ ∀ c, head r1 = Some c → isalpha c = false.
Proof.
  induction r as [|c r (name & r1 & -> & Hname & Hr)]; [by exists [], []|].
  destruct (isalpha c) eqn:Hc.
  - exists (c :: name), r1. split; [done|]. split; [by constructor|done].
  - exists [], (c :: name ++ r1). split; [done|]. split; [done|]. by intros ? [= <-].
Qed.

Lemma lexes_total k : ∀ nstr rest, length rest < k → ∃ v e, lexes nstr rest v e.
Proof.
  induction k as [|k IH]; intros nstr rest Hk; [lia|].
  destruct rest as [|c rest]; [eauto using lexes|]. cbn in Hk.
  destruct (decide (c = "%"%char)) as [->|Hc].
  2: { destruct (IH (nstr ++ [c]) rest) as (v & e & ?); [lia|]. eauto using lexes. }
  destruct (decide (head rest = Some "%"%char)) as [Hp|Hp].
  { destruct rest as [|c rest]; [done|]. injection Hp as ->.
    destruct (IH (nstr ++ ["%"%char]) ("%"%char :: rest)) as (v & e & ?); [lia|].
    eauto using lexes. }
  destruct (alpha_span rest) as (name & r1 & -> & Hname & Hr1). rw length_app in Hk.
  destruct (decide (head r1 = Some "{"%char)) as [Hb|Hb].
  - destruct r1 as [|c r2]; [done|]. injection Hb as ->. cbn in Hk.
    destruct (decide ("}"%char ∈ r2)) as [Hin|Hin].
    + apply list_elem_of_split_l in Hin as (fmt & r3 & -> & Hfmt). rw length_app in Hk. cbn in Hk.
      destruct (IH [] r3) as (v & e & ?); [lia|]. eauto using lexes.
    + destruct (IH nstr (name ++ "{"%char :: r2)) as (v & e & ?); [rw length_app; cbn; lia|].
      eauto using lexes.
  - destruct (IH [] r1) as (v & e & ?); [lia|]. eexists _, _. apply lex_dir; eauto.
    + intros c Hc. split; [by apply Hr1|]. intros ->. done.
    + intros ->. by rw app_nil_l in Hp.
Qed.

(** ** Printing and reading back *)

Lemma text_lexes s rest v e : "%"%char ∉ s → ∀ nstr,
  lexes (nstr ++ s) rest v e → lexes nstr (s ++ rest) v e.
Proof.
  induction s as [|c s IH]; intros Hs nstr H; [by rw app_nil_r in H|].
  apply not_elem_of_cons in Hs as [Hc Hs]. apply lex_char; [done|].
  apply IH; [done|]. by rw -app_assoc.
Qed.

Lemma good_cons x xs : good_pieces (x :: xs) = true →
  good_pieces xs = true ∧
  match x with
  | PText s => s ≠ [] ∧ "%"%char ∉ s ∧ match xs with PText _ :: _ => False | _ => True end
  | PDir name => name ≠ [] ∧ Forall (λ c, isalpha c = true) name ∧
      ∀ c, head (print_pattern xs) = Some c → isalpha c = false ∧ c ≠ "{"%char
  | PDirFmt name fmt => Forall (λ c, isalpha c = true) name ∧ "}"%char ∉ fmt
  end.
Proof.
  cbn [good_pieces]. intros [Hgood H]%andb_prop. split; [done|].
  destruct x as [s|name|name fmt].
  - apply andb_prop in H as [[H1 H2]%andb_prop H3].
    split; [by apply bool_decide_eq_true in H1|]. split; [by apply bool_decide_eq_true in H2|].
    by destruct xs as [|[]].
  - apply andb_prop in H as [[H1 H2]%andb_prop H3].
    split; [by apply bool_decide_eq_true in H1|].
    split; [by apply List.Forall_forall, List.forallb_forall|].
    intros c Hc. destruct (print_pattern xs) as [|c' r]; [done|]. injection Hc as ->.
    apply andb_prop in H3 as [H3 H4]. split; [by apply negb_true_iff|].
    by apply bool_decide_eq_true in H4.
  - apply andb_prop in H as [H1 H2]. split; [by apply List.Forall_forall, List.forallb_forall|].
    by apply bool_decide_eq_true in H2.
Qed.

(** The pending text is flushed before a directive and at the end. *)
Lemma print_lexes_pending xs : ∀ nstr, good_pieces xs = true →
  nstr = [] ∨ match xs with PText _ :: _ => False | _ => True end →
  lexes nstr (print_pattern xs) (flush nstr ++ (token_of <$> xs)) false.
Proof.
  induction xs as [|x xs IH]; intros nstr Hgood Hn.
  { rw app_nil_r. apply lex_end. }
  apply good_cons in Hgood as [Hgood Hx]. unfold print_pattern. rw !fmap_cons. cbn [concat].
  fold (print_pattern xs). destruct x as [s|name|name fmt]; cbn [print_piece token_of].
  - destruct Hn as [->|[]]. destruct Hx as (Hs & Hpct & Hnext). apply (text_lexes _ _ _ _ Hpct).
    change (flush [] ++ ?l) with l. pose proof (IH s Hgood (or_intror Hnext)) as Ht.
    unfold flush in Ht. by case_decide.
  - destruct Hx as (Hne & Hname & Hh). apply lex_dir; [done|done|done|].
    by apply (IH []); [|left].
  - destruct Hx as [Hname Hfmt].
    assert (("%"%char :: name ++ "{"%char :: fmt ++ ["}"%char]) ++ print_pattern xs =
      "%"%char :: (name ++ "{"%char :: fmt ++ "}"%char :: print_pattern xs)) as ->.
    { cbn. by rw -!app_assoc /= -!app_assoc. }
    apply lex_dir_fmt; [done|done|]. by apply (IH []); [|left].
Qed.

Lemma lexes_new pattern v e :
  lexes [] pattern v e →
  LogFormatter_new pattern =
    Some (MkLogFormatter pattern (item_of <$> v).*1 (e || existsb snd (item_of <$> v))).
Proof.
  intros H. unfold LogFormatter_new. by rw (init_lexes _ _ _ _ H pattern 0 [] false); [|lia|].
Qed.

Lemma items_None name fmt : s_format_items name fmt = None ↔ name ∉ item_names.
Proof.
  unfold item_names. rw !not_elem_of_cons. unfold s_format_items.
  repeat case_decide; split; intros Hn; try done; try (exfalso; tauto).
  repeat split; try done. apply not_elem_of_nil.
Qed.

Lemma item_known x : known_piece x = negb (snd (item_of (token_of x))).
Proof.
  unfold known_piece, item_of. destruct (token_of x) as [s|name fmt]; [done|].
  pose proof (items_None name fmt) as H. destruct (s_format_items name fmt).
  - rw bool_decide_eq_true_2; [|done]. apply dec_stable. intros Hn. by apply H in Hn.
  - rw bool_decide_eq_false_2; [|done]. by apply H.
Qed.

Lemma item_render strftime level e x :
  format_item strftime level e (item_of (token_of x)).1 = render_piece strftime level e x.
Proof.
  unfold render_piece, item_of. destruct (token_of x) as [s|name fmt]; [done|].
  by destruct (s_format_items name fmt).
Qed.

Lemma existsb_known xs :
  existsb snd (item_of <$> (token_of <$> xs)) = negb (forallb known_piece xs).
Proof.
  induction xs as [|x xs IH]; [done|]. rw !fmap_cons. cbn [existsb forallb].
  by rw IH item_known negb_andb negb_involutive.
Qed.

(** * Properties *)

(** C30. Every pattern is parsed: the fuel of the two index loops is enough, and what they
    compute is the one reading of the pattern that [lexes] allows. *)
Theorem init_total (pattern : str) : ∃ v e,
  lexes [] pattern v e ∧ (∀ v' e', lexes [] pattern v' e' → v' = v ∧ e' = e) ∧
  LogFormatter_new pattern =
    Some (MkLogFormatter pattern (item_of <$> v).*1 (e || existsb snd (item_of <$> v))).
Proof.
  destruct (lexes_total (S (length pattern)) [] pattern) as (v & e & H); [lia|].
  exists v, e. split; [done|]. split; [|by apply lexes_new].
  intros v' e' H'.
  pose proof (init_lexes _ _ _ _ H pattern 0 [] false (S (length pattern)) eq_refl ltac:(lia)) as H1.
  rw (init_lexes _ _ _ _ H' pattern 0 [] false) in H1; [done|lia|]. by injection H1.
Qed.

(** C11. Printing a list of text and directive pieces and parsing the result gives the pieces
    back: the formatter is in error exactly if a directive is unknown, and formatting an event
    concatenates what each piece stands for. *)
Theorem pattern_roundtrip strftime level e xs :
  good_pieces xs = true → ∃ f,
  LogFormatter_new (print_pattern xs) = Some f ∧
  m_items f = (item_of <$> (token_of <$> xs)).*1 ∧
  m_error f = negb (forallb known_piece xs) ∧
  LogFormatter_format strftime f level e = concat (render_piece strftime level e <$> xs).
Proof.
  intros Hgood. eexists. split.
  { apply lexes_new. by apply (print_lexes_pending xs []); [|left]. }
  cbn [m_items m_error orb]. split; [done|]. split; [apply existsb_known|].
  unfold LogFormatter_format. cbn [m_items]. f_equal.
  induction xs as [|x xs IH]; [done|]. rw !fmap_cons. f_equal; [apply item_render|].
  apply IH. by apply good_cons in Hgood as [? _].
Qed.

Lemma pattern_roundtrip_witness : ∃ f,
  LogFormatter_new (L "<%p> %d{%H:%M} %m%n") = Some f ∧
  LogFormatter_format (λ _ _, L "12:30") f INFO
    (MkLogEvent (L "a.cc") 7 0 1 0 0 (L "main") (L "hello") (L "root") INFO) =
    L "<INFO> 12:30 hello" ++ [newline].
Proof.
  destruct (pattern_roundtrip (λ _ _, L "12:30") INFO
    (MkLogEvent (L "a.cc") 7 0 1 0 0 (L "main") (L "hello") (L "root") INFO)
    [PText (L "<"); PDir (L "p"); PText (L "> "); PDirFmt (L "d") (L "%H:%M"); PText (L " ");
     PDir (L "m"); PDir (L "n")]) as (f & Hf & _ & _ & Hfmt).
  { vm_compute. reflexivity. }
  exists f. split; [exact Hf|exact Hfmt].
Defined.

(** A level printed and read back is the level; every other value, such as the 100 of a
    deleted logger, prints as ["UNKNOW"], which reads as [UNKNOW]. *)
Theorem level_roundtrip level :
  FromString (toString level) =
    if (DEBUG <=? level)%Z && (level <=? FATAL)%Z then level else UNKNOW.
Proof.
  unfold toString.
  destruct (Z.eqb_spec level DEBUG) as [->|H1]; [done|].
  destruct (Z.eqb_spec level INFO) as [->|H2]; [done|].
  destruct (Z.eqb_spec level WARN) as [->|H3]; [done|].
  destruct (Z.eqb_spec level ERROR) as [->|H4]; [done|].
  destruct (Z.eqb_spec level FATAL) as [->|H5]; [done|].
  unfold DEBUG, INFO, WARN, ERROR, FATAL in *.
  destruct (Z.leb_spec 1 level), (Z.leb_spec level 5); try done. exfalso. lia.
Qed.

(** The pattern every logger starts with parses without an error, and gives the line
    [time, thread id, thread name, fiber id, [level], [logger], file:line, message],
    separated by tabs and closed by a newline. *)
Theorem default_line strftime level e : ∃ f,
  LogFormatter_new default_pattern = Some f ∧ m_error f = false ∧
  LogFormatter_format strftime f level e = default_text strftime level e.
Proof. eexists. split; [vm_compute; reflexivity|]. by split. Qed.

(** ["%%"] is announced as the way to write a percent sign, but only its first character
    is consumed: the second one starts a directive with what follows. ["%%m"] prints a percent
    sign and the message, and a ["%%"] that no letter follows is an error. *)
Theorem percent_escape name rest :
  Forall (λ c, isalpha c = true) name →
  (∀ c, head rest = Some c → isalpha c = false ∧ c ≠ "{"%char ∧ c ≠ "%"%char) → ∃ f g,
  LogFormatter_new ("%"%char :: name ++ rest) = Some g ∧
  LogFormatter_new ("%"%char :: "%"%char :: name ++ rest) = Some f ∧
  m_items f = StringFormatItem (L "%") :: m_items g ∧
  m_error f = m_error g ∧ (name = [] → m_error f = true).
Proof.
  intros Hname Hrest. destruct (lexes_total (S (length rest)) [] rest) as (v & e & H); [lia|].
  assert (∀ nstr, lexes nstr ("%"%char :: name ++ rest) (flush nstr ++ TDir name [] :: v) e) as Hd.
  { intros nstr. apply lex_dir; [done| | |done].
    - intros c Hc. by destruct (Hrest c Hc) as (? & ? & _).
    - intros _ Hc. by destruct (Hrest _ Hc) as (_ & _ & ?). }
  eexists _, _. split; [apply lexes_new, (Hd [])|]. split.
  { apply lexes_new, lex_percent, (Hd (L "%")). }
  split; [done|]. split; [done|]. intros ->. cbn. by rw orb_true_r.
Qed.

Lemma percent_escape_witness : ∃ f g,
  LogFormatter_new (L "%m") = Some g ∧ LogFormatter_new (L "%%m") = Some f ∧
  m_items f = StringFormatItem (L "%") :: m_items g ∧
  m_error f = m_error g ∧ (L "m" = [] → m_error f = true).
Proof. refine (percent_escape (L "m") [] _ _); [by repeat constructor|done]. Defined.

(** A directive whose brace is not closed is an error: the formatter holds the error text
    first, and then the text before the directive and the directive without its percent sign. *)
Theorem unclosed_brace text name rest :
  "%"%char ∉ text → Forall (λ c, isalpha c = true) name →
  "%"%char ∉ rest → "}"%char ∉ rest → ∃ f,
  LogFormatter_new (text ++ "%"%char :: name ++ "{"%char :: rest) = Some f ∧ m_error f = true ∧
  m_items f = [StringFormatItem pattern_error;
    StringFormatItem (text ++ name ++ "{"%char :: rest)].
Proof.
  intros Htext Hname Hpct Hbrace.
  assert ("%"%char ∉ name ++ "{"%char :: rest) as Hn.
  { rw elem_of_app elem_of_cons. intros [Hin|[?|?]]; [|done|done].
    by apply (proj1 (Forall_forall _ _) Hname) in Hin. }
  assert (lexes [] (text ++ "%"%char :: name ++ "{"%char :: rest)
    [TStr pattern_error; TStr (text ++ name ++ "{"%char :: rest)] true) as H.
  { apply (text_lexes _ _ _ _ Htext). cbn [app].
    apply (lex_error text name rest _ false Hname Hbrace).
    rw -(app_nil_r (name ++ "{"%char :: rest)). apply (text_lexes _ _ _ _ Hn).
    pose proof (lex_end (text ++ name ++ "{"%char :: rest)) as He. unfold flush in He.
    case_decide as Hd; [|by rw app_nil_r].
    by apply app_eq_nil in Hd as [_ [_ ?]%app_eq_nil]. }
  eexists. by split; [apply lexes_new, H|].
Qed.

Lemma unclosed_brace_witness : ∃ f,
  LogFormatter_new (L "at %d{H") = Some f ∧ m_error f = true ∧
  m_items f = [StringFormatItem pattern_error; StringFormatItem (L "at d{H")].
Proof.
  destruct (unclosed_brace (L "at ") (L "d") (L "H")) as (f & H).
  - by apply (bool_decide_unpack (_ ∉ _)); vm_compute.
  - by repeat constructor.
  - by apply (bool_decide_unpack (_ ∉ _)); vm_compute.
  - by apply (bool_decide_unpack (_ ∉ _)); vm_compute.
  - exists f. exact H.
Defined.
