(* ===== verification/Logger.v ===== *)
(** Appenders, loggers and the logger manager of duan_src/log.{h,cc}.

    Appenders and loggers are shared objects: they live in the heaps of [Log]
    and are passed by index.  Formatters do not change once they are built, so a
    [LogFormatter::ptr] is an [option LogFormatter].  The mutexes make each
    operation atomic and do not appear.  What the operating system does during
    an operation (the clock, whether a file can be opened or written) is an
    argument.  The diagnostics that the pattern parser prints on [std::cout] are
    not modelled; the other texts sent there are. *)

From S2P Require Import Prelude StdSet Yaml LogFormat.

(** * State *)

(** A [std::ofstream]: open or not, its error state, its position. *)
Record ofstream := MkStream { f_open : bool; f_good : bool; f_pos : nat }.

(** The subclasses of [LogAppender] with their own members. *)
Inductive appender_kind :=
  | StdoutLogAppender
  | FileLogAppender (m_filename : str) (m_filestream : ofstream) (m_lastTime : Z).

Record LogAppender := MkAppender {
  ap_level : Z;
  m_hasFormatter : bool;
  ap_formatter : option LogFormatter;
  ap_kind : appender_kind
}.

Record Logger := MkLogger {
  lg_name : str;
  lg_level : Z;
  m_appenders : list nat;
  lg_formatter : option LogFormatter;
  m_root : option nat
}.

(** All appenders and loggers, the members of the [LoggerManager], the files and
    the standard output. *)
Record Log := MkLog {
  appenders : gmap nat LogAppender;
  loggers : gmap nat Logger;
  next_id : nat;
  m_loggers : gmap str nat;
  mgr_root : option nat;
  files : gmap str str;
  stdout : str
}.

(** What the environment answers during an operation: [time(0)], the ids and the
    name of the thread, whether a file can be opened and written. *)
Record Env := MkEnv {
  env_time : Z;
  env_thread : Z;
  env_fiber : Z;
  env_thread_name : str;
  env_opens : str → bool;
  env_writes : str → bool
}.

(** ** Access *)

Definition upd_appender (i : nat) (a : LogAppender) (g : Log) : Log :=
  MkLog (<[i := a]> (appenders g)) (loggers g) (next_id g) (m_loggers g) (mgr_root g)
    (files g) (stdout g).
Definition upd_logger (i : nat) (l : Logger) (g : Log) : Log :=
  MkLog (appenders g) (<[i := l]> (loggers g)) (next_id g) (m_loggers g) (mgr_root g)
    (files g) (stdout g).
Definition upd_file (f : str) (s : str) (g : Log) : Log :=
  MkLog (appenders g) (loggers g) (next_id g) (m_loggers g) (mgr_root g)
    (<[f := s]> (files g)) (stdout g).
Definition upd_named (n : str) (i : nat) (g : Log) : Log :=
  MkLog (appenders g) (loggers g) (next_id g) (<[n := i]> (m_loggers g)) (mgr_root g)
    (files g) (stdout g).
Definition upd_root (i : nat) (g : Log) : Log :=
  MkLog (appenders g) (loggers g) (next_id g) (m_loggers g) (Some i) (files g) (stdout g).

Definition add_stdout (s : str) (g : Log) : Log :=
  MkLog (appenders g) (loggers g) (next_id g) (m_loggers g) (mgr_root g) (files g)
    (stdout g ++ s).

(** [std::cout << s] *)
Definition cout (s : str) : M Log unit := mmodify (add_stdout s).

Definition appender (i : nat) : M Log LogAppender :=
  o ← mgets (λ g, appenders g !! i);
  match o with Some a => mret a | None => mcrash (Undefined "null appender") end.
Definition logger (i : nat) : M Log Logger :=
  o ← mgets (λ g, loggers g !! i);
  match o with Some l => mret l | None => mcrash (Undefined "null logger") end.

(** [new] *)
Definition new_appender (a : LogAppender) : M Log nat := λ g,
  Ret (next_id g)
    (MkLog (<[next_id g := a]> (appenders g)) (loggers g) (S (next_id g)) (m_loggers g)
       (mgr_root g) (files g) (stdout g)).
Definition new_logger (l : Logger) : M Log nat := λ g,
  Ret (next_id g)
    (MkLog (appenders g) (<[next_id g := l]> (loggers g)) (S (next_id g)) (m_loggers g)
       (mgr_root g) (files g) (stdout g)).

(** Assignments to members of an object. *)
Definition modify_appender (i : nat) (f : LogAppender → LogAppender) : M Log unit :=
  a ← appender i; mmodify (upd_appender i (f a)).
Definition modify_logger (i : nat) (f : Logger → Logger) : M Log unit :=
  l ← logger i; mmodify (upd_logger i (f l)).

(** * Appenders *)

Definition with_formatter (f : option LogFormatter) (a : LogAppender) : LogAppender :=
  MkAppender (ap_level a) (m_hasFormatter a) f (ap_kind a).
Definition with_kind (k : appender_kind) (a : LogAppender) : LogAppender :=
  MkAppender (ap_level a) (m_hasFormatter a) (ap_formatter a) k.

(** [LogAppender::setFormatter] *)
Definition appender_setFormatter (i : nat) (val : option LogFormatter) : M Log unit :=
  modify_appender i (λ a, MkAppender (ap_level a) (bool_decide (is_Some val)) val (ap_kind a)).

(** [LogAppender::getFormatter] *)
Definition appender_getFormatter (i : nat) : M Log (option LogFormatter) :=
  a ← appender i; mret (ap_formatter a).

(** [LogAppender::setLevel] *)
Definition setLevel (i : nat) (val : Z) : M Log unit :=
  modify_appender i (λ a, MkAppender val (m_hasFormatter a) (ap_formatter a) (ap_kind a)).

(** ** Files *)

(** [ofstream::close]: closing a stream that is not open is an error. *)
Definition stream_close (s : ofstream) : ofstream :=
  if f_open s then MkStream false (f_good s) (f_pos s) else MkStream false false (f_pos s).

(** [ofstream::open]: an error if the stream is open; it clears the error state
    and empties the file if it succeeds. *)
Definition stream_open (env : Env) (filename : str) (s : ofstream) : ofstream :=
  if f_open s then MkStream true false (f_pos s)
  else if env_opens env filename then MkStream true true 0
  else MkStream false false (f_pos s).

(** Writing at a position of a file. *)
Definition write_at (pos : nat) (text content : str) : str :=
  take pos (content ++ replicate (pos - length content) "000"%char) ++ text ++
    drop (pos + length text) content.

(** [FileLogAppender::reopen] *)
Definition reopen (env : Env) (i : nat) : M Log bool :=
  a ← appender i;
  match ap_kind a with
  | StdoutLogAppender => mcrash (Undefined "not a file appender")
  | FileLogAppender filename s t =>
      let s1 := if f_good s then stream_close s else s in
      let s2 := stream_open env filename s1 in
      mwhen (f_good s2) (mmodify (upd_file filename [])) ;;
      modify_appender i (with_kind (FileLogAppender filename s2 t)) ;;
      mret (f_good s2)
  end.

(** The constructors *)
Definition StdoutLogAppender_new : M Log nat :=
  new_appender (MkAppender DEBUG false None StdoutLogAppender).
Definition FileLogAppender_new (env : Env) (filename : str) : M Log nat :=
  i ← new_appender (MkAppender DEBUG false None
        (FileLogAppender filename (MkStream false true 0) 0));
  reopen env i ;; mret i.

(** [m_filestream << text], and whether the stream is still good. *)
Definition stream_write (env : Env) (i : nat) (text : str) : M Log bool :=
  a ← appender i;
  match ap_kind a with
  | StdoutLogAppender => mcrash (Undefined "not a file appender")
  | FileLogAppender filename s t =>
      if f_good s then
        if env_writes env filename then
          content ← mgets (λ g, default [] (files g !! filename));
          mmodify (upd_file filename (write_at (f_pos s) text content)) ;;
          modify_appender i (with_kind
            (FileLogAppender filename (MkStream (f_open s) true (f_pos s + length text)) t)) ;;
          mret true
        else
          modify_appender i (with_kind
            (FileLogAppender filename (MkStream (f_open s) false (f_pos s)) t)) ;;
          mret false
      else mret false
  end.

(** [m_lastTime = now] *)
Definition set_lastTime (i : nat) (now : Z) : M Log unit :=
  modify_appender i (λ a,
    match ap_kind a with
    | StdoutLogAppender => a
    | FileLogAppender filename s _ => with_kind (FileLogAppender filename s now) a
    end).

(** ** Logging to an appender *)

Section logging.
Context (strftime : str → Z → str).

(** [m_formatter->format(logger, level, event)] *)
Definition format_with (f : option LogFormatter) (level : Z) (e : LogEvent) : M Log str :=
  match f with
  | Some f => mret (LogFormatter_format strftime f level e)
  | None => mcrash (Undefined "null formatter")
  end.

(** [StdoutLogAppender::log] *)
Definition StdoutLogAppender_log (level : Z) (e : LogEvent) (a : LogAppender) : M Log unit :=
  mwhen (ap_level a <=? level)%Z
    (text ← format_with (ap_formatter a) level e;
     cout text).

(** [FileLogAppender::log] *)
Definition FileLogAppender_log (env : Env) (level : Z) (e : LogEvent) (i : nat) (a : LogAppender)
    (lastTime : Z) : M Log unit :=
  mwhen (ap_level a <=? level)%Z
    (mwhen (negb (env_time env =? lastTime)%Z)
       (reopen env i ;; set_lastTime i (env_time env)) ;;
     text ← format_with (ap_formatter a) level e;
     ok ← stream_write env i text;
     mwhen (negb ok) (cout (L "error" ++ [newline]))).

(** The virtual function [LogAppender::log] *)
Definition appender_log (env : Env) (level : Z) (e : LogEvent) (i : nat) : M Log unit :=
  a ← appender i;
  match ap_kind a with
  | StdoutLogAppender => StdoutLogAppender_log level e a
  | FileLogAppender _ _ lastTime => FileLogAppender_log env level e i a lastTime
  end.

(** * Loggers *)

Definition with_appenders (aps : list nat) (l : Logger) : Logger :=
  MkLogger (lg_name l) (lg_level l) aps (lg_formatter l) (m_root l).

(** [new LogFormatter(pattern)] *)
Definition new_formatter (pattern : str) : M Log LogFormatter :=
  match LogFormatter_new pattern with
  | Some f => mret f
  | None => mcrash (Undefined "LogFormatter::init does not end")
  end.

(** [new Logger(name)] *)
Definition Logger_new (name : str) : M Log nat :=
  f ← new_formatter default_pattern;
  new_logger (MkLogger name DEBUG [] (Some f) None).

(** [Logger::SetLevel] *)
Definition SetLevel (i : nat) (val : Z) : M Log unit :=
  modify_logger i (λ l,
    MkLogger (lg_name l) val (m_appenders l) (lg_formatter l) (m_root l)).

(** The loop of [Logger::setFormatter]. *)
Definition pass_formatter (f : option LogFormatter) (i : nat) : M Log unit :=
  a ← appender i;
  mwhen (negb (m_hasFormatter a)) (modify_appender i (with_formatter f)).

(** [Logger::setFormatter(LogFormatter::ptr)] *)
Definition setFormatter (i : nat) (val : option LogFormatter) : M Log unit :=
  modify_logger i (λ l,
    MkLogger (lg_name l) (lg_level l) (m_appenders l) val (m_root l)) ;;
  l ← logger i;
  miter (pass_formatter val) (m_appenders l).

(** [Logger::setFormatter(const std::string&)] *)
Definition setFormatter_str (i : nat) (val : str) : M Log unit :=
  f ← new_formatter val;
  if m_error f then
    l ← logger i;
    cout (L "Logger setFormatter name=" ++ lg_name l ++ L " value=" ++ val ++
          L " invalid formatter" ++ [newline])
  else setFormatter i (Some f).

(** [Logger::getFormatter] *)
Definition getFormatter (i : nat) : M Log (option LogFormatter) :=
  l ← logger i; mret (lg_formatter l).

(** [Logger::addAppender] *)
Definition addAppender (i ap : nat) : M Log unit :=
  l ← logger i;
  f ← appender_getFormatter ap;
  mwhen (bool_decide (f = None))
    (modify_appender ap (with_formatter (lg_formatter l))) ;;
  modify_logger i (λ l, with_appenders (m_appenders l ++ [ap]) l).

Fixpoint remove_first (x : nat) (l : list nat) : list nat :=
  match l with
  | [] => []
  | y :: l => if decide (x = y) then l else y :: remove_first x l
  end.

(** [Logger::delAppender], [Logger::clearAppenders] *)
Definition delAppender (i ap : nat) : M Log unit :=
  modify_logger i (λ l, with_appenders (remove_first ap (m_appenders l)) l).
Definition clearAppenders (i : nat) : M Log unit :=
  modify_logger i (with_appenders []).

(** [Logger::log]; the fuel bounds the chain of [m_root] links. *)
Fixpoint log_fuel (fuel : nat) (env : Env) (i : nat) (level : Z) (e : LogEvent) : M Log unit :=
  match fuel with
  | 0 => mcrash (Undefined "the chain of roots does not end")
  | S fuel =>
      l ← logger i;
      mwhen (lg_level l <=? level)%Z
        match m_appenders l, m_root l with
        | [], Some r => log_fuel fuel env r level e
        | [], None => mret tt
        | aps, _ => miter (appender_log env level e) aps
        end
  end.

(** A logger of the manager is its root or refers to it. *)
Definition log (env : Env) (i : nat) (level : Z) (e : LogEvent) : M Log unit :=
  log_fuel 2 env i level e.

Definition debug env i e := log env i DEBUG e.
Definition info env i e := log env i INFO e.
Definition warn env i e := log env i WARN e.
Definition error env i e := log env i ERROR e.
Definition fatal env i e := log env i FATAL e.

(** [~LogEventWrap]: the event is logged when its wrapper is destroyed. *)
Definition LogEventWrap_delete (env : Env) (i : nat) (e : LogEvent) : M Log unit :=
  log env i (e_level e) e.

(** The event of the macros. *)
Definition macro_event (env : Env) (l : Logger) (level : Z) (file : str) (line : Z) : LogEvent :=
  LogEvent_new (lg_name l) level file line 0 (env_thread env) (env_fiber env) (env_time env)
    (env_thread_name env).

(** [DUAN_LOG_LEVEL(logger, level) << text] *)
Definition LOG_LEVEL (env : Env) (i : nat) (level : Z) (file : str) (line : Z) (text : str)
    : M Log unit :=
  l ← logger i;
  mwhen (lg_level l <=? level)%Z
    (LogEventWrap_delete env i (LogEvent_write text (macro_event env l level file line))).

(** [DUAN_LOG_FMT_LEVEL(logger, level, fmt, ...)], given what [vasprintf] produces. *)
Definition LOG_FMT_LEVEL (env : Env) (i : nat) (level : Z) (file : str) (line : Z)
    (buf : option str) : M Log unit :=
  l ← logger i;
  mwhen (lg_level l <=? level)%Z
    (LogEventWrap_delete env i (LogEvent_format buf (macro_event env l level file line))).

(** * The logger manager *)

(** [LoggerManager::LoggerManager] *)
Definition LoggerManager_new : M Log unit :=
  root ← Logger_new (L "root");
  mmodify (upd_root root) ;;
  ap ← StdoutLogAppender_new;
  addAppender root ap ;;
  mmodify (upd_named (L "root") root).

(** [LoggerManager::getLogger] *)
Definition getLogger (name : str) : M Log nat :=
  o ← mgets (λ g, m_loggers g !! name);
  match o with
  | Some i => mret i
  | None =>
      i ← Logger_new name;
      root ← mgets mgr_root;
      modify_logger i (λ l,
        MkLogger (lg_name l) (lg_level l) (m_appenders l) (lg_formatter l) root) ;;
      mmodify (upd_named name i) ;;
      mret i
  end.

(** [LoggerManager::getRoot] *)
Definition getRoot : M Log (option nat) := mgets mgr_root.
End logging.

(** Before any logger exists; [files] are what the disk holds. *)
Definition no_log (fs : gmap str str) : Log := MkLog ∅ ∅ 0 ∅ None fs [].

(** * YAML *)

Section yaml.
Context `{Yaml}.

(** [toYamlString] of the appenders, of a logger and of the manager.  Fields are
    written in the order of the code. *)
Definition level_field (level : Z) : list (str * node) :=
  if decide (level = UNKNOW) then [] else [(L "level", scalar (toString level))].
Definition formatter_field (key : str) (a : LogAppender) : list (str * node) :=
  if m_hasFormatter a then
    match ap_formatter a with Some f => [(key, scalar (m_pattern f))] | None => [] end
  else [].
Definition StdoutLogAppender_toYamlString (a : LogAppender) : str :=
  emit (mapping ([(L "type", scalar (L "StdoutLogAppender"))] ++
    level_field (ap_level a) ++ formatter_field (L "formatter") a)).
Definition FileLogAppender_toYamlString (a : LogAppender) (filename : str) : str :=
  emit (mapping ([(L "type", scalar (L "FileLogAppender")); (L "file", scalar filename)] ++
    level_field (ap_level a) ++ formatter_field (L "fomatter") a)).
Definition appender_toYamlString (a : LogAppender) : str :=
  match ap_kind a with
  | StdoutLogAppender => StdoutLogAppender_toYamlString a
  | FileLogAppender filename _ _ => FileLogAppender_toYamlString a filename
  end.

(** The nodes of a list of written documents; [None] if one cannot be read. *)
Definition load_all (l : list str) : option (list node) := mapM load l.

Definition logger_toYamlString (g : Log) (l : Logger) : option str :=
  aps ← mapM (λ i, appenders g !! i) (m_appenders l);
  nodes ← load_all (appender_toYamlString <$> aps);
  Some (emit (mapping (
    [(L "name", scalar (lg_name l)); (L "level", scalar (toString (lg_level l)))] ++
    match lg_formatter l with Some f => [(L "formatter", scalar (m_pattern f))] | None => [] end ++
    match nodes with [] => [] | _ => [(L "appenders", sequence nodes)] end))).

(** The map of the manager is iterated in the order of the names. *)
Definition name_before (a b : str * nat) : Prop := str_lt a.1 b.1 = true.
#[local] Instance name_before_dec : RelDecision name_before.
Proof. intros a b. unfold name_before. apply _. Defined.
Definition manager_toYamlString (g : Log) : option str :=
  ls ← mapM (λ ni, loggers g !! ni.2) (merge_sort name_before (map_to_list (m_loggers g)));
  texts ← mapM (logger_toYamlString g) ls;
  nodes ← load_all texts;
  Some (emit (sequence nodes)).
End yaml.

(** * Specification *)

(** The objects that exist are below the next id; the root has no root and
    every other logger has none or that one; the appenders of a logger exist;
    the manager finds a logger under its own name, and the root under
    ["root"]. *)
Record wf_log (g : Log) : Prop := {
  wf_appender_ids : ∀ i, is_Some (appenders g !! i) → i < next_id g;
  wf_logger_ids : ∀ i, is_Some (loggers g !! i) → i < next_id g;
  wf_root : ∃ r l, mgr_root g = Some r ∧ loggers g !! r = Some l ∧ m_root l = None ∧
    m_loggers g !! L "root" = Some r;
  wf_links : ∀ i l r, loggers g !! i = Some l → m_root l = Some r → mgr_root g = Some r;
  wf_sinks : ∀ i l ap, loggers g !! i = Some l → ap ∈ m_appenders l → is_Some (appenders g !! ap);
  wf_named : ∀ n i, m_loggers g !! n = Some i → ∃ l, loggers g !! i = Some l ∧ lg_name l = n
}.

(** The operations of the module, and the states a program can bring it into. *)
Inductive log_op :=
  | OpNewStdout | OpNewFile (env : Env) (filename : str)
  | OpNewLogger (name : str) | OpGetLogger (name : str)
  | OpSetLevel (i : nat) (level : Z) | OpSetFormatter (i : nat) (f : option LogFormatter)
  | OpSetPattern (i : nat) (pattern : str)
  | OpAdd (i ap : nat) | OpDel (i ap : nat) | OpClear (i : nat)
  | OpAppenderLevel (ap : nat) (level : Z)
  | OpAppenderFormatter (ap : nat) (f : option LogFormatter)
  | OpReopen (env : Env) (ap : nat)
  | OpLog (env : Env) (i : nat) (level : Z) (e : LogEvent)
  | OpMacro (env : Env) (i : nat) (level : Z) (file : str) (line : Z) (text : str).

Definition run_op (strftime : str → Z → str) (op : log_op) : M Log unit :=
  match op with
  | OpNewStdout => StdoutLogAppender_new ;; mret tt
  | OpNewFile env f => FileLogAppender_new env f ;; mret tt
  | OpNewLogger name => Logger_new name ;; mret tt
  | OpGetLogger name => getLogger name ;; mret tt
  | OpSetLevel i v => SetLevel i v
  | OpSetFormatter i f => setFormatter i f
  | OpSetPattern i p => setFormatter_str i p
  | OpAdd i ap => addAppender i ap
  | OpDel i ap => delAppender i ap
  | OpClear i => clearAppenders i
  | OpAppenderLevel ap v => setLevel ap v
  | OpAppenderFormatter ap f => appender_setFormatter ap f
  | OpReopen env ap => reopen env ap ;; mret tt
  | OpLog env i v e => log strftime env i v e
  | OpMacro env i v f n t => LOG_LEVEL strftime env i v f n t
  end.

Inductive log_reachable (strftime : str → Z → str) (fs : gmap str str) : Log → Prop :=
  | reach_start g : LoggerManager_new (no_log fs) = Ret tt g → log_reachable strftime fs g
  | reach_op g op g' : log_reachable strftime fs g → run_op strftime op g = Ret tt g' →
      log_reachable strftime fs g'.

(** Knowledge about objects that no operation takes away: they exist. *)
Definition log_inv (A : nat → Prop) (g : Log) : Prop :=
  wf_log g ∧ ∀ i, A i → is_Some (appenders g !! i).

(** Where an event of [level] given to logger [i] goes: to the appenders of the
    logger, or of its root if it has none. *)
Definition sinks (g : Log) (i : nat) (level : Z) : list nat :=
  match loggers g !! i with
  | None => []
  | Some l =>
      if (lg_level l <=? level)%Z then
        match m_appenders l, m_root l with
        | [], Some r =>
            match loggers g !! r with
            | Some lr => if (lg_level lr <=? level)%Z then m_appenders lr else []
            | None => []
            end
        | aps, _ => aps
        end
      else []
  end.

(** The appender writes events of the level. *)
Definition accepts (level : Z) (a : LogAppender) : bool := (ap_level a <=? level)%Z.

Definition is_stdout (a : LogAppender) : bool :=
  match ap_kind a with StdoutLogAppender => true | _ => false end.

(** The line an appender writes for an event. *)
Definition line_of (strftime : str → Z → str) (level : Z) (e : LogEvent) (a : LogAppender) : str :=
  if accepts level a then
    match ap_formatter a with Some f => LogFormatter_format strftime f level e | None => [] end
  else [].

Definition lines_of (strftime : str → Z → str) (level : Z) (e : LogEvent) (g : Log)
    (aps : list nat) : str :=
  concat ((λ ap, match appenders g !! ap with
                 | Some a => line_of strftime level e a
                 | None => []
                 end) <$> aps).

(** What logging leaves alone: the loggers, the manager, and the settings of the
    appenders. *)
Definition settings (a : LogAppender) : Z * bool * option LogFormatter * bool :=
  (ap_level a, m_hasFormatter a, ap_formatter a, is_stdout a).
Definition same_settings (g g' : Log) : Prop :=
  loggers g' = loggers g ∧ m_loggers g' = m_loggers g ∧ mgr_root g' = mgr_root g ∧
  next_id g' = next_id g ∧ settings <$> appenders g' = settings <$> appenders g.

(** What [getLogger] does, with the objects it creates. *)
Definition made_logger (name : str) (f : LogFormatter) (g : Log) : Log :=
  MkLog (appenders g) (<[next_id g := MkLogger name DEBUG [] (Some f) (mgr_root g)]> (loggers g))
    (S (next_id g)) (<[name := next_id g]> (m_loggers g)) (mgr_root g) (files g) (stdout g).

(** The state after the constructor of [LoggerManager]. *)
Definition started (fs : gmap str str) (f : LogFormatter) : Log :=
  MkLog {[1 := MkAppender DEBUG false (Some f) StdoutLogAppender]}
    {[0 := MkLogger (L "root") DEBUG [1] (Some f) None]} 2 {[L "root" := 0]} (Some 0) fs [].

(** The formatter of the default pattern. *)
Definition default_formatter : LogFormatter :=
  default (MkLogFormatter [] [] true) (LogFormatter_new default_pattern).

(** * The invariant *)

Lemma new_formatter_ok p : ∃ f,
  LogFormatter_new p = Some f ∧ new_formatter p = (mret f : M Log LogFormatter).
Proof.
  destruct (lexes_total (S (length p)) [] p) as (v & e & H); [lia|].
  eexists. unfold new_formatter. by rw (lexes_new _ _ _ H).
Qed.

Section invariant.
Context (A : nat → Prop).

Lemma keeps_log_ro {B} (m : M Log B) : (∀ g, match m g with Ret _ g' => g' = g | Throw _ g' => g' = g | Crash _ => True end) →
  keeps (log_inv A) m.
Proof. intros H g Hg. specialize (H g). by destruct (m g) as [x g'|x g'|f]; subst. Qed.

Lemma keeps_appender {B} i (k : LogAppender → M Log B) :
  (∀ a, keeps (log_inv (λ j, A j ∨ j = i)) (k a)) → keeps (log_inv A) (appender i ≫= k).
Proof.
  intros Hk g [Hwf HA]. unfold appender. mrun. destruct (appenders g !! i) as [a|] eqn:Ha; [|done].
  mrun. assert (log_inv (λ j, A j ∨ j = i) g) as Hg.
  { split; [done|]. intros j [Hj|Hj]; [by apply HA|by rw Hj Ha]. }
  specialize (Hk a g Hg). destruct (k a g) as [x g'|x g'|f]; [| |done];
    (destruct Hk as [Hwf' HA']; split; [done|]; intros j Hj; apply HA'; by left).
Qed.

Lemma keeps_logger i : keeps (log_inv A) (logger i).
Proof. apply keeps_log_ro. intros g. unfold logger. mrun. by destruct (loggers g !! i). Qed.

Lemma keeps_outputs f :
  (∀ g, appenders (f g) = appenders g ∧ loggers (f g) = loggers g ∧ next_id (f g) = next_id g ∧
     m_loggers (f g) = m_loggers g ∧ mgr_root (f g) = mgr_root g) →
  keeps (log_inv A) (mmodify f).
Proof.
  intros H g [Hwf HA]. cbn. destruct (H g) as (Ha & Hl & Hn & Hm & Hr). destruct Hwf.
  split; [constructor|]; rw ?Ha ?Hl ?Hn ?Hm ?Hr; done.
Qed.

Lemma keeps_cout s : keeps (log_inv A) (cout s).
Proof. by apply keeps_outputs. Qed.
Lemma keeps_upd_file f s : keeps (log_inv A) (mmodify (upd_file f s)).
Proof. by apply keeps_outputs. Qed.

Lemma keeps_modify_appender i f : keeps (log_inv A) (modify_appender i f).
Proof.
  intros g [Hwf HA]. unfold modify_appender, appender. mrun.
  destruct (appenders g !! i) as [a|] eqn:Ha; [|done]. mrun.
  assert (∀ j, is_Some (<[i:=f a]> (appenders g) !! j) ↔ is_Some (appenders g !! j)) as Hdom.
  { intros j. destruct (decide (i = j)) as [->|]; [by rw lookup_insert_eq Ha|by rw lookup_insert_ne]. }
  destruct Hwf. split; [constructor|]; cbn; try done.
  - intros j Hj. apply Hdom in Hj. auto.
  - intros j l ap Hl Hap. apply Hdom. eauto.
  - intros j Hj. apply Hdom. auto.
Qed.

Lemma keeps_modify_logger i f :
  (∀ l, lg_name (f l) = lg_name l) →
  (∀ l g, log_inv A g → loggers g !! i = Some l →
     (m_root (f l) = m_root l ∨ m_root (f l) = mgr_root g ∧ mgr_root g ≠ Some i) ∧
     ∀ ap, ap ∈ m_appenders (f l) → ap ∈ m_appenders l ∨ A ap) →
  keeps (log_inv A) (modify_logger i f).
Proof.
  intros Hname Hf g Hg. pose proof Hg as [Hwf HA]. unfold modify_logger, logger. mrun.
  destruct (loggers g !! i) as [l|] eqn:Hl; [|done]. mrun.
  destruct (Hf l g Hg Hl) as [Hroot Haps]. destruct Hwf.
  split; [constructor|]; cbn; try done.
  - intros j Hj. destruct (decide (i = j)) as [->|Hij]; [apply wf_logger_ids0; by rw Hl|].
    rw lookup_insert_ne in Hj; auto.
  - destruct wf_root0 as (r & lr & Hr & Hlr & Hlr' & Hnamed). exists r.
    destruct (decide (i = r)) as [->|]; [|exists lr; by rw lookup_insert_ne].
    rw lookup_insert_eq. eexists. split; [done|]. split; [done|]. simplify_eq.
    destruct Hroot as [->|[_ Hne]]; [done|by destruct Hne].
  - intros j l' r. destruct (decide (i = j)) as [->|]; [|rw lookup_insert_ne; [done|eauto]].
    rw lookup_insert_eq. intros [= <-] Hr. destruct Hroot as [Hroot|[Hroot _]]; rw Hroot in Hr; eauto.
  - intros j l' ap. destruct (decide (i = j)) as [->|]; [|rw lookup_insert_ne; [done|eauto]].
    rw lookup_insert_eq. intros [= <-] Hap. destruct (Haps ap Hap); eauto.
  - intros n j Hn. destruct (wf_named0 n j Hn) as (l' & Hl' & Hn').
    destruct (decide (i = j)) as [->|]; [|exists l'; by rw lookup_insert_ne].
    rw lookup_insert_eq. eexists. split; [done|]. simplify_eq. by rw Hname.
Qed.

Lemma keeps_new_appender a : keeps (log_inv A) (new_appender a).
Proof.
  intros g [Hwf HA]. cbn.
  assert (∀ j, is_Some (<[next_id g:=a]> (appenders g) !! j) ↔
    j = next_id g ∨ is_Some (appenders g !! j)) as Hdom.
  { intros j. destruct (decide (next_id g = j)) as [->|].
    - rw lookup_insert_eq. split; [by left|done].
    - rw lookup_insert_ne; [done|]. split; [by right|by intros [->|?]]. }
  destruct Hwf. split; [constructor|]; cbn; try done.
  - intros j [->|Hj]%Hdom; [lia|]. apply wf_appender_ids0 in Hj. lia.
  - intros j Hj. apply wf_logger_ids0 in Hj. lia.
  - intros j l ap Hl Hap. apply Hdom. right. eauto.
  - intros j Hj. apply Hdom. right. auto.
Qed.

Lemma keeps_new_formatter p : keeps (log_inv A) (new_formatter p).
Proof. unfold new_formatter. destruct (LogFormatter_new p); [apply keeps_ret|apply keeps_crash]. Qed.

Lemma keeps_new_logger l :
  m_root l = None → m_appenders l = [] → keeps (log_inv A) (new_logger l).
Proof.
  intros Hroot Haps g [Hwf HA]. cbn. destruct Hwf.
  assert (∀ j, is_Some (loggers g !! j) → next_id g ≠ j) as Hfresh.
  { intros j Hj%wf_logger_ids0. lia. }
  split; [constructor|]; cbn; try done.
  - intros j Hj. apply wf_appender_ids0 in Hj. lia.
  - intros j Hj. destruct (decide (next_id g = j)); [lia|].
    rw lookup_insert_ne in Hj; [done|]. apply wf_logger_ids0 in Hj. lia.
  - destruct wf_root0 as (r & lr & Hr & Hlr & Hn). exists r, lr.
    by rw lookup_insert_ne; [apply Hfresh; rw Hlr|].
  - intros j l' r. destruct (decide (next_id g = j)) as [->|]; [|by rw lookup_insert_ne; eauto].
    rw lookup_insert_eq. intros [= <-]. by rw Hroot.
  - intros j l' ap. destruct (decide (next_id g = j)) as [->|]; [|by rw lookup_insert_ne; eauto].
    rw lookup_insert_eq. intros [= <-]. rw Haps. by intros ?%elem_of_nil.
  - intros n j Hn. destruct (wf_named0 n j Hn) as (l' & Hl' & Hn'). exists l'.
    by rw lookup_insert_ne; [apply Hfresh; rw Hl'|].
Qed.
End invariant.

Lemma getLogger_found name g i : m_loggers g !! name = Some i → getLogger name g = Ret i g.
Proof.
  intros Hi. unfold getLogger. rw (bind_Ret (mgets _) _ g _ g eq_refl) Hi. done.
Qed.

Lemma Logger_new_eq name f g :
  LogFormatter_new default_pattern = Some f →
  Logger_new name g = new_logger (MkLogger name DEBUG [] (Some f) None) g.
Proof. intros Hf. unfold Logger_new, new_formatter. by rw Hf. Qed.

Lemma getLogger_new name g f :
  m_loggers g !! name = None → LogFormatter_new default_pattern = Some f →
  getLogger name g = Ret (next_id g) (made_logger name f g).
Proof.
  intros Hi Hf. unfold getLogger. rw (bind_Ret (mgets _) _ g _ g eq_refl) Hi.
  erewrite bind_Ret by exact (Logger_new_eq name f g Hf).
  unfold modify_logger, logger. mrun. rw lookup_insert_eq. mrun. unfold upd_named, upd_logger. cbn.
  by rw insert_insert_eq.
Qed.

#[export] Hint Resolve keeps_logger keeps_cout keeps_upd_file keeps_modify_appender
  keeps_new_appender keeps_new_formatter keeps_new_logger : duan.

(** Sequences of operations. *)
Ltac keeps_seq :=
  repeat first
    [ apply keeps_modify_appender
    | apply keeps_appender; intros ?
    | apply keeps_bind; [|intros ?]
    | apply keeps_when
    | solve [auto with duan]
    | match goal with |- keeps _ (match ?x with _ => _ end) => destruct x end ].

Section operations.
Context (A : nat → Prop) (strftime : str → Z → str).

Lemma keeps_appender_setFormatter i v : keeps (log_inv A) (appender_setFormatter i v).
Proof. apply keeps_modify_appender. Qed.
Lemma keeps_setLevel i v : keeps (log_inv A) (setLevel i v).
Proof. apply keeps_modify_appender. Qed.

Lemma keeps_reopen env i : keeps (log_inv A) (reopen env i).
Proof. unfold reopen. by keeps_seq. Qed.

Lemma keeps_StdoutLogAppender_new : keeps (log_inv A) StdoutLogAppender_new.
Proof. apply keeps_new_appender. Qed.

Lemma keeps_FileLogAppender_new env f : keeps (log_inv A) (FileLogAppender_new env f).
Proof.
  apply keeps_bind; [apply keeps_new_appender|intros i].
  apply keeps_bind; [apply keeps_reopen|intros _; apply keeps_ret].
Qed.

Lemma keeps_stream_write env i text : keeps (log_inv A) (stream_write env i text).
Proof. unfold stream_write. by keeps_seq. Qed.

Lemma keeps_format_with f level e : keeps (log_inv A) (format_with strftime f level e).
Proof. destruct f; [apply keeps_ret|apply keeps_crash]. Qed.

Lemma keeps_pass_formatter f i : keeps (log_inv A) (pass_formatter f i).
Proof. unfold pass_formatter. by keeps_seq. Qed.

Lemma keeps_SetLevel i v : keeps (log_inv A) (SetLevel i v).
Proof. apply keeps_modify_logger; [done|]. intros l g _ _. split; [by left|by left]. Qed.

Lemma keeps_clearAppenders i : keeps (log_inv A) (clearAppenders i).
Proof.
  apply keeps_modify_logger; [done|]. intros l g _ _. split; [by left|].
  by intros ap ?%elem_of_nil.
Qed.

Lemma remove_first_in x y l : y ∈ remove_first x l → y ∈ l.
Proof.
  induction l as [|z l IH]; [done|]. cbn. case_decide; [by right|].
  intros [->|Hy]%elem_of_cons; [by left|right; auto].
Qed.

Lemma keeps_delAppender i ap : keeps (log_inv A) (delAppender i ap).
Proof.
  apply keeps_modify_logger; [done|]. intros l g _ _. split; [by left|].
  intros ap' Hap. left. exact (remove_first_in _ _ _ Hap).
Qed.

End operations.

#[export] Hint Resolve keeps_reopen keeps_stream_write keeps_format_with keeps_pass_formatter
  keeps_SetLevel keeps_clearAppenders keeps_delAppender keeps_setLevel
  keeps_appender_setFormatter keeps_StdoutLogAppender_new keeps_FileLogAppender_new : duan.

Section compound.
Context (A : nat → Prop) (strftime : str → Z → str).

Lemma keeps_setFormatter i v : keeps (log_inv A) (setFormatter i v).
Proof.
  apply keeps_bind; [|intros []; apply keeps_bind; [auto with duan|intros l]].
  - apply keeps_modify_logger; [done|]. intros l g _ _. split; [by left|by left].
  - apply keeps_iter. auto with duan.
Qed.

Lemma keeps_setFormatter_str i v : keeps (log_inv A) (setFormatter_str i v).
Proof.
  unfold setFormatter_str. apply keeps_bind; [auto with duan|intros f].
  destruct (m_error f); [auto with duan|apply keeps_setFormatter].
Qed.

Lemma keeps_appender_log env level e i : keeps (log_inv A) (appender_log strftime env level e i).
Proof.
  unfold appender_log. apply keeps_appender. intros a.
  destruct (ap_kind a); apply keeps_when; [auto with duan|].
  apply keeps_bind; [apply keeps_when, keeps_bind; [auto with duan|intros; apply keeps_modify_appender]|].
  intros _. auto with duan.
Qed.

Lemma keeps_log_fuel fuel env i level e : keeps (log_inv A) (log_fuel strftime fuel env i level e).
Proof.
  revert i. induction fuel as [|fuel IH]; intros i; [apply keeps_crash|]. cbn [log_fuel].
  apply keeps_bind; [auto with duan|intros l]. apply keeps_when.
  destruct (m_appenders l) as [|ap aps], (m_root l) as [r|]; auto with duan;
    apply keeps_iter; intros; apply keeps_appender_log.
Qed.

Lemma keeps_LOG_LEVEL env i level file line text :
  keeps (log_inv A) (LOG_LEVEL strftime env i level file line text).
Proof.
  unfold LOG_LEVEL. apply keeps_bind; [auto with duan|intros l]. apply keeps_when, keeps_log_fuel.
Qed.

Lemma keeps_addAppender i ap : keeps (log_inv A) (addAppender i ap).
Proof.
  unfold addAppender, appender_getFormatter. apply keeps_bind; [auto with duan|intros l].
  assert (∀ a, keeps (log_inv (λ j, A j ∨ j = ap))
    (mwhen (bool_decide (ap_formatter a = None)) (modify_appender ap (with_formatter (lg_formatter l))) ;;
     modify_logger i (λ l, with_appenders (m_appenders l ++ [ap]) l))) as Hk.
  { intros a. apply keeps_bind; [apply keeps_when; auto with duan|intros []].
    apply keeps_modify_logger; [done|]. intros l' g _ _. split; [by left|]. cbn.
    intros ap' [Hin|Hin%list_elem_of_singleton]%elem_of_app; [by left|right; by right]. }
  pose proof (keeps_appender A ap _ Hk) as H. intros g Hg. specialize (H g Hg). clear -H.
  revert H. mrun. unfold appender. mrun. by destruct (appenders g !! ap).
Qed.

Lemma keeps_getLogger name : keeps (log_inv A) (getLogger name).
Proof.
  intros g Hg. destruct (m_loggers g !! name) as [i|] eqn:Hi.
  { by rw (getLogger_found _ _ _ Hi). }
  destruct (new_formatter_ok default_pattern) as (f & Hf & _). rw (getLogger_new _ _ _ Hi Hf).
  set (l0 := MkLogger name DEBUG [] (Some f) None).
  destruct (keeps_new_logger A l0 eq_refl eq_refl g Hg) as [Hwf HA].
  destruct Hg as [Hg _]. split; [|done].
  assert (∀ j, is_Some (loggers g !! j) → next_id g ≠ j) as Hfresh.
  { intros j Hj%(wf_logger_ids _ Hg). lia. }
  clear Hf. unfold made_logger. destruct Hwf. constructor; cbn in *; try done.
  - intros j Hj. apply wf_logger_ids0. destruct (decide (next_id g = j)) as [->|Hne].
    + by rw lookup_insert_eq.
    + rw lookup_insert_ne; [done|]. by rw lookup_insert_ne in Hj.
  - destruct (wf_root _ Hg) as (r & lr & Hr & Hlr & Hn & Hroot). exists r, lr.
    rw lookup_insert_ne; [apply Hfresh; by rw Hlr|].
    by rw lookup_insert_ne; [intros ->; rw Hroot in Hi|].
  - intros j l r. destruct (decide (next_id g = j)) as [->|Hne].
    + rw lookup_insert_eq. by intros [= <-].
    + rw lookup_insert_ne; [done|]. apply (wf_links _ Hg).
  - intros j l ap. destruct (decide (next_id g = j)) as [->|Hne].
    + rw lookup_insert_eq. intros [= <-]. by intros ?%elem_of_nil.
    + rw lookup_insert_ne; [done|]. apply (wf_sinks _ Hg).
  - intros n j. destruct (decide (name = n)) as [->|Hne].
    + rw lookup_insert_eq. intros [= <-]. rw lookup_insert_eq. by eexists.
    + rw lookup_insert_ne; [done|]. intros Hj. destruct (wf_named _ Hg n j Hj) as (l & Hl & Hn).
      exists l. by rw lookup_insert_ne; [apply Hfresh; rw Hl|].
Qed.
End compound.

#[export] Hint Resolve keeps_setFormatter keeps_setFormatter_str keeps_appender_log
  keeps_log_fuel keeps_LOG_LEVEL keeps_addAppender keeps_getLogger : duan.

(** * Where events go *)

Section delivery.
Context (strftime : str → Z → str).

Lemma same_settings_refl g : same_settings g g.
Proof. done. Qed.
Lemma same_settings_trans g1 g2 g3 :
  same_settings g1 g2 → same_settings g2 g3 → same_settings g1 g3.
Proof. unfold same_settings. naive_solver congruence. Qed.

Lemma same_settings_lookup g g' i a :
  same_settings g g' → appenders g !! i = Some a →
  ∃ a', appenders g' !! i = Some a' ∧ settings a' = settings a.
Proof.
  intros (_ & _ & _ & _ & H) Ha. pose proof (f_equal (lookup i) H) as Hi.
  rw !lookup_fmap Ha in Hi. destruct (appenders g' !! i) as [a'|]; [|done].
  exists a'. split; [done|]. by apply (inj Some) in Hi.
Qed.

(** Operations on the stream of a file appender. *)
Lemma modify_appender_eq i f g a :
  appenders g !! i = Some a → modify_appender i f g = Ret tt (upd_appender i (f a) g).
Proof. intros Ha. unfold modify_appender, appender. mrun. by rw Ha. Qed.

Lemma upd_appender_settings i a a' g :
  appenders g !! i = Some a → settings a' = settings a → same_settings g (upd_appender i a' g).
Proof.
  intros Ha Hs. unfold same_settings. cbn. repeat split; [].
  rw fmap_insert Hs. apply insert_id. by rw lookup_fmap Ha.
Qed.

Lemma reopen_settings env i g a :
  appenders g !! i = Some a → is_stdout a = false →
  ∃ ok g', reopen env i g = Ret ok g' ∧ same_settings g g'.
Proof.
  intros Ha Hk. unfold reopen, appender. mrun. rw Ha. mrun. unfold is_stdout in Hk.
  destruct (ap_kind a) as [|filename s t] eqn:Hkind; [done|].
  set (s2 := stream_open env filename _). destruct (f_good s2); mrun;
    (erewrite modify_appender_eq by exact Ha; eexists _, _; split; [done|]);
    (eapply same_settings_trans; [|eapply upd_appender_settings; [exact Ha|]]);
    try done; unfold settings, is_stdout; by rw Hkind.
Qed.

Lemma set_lastTime_settings i t g a :
  appenders g !! i = Some a →
  ∃ g', set_lastTime i t g = Ret tt g' ∧ same_settings g g'.
Proof.
  intros Ha. eexists. split; [by apply modify_appender_eq|].
  apply (upd_appender_settings _ a); [done|]. unfold settings, is_stdout.
  by destruct (ap_kind a) eqn:Hk; rw ?Hk.
Qed.

Lemma stream_write_settings env i text g a :
  appenders g !! i = Some a → is_stdout a = false →
  ∃ ok g', stream_write env i text g = Ret ok g' ∧ same_settings g g'.
Proof.
  intros Ha Hk. unfold stream_write, appender. mrun. rw Ha. mrun. unfold is_stdout in Hk.
  destruct (ap_kind a) as [|filename s t] eqn:Hkind; [done|].
  destruct (f_good s); [|by eexists _, _]. destruct (env_writes env filename); mrun;
    (erewrite modify_appender_eq by exact Ha; eexists _, _; split; [done|]);
    (eapply same_settings_trans; [|eapply upd_appender_settings; [exact Ha|]]);
    try done; unfold settings, is_stdout; by rw Hkind.
Qed.

Lemma appender_log_ok env level e i g a :
  appenders g !! i = Some a → (accepts level a = true → is_Some (ap_formatter a)) →
  ∃ g', appender_log strftime env level e i g = Ret tt g' ∧ same_settings g g' ∧
    (is_stdout a = true → g' = add_stdout (line_of strftime level e a) g).
Proof.
  intros Ha Hf. unfold appender_log. erewrite bind_Ret by (unfold appender; mrun; by rw Ha).
  unfold line_of, accepts, StdoutLogAppender_log, FileLogAppender_log in *.
  destruct (Z.leb_spec (ap_level a) level); cbn [mwhen].
  2: { exists g. split; [by destruct (ap_kind a)|]. split; [done|]. intros _. destruct g.
       unfold add_stdout. cbn. by rw app_nil_r. }
  destruct (Hf eq_refl) as [f Hfm]. rw Hfm. unfold is_stdout.
  destruct (ap_kind a) as [|filename s t] eqn:Hk.
  { eexists. split; [done|]. by split. }
  set (R := λ g', same_settings g g').
  assert (∃ g1, mwhen (negb (env_time env =? t)%Z)
    (reopen env i ;; set_lastTime i (env_time env)) g = Ret tt g1 ∧ R g1) as (g1 & Hg1 & HR).
  { destruct (env_time env =? t)%Z; [by exists g|]. cbn.
    destruct (reopen_settings env i g a Ha) as (ok & g1 & H1 & HR1); [by unfold is_stdout; rw Hk|].
    destruct (same_settings_lookup _ _ _ _ HR1 Ha) as (a1 & Ha1 & _).
    destruct (set_lastTime_settings i (env_time env) g1 a1 Ha1) as (g2 & H2 & HR2).
    exists g2. split; [by rw (bind_Ret _ _ _ _ _ H1)|]. by eapply same_settings_trans. }
  rw (bind_Ret _ _ _ _ _ Hg1). cbn [format_with].
  destruct (same_settings_lookup _ _ _ _ HR Ha) as (a1 & Ha1 & Hs1).
  destruct (stream_write_settings env i (LogFormatter_format strftime f level e) g1 a1 Ha1)
    as (ok & g2 & H2 & HR2).
  { injection Hs1 as _ _ _ ->. unfold is_stdout. by rw Hk. }
  erewrite bind_Ret by done. rw (bind_Ret _ _ _ _ _ H2).
  destruct ok; (eexists; split; [done|]; split; [by eapply same_settings_trans|done]).
Qed.

Lemma sinks_ok env level e aps : ∀ g,
  (∀ ap, ap ∈ aps → ∃ a, appenders g !! ap = Some a ∧
     (accepts level a = true → is_Some (ap_formatter a))) →
  ∃ g', miter (appender_log strftime env level e) aps g = Ret tt g' ∧ same_settings g g' ∧
    ((∀ ap a, ap ∈ aps → appenders g !! ap = Some a → is_stdout a = true) →
      g' = add_stdout (lines_of strftime level e g aps) g).
Proof.
  induction aps as [|ap aps IH]; intros g Hok.
  { exists g. split; [done|]. split; [done|]. intros _. destruct g. unfold add_stdout. cbn.
    by rw app_nil_r. }
  destruct (Hok ap) as (a & Ha & Hf); [by left|].
  destruct (appender_log_ok env level e ap g a Ha Hf) as (g1 & H1 & HR1 & Hout1).
  destruct (IH g1) as (g2 & H2 & HR2 & Hout2).
  { intros ap' Hap. destruct (Hok ap') as (a' & Ha' & Hf'); [by right|].
    destruct (same_settings_lookup _ _ _ _ HR1 Ha') as (a1 & Ha1 & Hs). exists a1.
    split; [done|]. unfold accepts in *. injection Hs as -> _ -> _. done. }
  exists g2. split; [cbn [miter]; by rw (bind_Ret _ _ _ _ _ H1)|].
  split; [by eapply same_settings_trans|]. intros Hstd.
  specialize (Hout1 (Hstd ap a ltac:(by left) Ha)). subst g1.
  rw Hout2; [intros ap' a' Hin; apply (Hstd ap'); by right|].
  unfold lines_of. rw fmap_cons. cbn [concat]. rw Ha. unfold add_stdout. cbn. by rw -app_assoc.
Qed.

Lemma log_sinks env i level e g :
  wf_log g → is_Some (loggers g !! i) →
  log strftime env i level e g = miter (appender_log strftime env level e) (sinks g i level) g.
Proof.
  intros Hwf [l Hl]. unfold log, sinks, logger. cbn [log_fuel]. unfold logger. mrun. rw Hl. mrun.
  destruct (lg_level l <=? level)%Z; [|done].
  destruct (m_appenders l) as [|ap aps]; [|done]. destruct (m_root l) as [r|] eqn:Hr; [|done].
  destruct (wf_root _ Hwf) as (r' & lr & Hr' & Hlr & Hrr & _).
  pose proof (wf_links _ Hwf i l r Hl Hr) as Hr''. rw Hr' in Hr''. injection Hr'' as ->. mrun. rw Hlr. mrun.
  destruct (lg_level lr <=? level)%Z; [|done]. rw Hrr. by destruct (m_appenders lr).
Qed.

Lemma sinks_exist g i level ap :
  wf_log g → ap ∈ sinks g i level → is_Some (appenders g !! ap).
Proof.
  intros Hwf. unfold sinks. destruct (loggers g !! i) as [l|] eqn:Hl; [|by intros ?%elem_of_nil].
  pose proof (wf_sinks _ Hwf i l ap Hl) as H.
  destruct (lg_level l <=? level)%Z; [|by intros ?%elem_of_nil].
  destruct (m_appenders l) as [|ap' aps], (m_root l) as [r|]; auto.
  destruct (loggers g !! r) as [lr|] eqn:Hlr; [|by intros ?%elem_of_nil].
  destruct (lg_level lr <=? level)%Z; [|by intros ?%elem_of_nil]. by apply (wf_sinks _ Hwf r).
Qed.
End delivery.

(** * The manager *)

Lemma manager_started fs f :
  LogFormatter_new default_pattern = Some f →
  LoggerManager_new (no_log fs) = Ret tt (started fs f).
Proof.
  intros Hf. unfold LoggerManager_new.
  erewrite bind_Ret by exact (Logger_new_eq _ f _ Hf). clear Hf. vm_compute. reflexivity.
Qed.

Lemma started_wf fs f : wf_log (started fs f).
Proof.
  constructor; cbn.
  - intros i [a Ha]. apply lookup_singleton_Some in Ha as [<- _]. lia.
  - intros i [l Hl]. apply lookup_singleton_Some in Hl as [<- _]. lia.
  - exists 0. rw !lookup_singleton_eq. by eexists.
  - intros i l r [_ <-]%lookup_singleton_Some. done.
  - intros i l ap [_ <-]%lookup_singleton_Some. cbn. intros ->%list_elem_of_singleton.
    by rw lookup_singleton_eq.
  - intros n i [<- <-]%lookup_singleton_Some. rw lookup_singleton_eq. by eexists.
Qed.

Lemma keeps_run_op A strftime op : keeps (log_inv A) (run_op strftime op).
Proof.
  destruct op; cbn [run_op]; try (apply keeps_bind; [|intros ?; apply keeps_ret]);
    auto with duan.
  - unfold Logger_new. apply keeps_bind; [auto with duan|intros f]. by apply keeps_new_logger.
  - apply keeps_log_fuel.
Qed.

Lemma log_inv_wf (m : M Log unit) g g' :
  keeps (log_inv (λ _, False)) m → wf_log g → m g = Ret tt g' → wf_log g'.
Proof.
  intros Hk Hg Hm. assert (log_inv (λ _, False) g) as Hi by done.
  specialize (Hk g Hi). rw Hm in Hk. apply Hk.
Qed.


Lemma default_formatter_eq : LogFormatter_new default_pattern = Some default_formatter.
Proof. vm_compute. reflexivity. Qed.

Lemma default_formatter_text strftime level e :
  LogFormatter_format strftime default_formatter level e = default_text strftime level e.
Proof. vm_compute. reflexivity. Qed.

(** * Properties *)





(** [getLogger] returns the logger of the name, making it if there is none: at level
    [DEBUG], without appenders, with the default pattern and the manager's root. A second call
    returns the same logger and changes nothing, other names and loggers are not affected. *)
Theorem getLogger_spec name g : wf_log g → ∃ i g' l,
  getLogger name g = Ret i g' ∧ getLogger name g' = Ret i g' ∧
  loggers g' !! i = Some l ∧ lg_name l = name ∧
  (m_loggers g !! name = None → ∃ f, l = MkLogger name DEBUG [] (Some f) (mgr_root g) ∧
     LogFormatter_new default_pattern = Some f ∧ loggers g !! i = None) ∧
  (∀ j, is_Some (loggers g !! j) → loggers g' !! j = loggers g !! j) ∧
  (∀ name', name' ≠ name → m_loggers g' !! name' = m_loggers g !! name').
Proof.
  intros Hwf. destruct (m_loggers g !! name) as [i|] eqn:Hi.
  - destruct (wf_named _ Hwf name i Hi) as (l & Hl & Hname). exists i, g, l.
    pose proof (getLogger_found _ _ _ Hi). by repeat split.
  - destruct (new_formatter_ok default_pattern) as (f & Hf & _).
    assert (loggers g !! next_id g = None) as Hfresh.
    { apply eq_None_not_Some. intros H%(wf_logger_ids _ Hwf). lia. }
    exists (next_id g), (made_logger name f g), (MkLogger name DEBUG [] (Some f) (mgr_root g)).
    split; [by apply getLogger_new|]. split; [apply getLogger_found; apply lookup_insert_eq|].
    split; [apply lookup_insert_eq|]. split; [done|].
    split; [intros _; exists f; split; [reflexivity|split; [exact Hf|exact Hfresh]]|]. clear Hf. split.
    + intros j [lj Hj]. apply lookup_insert_ne. intros <-. by rw Hj in Hfresh.
    + intros name' Hne. by apply lookup_insert_ne.
Qed.


Lemma getLogger_spec_witness :
  let g := started ∅ default_formatter in ∃ i g' l,
  getLogger (L "system") g = Ret i g' ∧ getLogger (L "system") g' = Ret i g' ∧
  loggers g' !! i = Some l ∧ lg_name l = L "system" ∧
  (m_loggers g !! L "system" = None → ∃ f, l = MkLogger (L "system") DEBUG [] (Some f) (mgr_root g) ∧
     LogFormatter_new default_pattern = Some f ∧ loggers g !! i = None) ∧
  (∀ j, is_Some (loggers g !! j) → loggers g' !! j = loggers g !! j) ∧
  (∀ name', name' ≠ L "system" → m_loggers g' !! name' = m_loggers g !! name').
Proof. exact (getLogger_spec (L "system") (started ∅ default_formatter) (started_wf _ _)). Defined.

(** What [setFormatter] leaves in the appenders. *)
Lemma pass_formatter_all f aps : ∀ g,
  (∀ ap, ap ∈ aps → is_Some (appenders g !! ap)) →
  ∃ g', miter (pass_formatter f) aps g = Ret tt g' ∧
    loggers g' = loggers g ∧ m_loggers g' = m_loggers g ∧ stdout g' = stdout g ∧
    ∀ j, appenders g' !! j =
      if decide (j ∈ aps)
      then (λ a, if m_hasFormatter a then a else with_formatter f a) <$> appenders g !! j
      else appenders g !! j.
Proof.
  induction aps as [|ap aps IH]; intros g Haps; [by exists g|].
  destruct (Haps ap) as [a Ha]; [by left|].
  assert (∃ g1, pass_formatter f ap g = Ret tt g1 ∧ loggers g1 = loggers g ∧
    m_loggers g1 = m_loggers g ∧ stdout g1 = stdout g ∧
    appenders g1 = <[ap := if m_hasFormatter a then a else with_formatter f a]> (appenders g))
    as (g1 & H1 & Hl1 & Hm1 & Ho1 & Ha1).
  { unfold pass_formatter. erewrite bind_Ret by (unfold appender; mrun; by rw Ha).
    destruct (m_hasFormatter a) eqn:Hh; cbn [negb mwhen].
    - exists g. by rw insert_id.
    - eexists. split; [by apply modify_appender_eq|]. done. }
  destruct (IH g1) as (g2 & H2 & Hl2 & Hm2 & Ho2 & Ha2).
  { intros ap' Hap. rw Ha1. destruct (decide (ap = ap')) as [->|Hne].
    - by rw lookup_insert_eq.
    - rw lookup_insert_ne; [done|]. apply Haps. by right. }
  exists g2. split; [cbn [miter]; by rw (bind_Ret _ _ _ _ _ H1)|].
  split; [congruence|]. split; [congruence|]. split; [congruence|]. intros j. rw Ha2 Ha1.
  destruct (decide (ap = j)) as [->|Hne].
  - rw lookup_insert_eq Ha. rw (decide_True (P := j ∈ j :: aps)); [by left|]. cbn.
    case_decide; [|done]. by destruct (m_hasFormatter a) eqn:Hh; cbn; rw Hh.
  - rw lookup_insert_ne; [done|]. case_decide as Hin.
    + by rw (decide_True (P := j ∈ ap :: aps)); [by right|].
    + rw (decide_False (P := j ∈ ap :: aps)); [|done]. by intros [->|?]%elem_of_cons.
Qed.

(** [Logger::setFormatter] with a pattern: a pattern in error leaves every logger and
    appender as it was and only prints a message; a good one becomes the logger's formatter,
    and that of those of its appenders that have no formatter of their own. *)
Theorem setFormatter_spec pattern i g l f :
  wf_log g → loggers g !! i = Some l → LogFormatter_new pattern = Some f →
  ∃ g', setFormatter_str i pattern g = Ret tt g' ∧ m_loggers g' = m_loggers g ∧
    if m_error f
    then loggers g' = loggers g ∧ appenders g' = appenders g
    else
      loggers g' = <[i := MkLogger (lg_name l) (lg_level l) (m_appenders l) (Some f) (m_root l)]>
        (loggers g) ∧
      stdout g' = stdout g ∧
      ∀ j, appenders g' !! j =
        if decide (j ∈ m_appenders l)
        then (λ a, if m_hasFormatter a then a else with_formatter (Some f) a) <$> appenders g !! j
        else appenders g !! j.
Proof.
  intros Hwf Hl Hf. unfold setFormatter_str, new_formatter. rw Hf. clear Hf. mrun.
  destruct (m_error f).
  { unfold logger. mrun. rw Hl. by eexists. }
  unfold setFormatter, modify_logger, logger. mrun. rw Hl. mrun. rw lookup_insert_eq. mrun.
  set (g1 := upd_logger i _ g).
  destruct (pass_formatter_all (Some f) (m_appenders l) g1) as (g' & Hg' & Hl' & Hm' & Ho & Ha).
  { intros ap. apply (wf_sinks _ Hwf i l ap Hl). }
  exists g'. split; [exact Hg'|]. by repeat split.
Qed.

Lemma setFormatter_spec_witness :
  let g := started ∅ default_formatter in ∃ f g',
  setFormatter_str 0 (L "%m%n") g = Ret tt g' ∧ m_loggers g' = m_loggers g ∧
    if m_error f
    then loggers g' = loggers g ∧ appenders g' = appenders g
    else
      loggers g' = <[0 := MkLogger (L "root") DEBUG [1] (Some f) None]> (loggers g) ∧
      stdout g' = stdout g ∧
      ∀ j, appenders g' !! j =
        if decide (j ∈ [1])
        then (λ a, if m_hasFormatter a then a else with_formatter (Some f) a) <$> appenders g !! j
        else appenders g !! j.
Proof.
  eexists.
  refine (setFormatter_spec (L "%m%n") 0 (started ∅ default_formatter)
    (MkLogger (L "root") DEBUG [1] (Some default_formatter) None) _ (started_wf _ _) eq_refl _).
  vm_compute. reflexivity.
Defined.

Lemma log_event_eq strftime env i level e g :
  wf_log g → is_Some (loggers g !! i) → sinks g i level = [1] →
  appenders g !! 1 = Some (MkAppender DEBUG false (Some default_formatter) StdoutLogAppender) →
  (DEBUG <= level)%Z →
  log strftime env i level e g = Ret tt (add_stdout (default_text strftime level e) g).
Proof.
  intros Hwf Hi Hs Ha Hlevel. rw (log_sinks _ _ _ _ _ _ Hwf Hi) Hs. cbn [miter].
  destruct (appender_log_ok strftime env level e 1 g _ Ha) as (g' & Hg' & _ & Hout).
  { by intros _; eexists. }
  rw (bind_Ret _ _ _ _ _ Hg') (Hout eq_refl). unfold line_of, accepts. cbn [ap_level ap_formatter].
  destruct (Z.leb_spec DEBUG level); [|lia]. by rw default_formatter_text.
Qed.

Lemma macro_line strftime env i level file line text g l :
  wf_log g → loggers g !! i = Some l → lg_level l = DEBUG → sinks g i level = [1] →
  appenders g !! 1 = Some (MkAppender DEBUG false (Some default_formatter) StdoutLogAppender) →
  (DEBUG <= level)%Z →
  LOG_LEVEL strftime env i level file line text g =
    Ret tt (add_stdout (default_text strftime level
      (MkLogEvent file line 0 (env_thread env) (env_fiber env) (env_time env)
         (env_thread_name env) text (lg_name l) level)) g).
Proof.
  intros Hwf Hl Hlv Hs Ha Hlevel. unfold LOG_LEVEL.
  erewrite bind_Ret by (unfold logger; mrun; by rw Hl). rw Hlv.
  destruct (Z.leb_spec DEBUG level); [|lia]. cbn [mwhen].
  apply log_event_eq; [done|by rw Hl|done|done|done].
Qed.

(** The two families of macros log alike: a formatted message is the message as text, and
    when [vasprintf] fails the event is logged with an empty one. *)
Theorem fmt_macro strftime env i level file line buf :
  ∀ g, LOG_FMT_LEVEL strftime env i level file line buf g =
       LOG_LEVEL strftime env i level file line (default [] buf) g.
Proof. intros g. unfold LOG_FMT_LEVEL, LOG_LEVEL. by destruct buf. Qed.

(** From the construction of the manager: a log statement through the logger of any name,
    at one of the five levels, prints one line of the default format on the standard output,
    with the name of that logger, the level and the thread of the statement. *)
Theorem first_line strftime fs env name level file line text :
  (DEBUG <= level)%Z → ∃ g0 i g1,
  LoggerManager_new (no_log fs) = Ret tt g0 ∧ getLogger name g0 = Ret i g1 ∧
  LOG_LEVEL strftime env i level file line text g1 =
    Ret tt (add_stdout (default_text strftime level
      (MkLogEvent file line 0 (env_thread env) (env_fiber env) (env_time env)
         (env_thread_name env) text name level)) g1).
Proof.
  intros Hlevel. exists (started fs default_formatter).
  pose proof (started_wf fs default_formatter) as Hwf. destruct (decide (name = L "root")) as [->|Hne].
  - eexists _, _. split; [apply manager_started, default_formatter_eq|].
    split; [by apply getLogger_found, lookup_singleton_eq|].
    apply (macro_line _ _ 0 _ _ _ _ _ (MkLogger (L "root") DEBUG [1] (Some default_formatter) None));
      try done.
    unfold sinks, started. cbn [loggers]. rw lookup_singleton_eq. cbn [lg_level].
    by destruct (Z.leb_spec DEBUG level); [|lia].
  - assert (m_loggers (started fs default_formatter) !! name = None) as Hn.
    { apply lookup_singleton_ne. congruence. }
    pose proof (getLogger_new name _ _ Hn default_formatter_eq) as Hg.
    assert (log_inv (λ _, False) (started fs default_formatter)) as Hinv by done.
    pose proof (keeps_getLogger _ name _ Hinv) as Hk. rw Hg in Hk. destruct Hk as [Hwf' _].
    eexists _, _. split; [apply manager_started, default_formatter_eq|]. split; [exact Hg|].
    apply (macro_line _ _ _ _ _ _ _ _ (MkLogger name DEBUG [] (Some default_formatter) (Some 0)));
      try done.
    unfold sinks, made_logger, started. cbn [loggers next_id mgr_root].
    rw lookup_insert_eq. cbn [lg_level m_appenders m_root].
    rw lookup_insert_ne; [done|]. rw lookup_singleton_eq. cbn [lg_level].
    by destruct (Z.leb_spec DEBUG level); [|lia].
Qed.

Lemma first_line_witness :
  let env := MkEnv 5 1 0 (L "main") (λ _, true) (λ _, true) in ∃ g0 i g1,
  LoggerManager_new (no_log ∅) = Ret tt g0 ∧ getLogger (L "system") g0 = Ret i g1 ∧
  LOG_LEVEL (λ _ _, L "noon") env i INFO (L "a.cc") 7 (L "hello") g1 =
    Ret tt (add_stdout (default_text (λ _ _, L "noon") INFO
      (MkLogEvent (L "a.cc") 7 0 1 0 5 (L "main") (L "hello") (L "system") INFO)) g1).
Proof.
  refine (first_line (λ _ _, L "noon") ∅ (MkEnv 5 1 0 (L "main") (λ _, true) (λ _, true))
    (L "system") INFO (L "a.cc") 7 (L "hello") _).
  unfold DEBUG, INFO. lia.
Defined.

Lemma reopen_good env i g a name s t :
  appenders g !! i = Some a → ap_kind a = FileLogAppender name s t → f_good s = true →
  env_opens env name = true →
  reopen env i g = Ret true (upd_appender i
    (with_kind (FileLogAppender name (MkStream true true 0) t) a) (upd_file name [] g)).
Proof.
  intros Ha Hk Hgood Hopen. unfold reopen. erewrite bind_Ret by (unfold appender; mrun; by rw Ha).
  rw Hk Hgood. unfold stream_open, stream_close. rw Hopen.
  destruct (f_open s); cbn [f_open f_good f_pos mwhen]; erewrite bind_Ret by done;
    by erewrite bind_Ret by (by apply modify_appender_eq).
Qed.

Lemma stream_write_good env i text g a name s t :
  appenders g !! i = Some a → ap_kind a = FileLogAppender name s t → f_good s = true →
  env_writes env name = true →
  stream_write env i text g = Ret true (upd_appender i
    (with_kind (FileLogAppender name (MkStream (f_open s) true (f_pos s + length text)) t) a)
    (upd_file name (write_at (f_pos s) text (default [] (files g !! name))) g)).
Proof.
  intros Ha Hk Hgood Hwrite. unfold stream_write.
  erewrite bind_Ret by (unfold appender; mrun; by rw Ha). rw Hk Hgood Hwrite.
  erewrite bind_Ret by done. erewrite bind_Ret by done.
  by erewrite bind_Ret by (by apply modify_appender_eq).
Qed.

Lemma write_at_start text : write_at 0 text [] = text.
Proof. unfold write_at. cbn. by rw drop_nil app_nil_r. Qed.

(** A file appender whose stream is good writes its line after the last one as long as the
    second of the clock has not changed since it was last opened. At the first event of another
    second it opens the file again, which empties it: the lines written before are lost. *)
Theorem file_rollover strftime env level e i g a f name s t :
  appenders g !! i = Some a → ap_kind a = FileLogAppender name s t →
  accepts level a = true → ap_formatter a = Some f → f_good s = true →
  env_opens env name = true → env_writes env name = true →
  ∃ g', appender_log strftime env level e i g = Ret tt g' ∧ stdout g' = stdout g ∧
    files g' = <[name :=
      (if (env_time env =? t)%Z
       then write_at (f_pos s) (LogFormatter_format strftime f level e)
              (default [] (files g !! name))
       else LogFormatter_format strftime f level e)]> (files g).
Proof.
  intros Ha Hk Hacc Hf Hgood Hopen Hwrite. unfold appender_log.
  erewrite bind_Ret by (unfold appender; mrun; by rw Ha). unfold accepts in Hacc. rw Hk. unfold FileLogAppender_log. rw Hacc Hf.
  cbn [mwhen format_with]. set (text := LogFormatter_format strftime f level e).
  destruct (Z.eqb_spec (env_time env) t) as [Ht|Ht]; cbn [negb mwhen].
  - erewrite bind_Ret by done. erewrite bind_Ret by done.
    erewrite bind_Ret by (by eapply stream_write_good). by eexists.
  - set (a1 := with_kind (FileLogAppender name (MkStream true true 0) t) a).
    set (g1 := upd_appender i a1 (upd_file name [] g)).
    set (a2 := with_kind (FileLogAppender name (MkStream true true 0) (env_time env)) a1).
    assert (set_lastTime i (env_time env) g1 = Ret tt (upd_appender i a2 g1)) as Hs.
    { unfold set_lastTime. rw (modify_appender_eq _ _ g1 a1); [apply lookup_insert_eq|done]. }
    pose proof (reopen_good env i g a name s t Ha Hk Hgood Hopen) as Hr.
    assert ((reopen env i ;; set_lastTime i (env_time env)) g = Ret tt (upd_appender i a2 g1)) as H1.
    { by rw (bind_Ret _ _ _ _ _ Hr). }
    rw (bind_Ret _ _ _ _ _ H1). erewrite bind_Ret by done.
    assert (appenders (upd_appender i a2 g1) !! i = Some a2) as Ha2 by apply lookup_insert_eq.
    pose proof (stream_write_good env i text _ a2 name _ _ Ha2 eq_refl eq_refl Hwrite) as Hw.
    rw (bind_Ret _ _ _ _ _ Hw). eexists. split; [done|]. split; [done|].
    cbn [files upd_appender upd_file f_pos g1].
    rw lookup_insert_eq. cbn [default from_option id]. by rw write_at_start insert_insert_eq.
Qed.

(** A file written in second 5 and then in second 6. *)
Lemma file_rollover_witness :
  let a := MkAppender DEBUG false (Some (MkLogFormatter (L "%m") [MessageFormatItem] false))
    (FileLogAppender (L "log.txt") (MkStream true true 5) 5) in
  let g := MkLog {[0 := a]} ∅ 1 ∅ None {[L "log.txt" := L "first"]} [] in
  let e := MkLogEvent (L "a.cc") 7 0 1 0 6 (L "main") (L "second") (L "root") INFO in
  ∃ g', appender_log (λ _ _, []) (MkEnv 6 1 0 (L "main") (λ _, true) (λ _, true)) INFO e 0 g =
      Ret tt g' ∧ stdout g' = [] ∧ files g' = <[L "log.txt" := L "second"]> (files g).
Proof.
  intros a g e.
  destruct (file_rollover (λ _ _, []) (MkEnv 6 1 0 (L "main") (λ _, true) (λ _, true)) INFO e 0 g
    a (MkLogFormatter (L "%m") [MessageFormatItem] false) (L "log.txt") (MkStream true true 5) 5
    eq_refl eq_refl eq_refl eq_refl eq_refl eq_refl eq_refl) as (g' & H1 & H2 & H3).
  exists g'. split; [exact H1|]. split; [exact H2|exact H3].
Defined.
