(* ===== verification/Singleton.v ===== *)
(** The singletons of duan_src/singleton.h, and the one of them that the program uses:
    [LoggerMgr], through which every file finds its logger before [main] starts.

    [static T v;] in a function is constructed by the first call that reaches it.  The
    state is the object with how far that has come; a constructor that throws leaves it
    for the next call, and one that calls the function again is undefined behaviour. *)

From S2P Require Import Prelude.
From S2P Require Import LogFormat.
From S2P Require Import Logger.

(** * [Singleton] and [SingletonPtr] *)

Inductive static_stage := NotYet | Constructing | Constructed.
Record Static (S : Type) := MkStatic { stage : static_stage; object : S }.
Arguments MkStatic {S}.
Arguments stage {S}.
Arguments object {S}.

Section singleton.
Context {S : Type}.
Definition set_object (x : S) (v : Static S) : Static S := MkStatic (stage v) x.
Definition set_stage (g : static_stage) (v : Static S) : Static S := MkStatic g (object v).

(** An operation of the object. *)
Definition on_object {A} (m : M S A) : M (Static S) A := mzoom object set_object m.

(** [GetInstance]; [construct] is the constructor of [T], which may itself use the
    singleton.  The address it returns is that of the one object. *)
Definition GetInstance (construct : M (Static S) unit) : M (Static S) unit := λ v,
  match stage v with
  | Constructed => Ret tt v
  | Constructing => Crash (Undefined "recursive initialisation of a static object")
  | NotYet =>
      match construct (set_stage Constructing v) with
      | Ret _ v' => Ret tt (set_stage Constructed v')
      | Throw e v' => Throw e (set_stage NotYet v')
      | Crash f => Crash f
      end
  end.

(** ** The constructor runs once *)

Lemma GetInstance_again construct v :
  stage v = Constructed → GetInstance construct v = Ret tt v.
Proof. intros H. unfold GetInstance. by rw H. Qed.
Lemma GetInstance_first construct x y :
  construct x = Ret tt y →
  GetInstance (on_object construct) (MkStatic NotYet x) = Ret tt (MkStatic Constructed y).
Proof. intros H. unfold GetInstance, on_object, mzoom. cbn. by rw H. Qed.
Lemma on_object_eq {A} (m : M S A) g x a y :
  m x = Ret a y → on_object m (MkStatic g x) = Ret a (MkStatic g y).
Proof. intros H. unfold on_object, mzoom. cbn. by rw H. Qed.
End singleton.

(** * [LoggerMgr] *)

Definition LoggerMgr : M (Static Log) unit := GetInstance (on_object LoggerManager_new).

(** [DUAN_LOG_ROOT()], [DUAN_LOG_NAME(name)] *)
Definition LOG_ROOT : M (Static Log) (option nat) := LoggerMgr ;; on_object getRoot.
Definition LOG_NAME (name : str) : M (Static Log) nat := LoggerMgr ;; on_object (getLogger name).

(** The static loggers of the files of the program, in the order in which they are
    initialised. *)
Fixpoint static_loggers (names : list str) : M (Static Log) (list nat) :=
  match names with
  | [] => mret []
  | name :: names => i ← LOG_NAME name; l ← static_loggers names; mret (i :: l)
  end.

(** ** What the loggers are *)

(** The manager exists, and finds [i] under [name]. *)
Definition ready (v : Static Log) : Prop :=
  stage v = Constructed ∧ mgr_root (object v) = Some 0 ∧ wf_log (object v).
Definition knows (v : Static Log) (name : str) (i : nat) : Prop := m_loggers (object v) !! name = Some i.

Lemma LOG_NAME_ready name v : ready v → ∃ i v',
  LOG_NAME name v = Ret i v' ∧ ready v' ∧ knows v' name i ∧
  (∀ n j, knows v n j → knows v' n j) ∧ (∀ n j, knows v' n j → n = name ∨ knows v n j).
Proof.
  destruct v as [g x]. intros (Hg & Hr & Hwf). cbn in Hg. subst g. unfold LOG_NAME.
  assert (∀ (m : M (Static Log) nat) w, LoggerMgr w = Ret tt w → (LoggerMgr ;; m) w = m w) as Hm
    by (intros m w H; by rw (bind_Ret _ _ _ _ _ H)).
  rw Hm; [by apply GetInstance_again|]. destruct (m_loggers x !! name) as [i|] eqn:Hi.
  - exists i, (MkStatic Constructed x). split; [by apply on_object_eq, getLogger_found|].
    split; [done|]. split; [done|]. split; [done|]. intros n j Hn. by right.
  - destruct (new_formatter_ok default_pattern) as (f & Hf & _).
    pose proof (getLogger_new name x f Hi Hf) as Hget.
    assert (log_inv (λ _, False) x) as Hinv by (split; [exact Hwf|intros i []]).
    pose proof (keeps_getLogger _ name _ Hinv) as Hk. rw Hget in Hk. destruct Hk as [Hwf' _].
    exists (next_id x), (MkStatic Constructed (made_logger name f x)).
    split; [exact (on_object_eq _ _ _ _ _ Hget)|]. split; [by split; [|split]|]. unfold knows, made_logger. cbn.
    split; [apply lookup_insert_eq|]. split.
    + intros n j Hn. rw lookup_insert_ne; [|done]. congruence.
    + intros n j. destruct (decide (n = name)) as [->|]; [by left|]. rw lookup_insert_ne; [done|]. by right.
Qed.

Lemma static_loggers_ready names : ∀ v, ready v → ∃ l v',
  static_loggers names v = Ret l v' ∧ ready v' ∧ Forall2 (knows v') names l ∧
  ∀ n j, knows v n j → knows v' n j.
Proof.
  induction names as [|name names IH]; intros v Hv.
  { exists [], v. split; [done|]. split; [done|]. by split; [constructor|]. }
  destruct (LOG_NAME_ready name v Hv) as (i & v1 & Hi & Hv1 & Hn & Hkeep & _).
  destruct (IH v1 Hv1) as (l & v2 & Hl & Hv2 & Hall & Hkeep2). exists (i :: l), v2. split.
  { cbn [static_loggers]. rw (bind_Ret _ _ _ _ _ Hi). by rw (bind_Ret _ _ _ _ _ Hl). }
  split; [done|]. split; [constructor; [by apply Hkeep2|done]|]. intros n j Hj. by apply Hkeep2, Hkeep.
Qed.

(** The first use. *)
Lemma LOG_NAME_first fs name :
  LOG_NAME name (MkStatic NotYet (no_log fs)) =
  LOG_NAME name (MkStatic Constructed (started fs default_formatter)).
Proof.
  pose proof (GetInstance_first _ _ _ (manager_started fs default_formatter default_formatter_eq)) as H.
  unfold LOG_NAME, LoggerMgr. rw (bind_Ret _ _ _ _ _ H).
  by rw (bind_Ret _ _ _ _ _ (GetInstance_again _ (MkStatic Constructed (started fs default_formatter)) eq_refl)).
Qed.
Lemma started_ready fs : ready (MkStatic Constructed (started fs default_formatter)).
Proof. split; [done|]. split; [done|]. apply started_wf. Qed.

(** * Properties *)

(** C21. The loggers that the files of the program ask for before [main], in whatever order
    their static objects are initialised: the first request constructs the manager, none
    fails, two requests give the same logger exactly if they name the same one, and the name
    ["root"] gives the root logger of the manager. *)
Theorem static_loggers_agree fs first rest : ∃ l v,
  static_loggers (first :: rest) (MkStatic NotYet (no_log fs)) = Ret l v ∧
  stage v = Constructed ∧ wf_log (object v) ∧ length l = S (length rest) ∧
  (∀ a b n m i j, (first :: rest) !! a = Some n → (first :: rest) !! b = Some m →
     l !! a = Some i → l !! b = Some j → (n = m ↔ i = j)) ∧
  (∀ a i, (first :: rest) !! a = Some (L "root") → l !! a = Some i → mgr_root (object v) = Some i).
Proof.
  destruct (static_loggers_ready (first :: rest) _ (started_ready fs)) as (l & v & Hl & Hv & Hall & _).
  exists l, v. destruct Hv as (Hstage & Hroot & Hwf). split.
  { revert Hl. cbn [static_loggers]. unfold mbind at 1 3, M_bind. by rw LOG_NAME_first. }
  split; [done|]. split; [done|]. split; [by rw -(Forall2_length _ _ _ Hall)|]. split.
  - intros a b n m i j Ha Hb Hi Hj.
    pose proof (Forall2_lookup_lr _ _ _ _ _ _ Hall Ha Hi) as Hn.
    pose proof (Forall2_lookup_lr _ _ _ _ _ _ Hall Hb Hj) as Hm. unfold knows in Hn, Hm.
    split; [intros ->; congruence|]. intros ->.
    destruct (wf_named _ Hwf _ _ Hn) as (l1 & H1 & <-), (wf_named _ Hwf _ _ Hm) as (l2 & H2 & <-). congruence.
  - intros a i Ha Hi. pose proof (Forall2_lookup_lr _ _ _ _ _ _ Hall Ha Hi) as Hn. unfold knows in Hn.
    destruct (wf_root _ Hwf) as (r & lr & Hr & _ & _ & Hnamed). congruence.
Qed.
