(* ===== verification/Config.v ===== *)
(** The configuration system of duan_src/config.{h,cc}: the conversions between
    values and YAML text, configuration variables with their listeners, the
    registry, and loading a YAML document into it.

    A [T] of [ConfigVar<T>] is a code [t : ty] with the type [val t] of its
    values; [dynamic_pointer_cast] compares codes.  Variables are shared and never
    removed: a pointer is an index into the heap of variables.  Listeners act on
    the rest of the program, [W]; one that locks the variable that calls it would
    block on the lock it is called under, and is not modelled.  The locks make
    each operation atomic and do not appear. *)

From S2P Require Import Prelude StdSet Yaml.

(** * Conversions *)

(** [LexicalCast<std::string, T>] and [LexicalCast<T, std::string>]; [None] is an
    exception. *)
Class LexicalCast (T : Type) := {
  from_str : str → option T;
  to_str : T → option str
}.

Section casts.
Context `{Yaml} {T : Type} `{!LexicalCast T}.

(** The loop over [node[i]] of the sequence conversions. *)
Definition load_elements (v : str) : option (list T) :=
  n ← load v;
  mapM (λ i, e ← at_index n i; from_str (emit e)) (seq 0 (size n)).

(** The loop that pushes the elements of a container. *)
Definition emit_elements (v : list T) : option str :=
  nodes ← mapM (λ x, s ← to_str x; load s) v;
  Some (emit (sequence nodes)).

Definition vector_from_str (v : str) : option (list T) := load_elements v.
Definition vector_to_str (v : list T) : option str := emit_elements v.
Definition list_from_str (v : str) : option (list T) := load_elements v.
Definition list_to_str (v : list T) : option str := emit_elements v.

(** [std::set<T>] with [operator<]; [std::unordered_set<T>], which is iterated in
    some order of its own. *)
Definition set_from_str (lt : T → T → bool) (v : str) : option (list T) :=
  set_of lt <$> load_elements v.
Definition set_to_str (v : list T) : option str := emit_elements v.
Definition unordered_set_from_str `{Countable T} (v : str) : option (gset T) :=
  foldl (λ s x, s ∪ {[x]}) ∅ <$> load_elements v.
Definition unordered_set_to_str `{Countable T} (order : gset T → list T) (v : gset T)
    : option str := emit_elements (order v).

(** [insert(make_pair(k, x))] keeps an element that is there. *)
Definition map_insert (m : gmap str T) (kx : str * T) : gmap str T :=
  match m !! kx.1 with Some _ => m | None => <[kx.1 := kx.2]> m end.

(** The loop over the members of a map; the elements of a sequence have no key. *)
Definition load_members (v : str) : option (list (str * T)) :=
  n ← load v;
  if is_map n then mapM (λ kc, x ← from_str (emit kc.2); Some (kc.1, x)) (members n)
  else if size n =? 0 then Some [] else None.
Definition emit_members (l : list (str * T)) : option str :=
  nodes ← mapM (λ kx, s ← to_str kx.2; n ← load s; Some (kx.1, n)) l;
  Some (emit (mapping nodes)).

(** [std::map<std::string, T>], in the order of its keys, and
    [std::unordered_map<std::string, T>], in some order. *)
Definition key_before (a b : str * T) : Prop := str_lt a.1 b.1 = true.
#[local] Instance key_before_dec : RelDecision key_before.
Proof. intros a b. unfold key_before. apply _. Defined.
Definition in_key_order (m : gmap str T) : list (str * T) :=
  merge_sort key_before (map_to_list m).
Definition map_from_str (v : str) : option (gmap str T) :=
  foldl map_insert ∅ <$> load_members v.
Definition map_to_str (m : gmap str T) : option str := emit_members (in_key_order m).
Definition unordered_map_from_str (v : str) : option (gmap str T) :=
  foldl map_insert ∅ <$> load_members v.
Definition unordered_map_to_str (order : gmap str T → list (str * T)) (m : gmap str T)
    : option str := emit_members (order m).
End casts.

(** A value survives being written, read as a YAML document, and converted from
    the text of that document: how a container treats its elements. *)
Class CastLaws `{Yaml} (T : Type) `{!LexicalCast T} : Prop :=
  cast_document x : ∃ s n, to_str x = Some s ∧ load s = Some n ∧ from_str (emit n) = Some x.

#[export] Instance vector_cast `{Yaml} {T} `{!LexicalCast T} : LexicalCast (list T) := {|
  from_str := vector_from_str; to_str := vector_to_str
|}.

(** * Names *)

(** [::tolower] *)
Definition tolower (c : ascii) : ascii :=
  let n := nat_of_ascii c in
  if (65 <=? n) && (n <=? 90) then ascii_of_nat (n + 32) else c.

(** [name.find_first_not_of(chars) == npos] *)
Definition only_of (chars : str) (name : str) : bool :=
  forallb (λ c, bool_decide (c ∈ chars)) name.
(** The characters of [Config::Lookup] and of [ListAllMember]. *)
Definition lookup_chars : str := L "abcdefghigklmnopqrstuvwxyz._012345678".
Definition member_chars : str := L "abcdefghijklmnopqrstuvwxyz._012345678".

(** * Variables *)

(** The root logger, as this component uses it: a statement returns as long as the
    logs are in order, and leaves them in order. *)
Class RootLog (W : Type) := {
  log_ok : W → Prop;
  log_info : str → M W unit;
  log_error : str → M W unit;
  log_info_ok s w : log_ok w → ∃ w', log_info s w = Ret tt w' ∧ log_ok w';
  log_error_ok s w : log_ok w → ∃ w', log_error s w = Ret tt w' ∧ log_ok w'
}.

(** The program the configuration is used in: the types of its variables with
    what the code needs of them, the rest of its state with the root logger, and
    its listeners. *)
Class ConfigApp := {
  ty : Type;
  ty_eq :: EqDecision ty;
  val : ty → Type;
  val_eq :: ∀ t, EqDecision (val t);
  val_cast :: ∀ t, LexicalCast (val t);
  type_name : ty → str;
  W : Type;
  root_log :: RootLog W;
  on_change_cb : ty → Type;
  run_cb : ∀ t, on_change_cb t → val t → val t → M W unit
}.

Section config.
Context `{Y : Yaml} `{App : ConfigApp}.

(** [ConfigVarBase] and [ConfigVar<T>] *)
Record ConfigVar := MkVar {
  v_type : ty;
  v_name : str;
  v_description : str;
  v_val : val v_type;
  v_cbs : list (Z * on_change_cb v_type)
}.

(** All variables, [s_datas], the [s_fun_id] of each [ConfigVar<T>]. *)
Record Config := MkConfig {
  vars : list ConfigVar;
  s_datas : gmap str nat;
  s_fun_id : ty → Z;
  world : W
}.

Definition in_world {A} (m : M W A) : M Config A :=
  mzoom world (λ w c, MkConfig (vars c) (s_datas c) (s_fun_id c) w) m.

Definition upd_var (i : nat) (v : ConfigVar) (c : Config) : Config :=
  MkConfig (<[i := v]> (vars c)) (s_datas c) (s_fun_id c) (world c).

Definition var_at (i : nat) : M Config ConfigVar :=
  o ← mgets (λ c, vars c !! i);
  match o with Some v => mret v | None => mcrash (Undefined "null variable") end.

(** ** Typed access: the members of a [ConfigVar<T>] behind a typed pointer *)

(** [std::dynamic_pointer_cast<ConfigVar<T>>] *)
Definition has_type (t : ty) (v : ConfigVar) : bool := bool_decide (v_type v = t).

Definition val_as (t : ty) (v : ConfigVar) : option (val t) :=
  match decide (v_type v = t) with
  | left e => Some (eq_rect _ val (v_val v) _ e)
  | right _ => None
  end.
Definition cbs_as (t : ty) (v : ConfigVar) : option (list (Z * on_change_cb t)) :=
  match decide (v_type v = t) with
  | left e => Some (eq_rect _ (λ t, list (Z * on_change_cb t)) (v_cbs v) _ e)
  | right _ => None
  end.

(** A [ConfigVar<T>::ptr] points to a [ConfigVar<T>]. *)
Definition typed (t : ty) {A} (o : option A) : M Config A :=
  match o with Some a => mret a | None => mcrash (Undefined "not a ConfigVar<T>") end.

(** [ConfigVar<T>::getValue] *)
Definition getValue (t : ty) (i : nat) : M Config (val t) :=
  v ← var_at i; typed t (val_as t v).

(** [ConfigVar<T>::setValue] *)
Definition setValue (t : ty) (i : nat) (x : val t) : M Config unit :=
  v ← var_at i;
  old ← typed t (val_as t v);
  cbs ← typed t (cbs_as t v);
  if decide (x = old) then mret tt
  else
    miter (λ kc, in_world (run_cb t kc.2 old x)) cbs ;;
    mmodify (upd_var i (MkVar t (v_name v) (v_description v) x cbs)).

(** [std::map<uint64_t, on_change_cb>]: [m_cbs[key] = cb], [erase], [find] *)
Fixpoint cbs_assign {A} (key : Z) (cb : A) (l : list (Z * A)) : list (Z * A) :=
  match l with
  | [] => [(key, cb)]
  | (k, c) :: l' =>
      if (key <? k)%Z then (key, cb) :: l
      else if (key =? k)%Z then (key, cb) :: l'
      else (k, c) :: cbs_assign key cb l'
  end.
Definition cbs_erase {A} (key : Z) (l : list (Z * A)) : list (Z * A) :=
  filter (λ kc, kc.1 ≠ key) l.
Fixpoint cbs_find {A} (key : Z) (l : list (Z * A)) : option A :=
  match l with
  | [] => None
  | (k, c) :: l => if (key =? k)%Z then Some c else cbs_find key l
  end.

Definition set_cbs (t : ty) (i : nat) (f : list (Z * on_change_cb t) → list (Z * on_change_cb t))
    : M Config unit :=
  v ← var_at i;
  x ← typed t (val_as t v);
  cbs ← typed t (cbs_as t v);
  mmodify (upd_var i (MkVar t (v_name v) (v_description v) x (f cbs))).

(** [ConfigVar<T>::addListener]; the counter is one per type. *)
Definition addListener (t : ty) (i : nat) (cb : on_change_cb t) : M Config Z :=
  mmodify (λ c, MkConfig (vars c) (s_datas c)
    (λ t', if decide (t' = t) then u64 (s_fun_id c t + 1) else s_fun_id c t') (world c)) ;;
  key ← mgets (λ c, s_fun_id c t);
  set_cbs t i (cbs_assign key cb) ;;
  mret key.
(** [delListener], [clearListener], [getListener] *)
Definition delListener (t : ty) (i : nat) (key : Z) : M Config unit := set_cbs t i (cbs_erase key).
Definition clearListener (t : ty) (i : nat) : M Config unit := set_cbs t i (λ _, []).
Definition getListener (t : ty) (i : nat) (key : Z) : M Config (option (on_change_cb t)) :=
  v ← var_at i; cbs ← typed t (cbs_as t v); mret (cbs_find key cbs).

(** [ConfigVar<T>::fromString] and [toString], behind the virtual functions of the
    base class. *)
Definition conversion_failed : exn := Exn "conversion".
Definition what (e : exn) : str := let 'Exn s := e in L s.
Definition fromString (i : nat) (s : str) : M Config bool :=
  v ← var_at i;
  mcatch
    match from_str s with
    | Some x => setValue (v_type v) i x
    | None => mthrow conversion_failed
    end
    (λ e, in_world (log_error (L "ConfigVar::toString exception" ++ what e ++
            L "convert: string to " ++ type_name (v_type v) ++ L " - " ++ s))) ;;
  mret false.
Definition toString (i : nat) : M Config str :=
  v ← var_at i;
  match to_str (v_val v) with
  | Some s => mret s
  | None =>
      in_world (log_error (L "ConfigVar::toString exception" ++ what conversion_failed ++
        L "convert: " ++ type_name (v_type v) ++ L "to string")) ;;
      mret []
  end.
(** * The registry *)

(** [Config::Lookup(name)] *)
Definition Lookup (t : ty) (name : str) : M Config (option nat) :=
  o ← mgets (λ c, s_datas c !! name);
  match o with
  | None => mret None
  | Some i => v ← var_at i; mret (if has_type t v then Some i else None)
  end.

(** The constructor of [ConfigVar] *)
Definition ConfigVar_new (t : ty) (name : str) (default_value : val t) (description : str)
    : M Config nat := λ c,
  Ret (length (vars c))
    (MkConfig (vars c ++ [MkVar t (tolower <$> name) description default_value []])
       (s_datas c) (s_fun_id c) (world c)).

(** [Config::Lookup(name, default_value, description)] *)
Definition Lookup_or_create (t : ty) (name : str) (default_value : val t) (description : str)
    : M Config (option nat) :=
  o ← mgets (λ c, s_datas c !! name);
  match o with
  | Some i =>
      v ← var_at i;
      if has_type t v then
        in_world (log_info (L "Lookup name=" ++ name ++ L "exists")) ;; mret (Some i)
      else
        text ← toString i;
        in_world (log_error (L "Lookup name=" ++ name ++ L "exists but type not " ++
          type_name t ++ L " real_type=" ++ type_name (v_type v) ++ L " " ++ text)) ;;
        mret None
  | None =>
      if only_of lookup_chars name then
        i ← ConfigVar_new t name default_value description;
        mmodify (λ c, MkConfig (vars c) (<[name := i]> (s_datas c)) (s_fun_id c) (world c)) ;;
        mret (Some i)
      else
        in_world (log_error (L "Lookup name invalid " ++ name)) ;;
        mthrow (Exn "invalid_argument")
  end.

(** [Config::LookupBase] *)
Definition LookupBase (name : str) : M Config (option nat) := mgets (λ c, s_datas c !! name).

(** [Config::Visit]; an [unordered_map] is visited in some order. *)
Definition Visit (order : gmap str nat → list (str * nat)) (cb : nat → M Config unit)
    : M Config unit :=
  m ← mgets s_datas; miter (λ ki, cb ki.2) (order m).

(** * Loading a document *)

(** [prefix + "." + key] *)
Definition dotted (prefix key : str) : str :=
  if decide (prefix = []) then key else prefix ++ L "." ++ key.

(** The loop over the members of a map. *)
Fixpoint list_members (list_all : str → node → M W (list (str * node))) (prefix : str)
    (l : list (str * node)) : M W (list (str * node)) :=
  match l with
  | [] => mret []
  | (k, c) :: l =>
      out ← list_all (dotted prefix k) c;
      rest ← list_members list_all prefix l;
      mret (out ++ rest)
  end.

(** [ListAllMember]: what it appends to [output]; the fuel bounds the nesting. *)
Fixpoint ListAllMember (fuel : nat) (prefix : str) (n : node) : M W (list (str * node)) :=
  match fuel with
  | 0 => mcrash (Undefined "the document contains itself")
  | S fuel =>
      if negb (only_of member_chars prefix) then
        log_error (L "Config invalid name: " ++ prefix ++ L " : " ++ emit n) ;; mret []
      else if is_map n then
        out ← list_members (ListAllMember fuel) prefix (members n);
        mret ((prefix, n) :: out)
      else mret [(prefix, n)]
  end.

(** One element of the loop of [LoadFromYaml]. *)
Definition load_entry (kn : str * node) : M Config unit :=
  if decide (kn.1 = []) then mret tt
  else
    var ← LookupBase (tolower <$> kn.1);
    match var with
    | None => mret tt
    | Some i =>
        text ← (if is_scalar kn.2 then
                  match as_string kn.2 with
                  | Some s => mret s
                  | None => mcrash (Undefined "scalar without text")
                  end
                else mret (emit kn.2));
        fromString i text ;; mret tt
    end.

(** [Config::LoadFromYaml] *)
Definition LoadFromYaml `{!YamlDepth} (root : node) : M Config unit :=
  all_nodes ← in_world (ListAllMember (S (depth root)) [] root);
  miter load_entry all_nodes.
End config.

(** * Specification *)

Section config_spec.
Context `{Y : Yaml} `{App : ConfigApp}.

(** Every registered name has its variable, which carries that name, and is made of
    the characters [Lookup] allows. *)
Definition config_wf (c : Config) : Prop :=
  ∀ name i, s_datas c !! name = Some i →
    only_of lookup_chars name = true ∧
    ∃ v, vars c !! i = Some v ∧ v_name v = name.

(** [v] with another value. *)
Definition with_val (v : ConfigVar) (x : val (v_type v))
    : ConfigVar :=
  MkVar (v_type v) (v_name v) (v_description v) x
    (v_cbs v).

(** The node below [n] that a dotted path leads to, all prefixes being valid. *)
Inductive member_at : str → node → str → node → Prop :=
  | member_here p n : only_of member_chars p = true → member_at p n p n
  | member_below p n k c q m :
      only_of member_chars p = true → is_map n = true → (k, c) ∈ members n →
      member_at (dotted p k) c q m → member_at p n q m.

(** The text a listed node is converted from. *)
Definition text_of (n : node) : option str :=
  if is_scalar n then as_string n else Some (emit n).

(** What one text does to a value. *)
Definition load_text (t : ty) (x : val t) (text : option str) : val t :=
  default x (text ≫= from_str).

(** The texts in the list of a document that are meant for a variable. *)
Definition texts_for (datas : gmap str nat) (i : nat) (all : list (str * node))
    : list (option str) :=
  (λ kn, text_of kn.2) <$>
    filter (λ kn, kn.1 ≠ [] ∧ datas !! (tolower <$> kn.1) = Some i) all.
Definition with_world (w : W) (c : Config) : Config :=
  MkConfig (vars c) (s_datas c) (s_fun_id c) w.

(** The listeners of a variable, in the order of their keys. *)
Definition notify (v : ConfigVar) (x : val (v_type v)) : M W unit :=
  miter (λ kc, run_cb (v_type v) kc.2 (v_val v) x) (v_cbs v).

Definition listeners_ok : Prop := ∀ t cb old x w, log_ok w →
  ∃ w', run_cb t cb old x w = Ret tt w' ∧ log_ok w'.

Definition with_vars (l : list ConfigVar) (c : Config) : Config :=
  MkConfig l (s_datas c) (s_fun_id c) (world c).

(** Knowledge that survives every operation: a variable keeps its place and its
    name. *)
Definition cfg_inv (K : nat → str → Prop) (c : Config) : Prop :=
  config_wf c ∧ ∀ i name, K i name → ∃ v, vars c !! i = Some v ∧ v_name v = name.

(** The registry after a new variable. *)
Definition registered (t : ty) (name : str) (x : val t) (desc : str) (c : Config) : Config :=
  MkConfig (vars c ++ [MkVar t name desc x []]) (<[name := length (vars c)]> (s_datas c))
    (s_fun_id c) (world c).

End config_spec.

(** * An application *)

(** Booleans, a log of messages, and a listener that leaves a message: what the
    witnesses run in. *)
Module Sample.
Definition bool_of (s : str) : option bool :=
  if decide (s = L "1") then Some true else if decide (s = L "0") then Some false else None.

#[local] Instance bool_cast : LexicalCast bool := {|
  from_str s := match bool_of s with Some b => Some b | None => n ← load s; t ← as_string n; bool_of t end;
  to_str b := Some (emit (scalar (if b then L "1" else L "0")))
|}.

#[local] Program Instance messages : RootLog (list str) := {|
  log_ok _ := True;
  log_info s := mmodify (cons s);
  log_error s := mmodify (cons s)
|}.
Next Obligation. intros s w _. by eexists. Qed.
Next Obligation. intros s w _. by eexists. Qed.

Definition app : ConfigApp := {|
  ty := unit;
  val _ := bool;
  type_name _ := L "b";
  W := list str;
  on_change_cb _ := str;
  run_cb _ cb _ _ := mmodify (cons cb)
|}.

Definition empty : Config (App := app) := MkConfig (App := app) [] ∅ (λ _, 0%Z) [].
End Sample.

(** One registered variable with a listener. *)
Definition sample_var : @ConfigVar Sample.app :=
  @MkVar Sample.app tt (L "a.b") [] false [(1%Z, L "changed")].
Definition sample_config : @Config Sample.app :=
  @MkConfig Sample.app [sample_var] {[L "a.b" := 0]} (λ _, 1%Z) [].

(** The document of the example in config.cc: [A: {B: 1}]. *)
Definition sample_document : document := DMap [(L "A", DMap [(L "B", DScalar (L "1"))])].
(** The same with names that are loaded. *)
Definition lower_document : document := DMap [(L "a", DMap [(L "b", DScalar (L "1"))])].

(** * Round trips of the conversions *)

Section roundtrip.
Context `{Y : Yaml} `{!YamlLaws} {T : Type} `{!LexicalCast T} `{!CastLaws T}.

Lemma mapM_index {A} (f : node → option A) (l : list node) : ∀ k pre,
  length pre = k →
  mapM (λ i, e ← (pre ++ l) !! i; f e) (seq k (length l)) = mapM f l.
Proof.
  induction l as [|x l IH]; intros k pre Hk; [done|]. cbn.
  rw lookup_app_r; [lia|]. replace (k - length pre) with 0 by lia. cbn.
  destruct (f x); [|done]. cbn.
  pose proof (IH (S k) (pre ++ [x])) as Hi. rw -app_assoc in Hi. cbn in Hi.
  by rw Hi; [rw length_app; cbn; lia|].
Qed.

Lemma elements_nodes (v : list T) : ∃ nodes,
  mapM (λ x, s ← to_str x; load s) v = Some nodes ∧
  mapM (λ e, from_str (emit e)) nodes = Some v.
Proof.
  induction v as [|x v (nodes & Hn & Hv)]; [by exists []|].
  destruct (cast_document x) as (s & n & Hs & Hl & Hx). exists (n :: nodes). cbn.
  rw Hs. cbn. rw Hl. cbn. rw Hn. cbn. rw Hx. cbn. by rw Hv.
Qed.

Lemma elements_roundtrip (v : list T) : ∃ s n,
  emit_elements v = Some s ∧ load s = Some n ∧ emit n = s ∧ load_elements s = Some v.
Proof.
  destruct (elements_nodes v) as (nodes & Hn & Hv). unfold emit_elements. rw Hn. cbn.
  eexists _, (sequence nodes). split; [done|]. split; [apply load_emit|]. split; [done|].
  unfold load_elements. rw load_emit. cbn. rw size_sequence.
  transitivity (mapM (λ i, e ← nodes !! i; from_str (emit e)) (seq 0 (length nodes))).
  { apply mapM_ext. intros i. by rw at_sequence. }
  by rw (mapM_index _ nodes 0 []).
Qed.

Lemma members_nodes (l : list (str * T)) : ∃ nodes,
  mapM (λ kx, s ← to_str kx.2; n ← load s; Some (kx.1, n)) l = Some nodes ∧
  nodes.*1 = l.*1 ∧
  mapM (λ kc, x ← from_str (emit kc.2); Some (kc.1, x)) nodes = Some l.
Proof.
  induction l as [|[k x] l (nodes & Hn & Hk & Hv)]; [by exists []|].
  destruct (cast_document x) as (s & n & Hs & Hl & Hx). exists ((k, n) :: nodes). cbn.
  rw Hs. cbn. rw Hl. cbn. rw Hn. cbn. rw Hx. cbn. rw Hv. split; [done|]. by rw Hk.
Qed.

Lemma members_roundtrip (l : list (str * T)) : NoDup l.*1 → ∃ s,
  emit_members l = Some s ∧ load_members s = Some l.
Proof.
  intros Hnd. destruct (members_nodes l) as (nodes & Hn & Hk & Hv). unfold emit_members. rw Hn.
  cbn. eexists. split; [done|]. unfold load_members. rw load_emit. cbn. rw -Hk in Hnd.
  rw (members_mapping nodes Hnd) Hv.
  destruct nodes as [|n nodes].
  - change (mapping []) with (sequence []). rw size_sequence. cbn in Hv. injection Hv as <-.
    by destruct (is_map (sequence [])).
  - by rw is_map_mapping.
Qed.

Lemma foldl_map_insert (l : list (str * T)) m :
  NoDup l.*1 → (∀ k, k ∈ l.*1 → m !! k = None) →
  foldl map_insert m l = list_to_map l ∪ m.
Proof.
  revert m. induction l as [|[k x] l IH]; intros m Hnd Hm; [by rw left_id_L|].
  rw fmap_cons in Hnd. apply NoDup_cons in Hnd as [Hk Hnd]. cbn [foldl]. rw IH.
  - done.
  - intros k' Hk'. unfold map_insert. cbn. rw (Hm k ltac:(by left)).
    rw lookup_insert_ne; [by intros ->|]. apply Hm. by right.
  - unfold map_insert. cbn. rw (Hm k ltac:(by left)).
    rw -insert_union_l. rw -insert_union_r; [by apply not_elem_of_list_to_map_1|done].
Qed.

Lemma map_elements_roundtrip (order : gmap str T → list (str * T)) (m : gmap str T) :
  order m ≡ₚ map_to_list m → ∃ s,
  emit_members (order m) = Some s ∧ foldl map_insert ∅ <$> load_members s = Some m.
Proof.
  intros Hp. assert (NoDup (order m).*1) as Hnd by (rw Hp; apply NoDup_fst_map_to_list).
  destruct (members_roundtrip (order m) Hnd) as (s & Hs & Hl). exists s. split; [done|].
  rw Hl. cbn. f_equal. rw foldl_map_insert; [done|intros; apply lookup_empty|].
  rw right_id_L. rw (list_to_map_proper _ (map_to_list m)); [done|done|]. apply list_to_map_to_list.
Qed.

Lemma unordered_set_roundtrip `{!EqDecision T} `{!Countable T} (order : gset T → list T) (v : gset T) :
  order v ≡ₚ elements v → ∃ s,
  unordered_set_to_str order v = Some s ∧ unordered_set_from_str s = Some v.
Proof.
  intros Hp. destruct (elements_roundtrip (order v)) as (s & n & Hs & _ & _ & Hl). exists s.
  split; [done|]. unfold unordered_set_from_str. rw Hl. cbn. f_equal.
  assert (∀ l (a : gset T), foldl (λ s x, s ∪ {[x]}) a l = a ∪ list_to_set l) as Hfold.
  { induction l as [|x l IH]; intros a; cbn; [by rw right_id_L|]. by rw IH assoc_L. }
  rw Hfold left_id_L. rw (list_to_set_perm_L _ _ Hp). apply list_to_set_elements_L.
Qed.
End roundtrip.

(** ** Characters of names *)

Lemma only_of_app chars a b : only_of chars (a ++ b) = only_of chars a && only_of chars b.
Proof. apply forallb_app. Qed.

Section facts.
Context `{Y : Yaml} `{App : ConfigApp}.

Lemma val_as_self (v : ConfigVar) : val_as (v_type v) v = Some (v_val v).
Proof. unfold val_as. destruct (decide _) as [e|]; [|done]. by rw (proof_irrel e eq_refl). Qed.
Lemma cbs_as_self (v : ConfigVar) : cbs_as (v_type v) v = Some (v_cbs v).
Proof. unfold cbs_as. destruct (decide _) as [e|]; [|done]. by rw (proof_irrel e eq_refl). Qed.

Lemma in_world_eq {A} (m : M W A) c :
  in_world m c =
    match m (world c) with
    | Ret a w => Ret a (with_world w c)
    | Throw e w => Throw e (with_world w c)
    | Crash f => Crash f
    end.
Proof. done. Qed.

Lemma miter_in_world {A} (f : A → M W unit) l : ∀ c,
  miter (λ x, in_world (f x)) l c = in_world (miter f l) c.
Proof.
  induction l as [|x l IH]; intros c; [by destruct c|]. cbn [miter].
  rw in_world_eq. unfold mbind, M_bind. rw in_world_eq.
  destruct (f x (world c)) as [[] w|e w|f']; [|done|done]. rw IH in_world_eq. cbn.
  by destruct (miter f l w).
Qed.

Lemma setValue_eq c i v x :
  vars c !! i = Some v →
  setValue (v_type v) i x c =
    if decide (x = v_val v) then Ret tt c
    else match notify v x (world c) with
         | Ret _ w => Ret tt (upd_var i (with_val v x) (with_world w c))
         | Throw e w => Throw e (with_world w c)
         | Crash f => Crash f
         end.
Proof.
  intros Hv. unfold setValue, var_at. mrun. rw Hv val_as_self cbs_as_self. mrun.
  case_decide; [done|]. rw miter_in_world in_world_eq. unfold notify.
  by destruct (miter _ (v_cbs v) (world c)).
Qed.

Lemma miter_returns {A} (f : A → M W unit) l :
  (∀ x w, log_ok w → ∃ w', f x w = Ret tt w' ∧ log_ok w') →
  ∀ w, log_ok w → ∃ w', miter f l w = Ret tt w' ∧ log_ok w'.
Proof.
  intros Hf. induction l as [|x l IH]; intros w Hw; [by exists w|].
  destruct (Hf x w Hw) as (w1 & H1 & Hw1). destruct (IH w1 Hw1) as (w2 & H2 & Hw2).
  exists w2. cbn [miter]. by rw (bind_Ret _ _ _ _ _ H1).
Qed.

(** ** The list of a document *)

Lemma list_members_ok (f : str → node → M W (list (str * node))) prefix l :
  (∀ k c w, (k, c) ∈ l → log_ok w → ∃ out w', f (dotted prefix k) c w = Ret out w' ∧ log_ok w' ∧
     ∀ q m, (q, m) ∈ out ↔ member_at (dotted prefix k) c q m) →
  ∀ w, log_ok w → ∃ out w', list_members f prefix l w = Ret out w' ∧ log_ok w' ∧
    ∀ q m, (q, m) ∈ out ↔ ∃ k c, (k, c) ∈ l ∧ member_at (dotted prefix k) c q m.
Proof.
  intros Hf. induction l as [|[k c] l IH]; intros w Hw.
  { exists [], w. split; [done|]. split; [done|]. intros q m. split; [by intros ?%elem_of_nil|].
    by intros (k & c & ?%elem_of_nil & _). }
  destruct (Hf k c w) as (out & w1 & H1 & Hw1 & Hout); [by left|done|].
  destruct (IH (λ k c w Hin, Hf k c w (list_elem_of_further _ _ _ Hin)) w1 Hw1)
    as (rest & w2 & H2 & Hw2 & Hrest).
  exists (out ++ rest), w2. cbn [list_members]. rw (bind_Ret _ _ _ _ _ H1) (bind_Ret _ _ _ _ _ H2).
  split; [done|]. split; [done|]. intros q m. rw elem_of_app Hout Hrest. split.
  - intros [Hm|(k' & c' & Hin & Hm)]; [exists k, c|exists k', c']; (split; [|done]); [by left|by right].
  - intros (k' & c' & [[= -> ->]|Hin]%elem_of_cons & Hm); [by left|right]. by exists k', c'.
Qed.

Lemma ListAllMember_ok `{!YamlDepth} fuel : ∀ prefix n w,
  depth n < fuel → log_ok w →
  ∃ out w', ListAllMember fuel prefix n w = Ret out w' ∧ log_ok w' ∧
    ∀ q m, (q, m) ∈ out ↔ member_at prefix n q m.
Proof.
  induction fuel as [|fuel IH]; intros prefix n w Hd Hw; [lia|]. cbn [ListAllMember].
  destruct (only_of member_chars prefix) eqn:Hvalid; cbn [negb].
  2: { destruct (log_error_ok (L "Config invalid name: " ++ prefix ++ L " : " ++ emit n) w Hw)
         as (w' & Hlog & Hw').
       exists [], w'. rw (bind_Ret _ _ _ _ _ Hlog). split; [done|]. split; [done|].
       intros q m. split; [by intros ?%elem_of_nil|].
       by destruct 1 as [p n' Hp|p n' k c q' m' Hp]; rw Hp in Hvalid. }
  destruct (is_map n) eqn:Hmap.
  - destruct (list_members_ok (ListAllMember fuel) prefix (members n)) with (w := w)
      as (out & w' & Hout & Hw' & Hmem); [|done|].
    { intros k c w0 Hin Hw0. apply IH; [|done]. pose proof (depth_members n k c Hin). lia. }
    eexists _, w'. rw (bind_Ret _ _ _ _ _ Hout). split; [done|]. split; [done|].
    intros q m. rw elem_of_cons Hmem. split.
    + intros [[= -> ->]|(k & c & Hin & Hm)]; [by apply member_here|]. by eapply member_below.
    + intros Hm. inversion Hm; subst; [by left|right]. by eexists _, _.
  - exists [(prefix, n)], w. split; [done|]. split; [done|]. intros q m.
    rw list_elem_of_singleton. split; [intros [= -> ->]; by apply member_here|].
    intros Hm. inversion Hm; subst; [done|]. congruence.
Qed.

(** ** Converting and loading *)

Lemma with_val_self v : with_val v (v_val v) = v.
Proof. by destruct v. Qed.

Lemma fromString_ok c i v s :
  listeners_ok → vars c !! i = Some v → log_ok (world c) →
  ∃ w', fromString i s c = Ret false (with_world w' (with_vars
      (<[i := with_val v (load_text (v_type v) (v_val v) (Some s))]> (vars c)) c)) ∧ log_ok w'.
Proof.
  intros Hcbs Hv Hw. unfold fromString, load_text. cbn [mbind option_bind].
  erewrite bind_Ret by (unfold var_at; mrun; by rw Hv).
  destruct (from_str s) as [x|]; cbn [from_option default id].
  - unfold mcatch. destruct (decide (x = v_val v)) as [->|Hx].
    + exists (world c). split; [|done].
      erewrite bind_Ret; [|rw (setValue_eq _ _ _ _ Hv); by rw decide_True].
      rw with_val_self list_insert_id; [done|]. by destruct c.
    + assert (∃ w', notify v x (world c) = Ret tt w' ∧ log_ok w') as (w' & Hn & Hw').
      { apply miter_returns; [|done]. intros kc w. apply Hcbs. }
      exists w'. split; [|done].
      erewrite bind_Ret; [|rw (setValue_eq _ _ _ _ Hv); rw decide_False; [done|]; by rw Hn]. done.
  - destruct (log_error_ok (L "ConfigVar::toString exception" ++ what conversion_failed ++
      L "convert: string to " ++ type_name (v_type v) ++ L " - " ++ s) (world c) Hw) as (w' & Hl & Hw').
    exists w'. split; [|done]. rw with_val_self list_insert_id; [done|].
    erewrite bind_Ret; [|unfold mcatch, mthrow; rw in_world_eq Hl; done]. by destruct c.
Qed.

Lemma texts_for_cons datas i kn all :
  texts_for datas i (kn :: all) = texts_for datas i [kn] ++ texts_for datas i all.
Proof. unfold texts_for. by rw -fmap_app -filter_app. Qed.

Lemma load_entry_ok `{!YamlLaws} c kn :
  listeners_ok → config_wf c → log_ok (world c) →
  ∃ c', load_entry kn c = Ret tt c' ∧ s_datas c' = s_datas c ∧ config_wf c' ∧ log_ok (world c') ∧
    ∀ i v, vars c !! i = Some v → vars c' !! i =
      Some (with_val v (foldl (load_text (v_type v)) (v_val v) (texts_for (s_datas c) i [kn]))).
Proof.
  intros Hcbs Hwf Hw. destruct kn as [q n]. unfold load_entry, texts_for. cbn [fst snd].
  assert (∀ i v, vars c !! i = Some v → ¬ (q ≠ [] ∧ s_datas c !! (tolower <$> q) = Some i) →
    vars c !! i = Some (with_val v (foldl (load_text (v_type v)) (v_val v)
      ((λ kn, text_of kn.2) <$> filter (λ kn, kn.1 ≠ [] ∧ s_datas c !! (tolower <$> kn.1) = Some i)
        [(q, n)])))) as Hother.
  { intros i v Hv Hn. rw filter_cons_False; [done|]. cbn. by rw with_val_self. }
  case_decide as Hq.
  { exists c. do 4 (split; [done|]). intros i v Hv. apply Hother; [done|]. by intros [? _]. }
  unfold LookupBase. erewrite bind_Ret by done.
  match goal with |- context [match ?o with Some _ => _ | None => _ end] =>
    destruct o as [i|] eqn:Hi end.
  2: { exists c. do 4 (split; [done|]). intros i v Hv. apply Hother; [done|].
       intros [_ Hsome]. by rw Hi in Hsome. }
  destruct (Hwf _ _ Hi) as (Hchars & v & Hv & Hname).
  assert (∃ s, text_of n = Some s ∧ (if is_scalar n then
                  match as_string n with
                  | Some s => mret s
                  | None => mcrash (Undefined "scalar without text")
                  end
                else mret (emit n)) c = Ret s c) as (s & Hs & Htext).
  { unfold text_of. destruct (is_scalar n) eqn:Hsc; [|by eexists].
    destruct (as_string_scalar n Hsc) as [s Hs]. rw Hs. by eexists. }
  destruct (fromString_ok c i v s Hcbs Hv Hw) as (w' & Hf & Hw').
  eexists. split.
  { erewrite bind_Ret by exact Htext. by erewrite bind_Ret by exact Hf. }
  split; [done|]. split; [|split; [done|]].
  - intros name j Hj. destruct (Hwf name j Hj) as (Hc & vj & Hvj & Hnj). split; [done|]. cbn.
    destruct (decide (i = j)) as [->|Hne].
    + rw list_lookup_insert_eq; [by eapply lookup_lt_Some|]. eexists. split; [done|]. cbn.
      rw Hv in Hvj. by injection Hvj as ->.
    + rw list_lookup_insert_ne; [done|]. by eexists.
  - intros j vj Hj. cbn [vars with_world with_vars]. destruct (decide (i = j)) as [->|Hne].
    + rw list_lookup_insert_eq; [by eapply lookup_lt_Some|]. rw Hv in Hj. injection Hj as <-.
      rw filter_cons_True; [done|]. cbn. by rw Hs.
    + rw list_lookup_insert_ne; [done|]. apply Hother; [done|]. intros [_ Hsome]. apply Hne.
      rw Hi in Hsome. by injection Hsome.
Qed.

Lemma load_entries_ok `{!YamlLaws} all : ∀ c,
  listeners_ok → config_wf c → log_ok (world c) →
  ∃ c', miter load_entry all c = Ret tt c' ∧ s_datas c' = s_datas c ∧
    ∀ i v, vars c !! i = Some v → vars c' !! i =
      Some (with_val v (foldl (load_text (v_type v)) (v_val v) (texts_for (s_datas c) i all))).
Proof.
  induction all as [|kn all IH]; intros c Hcbs Hwf Hw.
  { exists c. split; [done|]. split; [done|]. intros i v Hv. cbn. by rw with_val_self. }
  destruct (load_entry_ok c kn Hcbs Hwf Hw) as (c1 & H1 & Hd1 & Hwf1 & Hw1 & Hv1).
  destruct (IH c1 Hcbs Hwf1 Hw1) as (c2 & H2 & Hd2 & Hv2).
  exists c2. cbn [miter]. rw (bind_Ret _ _ _ _ _ H1). split; [done|]. split; [congruence|].
  intros i v Hv. rw (Hv2 i _ (Hv1 i v Hv)) Hd1. rw (texts_for_cons _ _ kn all) foldl_app. done.
Qed.

(** ** The registry *)

Lemma keeps_in_world {A} K (m : M W A) : keeps (cfg_inv K) (in_world m).
Proof. intros c Hc. rw in_world_eq. by destruct (m (world c)). Qed.

Lemma keeps_var_at {A} K i (k : ConfigVar → M Config A) :
  (∀ v, keeps (cfg_inv (λ j name, K j name ∨ j = i ∧ name = v_name v)) (k v)) →
  keeps (cfg_inv K) (var_at i ≫= k).
Proof.
  intros Hk c [Hwf HK]. unfold var_at. mrun. destruct (vars c !! i) as [v|] eqn:Hv; [|done]. mrun.
  assert (cfg_inv (λ j name, K j name ∨ j = i ∧ name = v_name v) c) as Hc.
  { split; [done|]. intros j name [Hj|[-> ->]]; [by apply HK|by exists v]. }
  specialize (Hk v c Hc). destruct (k v c) as [x c'|x c'|f]; [| |done];
    (destruct Hk as [Hwf' HK']; split; [done|]; intros j name Hj; apply HK'; by left).
Qed.

Lemma keeps_typed {A} K t (o : option A) : keeps (cfg_inv K) (typed t o).
Proof. destruct o; [apply keeps_ret|apply keeps_crash]. Qed.

Lemma keeps_upd_var K i v : K i (v_name v) → keeps (cfg_inv K) (mmodify (upd_var i v)).
Proof.
  intros Hi c [Hwf HK]. cbn. destruct (HK i _ Hi) as (v0 & Hv0 & Hn0).
  assert (∀ j name, (∃ w, vars c !! j = Some w ∧ v_name w = name) →
    ∃ w, <[i:=v]> (vars c) !! j = Some w ∧ v_name w = name) as Hkeep.
  { intros j name (w & Hw & Hn). destruct (decide (i = j)) as [->|Hne].
    - exists v. split; [apply list_lookup_insert_eq; by eapply lookup_lt_Some|]. congruence.
    - exists w. by rw list_lookup_insert_ne. }
  split.
  - intros name j Hj. destruct (Hwf name j Hj) as [Hc Hv]. by split; [|apply Hkeep].
  - intros j name Hj. by apply Hkeep, HK.
Qed.

Lemma keeps_cfg_ro {A} K (f : Config → A) : keeps (cfg_inv K) (mgets f).
Proof. apply keeps_gets. Qed.

Lemma keeps_setValue K t i x : keeps (cfg_inv K) (setValue t i x).
Proof.
  apply keeps_var_at. intros v. apply keeps_bind; [apply keeps_typed|intros old].
  apply keeps_bind; [apply keeps_typed|intros cbs]. case_decide; [apply keeps_ret|].
  apply keeps_bind; [apply keeps_iter; intros; apply keeps_in_world|intros []].
  apply keeps_upd_var. by right.
Qed.

Lemma keeps_set_cbs K t i f : keeps (cfg_inv K) (set_cbs t i f).
Proof.
  apply keeps_var_at. intros v. apply keeps_bind; [apply keeps_typed|intros old].
  apply keeps_bind; [apply keeps_typed|intros cbs]. apply keeps_upd_var. by right.
Qed.

Lemma keeps_addListener K t i cb : keeps (cfg_inv K) (addListener t i cb).
Proof.
  apply keeps_bind; [by apply keeps_modify|intros []].
  apply keeps_bind; [apply keeps_gets|intros key].
  apply keeps_bind; [apply keeps_set_cbs|intros []; apply keeps_ret].
Qed.

Lemma keeps_catch {S A} (I : S → Prop) (m : M S A) h :
  keeps I m → (∀ e, keeps I (h e)) → keeps I (mcatch m h).
Proof.
  intros Hm Hh s Hs. specialize (Hm s Hs). unfold mcatch.
  destruct (m s) as [a s'|e s'|f]; [done|by apply Hh|done].
Qed.

Lemma keeps_fromString K i s : keeps (cfg_inv K) (fromString i s).
Proof.
  apply keeps_var_at. intros v. apply keeps_bind; [|intros []; apply keeps_ret].
  apply keeps_catch; [|intros e; apply keeps_in_world].
  destruct (from_str s); [apply keeps_setValue|apply keeps_throw].
Qed.

Lemma keeps_toString K i : keeps (cfg_inv K) (toString i).
Proof.
  apply keeps_var_at. intros v. destruct (to_str (v_val v)); [apply keeps_ret|].
  apply keeps_bind; [apply keeps_in_world|intros []; apply keeps_ret].
Qed.

Lemma tolower_valid name : only_of lookup_chars name = true → tolower <$> name = name.
Proof.
  unfold only_of. induction name as [|c name IH]; [done|]. cbn. intros [Hc Hn]%andb_prop.
  rw (IH Hn). f_equal. apply bool_decide_eq_true in Hc.
  assert (Forall (λ c, tolower c = c) lookup_chars) as Hall by (by repeat constructor).
  by apply (proj1 (Forall_forall _ _) Hall).
Qed.

Lemma registered_inv K t name x desc c :
  only_of lookup_chars name = true → cfg_inv K c → cfg_inv K (registered t name x desc c).
Proof.
  intros Hn [Hwf HK].
  assert (∀ j nm, (∃ w, vars c !! j = Some w ∧ v_name w = nm) →
    ∃ w, vars (registered t name x desc c) !! j = Some w ∧ v_name w = nm) as Hkeep.
  { intros j nm (w & Hw & Hnm). exists w. split; [|done]. cbn. by apply lookup_app_l_Some. }
  split.
  - intros nm j. cbn. destruct (decide (name = nm)) as [<-|Hne].
    + rw lookup_insert_eq. intros [= <-]. split; [done|]. eexists.
      split; [apply list_lookup_middle; done|done].
    + rw lookup_insert_ne; [done|]. intros Hj. destruct (Hwf nm j Hj) as [Hc Hv].
      split; [done|]. by apply Hkeep.
  - intros j nm Hj. by apply Hkeep, HK.
Qed.

Lemma Lookup_new t name x desc c :
  s_datas c !! name = None → only_of lookup_chars name = true →
  Lookup_or_create t name x desc c = Ret (Some (length (vars c))) (registered t name x desc c).
Proof.
  intros Hn Hc. unfold Lookup_or_create. mrun. rw Hn Hc. cbn.
  unfold mbind, M_bind. cbn. unfold registered. by rw (tolower_valid name Hc).
Qed.

Lemma keeps_Lookup_or_create K t name x desc :
  keeps (cfg_inv K) (Lookup_or_create t name x desc).
Proof.
  intros c Hc. destruct (s_datas c !! name) as [i|] eqn:Hi.
  - unfold Lookup_or_create. mrun. rw Hi.
    refine (keeps_var_at K i _ _ c Hc). intros v. destruct (has_type t v).
    + apply keeps_bind; [apply keeps_in_world|intros []; apply keeps_ret].
    + apply keeps_bind; [apply keeps_toString|intros text].
      apply keeps_bind; [apply keeps_in_world|intros []; apply keeps_ret].
  - destruct (only_of lookup_chars name) eqn:Hn.
    + rw (Lookup_new t name x desc c Hi Hn). by apply registered_inv.
    + unfold Lookup_or_create. mrun. rw Hi Hn.
      refine (keeps_bind _ _ _ (keeps_in_world K _) _ c Hc). intros []. apply keeps_throw.
Qed.

Lemma keeps_load_entry K kn : keeps (cfg_inv K) (load_entry kn).
Proof.
  unfold load_entry. case_decide; [apply keeps_ret|].
  apply keeps_bind; [apply keeps_gets|intros [i|]; [|apply keeps_ret]].
  apply keeps_bind; [|intros text; apply keeps_bind; [apply keeps_fromString|intros; apply keeps_ret]].
  destruct (is_scalar kn.2); [|apply keeps_ret].
  destruct (as_string kn.2); [apply keeps_ret|apply keeps_crash].
Qed.

Lemma member_valid p n q m : member_at p n q m → only_of member_chars q = true.
Proof. by induction 1. Qed.
End facts.

(** * Properties *)

(** C15. Every container of values that survive conversion survives it too: writing a vector, a
    list, a set, an unordered set, a map or an unordered map as YAML text and reading the text
    gives the container back, whatever order the unordered ones are iterated in. A vector is
    again a value that survives, so containers nest. *)
Theorem containers_roundtrip `{Y : Yaml} `{!YamlLaws} {T : Type} `{!LexicalCast T}
    `{!EqDecision T} `{!Countable T} (lt : T → T → bool) (v : list T) (u : gset T) (m : gmap str T)
    (set_order : gset T → list T) (map_order : gmap str T → list (str * T)) :
  CastLaws T → set_order u ≡ₚ elements u → map_order m ≡ₚ map_to_list m →
  (∃ s, vector_to_str v = Some s ∧ vector_from_str s = Some v) ∧
  (∃ s, list_to_str v = Some s ∧ list_from_str s = Some v) ∧
  (set_sorted lt v → ∃ s, set_to_str v = Some s ∧ set_from_str lt s = Some v) ∧
  (∃ s, unordered_set_to_str set_order u = Some s ∧ unordered_set_from_str s = Some u) ∧
  (∃ s, map_to_str m = Some s ∧ map_from_str s = Some m) ∧
  (∃ s, unordered_map_to_str map_order m = Some s ∧ unordered_map_from_str s = Some m) ∧
  CastLaws (list T).
Proof.
  intros Hlaws Hset Hmap. destruct (elements_roundtrip v) as (s & n & Hs & Hn & He & Hl).
  split; [by exists s|]. split; [by exists s|]. split.
  { intros Hsorted. exists s. split; [done|]. unfold set_from_str. rw Hl. cbn.
    by rw set_of_sorted. }
  split; [by apply unordered_set_roundtrip|]. split.
  { apply (map_elements_roundtrip in_key_order). apply merge_sort_Permutation. }
  split; [by apply map_elements_roundtrip|].
  intros w. destruct (elements_roundtrip w) as (s' & n' & Hs' & Hn' & He' & Hl').
  exists s', n'. split; [done|]. split; [done|]. by rw He'.
Qed.

Lemma bool_cast_laws : @CastLaws document_yaml bool Sample.bool_cast.
Proof. by intros []; (eexists _, _; split; [reflexivity|]; split; vm_compute). Qed.

Lemma containers_roundtrip_witness :
  let v := [false; true] in let m := {[L "a" := true]} : gmap str bool in
  (∃ s, @vector_to_str document_yaml bool Sample.bool_cast v = Some s ∧
     @vector_from_str document_yaml bool Sample.bool_cast s = Some v) ∧
  (∃ s, @map_to_str document_yaml bool Sample.bool_cast m = Some s ∧
     @map_from_str document_yaml bool Sample.bool_cast s = Some m).
Proof.
  intros v m.
  destruct (@containers_roundtrip document_yaml document_yaml_laws bool Sample.bool_cast _ _
    (λ a b, negb a && b) v ∅ m elements map_to_list bool_cast_laws (Permutation_refl _)
    (Permutation_refl _)) as (Hv & _ & _ & _ & Hm & _).
  split; [exact Hv|exact Hm].
Defined.

Section properties.
Context `{Y : Yaml} `{App : ConfigApp}.

(** The name is registered. *)
Lemma Lookup_existing t name (x : val t) desc (c : Config) i v :
  log_ok (world c) → s_datas c !! name = Some i → vars c !! i = Some v → ∃ c',
  vars c' = vars c ∧ s_datas c' = s_datas c ∧
  Lookup_or_create t name x desc c = Ret (if has_type t v then Some i else None) c'.
Proof.
  intros Hw Hi Hv. unfold Lookup_or_create.
  erewrite bind_Ret by (unfold mgets; by rw Hi). cbv beta iota.
  erewrite bind_Ret by (unfold var_at; mrun; by rw Hv). cbv beta iota.
  destruct (has_type t v).
  - destruct (log_info_ok (L "Lookup name=" ++ name ++ L "exists") _ Hw) as (w' & Hl & _).
    exists (with_world w' c). do 2 (split; [done|]).
    erewrite bind_Ret by (rw in_world_eq; by rw Hl). done.
  - assert (∃ text c1, toString i c = Ret text c1 ∧ vars c1 = vars c ∧ s_datas c1 = s_datas c ∧
      log_ok (world c1)) as (text & c1 & Ht & Hv1 & Hd1 & Hw1).
    { unfold toString. erewrite bind_Ret by (unfold var_at; mrun; by rw Hv).
      cbv beta. destruct (to_str (v_val v)) as [s|]; [by eexists _, _|].
      match goal with |- context [log_error ?m] =>
        destruct (log_error_ok m _ Hw) as (w1 & Hl & Hw1) end.
      exists [], (with_world w1 c). split; [|done].
      erewrite bind_Ret by (rw in_world_eq; by rw Hl). done. }
    erewrite bind_Ret by exact Ht. cbv beta.
    match goal with |- context [log_error ?m] =>
      destruct (log_error_ok m _ Hw1) as (w2 & Hl & Hw2) end.
    exists (with_world w2 c1). do 2 (split; [done|]).
    erewrite bind_Ret by (rw in_world_eq; by rw Hl). done.
Qed.

(** C25. [setValue] with the value the variable has does nothing. With another value it calls
    the listeners in the order of their keys with the old and the new value and then stores the
    new one, and [getValue] returns it; if a listener throws, the exception is passed on and the
    value is not stored. No other variable changes. *)
Theorem setValue_spec (c : Config) i v (x : val (v_type v)) : vars c !! i = Some v →
  (x = v_val v → setValue (v_type v) i x c = Ret tt c) ∧
  (x ≠ v_val v → ∀ w', notify v x (world c) = Ret tt w' → ∃ c',
     setValue (v_type v) i x c = Ret tt c' ∧ getValue (v_type v) i c' = Ret x c' ∧
     world c' = w' ∧ s_datas c' = s_datas c ∧ ∀ j, j ≠ i → vars c' !! j = vars c !! j) ∧
  (x ≠ v_val v → ∀ e w', notify v x (world c) = Throw e w' → ∃ c',
     setValue (v_type v) i x c = Throw e c' ∧ getValue (v_type v) i c' = Ret (v_val v) c' ∧
     vars c' = vars c).
Proof.
  intros Hv. rw (setValue_eq c i v x Hv). split; [intros; by rw decide_True|]. split.
  - intros Hx w' Hn. rw (decide_False _ _ Hx) Hn. eexists. split; [done|]. split.
    + unfold getValue, var_at. mrun. rw list_lookup_insert_eq; [by eapply lookup_lt_Some|].
      change (v_type v) with (v_type (with_val v x)). by rw val_as_self.
    + split; [done|]. split; [done|]. intros j Hj. cbn. by rw list_lookup_insert_ne.
  - intros Hx e w' Hn. rw (decide_False _ _ Hx) Hn. eexists. split; [done|]. split; [|done].
    unfold getValue, var_at. mrun. by rw Hv val_as_self.
Qed.

(** Every name the registry holds is made of the characters [Lookup] allows and has its
    variable: this holds of the empty registry and every operation preserves it, together with
    the place and the name of every variable there is ([K]). *)
Theorem registry_invariant `{!YamlDepth} (K : nat → str → Prop) :
  (∀ w, config_wf (MkConfig [] ∅ (λ _, 0%Z) w)) ∧
  (∀ t name x desc, keeps (cfg_inv K) (Lookup_or_create t name x desc)) ∧
  (∀ t i x, keeps (cfg_inv K) (setValue t i x)) ∧
  (∀ t i cb, keeps (cfg_inv K) (addListener t i cb)) ∧
  (∀ t i key, keeps (cfg_inv K) (delListener t i key)) ∧
  (∀ t i, keeps (cfg_inv K) (clearListener t i)) ∧
  (∀ i s, keeps (cfg_inv K) (fromString i s)) ∧
  (∀ i, keeps (cfg_inv K) (toString i)) ∧
  (∀ root, keeps (cfg_inv K) (LoadFromYaml root)).
Proof.
  split; [by intros w name i|]. split; [apply keeps_Lookup_or_create|].
  split; [apply keeps_setValue|]. split; [apply keeps_addListener|].
  split; [intros; apply keeps_set_cbs|]. split; [intros; apply keeps_set_cbs|].
  split; [apply keeps_fromString|]. split; [apply keeps_toString|].
  intros root. apply keeps_bind; [apply keeps_in_world|intros all].
  apply keeps_iter, keeps_load_entry.
Qed.

(** [Lookup] with a default value: under a name that is registered it returns the variable
    if it has the type asked for and null otherwise, and creates nothing; under a new valid name
    it creates the variable with the default value and registers it, so that both forms of
    [Lookup] and [LookupBase] find it; an invalid name is refused with an exception. *)
Theorem Lookup_spec t name (x : val t) desc (c : Config) :
  config_wf c → log_ok (world c) →
  match s_datas c !! name with
  | Some i => ∃ v c', vars c !! i = Some v ∧ vars c' = vars c ∧ s_datas c' = s_datas c ∧
      Lookup_or_create t name x desc c = Ret (if has_type t v then Some i else None) c'
  | None =>
      if only_of lookup_chars name then ∃ i c',
        Lookup_or_create t name x desc c = Ret (Some i) c' ∧ config_wf c' ∧
        vars c !! i = None ∧ getValue t i c' = Ret x c' ∧
        Lookup t name c' = Ret (Some i) c' ∧ LookupBase name c' = Ret (Some i) c' ∧
        (∀ t', t' ≠ t → Lookup t' name c' = Ret None c') ∧
        (∀ j, is_Some (vars c !! j) → vars c' !! j = vars c !! j)
      else ∃ c', Lookup_or_create t name x desc c = Throw (Exn "invalid_argument") c' ∧
        vars c' = vars c ∧ s_datas c' = s_datas c
  end.
Proof.
  intros Hwf Hw. destruct (s_datas c !! name) as [i|] eqn:Hi.
  - destruct (Hwf name i Hi) as (_ & v & Hv & _). exists v.
    destruct (Lookup_existing t name x desc c i v Hw Hi Hv) as (c' & H). by exists c'.
  - destruct (only_of lookup_chars name) eqn:Hn.
    + rw (Lookup_new t name x desc c Hi Hn). exists (length (vars c)), (registered t name x desc c).
      set (v := MkVar t name desc x []).
      assert (vars (registered t name x desc c) !! length (vars c) = Some v) as Hv
        by by apply list_lookup_middle.
      assert (s_datas (registered t name x desc c) !! name = Some (length (vars c))) as Hd
        by apply lookup_insert_eq.
      split; [done|]. split.
      { assert (cfg_inv (λ _ _, False) c) as Hc by done.
        by destruct (registered_inv _ t name x desc c Hn Hc). }
      split; [by apply lookup_ge_None_2|].
      split. { unfold getValue. erewrite bind_Ret by (unfold var_at; mrun; by rw Hv).
               cbv beta. by rw (val_as_self v : val_as t v = Some x). }
      assert (∀ t', Lookup t' name (registered t name x desc c) =
        Ret (if bool_decide (t = t') then Some (length (vars c)) else None)
          (registered t name x desc c)) as Hlook.
      { intros t'. unfold Lookup. erewrite bind_Ret by (unfold mgets; by rw Hd). cbv beta iota.
        by erewrite bind_Ret by (unfold var_at; mrun; by rw Hv). }
      split; [by rw Hlook bool_decide_eq_true_2|]. split; [unfold LookupBase, mgets; by rw Hd|].
      split; [intros t' Ht'; by rw Hlook bool_decide_eq_false_2|].
      intros j [w Hj]. rw Hj. by apply lookup_app_l_Some.
    + unfold Lookup_or_create. erewrite bind_Ret by (unfold mgets; by rw Hi). cbv beta iota. rw Hn.
      destruct (log_error_ok (L "Lookup name invalid " ++ name) _ Hw) as (w' & Hl & _).
      exists (with_world w' c). split; [|done].
      erewrite bind_Ret by (rw in_world_eq; by rw Hl). done.
Qed.


(** A key of the document with a character outside the lower-case letters, the dot, the
    underscore and the digits 0 to 8 hides everything below it: a document all of whose
    top-level keys are such changes no variable. The conversion to lower case that follows
    comes too late, ["A.B"] is never loaded. *)
Theorem invalid_keys_ignored `{!YamlLaws} `{!YamlDepth} root (c : Config) :
  listeners_ok → config_wf c → log_ok (world c) →
  (∀ k n, (k, n) ∈ members root → only_of member_chars k = false) → ∃ c',
  LoadFromYaml root c = Ret tt c' ∧ vars c' = vars c.
Proof.
  intros Hcbs Hwf Hw Hkeys.
  destruct (ListAllMember_ok (S (depth root)) [] root (world c)) as (all & w & Hall & Hw' & Hmem);
    [lia|done|].
  assert (∀ kn, kn ∈ all → kn.1 = []) as Hempty.
  { intros [q m] Hin. apply Hmem in Hin. inversion Hin as [|p n k n' q' m' Hp Hm Hk Hat]; [done|].
    subst. exfalso. pose proof (Hkeys k n' Hk) as Hbad. change (dotted [] k) with k in Hat.
    inversion Hat; congruence. }
  assert (∀ c1, miter load_entry all c1 = Ret tt c1) as Hnone.
  { clear Hall Hmem. induction all as [|kn all IH]; intros c1; [done|]. cbn [miter].
    assert (load_entry kn c1 = Ret tt c1) as H1.
    { unfold load_entry. rw decide_True; [|done]. apply Hempty. by left. }
    rw (bind_Ret _ _ _ _ _ H1). apply IH. intros kn' Hin. apply Hempty. by right. }
  exists (with_world w c). split; [|done]. unfold LoadFromYaml.
  erewrite bind_Ret by (rw in_world_eq; by rw Hall). apply Hnone.
Qed.

(** [fromString] always returns false, whether the text could be converted or not; if it
    could, the variable has the converted value afterwards. *)
Theorem fromString_false (c : Config) i v s :
  listeners_ok → vars c !! i = Some v → log_ok (world c) → ∃ c',
  fromString i s c = Ret false c' ∧ s_datas c' = s_datas c ∧
  getValue (v_type v) i c' = Ret (load_text (v_type v) (v_val v) (Some s)) c'.
Proof.
  intros Hcbs Hv Hw. destruct (fromString_ok c i v s Hcbs Hv Hw) as (w' & Hf & _).
  eexists. split; [exact Hf|]. split; [done|]. unfold getValue.
  set (x := load_text _ _ _). erewrite bind_Ret
    by (unfold var_at; mrun; rw list_lookup_insert_eq; [by eapply lookup_lt_Some|done]).
  cbv beta. by rw (val_as_self (with_val v x) : val_as (v_type v) (with_val v x) = Some x).
Qed.
End properties.

(** ** Witnesses *)

Lemma sample_listeners : @listeners_ok Sample.app.
Proof. intros t cb old x w _. by eexists. Qed.

Lemma sample_wf : @config_wf Sample.app sample_config.
Proof.
  intros name i Hi. unfold sample_config in Hi. cbn [s_datas] in Hi.
  apply lookup_singleton_Some in Hi as [<- <-]. split; [done|]. by exists sample_var.
Qed.

Lemma setValue_spec_witness : ∃ c',
  @setValue Sample.app tt 0 true sample_config = Ret tt c' ∧ @world Sample.app c' = [L "changed"].
Proof.
  destruct (@setValue_spec Sample.app sample_config 0 sample_var true eq_refl) as (_ & Hset & _).
  destruct (Hset ltac:(done) [L "changed"] eq_refl) as (c' & H & _ & Hw & _).
  exists c'. split; [exact H|exact Hw].
Defined.

Lemma Lookup_spec_witness : ∃ v c', @vars Sample.app sample_config !! 0 = Some v ∧
  @vars Sample.app c' = @vars Sample.app sample_config ∧
  @s_datas Sample.app c' = @s_datas Sample.app sample_config ∧
  @Lookup_or_create Sample.app tt (L "a.b") true [] sample_config =
    Ret (if @has_type Sample.app tt v then Some 0 else None) c'.
Proof. exact (@Lookup_spec Sample.app tt (L "a.b") true [] sample_config sample_wf I). Defined.

Lemma fromString_false_witness : ∃ c',
  @fromString Sample.app 0 (L "1") sample_config = Ret false c' ∧
  @s_datas Sample.app c' = @s_datas Sample.app sample_config ∧
  @getValue Sample.app tt 0 c' = Ret true c'.
Proof.
  exact (@fromString_false Sample.app sample_config 0 sample_var (L "1") sample_listeners
    eq_refl I).
Defined.

Lemma invalid_keys_ignored_witness : ∃ c',
  @LoadFromYaml document_yaml Sample.app document_depth sample_document sample_config = Ret tt c' ∧
  @vars Sample.app c' = @vars Sample.app sample_config.
Proof.
  refine (@invalid_keys_ignored document_yaml Sample.app document_yaml_laws document_depth
    sample_document sample_config sample_listeners sample_wf I _).
  intros k n Hin. apply list_elem_of_singleton in Hin. injection Hin as -> ->. reflexivity.
Defined.

