(* ===== verification/LogConfig.v ===== *)
(** Configuration of the loggers, the end of duan_src/log.cc: the definitions of
    loggers and appenders with their conversions from and to YAML, the variable
    [logs] that holds them, and the listener that applies a change of it to the
    loggers.

    This file puts the components together: the loggers discharge [RootLog], the
    interface the configuration system logs through, and the listener runs inside
    [ConfigVar::setValue]. *)

From S2P Require Import Prelude StdSet Yaml LogFormat Logger Config.

(** * Definitions *)

Record LogAppenderDfine := MkAppenderDfine {
  (** 1 File, 2 Stdout *)
  d_type : Z;
  d_level : Z;
  d_formatter : str;
  d_file : str
}.

Record LogDefine := MkLogDefine {
  ld_name : str;
  ld_level : Z;
  ld_formatter : str;
  ld_appenders : list LogAppenderDfine
}.

(** [operator==] of the two structures, [LogDefine::operator<] *)
#[export] Instance LogAppenderDfine_eq : EqDecision LogAppenderDfine.
Proof. solve_decision. Defined.
#[export] Instance LogDefine_eq : EqDecision LogDefine.
Proof. solve_decision. Defined.
Definition LogDefine_lt (a b : LogDefine) : bool := str_lt (ld_name a) (ld_name b).

(** * Conversions *)

Section conversions.
Context `{Y : Yaml}.

(** [n[key].IsDefined() ? n[key].as<std::string>() : other] *)
Definition field_or (n : node) (key : str) (other : str) : option str :=
  o ← get n key;
  match o with Some v => as_string v | None => Some other end.

(** The body of the loop over the appenders: [None] is an exception, [Some None]
    an element that is skipped. *)
Definition appender_of_node (a : node) : option (option LogAppenderDfine) :=
  o ← get a (L "type");
  match o with
  | None => Some None
  | Some t =>
      type ← as_string t;
      if decide (type = L "FileLogAppender") then
        file ← get a (L "file");
        match file with
        | None => Some None
        | Some f =>
            name ← as_string f;
            formatter ← field_or a (L "formatter") [];
            Some (Some (MkAppenderDfine 1 UNKNOW formatter name))
        end
      else if decide (type = L "StdoutLogAppender") then
        formatter ← field_or a (L "formatter") [];
        Some (Some (MkAppenderDfine 2 UNKNOW formatter []))
      else Some None
  end.

(** [LexicalCast<std::string, LogDefine>]; the test is for ["levle"]. *)
Definition LogDefine_from_str (v : str) : option LogDefine :=
  n ← load v;
  o ← get n (L "name");
  name_node ← o;
  name ← as_string name_node;
  levle ← get n (L "levle");
  level ← match levle with
          | Some _ => l ← get n (L "level"); l' ← l; as_string l'
          | None => Some []
          end;
  formatter ← field_or n (L "formatter") [];
  aps ← get n (L "appenders");
  appenders ← match aps with
              | Some s => mapM (λ x, a ← at_index s x; appender_of_node a) (seq 0 (size s))
              | None => Some []
              end;
  Some (MkLogDefine name (FromString level) formatter (omap id appenders)).

(** [LexicalCast<LogDefine, std::string>] *)
Definition appender_node (a : LogAppenderDfine) : node :=
  mapping (
    (if decide (d_type a = 1%Z)
     then [(L "type", scalar (L "FileLogAppender")); (L "file", scalar (d_file a))]
     else if decide (d_type a = 2%Z) then [(L "type", scalar (L "StdoutLogAppender"))]
     else []) ++
    (if decide (d_level a = UNKNOW) then []
     else [(L "level", scalar (LogFormat.toString (d_level a)))]) ++
    (if decide (d_formatter a = []) then [] else [(L "formatter", scalar (d_formatter a))])).

Definition LogDefine_to_str (d : LogDefine) : str :=
  emit (mapping (
    [(L "name", scalar (ld_name d))] ++
    (if decide (ld_level d = UNKNOW) then []
     else [(L "level", scalar (LogFormat.toString (ld_level d)))]) ++
    (if decide (ld_formatter d = []) then [] else [(L "formatter", scalar (ld_formatter d))]) ++
    (if decide (ld_appenders d = []) then []
     else [(L "appenders", sequence (appender_node <$> ld_appenders d))]))).

#[export] Instance LogDefine_cast : LexicalCast LogDefine := {|
  from_str := LogDefine_from_str; to_str d := Some (LogDefine_to_str d)
|}.

(** [LexicalCast] of [std::set<LogDefine>] *)
Definition defines_cast : LexicalCast (list LogDefine) := {|
  from_str := set_from_str LogDefine_lt; to_str := set_to_str
|}.
End conversions.

(** * The listener *)

Section listener.
Context (strftime : str → Z → str) (env : Env).

(** [log.cc] as [__FILE__] *)
Definition log_cc : str := L "log.cc".

(** One appender of a definition: built, set up and added to the logger. *)
Definition add_defined (name : str) (i : nat) (a : LogAppenderDfine) : M Log unit :=
  ap ← (if decide (d_type a = 1%Z) then FileLogAppender_new env (d_file a)
        else if decide (d_type a = 2%Z) then StdoutLogAppender_new
        else mcrash (Undefined "null appender"));
  setLevel ap (d_level a) ;;
  (if decide (d_formatter a = []) then mret tt
   else
     f ← new_formatter (d_formatter a);
     if m_error f then
       cout (L "log.name=" ++ name ++ L "appender type = " ++ show_int (d_type a) ++
             L "formatter = " ++ d_formatter a ++ L " is invalid" ++ [newline])
     else appender_setFormatter ap (Some f)) ;;
  addAppender i ap.

(** The loop over the new value. *)
Definition apply_define (old_value : list LogDefine) (d : LogDefine) : M Log unit :=
  i ← match set_find LogDefine_lt d old_value ≫= λ j, old_value !! j with
      | None => Logger_new (ld_name d)
      | Some d' =>
          if decide (d = d') then mcrash (Undefined "null logger")
          else getLogger (ld_name d)
      end;
  SetLevel i (ld_level d) ;;
  (if decide (ld_formatter d = []) then mret tt else setFormatter_str i (ld_formatter d)) ;;
  clearAppenders i ;;
  miter (add_defined (ld_name d) i) (ld_appenders d).

(** The loop over the old value. *)
Definition drop_define (new_value : list LogDefine) (d : LogDefine) : M Log unit :=
  match set_find LogDefine_lt d new_value with
  | Some _ => mret tt
  | None =>
      i ← getLogger (ld_name d);
      SetLevel i 100 ;;
      clearAppenders i
  end.

(** [DUAN_LOG_INFO(DUAN_LOG_ROOT()) << text] and its like *)
Definition log_root (level : Z) (file : str) (line : Z) (text : str) : M Log unit :=
  o ← getRoot;
  match o with
  | Some r => LOG_LEVEL strftime env r level file line text
  | None => mcrash (Undefined "null root")
  end.

(** The lambda of [LogIniter]. *)
Definition on_logger_conf_changed (old_value new_value : list LogDefine) : M Log unit :=
  log_root INFO log_cc 696 (L "on_logger_conf_changed") ;;
  miter (apply_define old_value) new_value ;;
  miter (drop_define new_value) old_value.
End listener.

(** * Specification *)

(** A definition the conversions can write: its appenders have one of the two
    types, and a file only if it is a file appender. *)
Definition good_appender (a : LogAppenderDfine) : bool :=
  (d_type a =? 1)%Z || ((d_type a =? 2)%Z && bool_decide (d_file a = [])).
Definition good_define (d : LogDefine) : bool := forallb good_appender (ld_appenders d).

(** The definition without its levels. *)
Definition forget_level (a : LogAppenderDfine) : LogAppenderDfine :=
  MkAppenderDfine (d_type a) UNKNOW (d_formatter a) (d_file a).
Definition forget_levels (d : LogDefine) : LogDefine :=
  MkLogDefine (ld_name d) UNKNOW (ld_formatter d) (forget_level <$> ld_appenders d).

(** The appenders of the root have formatters: statements of the root return. *)
Definition logs_ok (g : Log) : Prop :=
  wf_log g ∧ ∀ r lr ap a, mgr_root g = Some r → loggers g !! r = Some lr →
    ap ∈ m_appenders lr → appenders g !! ap = Some a → is_Some (ap_formatter a).

(** Outcomes: never an exception; always the end of the program. *)
Definition no_throw {S A} (m : M S A) : Prop :=
  ∀ s, match m s with Throw _ _ => False | _ => True end.
Definition crashes {S A} (m : M S A) : Prop := ∀ s, ∃ f, m s = Crash f.

(** The manager's loggers are the same, and so are the settings of the appenders
    below [base]; objects may have been made. *)
Definition grow (base : nat) (g g' : Log) : Prop :=
  m_loggers g' = m_loggers g ∧ mgr_root g' = mgr_root g ∧ next_id g <= next_id g' ∧
  ∀ j, j < base → settings <$> appenders g' !! j = settings <$> appenders g !! j.

(** A logger that has been deleted by configuration. *)
Definition silent (g : Log) (name : str) : Prop :=
  ∃ i l, m_loggers g !! name = Some i ∧ loggers g !! i = Some l ∧ lg_level l = 100%Z ∧
    m_appenders l = [].

(** * Conversions *)

Section conversion_facts.
Context `{Y : Yaml} `{!YamlLaws}.

Lemma get_field l k o : NoDup l.*1 → assoc k l = o → get (mapping l) k = Some o.
Proof. intros Hnd <-. by rw (get_mapping l k Hnd) assoc_lookup. Qed.

(** Reads the field [k] of a mapping with explicit keys. *)
Ltac read_field k :=
  erewrite (get_field _ k);
    [|by apply (bool_decide_unpack _); vm_compute|vm_compute; reflexivity];
  cbn [mbind option_bind]; rw ?as_scalar; cbn [mbind option_bind].

Lemma appender_node_roundtrip a :
  good_appender a = true → appender_of_node (appender_node a) = Some (Some (forget_level a)).
Proof.
  destruct a as [type level formatter file]. unfold good_appender, appender_node, appender_of_node,
    field_or, forget_level. cbn [d_type d_level d_formatter d_file].
  destruct (Z.eqb_spec type 1) as [->|H1]; cbn [orb].
  - intros _. destruct (decide (1%Z = 1%Z)); [|done].
    destruct (decide (level = UNKNOW)), (decide (formatter = [])) as [->|Hf]; cbn [app];
      read_field (L "type"); (case_decide; [|done]); read_field (L "file");
      by read_field (L "formatter").
  - destruct (Z.eqb_spec type 2) as [->|H2]; [|done]. intros Hfile%bool_decide_eq_true. subst file.
    destruct (decide (2%Z = 1%Z)); [done|]. destruct (decide (2%Z = 2%Z)); [|done].
    destruct (decide (level = UNKNOW)), (decide (formatter = [])) as [->|Hf]; cbn [app];
      read_field (L "type"); (case_decide; [done|]); (case_decide; [|done]);
      by read_field (L "formatter").
Qed.

Lemma appenders_roundtrip l : forallb good_appender l = true →
  mapM (λ x, a ← at_index (sequence (appender_node <$> l)) x; appender_of_node a)
    (seq 0 (size (sequence (appender_node <$> l)))) = Some (Some <$> (forget_level <$> l)).
Proof.
  intros Hl. rw size_sequence.
  transitivity (mapM (λ i, e ← (appender_node <$> l) !! i; appender_of_node e)
    (seq 0 (length (appender_node <$> l)))).
  { apply mapM_ext. intros i. by rw at_sequence. }
  rw (mapM_index _ (appender_node <$> l) 0 []); [done|].
  induction l as [|a l IH]; [done|]. cbn in Hl. apply andb_prop in Hl as [Ha Hl]. cbn.
  rw (appender_node_roundtrip a Ha). cbn. by rw (IH Hl).
Qed.

Lemma omap_id_Some {A} (l : list A) : omap id (Some <$> l) = l.
Proof. induction l as [|x l IH]; [done|]. cbn. by rw IH. Qed.

Lemma LogDefine_roundtrip_eq d :
  good_define d = true → LogDefine_from_str (LogDefine_to_str d) = Some (forget_levels d).
Proof.
  destruct d as [name level formatter aps]. unfold good_define, LogDefine_from_str, LogDefine_to_str,
    forget_levels, field_or. cbn [ld_name ld_level ld_formatter ld_appenders]. intros Haps.
  rw load_emit. cbn [mbind option_bind].
  pose proof (appenders_roundtrip aps Haps) as Hm.
  destruct (decide (level = UNKNOW)), (decide (formatter = [])) as [->|Hf],
    (decide (aps = [])) as [->|Ha]; cbn [app];
    read_field (L "name"); read_field (L "levle"); read_field (L "formatter");
    read_field (L "appenders"); try done; rw Hm; cbn [mbind option_bind]; by rw omap_id_Some.
Qed.
(** What the definitions read from the text that a running appender writes: the
    pattern of a file appender is lost, it is written under ["fomatter"]. *)
Lemma appender_reload a f :
  m_hasFormatter a = true → ap_formatter a = Some f →
  (n ← load (appender_toYamlString a); appender_of_node n) = Some (Some
    match ap_kind a with
    | StdoutLogAppender => MkAppenderDfine 2 UNKNOW (m_pattern f) []
    | FileLogAppender filename _ _ => MkAppenderDfine 1 UNKNOW [] filename
    end).
Proof.
  destruct a as [level has fm kind]. cbn. intros -> ->. unfold appender_toYamlString. cbn [ap_kind].
  destruct kind as [|filename s t];
    unfold StdoutLogAppender_toYamlString, FileLogAppender_toYamlString, appender_of_node, field_or,
      level_field, formatter_field; rw load_emit; cbn [mbind option_bind ap_level m_hasFormatter ap_formatter];
    destruct (decide (level = UNKNOW)); cbn [app];
    read_field (L "type").
  1,2: (case_decide; [done|]); (case_decide; [|done]); by read_field (L "formatter").
  1,2: (case_decide; [|done]); read_field (L "file"); by read_field (L "formatter").
Qed.
End conversion_facts.

(** ** The root logger *)

Section listener_facts.
Context (strftime : str → Z → str) (env : Env).

Lemma sinks_root g r lr level ap :
  logs_ok g → mgr_root g = Some r → loggers g !! r = Some lr → ap ∈ sinks g r level →
  ap ∈ m_appenders lr.
Proof.
  intros [Hwf _] Hr Hlr. unfold sinks. rw Hlr.
  destruct (lg_level lr <=? level)%Z; [|by intros ?%elem_of_nil].
  destruct (m_root lr) as [r'|] eqn:Hr'.
  - destruct (wf_root _ Hwf) as (r0 & l0 & Hr0 & Hl0 & Hn & _). congruence.
  - by destruct (m_appenders lr).
Qed.

Lemma log_root_ok level file line text g :
  logs_ok g → ∃ g', log_root strftime env level file line text g = Ret tt g' ∧ logs_ok g' ∧
    same_settings g g'.
Proof.
  intros Hok. pose proof Hok as [Hwf Hfm]. destruct (wf_root _ Hwf) as (r & lr & Hr & Hlr & _).
  unfold log_root, getRoot. erewrite bind_Ret by done. cbv beta. rw Hr. unfold LOG_LEVEL.
  erewrite bind_Ret by (unfold logger; mrun; by rw Hlr). cbv beta.
  destruct (lg_level lr <=? level)%Z; cbn [mwhen]; [|by exists g].
  unfold LogEventWrap_delete. set (e := LogEvent_write _ _). change (e_level e) with level.
  rw (log_sinks strftime env r level e g Hwf); [by rw Hlr|].
  destruct (sinks_ok strftime env level e (sinks g r level) g) as (g' & Hg' & Hs & _).
  { intros ap Hap. destruct (sinks_exist g r level ap Hwf Hap) as [a Ha]. exists a.
    split; [done|]. intros _. apply (Hfm r lr ap a); [done|done| |done]. by eapply sinks_root. }
  exists g'. split; [done|]. split; [|done]. split.
  - apply (log_inv_wf _ _ _ (keeps_iter _ _ _ (keeps_appender_log _ strftime env level e)) Hwf Hg').
  - destruct Hs as (Hl & _ & Hroot & _ & Hset).
    intros r' lr' ap a' Hr' Hlr' Hap Ha'. rw Hroot in Hr'. rw Hl in Hlr'.
    pose proof (f_equal (lookup ap) Hset) as Hi. rw !lookup_fmap Ha' in Hi.
    destruct (appenders g !! ap) as [a|] eqn:Ha; [|done]. apply (inj Some) in Hi.
    injection Hi as _ _ -> _. by eapply Hfm.
Qed.
End listener_facts.

(** The loggers as the configuration system uses them; [file] and [line] are the
    place of the statement. *)
#[export] Program Instance log_root_log (strftime : str → Z → str) (env : Env) (file : str)
    (line : Z) : RootLog Log := {|
  log_ok := logs_ok;
  log_info := log_root strftime env INFO file line;
  log_error := log_root strftime env ERROR file line
|}.
Next Obligation.
  intros strftime env file line s g Hg.
  destruct (log_root_ok strftime env INFO file line s g Hg) as (g' & H & Hg' & _). by exists g'.
Qed.
Next Obligation.
  intros strftime env file line s g Hg.
  destruct (log_root_ok strftime env ERROR file line s g Hg) as (g' & H & Hg' & _). by exists g'.
Qed.

(** The variable [logs]: its type is the only one here, and its listener is the
    one [LogIniter] adds. *)
Definition log_app `{Y : Yaml} (strftime : str → Z → str) (env : Env) (file : str) (line : Z)
    (name : str) : ConfigApp := {|
  ty := unit;
  val _ := list LogDefine;
  val_cast _ := defines_cast;
  type_name _ := name;
  W := Log;
  root_log := log_root_log strftime env file line;
  on_change_cb _ := unit;
  run_cb _ _ old_value new_value := on_logger_conf_changed strftime env old_value new_value
|}.

(** [g_log_defines] and [LogIniter]: the variable is created and gets its listener. *)
Definition log_init `{Y : Yaml} strftime env file line name
    : M (@Config (log_app strftime env file line name)) (option nat) :=
  o ← @Lookup_or_create (log_app strftime env file line name) tt (L "logs") [] (L "logs config");
  match o with
  | Some i => @addListener (log_app strftime env file line name) tt i tt ;; mret (Some i)
  | None => mcrash (Undefined "null variable")
  end.

(** * The listener *)

(** ** It never throws *)

Section no_throw.
Context {S : Type}.

Lemma no_throw_bind {A B} (m : M S A) (k : A → M S B) :
  no_throw m → (∀ a, no_throw (k a)) → no_throw (m ≫= k).
Proof.
  intros Hm Hk s. specialize (Hm s). unfold mbind, M_bind.
  destruct (m s) as [a s'|e s'|f]; [apply Hk|done|done].
Qed.
Lemma no_throw_when b (m : M S unit) : no_throw m → no_throw (mwhen b m).
Proof. by destruct b. Qed.
Lemma no_throw_iter {A} (f : A → M S unit) l : (∀ a, no_throw (f a)) → no_throw (miter f l).
Proof. intros Hf. induction l as [|x l IH]; [by intros s|]. by apply no_throw_bind; [|intros []]. Qed.

Lemma crashes_bind_l {A B} (m : M S A) (k : A → M S B) : crashes m → crashes (m ≫= k).
Proof. intros Hm s. destruct (Hm s) as [f Hf]. exists f. by apply bind_Crash. Qed.
Lemma crashes_bind_r {A B} (m : M S A) (k : A → M S B) :
  no_throw m → (∀ a, crashes (k a)) → crashes (m ≫= k).
Proof.
  intros Hm Hk s. specialize (Hm s). unfold mbind, M_bind.
  destruct (m s) as [a s'|e s'|f]; [apply Hk|done|by exists f].
Qed.
Lemma crashes_iter {A} (f : A → M S unit) l x :
  (∀ a, no_throw (f a)) → x ∈ l → crashes (f x) → crashes (miter f l).
Proof.
  intros Hn Hx Hc. induction l as [|y l IH]; [by apply elem_of_nil in Hx|].
  apply elem_of_cons in Hx as [<-|Hx]; [by apply crashes_bind_l|].
  apply crashes_bind_r; [apply Hn|intros []; by apply IH].
Qed.
End no_throw.

(** Goes through the operations of a definition. *)
Ltac no_throw_tac :=
  repeat first
    [ apply no_throw_bind; [|intros ?] | apply no_throw_when | apply no_throw_iter; intros ?
    | by intros s
    | match goal with |- no_throw (match ?x with _ => _ end) => destruct x end ].

Section listener_throws.
Context (strftime : str → Z → str) (env : Env).

Lemma no_throw_appender i : no_throw (appender i).
Proof. unfold appender. no_throw_tac. Qed.
Lemma no_throw_logger i : no_throw (logger i).
Proof. unfold logger. no_throw_tac. Qed.
Lemma no_throw_modify_appender i f : no_throw (modify_appender i f).
Proof. apply no_throw_bind; [apply no_throw_appender|]. by intros a s. Qed.
Lemma no_throw_modify_logger i f : no_throw (modify_logger i f).
Proof. apply no_throw_bind; [apply no_throw_logger|]. by intros a s. Qed.
Lemma no_throw_new_formatter p : no_throw (new_formatter p).
Proof. destruct (new_formatter_ok p) as (f & _ & ->). by intros s. Qed.
Lemma no_throw_reopen i : no_throw (reopen env i).
Proof.
  unfold reopen. apply no_throw_bind; [apply no_throw_appender|intros a].
  destruct (ap_kind a); no_throw_tac; apply no_throw_appender.
Qed.
Lemma no_throw_stream_write i text : no_throw (stream_write env i text).
Proof.
  unfold stream_write. apply no_throw_bind; [apply no_throw_appender|intros a].
  destruct (ap_kind a); no_throw_tac; apply no_throw_appender.
Qed.
Lemma no_throw_appender_log level e i : no_throw (appender_log strftime env level e i).
Proof.
  unfold appender_log. apply no_throw_bind; [apply no_throw_appender|intros a].
  destruct (ap_kind a); apply no_throw_when.
  - unfold format_with. no_throw_tac.
  - apply no_throw_bind.
    { apply no_throw_when, no_throw_bind; [apply no_throw_reopen|intros ok].
      apply no_throw_modify_appender. }
    intros []. unfold format_with. no_throw_tac; apply no_throw_stream_write.
Qed.
Lemma no_throw_log_fuel fuel i level e : no_throw (log_fuel strftime fuel env i level e).
Proof.
  revert i. induction fuel as [|fuel IH]; intros i; [by intros s|]. cbn [log_fuel].
  apply no_throw_bind; [apply no_throw_logger|intros l]. apply no_throw_when.
  destruct (m_appenders l), (m_root l); try apply IH; try (by intros s);
    apply no_throw_iter; intros; apply no_throw_appender_log.
Qed.
Lemma no_throw_log_root level file line text : no_throw (log_root strftime env level file line text).
Proof.
  unfold log_root, LOG_LEVEL. apply no_throw_bind; [by intros s|intros [r|]; [|by intros s]].
  apply no_throw_bind; [apply no_throw_logger|intros l]. apply no_throw_when, no_throw_log_fuel.
Qed.

Lemma no_throw_setFormatter_str i p : no_throw (setFormatter_str i p).
Proof.
  unfold setFormatter_str. apply no_throw_bind; [apply no_throw_new_formatter|intros f].
  destruct (m_error f); [apply no_throw_bind; [apply no_throw_logger|by intros l s]|].
  apply no_throw_bind; [apply no_throw_modify_logger|intros []].
  apply no_throw_bind; [apply no_throw_logger|intros l]. apply no_throw_iter. intros ap.
  apply no_throw_bind; [apply no_throw_appender|intros a].
  apply no_throw_when, no_throw_modify_appender.
Qed.
Lemma no_throw_addAppender i ap : no_throw (addAppender i ap).
Proof.
  unfold addAppender, appender_getFormatter. apply no_throw_bind; [apply no_throw_logger|intros l].
  apply no_throw_bind; [apply no_throw_bind; [apply no_throw_appender|by intros a s]|intros f].
  apply no_throw_bind; [apply no_throw_when, no_throw_modify_appender|intros []].
  apply no_throw_modify_logger.
Qed.
Lemma no_throw_add_defined name i a : no_throw (add_defined env name i a).
Proof.
  unfold add_defined. apply no_throw_bind.
  { case_decide; [|case_decide; by intros s].
    apply no_throw_bind; [by intros s|intros j]. apply no_throw_bind; [apply no_throw_reopen|by intros b s]. }
  intros ap. apply no_throw_bind; [apply no_throw_modify_appender|intros []].
  apply no_throw_bind; [|intros []; apply no_throw_addAppender].
  case_decide; [by intros s|]. apply no_throw_bind; [apply no_throw_new_formatter|intros f].
  destruct (m_error f); [by intros s|apply no_throw_modify_appender].
Qed.
Lemma no_throw_Logger_new name : no_throw (Logger_new name).
Proof.
  unfold Logger_new. refine (no_throw_bind _ _ (no_throw_new_formatter default_pattern) _).
  intros f s. exact I.
Qed.
Lemma no_throw_getLogger name : no_throw (getLogger name).
Proof.
  unfold getLogger. apply no_throw_bind; [by intros s|intros [i|]; [by intros s|]].
  apply no_throw_bind; [apply no_throw_Logger_new|intros i].
  apply no_throw_bind; [by intros s|intros r].
  apply no_throw_bind; [apply no_throw_modify_logger|intros []].
  apply no_throw_bind; [by intros s|by intros [] s].
Qed.
Lemma no_throw_apply_define old d : no_throw (apply_define env old d).
Proof.
  unfold apply_define. apply no_throw_bind.
  { destruct (set_find _ _ _ ≫= _) as [d'|]; [|apply no_throw_Logger_new].
    case_decide; [by intros s|apply no_throw_getLogger]. }
  intros i. apply no_throw_bind; [apply no_throw_modify_logger|intros []].
  apply no_throw_bind; [case_decide; [by intros s|apply no_throw_setFormatter_str]|intros []].
  apply no_throw_bind; [apply no_throw_modify_logger|intros []].
  apply no_throw_iter. intros a. apply no_throw_add_defined.
Qed.

(** A definition that is found unchanged leaves the logger pointer null. *)
Lemma listener_crashes old new d j :
  d ∈ new → set_find LogDefine_lt d old = Some j → old !! j = Some d →
  crashes (on_logger_conf_changed strftime env old new).
Proof.
  intros Hd Hfind Hj. unfold on_logger_conf_changed.
  apply crashes_bind_r; [apply no_throw_log_root|intros []]. apply crashes_bind_l.
  apply (crashes_iter _ _ d); [apply no_throw_apply_define|done|].
  unfold apply_define. apply crashes_bind_l. rw Hfind. cbn. rw Hj.
  intros g. rw decide_True; [done|]. by eexists.
Qed.
End listener_throws.

(** ** What it leaves alone *)

#[local] Opaque default_formatter.

Section listener_effects.
Context (strftime : str → Z → str) (env : Env).

Lemma grow_refl base g : grow base g g.
Proof. by repeat split. Qed.
Lemma grow_trans base g1 g2 g3 : grow base g1 g2 → grow base g2 g3 → grow base g1 g3.
Proof.
  intros (H1 & H2 & H3 & H4) (H5 & H6 & H7 & H8). split; [congruence|]. split; [congruence|].
  split; [lia|]. intros j Hj. by rw H8 ?H4.
Qed.
Lemma grow_same base g g' : same_settings g g' → grow base g g'.
Proof.
  intros (_ & Hm & Hr & Hn & Hs). split; [done|]. split; [done|]. split; [by rw Hn|].
  intros j _. pose proof (f_equal (lookup j) Hs) as Hj. by rw !lookup_fmap in Hj.
Qed.
Lemma grow_upd_appender base i a g : base <= i → grow base g (upd_appender i a g).
Proof.
  intros Hi. split; [done|]. split; [done|]. split; [done|]. intros j Hj. cbn.
  by rw lookup_insert_ne; [lia|].
Qed.
Lemma grow_upd_logger base i l g : grow base g (upd_logger i l g).
Proof. by repeat split. Qed.

Lemma new_appender_grow base a g :
  base <= next_id g → ∃ g', new_appender a g = Ret (next_id g) g' ∧ grow base g g' ∧
    loggers g' = loggers g ∧ appenders g' !! next_id g = Some a.
Proof.
  intros Hb. eexists. split; [done|]. split; [|split; [done|apply lookup_insert_eq]].
  split; [done|]. split; [done|]. split; [cbn; lia|]. intros j Hj. cbn.
  by rw lookup_insert_ne; [lia|].
Qed.

(** The three kinds of change to an appender of the listener. *)
Lemma modify_appender_grow base i f g :
  base <= i → is_Some (appenders g !! i) → ∃ g', modify_appender i f g = Ret tt g' ∧
    grow base g g' ∧ loggers g' = loggers g ∧ is_Some (appenders g' !! i).
Proof.
  intros Hb [a Ha]. eexists. split; [by apply modify_appender_eq|].
  split; [by apply grow_upd_appender|]. split; [done|]. cbn. by rw lookup_insert_eq.
Qed.

Lemma new_defined_ok base a g :
  base <= next_id g → (d_type a =? 1)%Z || (d_type a =? 2)%Z = true → ∃ ap g',
  (if decide (d_type a = 1%Z) then FileLogAppender_new env (d_file a)
   else if decide (d_type a = 2%Z) then StdoutLogAppender_new
   else mcrash (Undefined "null appender")) g = Ret ap g' ∧ base <= ap ∧ grow base g g' ∧
  loggers g' = loggers g ∧ is_Some (appenders g' !! ap).
Proof.
  intros Hb Htype. case_decide as H1; [|case_decide as H2].
  - unfold FileLogAppender_new.
    destruct (new_appender_grow base (MkAppender DEBUG false None
      (FileLogAppender (d_file a) (MkStream false true 0) 0)) g Hb) as (g1 & H & Hg1 & Hl1 & Ha1).
    destruct (reopen_settings env (next_id g) g1 _ Ha1 eq_refl) as (ok & g2 & H2 & Hs2).
    destruct (same_settings_lookup _ _ _ _ Hs2 Ha1) as (a2 & Ha2 & _).
    exists (next_id g), g2. split; [by rw (bind_Ret _ _ _ _ _ H) (bind_Ret _ _ _ _ _ H2)|].
    split; [done|]. split; [by eapply grow_trans; [|apply grow_same]|].
    split; [by destruct Hs2 as [-> _]|by rw Ha2].
  - destruct (new_appender_grow base (MkAppender DEBUG false None StdoutLogAppender) g Hb)
      as (g1 & H & Hg1 & Hl1 & Ha1).
    exists (next_id g), g1. do 4 (split; [done|]). by rw Ha1.
  - apply orb_prop in Htype as [?%Z.eqb_eq|?%Z.eqb_eq]; done.
Qed.

Lemma addAppender_ok base i ap g l :
  base <= ap → loggers g !! i = Some l → is_Some (appenders g !! ap) → ∃ g',
  addAppender i ap g = Ret tt g' ∧ grow base g g' ∧
  loggers g' = <[i := with_appenders (m_appenders l ++ [ap]) l]> (loggers g).
Proof.
  intros Hb Hl [a Ha]. unfold addAppender, appender_getFormatter.
  erewrite bind_Ret by (unfold logger; mrun; by rw Hl). cbv beta.
  erewrite bind_Ret by (unfold appender; mrun; by rw Ha). cbv beta.
  assert (∃ g1, mwhen (bool_decide (ap_formatter a = None))
    (modify_appender ap (with_formatter (lg_formatter l))) g = Ret tt g1 ∧ grow base g g1 ∧
    loggers g1 = loggers g) as (g1 & H1 & Hg1 & Hl1).
  { destruct (bool_decide _); [|by exists g; split; [done|split; [apply grow_refl|]]].
    destruct (modify_appender_grow base ap (with_formatter (lg_formatter l)) g Hb)
      as (g1 & H1 & Hg1 & Hl1 & _); [by rw Ha|]. by exists g1. }
  rw (bind_Ret _ _ _ _ _ H1). unfold modify_logger, logger. mrun. rw Hl1 Hl. mrun.
  eexists. split; [done|]. split; [by eapply grow_trans; [|apply grow_upd_logger]|].
  cbn. by rw Hl1.
Qed.

Lemma add_defined_ok base name i a g l :
  base <= next_id g → (d_type a =? 1)%Z || (d_type a =? 2)%Z = true → loggers g !! i = Some l →
  ∃ ap g', add_defined env name i a g = Ret tt g' ∧ grow base g g' ∧
    loggers g' = <[i := with_appenders (m_appenders l ++ [ap]) l]> (loggers g).
Proof.
  intros Hb Htype Hl. unfold add_defined.
  destruct (new_defined_ok base a g Hb Htype) as (ap & g1 & H1 & Hap & Hg1 & Hl1 & Ha1).
  exists ap. rw (bind_Ret _ _ _ _ _ H1).
  destruct (modify_appender_grow base ap (λ a0, MkAppender (d_level a) (m_hasFormatter a0)
    (ap_formatter a0) (ap_kind a0)) g1 Hap Ha1) as (g2 & H2 & Hg2 & Hl2 & Ha2).
  rw (bind_Ret _ _ _ _ _ (H2 : setLevel ap (d_level a) g1 = _)).
  match goal with |- context [(?m ;; addAppender i ap) g2] =>
    assert (∃ g3, m g2 = Ret tt g3 ∧ grow base g2 g3 ∧ loggers g3 = loggers g2 ∧
      is_Some (appenders g3 !! ap)) as (g3 & H3 & Hg3 & Hl3 & Ha3) end.
  { clear H1. case_decide; [exists g2; split; [done|]; by split; [apply grow_refl|]|].
    destruct (new_formatter_ok (d_formatter a)) as (f & _ & Hf). rw Hf. clear Hf.
    erewrite bind_Ret by done. cbv beta.
    destruct (m_error f); [eexists; split; [done|]; by split; [repeat split|]|]. by apply modify_appender_grow. }
  rw (bind_Ret _ _ _ _ _ H3).
  destruct (addAppender_ok base i ap g3 l Hap) as (g4 & H4 & Hg4 & Hl4); [congruence|done|].
  exists g4. split; [done|]. split; [by repeat (eapply grow_trans; [done|])|]. congruence.
Qed.

Lemma add_all_ok base name i defs : ∀ g l,
  base <= next_id g → forallb (λ a, (d_type a =? 1) || (d_type a =? 2))%Z defs = true →
  loggers g !! i = Some l →
  ∃ aps g', miter (add_defined env name i) defs g = Ret tt g' ∧ grow base g g' ∧
    length aps = length defs ∧
    loggers g' = <[i := with_appenders (m_appenders l ++ aps) l]> (loggers g).
Proof.
  induction defs as [|a defs IH]; intros g l Hb Htypes Hl.
  { exists [], g. split; [done|]. split; [apply grow_refl|]. split; [done|].
    rw app_nil_r. rw insert_id; [|done]. by destruct l. }
  apply andb_prop in Htypes as [Ht Hts].
  destruct (add_defined_ok base name i a g l Hb Ht Hl) as (ap & g1 & H1 & Hg1 & Hl1).
  destruct (IH g1 (with_appenders (m_appenders l ++ [ap]) l)) as (aps & g2 & H2 & Hg2 & Hn & Hl2).
  { destruct Hg1 as (_ & _ & Hn & _). lia. }
  { done. }
  { rw Hl1. apply lookup_insert_eq. }
  exists (ap :: aps), g2. cbn [miter]. rw (bind_Ret _ _ _ _ _ H1). split; [done|].
  split; [by eapply grow_trans|]. split; [cbn; by rw Hn|].
  rw Hl2 Hl1 insert_insert_eq. cbn. by rw -app_assoc.
Qed.

Lemma modify_logger_eq i f g l :
  loggers g !! i = Some l → modify_logger i f g = Ret tt (upd_logger i (f l) g).
Proof. intros Hl. unfold modify_logger, logger. mrun. by rw Hl. Qed.

(** A pattern given to a logger without appenders. *)
Lemma setFormatter_str_bare base i p g l :
  loggers g !! i = Some l → m_appenders l = [] → ∃ f g',
  setFormatter_str i p g = Ret tt g' ∧ grow base g g' ∧
  loggers g' = <[i := MkLogger (lg_name l) (lg_level l) [] f (m_root l)]> (loggers g).
Proof.
  intros Hl Haps. unfold setFormatter_str. destruct (new_formatter_ok p) as (f & _ & Hf).
  rw Hf. clear Hf. erewrite bind_Ret by done. cbv beta. destruct (m_error f).
  - exists (lg_formatter l). erewrite bind_Ret by (unfold logger; mrun; by rw Hl).
    eexists. split; [done|]. split; [by repeat split|]. cbn. rw insert_id; [|done].
    rw Hl. rw -Haps. by destruct l.
  - exists (Some f). unfold setFormatter.
    erewrite bind_Ret by (by apply modify_logger_eq). cbv beta.
    erewrite bind_Ret by (unfold logger; mrun; cbn; by rw lookup_insert_eq). cbv beta.
    cbn [m_appenders]. rw Haps. eexists. split; [done|]. split; [apply grow_upd_logger|done].
Qed.

(** A definition that was not there before makes a logger of its own. *)
Lemma apply_define_new base old d g :
  set_find LogDefine_lt d old = None → base <= next_id g →
  forallb (λ a, (d_type a =? 1) || (d_type a =? 2))%Z (ld_appenders d) = true →
  ∃ aps f g', apply_define env old d g = Ret tt g' ∧ grow base g g' ∧
    length aps = length (ld_appenders d) ∧
    loggers g' = <[next_id g := MkLogger (ld_name d) (ld_level d) aps f None]> (loggers g).
Proof.
  intros Hfind Hb Htypes. unfold apply_define. rw Hfind. cbn [mbind option_bind].
  set (i := next_id g). set (l0 := MkLogger (ld_name d) DEBUG [] (Some default_formatter) None).
  assert (∃ g1, Logger_new (ld_name d) g = Ret i g1 ∧ grow base g g1 ∧
    loggers g1 = <[i := l0]> (loggers g)) as (g1 & H1 & Hg1 & Hl1).
  { eexists. split; [exact (Logger_new_eq _ _ g default_formatter_eq)|].
    split; [|done]. split; [done|]. split; [done|]. split; [cbn; lia|done]. }
  rw (bind_Ret _ _ _ _ _ H1).
  assert (loggers g1 !! i = Some l0) as Hi1 by (rw Hl1; apply lookup_insert_eq).
  set (l2 := MkLogger (ld_name d) (ld_level d) [] (Some default_formatter) None).
  assert (SetLevel i (ld_level d) g1 = Ret tt (upd_logger i l2 g1)) as H2.
  { unfold SetLevel. by rw (modify_logger_eq i _ g1 l0 Hi1). }
  rw (bind_Ret _ _ _ _ _ H2). set (g2 := upd_logger i l2 g1) in *.
  assert (loggers g2 !! i = Some l2) as Hi2 by apply lookup_insert_eq.
  match goal with |- context [(?m ;; clearAppenders i ;; _) g2] =>
    assert (∃ f g3, m g2 = Ret tt g3 ∧ grow base g2 g3 ∧
      loggers g3 = <[i := MkLogger (ld_name d) (ld_level d) [] f None]> (loggers g2))
      as (f & g3 & H3 & Hg3 & Hl3) end.
  { case_decide.
    - exists (Some default_formatter), g2. split; [done|]. split; [apply grow_refl|].
      by rw insert_id.
    - by apply (setFormatter_str_bare base i (ld_formatter d) g2 l2 Hi2). }
  rw (bind_Ret _ _ _ _ _ H3). set (l3 := MkLogger (ld_name d) (ld_level d) [] f None) in *.
  assert (loggers g3 !! i = Some l3) as Hi3 by (rw Hl3; apply lookup_insert_eq).
  assert (clearAppenders i g3 = Ret tt (upd_logger i l3 g3)) as H4.
  { unfold clearAppenders. by rw (modify_logger_eq i _ g3 l3 Hi3). }
  rw (bind_Ret _ _ _ _ _ H4). set (g4 := upd_logger i l3 g3) in *.
  assert (grow base g g4) as Hg4.
  { eapply grow_trans; [exact Hg1|]. eapply grow_trans; [apply (grow_upd_logger base i l2)|].
    eapply grow_trans; [exact Hg3|]. apply (grow_upd_logger base i l3). }
  destruct (add_all_ok base (ld_name d) i (ld_appenders d) g4 l3)
    as (aps & g5 & H5 & Hg5 & Hn & Hl5); [|done|apply lookup_insert_eq|].
  { destruct Hg4 as (_ & _ & Hn & _). lia. }
  exists aps, f, g5. split; [exact H5|]. split; [by eapply grow_trans|]. split; [done|].
  rw Hl5. cbn [g4 loggers upd_logger]. rw Hl3. cbn [g2 loggers upd_logger].
  by rw Hl1 !insert_insert_eq.
Qed.

Lemma apply_all_new base new : ∀ g,
  base <= next_id g →
  forallb (λ d, forallb (λ a, (d_type a =? 1) || (d_type a =? 2))%Z (ld_appenders d)) new = true →
  ∃ g', miter (apply_define env []) new g = Ret tt g' ∧ grow base g g' ∧
    ∀ j, j < base → loggers g' !! j = loggers g !! j.
Proof.
  induction new as [|d new IH]; intros g Hb Htypes.
  { exists g. split; [done|]. by split; [apply grow_refl|]. }
  apply andb_prop in Htypes as [Ht Hts].
  destruct (apply_define_new base [] d g eq_refl Hb Ht) as (aps & f & g1 & H1 & Hg1 & _ & Hl1).
  destruct (IH g1) as (g2 & H2 & Hg2 & Hl2); [destruct Hg1 as (_ & _ & Hn & _); lia|done|].
  exists g2. cbn [miter]. rw (bind_Ret _ _ _ _ _ H1). split; [done|].
  split; [by eapply grow_trans|]. intros j Hj. rw (Hl2 j Hj) Hl1 lookup_insert_ne; [lia|done].
Qed.

(** ** Deleted loggers *)

Lemma drop_ok d g : wf_log g → ∃ g', drop_define [] d g = Ret tt g' ∧ wf_log g' ∧
  silent g' (ld_name d) ∧ ∀ n, silent g n → silent g' n.
Proof.
  intros Hwf. unfold drop_define. change (set_find LogDefine_lt d []) with (@None nat). cbv iota.
  assert (∃ i g1 l, getLogger (ld_name d) g = Ret i g1 ∧ m_loggers g1 !! ld_name d = Some i ∧
    loggers g1 !! i = Some l ∧ ∀ n, silent g n → silent g1 n)
    as (i & g1 & l & H1 & Hn1 & Hl1 & Hs1).
  { destruct (m_loggers g !! ld_name d) as [i|] eqn:Hi.
    - destruct (wf_named _ Hwf _ i Hi) as (l & Hl & _). exists i, g, l.
      split; [by apply getLogger_found|done].
    - eexists _, _, _. split; [exact (getLogger_new _ _ _ Hi default_formatter_eq)|].
      split; [apply lookup_insert_eq|]. split; [apply lookup_insert_eq|].
      intros n (j & lj & Hj & Hlj & Hlv & Haps). exists j, lj. cbn.
      rw lookup_insert_ne; [by intros <-; rw Hi in Hj|]. split; [done|]. split; [|done].
      rw lookup_insert_ne; [|done]. intros <-.
      assert (next_id g < next_id g); [apply (wf_logger_ids _ Hwf); by rw Hlj|lia]. }
  assert (log_inv (λ _, False) g) as Hinv by done.
  pose proof (keeps_getLogger (λ _, False) (ld_name d) g Hinv) as Hk. rw H1 in Hk.
  rw (bind_Ret _ _ _ _ _ H1). set (l2 := MkLogger (lg_name l) 100 (m_appenders l) (lg_formatter l) (m_root l)).
  assert (SetLevel i 100 g1 = Ret tt (upd_logger i l2 g1)) as H2.
  { unfold SetLevel. by rw (modify_logger_eq i _ g1 l Hl1). }
  pose proof (keeps_SetLevel (λ _, False) i 100 g1 Hk) as Hk2. rw H2 in Hk2.
  rw (bind_Ret _ _ _ _ _ H2). set (g2 := upd_logger i l2 g1) in *.
  assert (clearAppenders i g2 = Ret tt (upd_logger i (with_appenders [] l2) g2)) as H3.
  { unfold clearAppenders. by rw (modify_logger_eq i _ g2 l2); [apply lookup_insert_eq|]. }
  pose proof (keeps_clearAppenders (λ _, False) i g2 Hk2) as Hk3. rw H3 in Hk3.
  eexists. split; [exact H3|]. split; [by destruct Hk3|].
  assert (∀ j lj, loggers g1 !! j = Some lj → lg_level lj = 100%Z → m_appenders lj = [] →
    ∃ l', loggers (upd_logger i (with_appenders [] l2) g2) !! j = Some l' ∧
      lg_level l' = 100%Z ∧ m_appenders l' = []) as Hkeep.
  { intros j lj Hj Hlv Haps. cbn. rw insert_insert_eq. destruct (decide (i = j)) as [->|Hne].
    - rw lookup_insert_eq. by eexists.
    - rw lookup_insert_ne; [done|]. by eexists. }
  split.
  - exists i, (with_appenders [] l2). split; [done|]. split; [apply lookup_insert_eq|done].
  - intros n Hn. destruct (Hs1 n Hn) as (j & lj & Hj & Hlj & Hlv & Haps).
    destruct (Hkeep j lj Hlj Hlv Haps) as (l' & Hl' & Hlv' & Haps'). by exists j, l'.
Qed.

Lemma drop_all old : ∀ g, wf_log g → ∃ g', miter (drop_define []) old g = Ret tt g' ∧ wf_log g' ∧
  (∀ d, d ∈ old → silent g' (ld_name d)) ∧ ∀ n, silent g n → silent g' n.
Proof.
  induction old as [|d old IH]; intros g Hwf.
  { exists g. split; [done|]. split; [done|]. split; [by intros d ?%elem_of_nil|done]. }
  destruct (drop_ok d g Hwf) as (g1 & H1 & Hwf1 & Hs1 & Hk1).
  destruct (IH g1 Hwf1) as (g2 & H2 & Hwf2 & Hs2 & Hk2).
  exists g2. cbn [miter]. rw (bind_Ret _ _ _ _ _ H1). split; [done|]. split; [done|].
  split; [|auto]. intros d' [->|Hd']%elem_of_cons; auto.
Qed.

Lemma silent_log name g level e :
  silent g name → (level < 100)%Z → ∃ i, m_loggers g !! name = Some i ∧
    log strftime env i level e g = Ret tt g.
Proof.
  intros (i & l & Hi & Hl & Hlv & _) Hlevel. exists i. split; [done|].
  unfold log. cbn [log_fuel]. erewrite bind_Ret by (unfold logger; mrun; by rw Hl). cbv beta.
  rw Hlv. by destruct (Z.leb_spec 100 level); [lia|].
Qed.
End listener_effects.

(** * Properties *)

(** A definition written as YAML text and read back is the definition with all its levels
    set to [UNKNOW]: the level of a logger is only read if the document has a key ["levle"], and
    the level of an appender is never read. Everything else survives, and the set of
    definitions is read in the order of the names. *)
Theorem define_roundtrip `{Y : Yaml} `{!YamlLaws} d :
  good_define d = true →
  from_str (LogDefine_to_str d) = Some (forget_levels d) ∧
  load (LogDefine_to_str d) ≠ None.
Proof.
  intros Hd. split; [by apply LogDefine_roundtrip_eq|].
  unfold LogDefine_to_str. by rw load_emit.
Qed.

Lemma define_roundtrip_witness :
  let d := MkLogDefine (L "system") WARN [] [MkAppenderDfine 1 ERROR (L "%m%n") (L "a.log");
    MkAppenderDfine 2 UNKNOW [] []] in
  @from_str _ (@LogDefine_cast document_yaml) (@LogDefine_to_str document_yaml d) =
    Some (MkLogDefine (L "system") UNKNOW [] [MkAppenderDfine 1 UNKNOW (L "%m%n") (L "a.log");
      MkAppenderDfine 2 UNKNOW [] []]) ∧
  @load document_yaml (@LogDefine_to_str document_yaml d) ≠ None.
Proof. intros d. exact (@define_roundtrip document_yaml document_yaml_laws d eq_refl). Defined.

(** C29. A change of the variable [logs] that leaves one of its definitions as it was ends the
    program: the listener sets a logger only for definitions that are new or changed and then
    uses it for all, a null pointer. This is so in every state of the loggers, when the value is
    set directly and when it is loaded from text. *)
Theorem unchanged_define_crashes `{Y : Yaml} strftime env file line name
    (c : @Config (log_app strftime env file line name)) i v (new : list LogDefine) d j k s :
  vars c !! i = Some v → v_cbs v = [(k, tt)] →
  d ∈ new → set_find LogDefine_lt d (v_val v) = Some j → v_val v !! j = Some d →
  new ≠ v_val v → defines_cast.(from_str) s = Some new →
  (∃ f, @setValue (log_app strftime env file line name) (v_type v) i new c = Crash f) ∧
  (∃ f, @fromString (log_app strftime env file line name) i s c = Crash f).
Proof.
  intros Hv Hcbs Hd Hfind Hj Hne Hs.
  destruct (listener_crashes strftime env (v_val v) new d j Hd Hfind Hj (world c)) as [f Hf].
  assert (@setValue (log_app strftime env file line name) (v_type v) i new c = Crash f) as Hset.
  { rw (@setValue_eq (log_app strftime env file line name) c i v new Hv).
    rw decide_False; [done|]. unfold notify. rw Hcbs. cbn [miter].
    by rw (bind_Crash _ _ _ _ Hf). }
  split; exists f; [done|]. unfold fromString.
  erewrite bind_Ret by (unfold var_at; mrun; by rw Hv). cbv beta.
  apply bind_Crash. unfold mcatch. by rw (Hs : from_str s = Some new) Hset.
Qed.

(** When [logs] is set for the first time, the listener makes the loggers of the
    definitions and returns, but it does not hand them to the manager: every registered logger
    and the settings of every appender are what they were, and [getLogger] does not find the
    new ones. *)
Theorem new_defines_lost strftime env new g :
  logs_ok g →
  forallb (λ d, forallb (λ a, (d_type a =? 1) || (d_type a =? 2))%Z (ld_appenders d)) new = true →
  ∃ g', on_logger_conf_changed strftime env [] new g = Ret tt g' ∧
    m_loggers g' = m_loggers g ∧
    (∀ name i, m_loggers g !! name = Some i → loggers g' !! i = loggers g !! i) ∧
    ∀ ap a, appenders g !! ap = Some a → settings <$> appenders g' !! ap = Some (settings a).
Proof.
  intros Hok Htypes. pose proof Hok as [Hwf _].
  destruct (log_root_ok strftime env INFO log_cc 696 (L "on_logger_conf_changed") g Hok)
    as (g1 & H1 & _ & Hs1).
  destruct (apply_all_new env (next_id g) new g1) as (g2 & H2 & Hg2 & Hl2);
    [by destruct Hs1 as (_ & _ & _ & -> & _)|done|].
  pose proof (grow_trans _ _ _ _ (grow_same (next_id g) _ _ Hs1) Hg2) as (Hm & _ & _ & Hset).
  exists g2. unfold on_logger_conf_changed.
  rw (bind_Ret _ _ _ _ _ H1) (bind_Ret _ _ _ _ _ H2). split; [done|]. split; [done|]. split.
  - intros name i Hi. destruct (wf_named _ Hwf name i Hi) as (l & Hl & _).
    rw Hl2; [apply (wf_logger_ids _ Hwf); by rw Hl|]. by destruct Hs1 as [-> _].
  - intros ap a Ha. rw Hset; [apply (wf_appender_ids _ Hwf); by rw Ha|]. by rw Ha.
Qed.

(** When all definitions are removed from [logs], the loggers of their names print nothing
    any more, at none of the levels of [LogLevel]. *)
Theorem deleted_defines_silent strftime env old g :
  logs_ok g → ∃ g', on_logger_conf_changed strftime env old [] g = Ret tt g' ∧
  ∀ d level e, d ∈ old → (level <= FATAL)%Z → ∃ i, m_loggers g' !! ld_name d = Some i ∧
    log strftime env i level e g' = Ret tt g'.
Proof.
  intros Hok.
  destruct (log_root_ok strftime env INFO log_cc 696 (L "on_logger_conf_changed") g Hok)
    as (g1 & H1 & [Hwf1 _] & _).
  destruct (drop_all old g1 Hwf1) as (g2 & H2 & _ & Hs & _).
  exists g2. unfold on_logger_conf_changed. split.
  { rw (bind_Ret _ _ _ _ _ H1). by erewrite bind_Ret by done. }
  intros d level e Hd Hlevel. apply silent_log; [by apply Hs|]. unfold FATAL in Hlevel. lia.
Qed.

(** ** Witnesses *)

Lemma started_logs_ok : logs_ok (started ∅ default_formatter).
Proof.
  split; [apply started_wf|]. intros r lr ap a _ _ _ Ha. unfold started in Ha. cbn [appenders] in Ha.
  apply lookup_singleton_Some in Ha as [_ <-]. by eexists.
Qed.

Definition sample_env : Env := MkEnv 5 1 0 (L "main") (λ _, true) (λ _, true).
Definition sample_define : LogDefine :=
  MkLogDefine (L "system") INFO (L "%m%n") [MkAppenderDfine 2 WARN [] []].

Lemma new_defines_lost_witness : ∃ g',
  on_logger_conf_changed (λ _ _, []) sample_env [] [sample_define] (started ∅ default_formatter) =
    Ret tt g' ∧ m_loggers g' = {[L "root" := 0]}.
Proof.
  destruct (new_defines_lost (λ _ _, []) sample_env [sample_define] (started ∅ default_formatter)
    started_logs_ok eq_refl) as (g' & H & Hm & _).
  exists g'. split; [exact H|exact Hm].
Defined.

Lemma deleted_defines_silent_witness : ∃ g',
  on_logger_conf_changed (λ _ _, []) sample_env [sample_define] [] (started ∅ default_formatter) =
    Ret tt g' ∧
  ∀ d level e, d ∈ [sample_define] → (level <= FATAL)%Z → ∃ i,
    m_loggers g' !! ld_name d = Some i ∧ log (λ _ _, []) sample_env i level e g' = Ret tt g'.
Proof.
  exact (deleted_defines_silent (λ _ _, []) sample_env [sample_define] (started ∅ default_formatter)
    started_logs_ok).
Defined.

Definition kept_define : LogDefine := MkLogDefine (L "root") UNKNOW [] [].
Definition added_define : LogDefine := MkLogDefine (L "system") UNKNOW [] [].
Definition sample_text : str :=
  default [] (@set_to_str document_yaml _ (@LogDefine_cast document_yaml)
    [kept_define; added_define]).

(** The variable [logs] with the definition of one logger, and its listener. *)
Definition logs_app : ConfigApp :=
  @log_app document_yaml (λ _ _, []) sample_env log_cc 0 (L "set").
Definition logs_var : @ConfigVar logs_app :=
  @MkVar logs_app tt (L "logs") (L "logs config") [kept_define] [(1%Z, tt)].
Definition logs_config : @Config logs_app :=
  @MkConfig logs_app [logs_var] {[L "logs" := 0]} (λ _, 1%Z) (started ∅ default_formatter).

Lemma unchanged_define_crashes_witness :
  (∃ f, @setValue logs_app tt 0 [kept_define; added_define] logs_config = Crash f) ∧
  (∃ f, @fromString logs_app 0 sample_text logs_config = Crash f).
Proof.
  refine (@unchanged_define_crashes document_yaml (λ _ _, []) sample_env log_cc 0 (L "set")
    logs_config 0 logs_var [kept_define; added_define] kept_define 0 1 sample_text
    eq_refl eq_refl _ eq_refl eq_refl _ _).
  - by left.
  - done.
  - vm_compute. reflexivity.
Defined.
