(* ===== verification/Locks.v ===== *)
(** The locks of duan_src/thread.h: [Mutex], [RWMutex], [Spinlock], [CASLock], the
    null locks, and the scoped locks that the rest of the program takes them with.

    What the scoped locks use of a lock is the class [Lockable]; what a lock promises
    them is [LockSpec].  The classes around a pthread object forward to it, so they
    keep the promise if the object does; [CASLock] is implemented here and keeps it by
    its own invariant.  A call that would block is one that cannot happen yet. *)

From S2P Require Import Prelude.

(** * Lockable types *)

(** [rdlock] takes a lock [Shared]; [wrlock], or [lock] where there is only that,
    takes it [Exclusive]. *)
Inductive mode := Shared | Exclusive.
#[export] Instance mode_eq : EqDecision mode.
Proof. solve_decision. Defined.

(** The members a scoped lock calls, by thread.  [acquire] is [None] while the call
    blocks; [release] is [None] where it is undefined. *)
Class Lockable (T : Type) := {
  lk_new : T;
  acquire : mode → nat → T → option T;
  release : nat → T → option T
}.

(** The documented behaviour: who holds the lock, and how.  An exclusive holder is
    alone, a holder can release, and a lock that nobody holds can be taken. *)
Class LockSpec (T : Type) `{!Lockable T} := {
  supports : mode → bool;
  lock_ok : T → Prop;
  holders : T → list (nat * mode);
  spec_new : lock_ok lk_new ∧ holders lk_new = [];
  spec_acquire m t x y : lock_ok x → acquire m t x = Some y →
    lock_ok y ∧ holders y ≡ₚ (t, m) :: holders x ∧
    match m with
    | Exclusive => holders x = []
    | Shared => ∀ u, (u, Exclusive) ∉ holders x
    end;
  spec_release m t x : lock_ok x → (t, m) ∈ holders x →
    ∃ y, release t x = Some y ∧ lock_ok y ∧ holders x ≡ₚ (t, m) :: holders y;
  spec_free m t x : lock_ok x → holders x = [] → supports m = true →
    is_Some (acquire m t x)
}.

(** * The classes around a pthread object *)

Section pthread.
Context {P : Type} `{!Lockable P}.

(** [Mutex] with its [pthread_mutex_t]. *)
Record Mutex := MkMutex { m_mutex : P }.
Definition Mutex_new : Mutex := MkMutex lk_new.
Definition Mutex_lock (t : nat) (x : Mutex) : option Mutex :=
  MkMutex <$> acquire Exclusive t (m_mutex x).
Definition Mutex_unlock (t : nat) (x : Mutex) : option Mutex := MkMutex <$> release t (m_mutex x).

(** [RWMutex] with its [pthread_rwlock_t]. *)
Record RWMutex := MkRWMutex { m_lock : P }.
Definition RWMutex_new : RWMutex := MkRWMutex lk_new.
Definition rdlock (t : nat) (x : RWMutex) : option RWMutex :=
  MkRWMutex <$> acquire Shared t (m_lock x).
Definition wrlock (t : nat) (x : RWMutex) : option RWMutex :=
  MkRWMutex <$> acquire Exclusive t (m_lock x).
Definition RWMutex_unlock (t : nat) (x : RWMutex) : option RWMutex :=
  MkRWMutex <$> release t (m_lock x).

(** [Spinlock] with its [pthread_spinlock_t]. *)
Record Spinlock := MkSpinlock { s_mutex : P }.
Definition Spinlock_new : Spinlock := MkSpinlock lk_new.
Definition Spinlock_lock (t : nat) (x : Spinlock) : option Spinlock :=
  MkSpinlock <$> acquire Exclusive t (s_mutex x).
Definition Spinlock_unlock (t : nat) (x : Spinlock) : option Spinlock :=
  MkSpinlock <$> release t (s_mutex x).

(** A class with [lock] only has no member for the mode [Shared]. *)
#[export] Instance Mutex_lockable : Lockable Mutex := {|
  lk_new := Mutex_new;
  acquire m := match m with Exclusive => Mutex_lock | Shared => λ _ _, None end;
  release := Mutex_unlock
|}.
#[export] Instance RWMutex_lockable : Lockable RWMutex := {|
  lk_new := RWMutex_new;
  acquire m := match m with Exclusive => wrlock | Shared => rdlock end;
  release := RWMutex_unlock
|}.
#[export] Instance Spinlock_lockable : Lockable Spinlock := {|
  lk_new := Spinlock_new;
  acquire m := match m with Exclusive => Spinlock_lock | Shared => λ _ _, None end;
  release := Spinlock_unlock
|}.
End pthread.
Arguments Mutex : clear implicits.
Arguments RWMutex : clear implicits.
Arguments Spinlock : clear implicits.

(** [NullMutex] and [NullRWMutex]: nothing happens. *)
Definition NullMutex : Type := unit.
#[export] Instance NullMutex_lockable : Lockable NullMutex := {|
  lk_new := tt;
  acquire _ _ x := Some x;
  release _ x := Some x
|}.

(** * [CASLock] *)

(** The flag, and for each thread whether it spins in [lock] or holds the lock. *)
Inductive lock_pc := Spinning | Holding.
Record CASLock := MkCas { flag : bool; users : gmap nat lock_pc }.
Definition CASLock_new : CASLock := MkCas false ∅.

(** A thread calls [lock], one round of its loop, and [unlock] by the holder. *)
Definition cas_enter (i : nat) (x : CASLock) : option CASLock :=
  match users x !! i with
  | None => Some (MkCas (flag x) (<[i := Spinning]> (users x)))
  | Some _ => None
  end.
Definition cas_spin (i : nat) (x : CASLock) : option CASLock :=
  match users x !! i with
  | Some Spinning =>
      (* test_and_set: the old value of the flag decides, the new one is true *)
      Some (MkCas true (if flag x then users x else <[i := Holding]> (users x)))
  | _ => None
  end.
Definition cas_unlock (i : nat) (x : CASLock) : option CASLock :=
  match users x !! i with
  | Some Holding => Some (MkCas false (delete i (users x)))
  | _ => None
  end.

Inductive cas_reachable : CASLock → Prop :=
  | cas_start : cas_reachable CASLock_new
  | cas_do x y i : cas_reachable x →
      cas_enter i x = Some y ∨ cas_spin i x = Some y ∨ cas_unlock i x = Some y → cas_reachable y.

(** The call of [lock] as a whole: its loop ends with the round that finds the flag
    clear. *)
Definition cas_lock (i : nat) (x : CASLock) : option CASLock :=
  if flag x then None else y ← cas_enter i x; cas_spin i y.
#[export] Instance CASLock_lockable : Lockable CASLock := {|
  lk_new := CASLock_new;
  acquire m := match m with Exclusive => cas_lock | Shared => λ _ _, None end;
  release := cas_unlock
|}.

(** * Scoped locks *)

(** [ScopedLockImpl], [WriteScopedLockImpl] ([Exclusive]) and [ReadScopedLockImpl]
    ([Shared]). *)
Record Scoped := MkScoped { sc_mode : mode; m_locked : bool }.

Section scoped.
Context {T : Type} `{!Lockable T}.

(** The constructor; [None]: it blocks. *)
Definition Scoped_new (m : mode) (t : nat) (x : T) : option (Scoped * T) :=
  y ← acquire m t x; Some (MkScoped m true, y).

(** [lock]; that of [ReadScopedLockImpl] calls a member [lock] of its mutex, which a
    lock with [rdlock] does not have. *)
Definition scoped_lock (t : nat) (s : Scoped) (x : T) : option (Scoped * T) :=
  match sc_mode s with
  | Shared => None
  | Exclusive =>
      if negb (m_locked s) then y ← acquire Exclusive t x; Some (MkScoped Exclusive true, y)
      else Some (s, x)
  end.

(** [unlock] *)
Definition scoped_unlock (t : nat) (s : Scoped) : M T Scoped := λ x,
  if m_locked s then
    match release t x with
    | Some y => Ret (MkScoped (sc_mode s) false) y
    | None => Crash (Undefined "unlock of a lock that is not held")
    end
  else Ret s x.

(** One lock, and for each thread the scoped locks on it, the innermost first. *)
Record Threads := MkThreads { the_lock : T; scopes : gmap nat (list Scoped) }.
Definition scopes_of (t : nat) (w : Threads) : list Scoped := default [] (scopes w !! t).
Definition put (t : nat) (l : list Scoped) (y : T) (w : Threads) : Threads :=
  MkThreads y (<[t := l]> (scopes w)).

(** A thread declares a scoped lock, calls [lock] or [unlock] of one it has, or leaves
    the innermost scope, which destroys it. *)
Inductive lock_op := Enter (m : mode) | Relock (i : nat) | Unlock (i : nat) | Leave.
Definition lock_step (t : nat) (op : lock_op) (w : Threads) : option (result Threads unit) :=
  let l := scopes_of t w in
  match op with
  | Enter m =>
      '(s, y) ← Scoped_new m t (the_lock w);
      Some (Ret tt (put t (s :: l) y w))
  | Relock i =>
      s ← l !! i;
      '(s', y) ← scoped_lock t s (the_lock w);
      Some (Ret tt (put t (<[i := s']> l) y w))
  | Unlock i =>
      s ← l !! i;
      Some match scoped_unlock t s (the_lock w) with
           | Ret s' y => Ret tt (put t (<[i := s']> l) y w)
           | Throw e y => Throw e (put t l y w)
           | Crash f => Crash f
           end
  | Leave =>
      match l with
      | [] => None
      | s :: l' =>
          Some match scoped_unlock t s (the_lock w) with
               | Ret _ y => Ret tt (put t l' y w)
               | Throw e y => Throw e (put t l' y w)
               | Crash f => Crash f
               end
      end
  end.

Definition lock_start : Threads := MkThreads lk_new ∅.
Inductive lock_reachable : Threads → Prop :=
  | reach_start : lock_reachable lock_start
  | reach_step t op w w' :
      lock_reachable w → lock_step t op w = Some (Ret tt w') → lock_reachable w'.

(** The same, computed. *)
Fixpoint lock_run (ops : list (nat * lock_op)) (w : Threads) : option Threads :=
  match ops with
  | [] => Some w
  | (t, op) :: ops =>
      match lock_step t op w with Some (Ret tt w') => lock_run ops w' | _ => None end
  end.

(** The scoped lock [i] of thread [t] holds the lock. *)
Definition locked_at (t i : nat) (s : Scoped) (w : Threads) : Prop :=
  scopes_of t w !! i = Some s ∧ m_locked s = true.
End scoped.
Arguments Threads : clear implicits.

(** * Specification *)

Section spec.
Context {T : Type} `{!Lockable T, !LockSpec T}.
Implicit Types (w : Threads T) (l : list Scoped) (x y : T).

(** How many of the scoped locks hold the lock in this mode. *)
Definition holding (m : mode) l : nat :=
  length (filter (λ s, m_locked s = true ∧ sc_mode s = m) l).

(** An exclusive holder is alone. *)
Definition exclusive (x : T) : Prop := ∀ t, (t, Exclusive) ∈ holders x → length (holders x) = 1.

(** What holds the lock are the scoped locks, thread by thread. *)
Definition locks_inv w : Prop :=
  lock_ok (the_lock w) ∧ exclusive (the_lock w) ∧
  ∀ t m, occurrences (t, m) (holders (the_lock w)) = holding m (scopes_of t w).

Definition adds_one (m : mode) (s : Scoped) : nat :=
  if decide (m_locked s = true ∧ sc_mode s = m) then 1 else 0.

Lemma holding_cons m s l : holding m (s :: l) = adds_one m s + holding m l.
Proof. unfold holding, adds_one. rw filter_cons. by destruct (decide _). Qed.

Lemma holding_insert m l : ∀ i s s', l !! i = Some s →
  holding m (<[i := s']> l) + adds_one m s = holding m l + adds_one m s'.
Proof.
  induction l as [|s0 l IH]; intros [|i] s s' H; try done.
  - injection H as ->. change (<[0 := s']> (s :: l)) with (s' :: l). rw !holding_cons. lia.
  - change (<[S i := s']> (s0 :: l)) with (s0 :: <[i := s']> l). rw !holding_cons. specialize (IH i s s' H). lia.
Qed.

Lemma scopes_put t l y w u : scopes_of u (put t l y w) = if decide (u = t) then l else scopes_of u w.
Proof.
  unfold scopes_of, put. cbn. destruct (decide (u = t)) as [->|Hne].
  - by rw lookup_insert_eq.
  - by rw lookup_insert_ne.
Qed.

Lemma exclusive_acquired m t x y :
  lock_ok x → exclusive x → acquire m t x = Some y → exclusive y.
Proof.
  intros Hok Hex Ha u Hu. destruct (spec_acquire m t x y Hok Ha) as (_ & Hp & Hm). rw Hp in Hu. rw Hp.
  destruct m.
  - apply elem_of_cons in Hu as [Hu|Hu]; [done|]. by destruct (Hm u).
  - by rw Hm.
Qed.

Lemma exclusive_released m t x y :
  exclusive x → holders x ≡ₚ (t, m) :: holders y → exclusive y.
Proof.
  intros Hex Hp u Hu. assert (length (holders x) = 1) as Hl by (apply (Hex u); rw Hp; by right).
  rw Hp in Hl. cbn in Hl. destruct (holders y); [by apply elem_of_nil in Hu|]. cbn in Hl. lia.
Qed.

(** Taking and giving back, for a thread with [l] scopes of which one changes from not
    holding to holding, or back. *)
Lemma acquire_inv m t y l w :
  locks_inv w → acquire m t (the_lock w) = Some y →
  (∀ m', holding m' l = holding m' (scopes_of t w) + (if decide (m = m') then 1 else 0)) →
  locks_inv (put t l y w).
Proof.
  intros (Hok & Hex & Hocc) Ha Hl.
  destruct (spec_acquire m t _ y Hok Ha) as (Hok' & Hp & _).
  split; [done|]. split; [exact (exclusive_acquired m t _ y Hok Hex Ha)|]. intros u m'. cbn [the_lock put].
  rw Hp occurrences_cons Hocc scopes_put. destruct (decide (u = t)) as [->|Hne].
  - rw Hl. destruct (decide (m = m')) as [->|Hm]; [rw decide_True; [done|lia]|].
    rw decide_False; [naive_solver|lia].
  - by rw decide_False; [naive_solver|].
Qed.

Lemma release_inv m t s l w :
  locks_inv w → m_locked s = true → sc_mode s = m →
  (∀ m', holding m' (scopes_of t w) = holding m' l + (if decide (m = m') then 1 else 0)) →
  ∃ y, scoped_unlock t s (the_lock w) = Ret (MkScoped m false) y ∧ locks_inv (put t l y w).
Proof.
  intros (Hok & Hex & Hocc) Hs Hm Hl.
  assert ((t, m) ∈ holders (the_lock w)) as Hin.
  { apply occurrences_in. rw Hocc Hl decide_True; [done|lia]. }
  destruct (spec_release m t _ Hok Hin) as (y & Hy & Hok' & Hp).
  exists y. split; [unfold scoped_unlock; by rw Hs Hy Hm|].
  split; [done|]. split; [exact (exclusive_released m t _ y Hex Hp)|]. intros u m'. cbn [the_lock put].
  specialize (Hocc u m'). rw Hp occurrences_cons in Hocc. rw scopes_put.
  destruct (decide (u = t)) as [->|Hne].
  - rw Hl in Hocc. destruct (decide (m = m')) as [->|Hmm]; [rw decide_True in Hocc; [done|lia]|].
    rw decide_False in Hocc; [naive_solver|lia].
  - by rw decide_False in Hocc; [naive_solver|].
Qed.

Lemma keep_inv t l w :
  locks_inv w → (∀ m, holding m l = holding m (scopes_of t w)) → locks_inv (put t l (the_lock w) w).
Proof.
  intros (Hok & Hex & Hocc) Hl. split; [done|]. split; [done|]. intros u m.
  cbn [the_lock put]. rw Hocc scopes_put. by destruct (decide (u = t)) as [->|].
Qed.

Lemma unlocked_adds m s : m_locked s = false → adds_one m s = 0.
Proof. unfold adds_one. destruct (decide _) as [[-> _]|]; done. Qed.
Lemma locked_adds m m' : adds_one m' (MkScoped m true) = if decide (m = m') then 1 else 0.
Proof.
  unfold adds_one. cbn. destruct (decide (m = m')), (decide _); naive_solver.
Qed.

(** The destructor, and [unlock], as a step. *)
Lemma unlock_inv t s l w :
  locks_inv w →
  (∀ m, holding m (scopes_of t w) = holding m l + adds_one m s) →
  ∃ s' y, scoped_unlock t s (the_lock w) = Ret s' y ∧ m_locked s' = false ∧
    locks_inv (put t l y w).
Proof.
  intros Hinv Hl. destruct (m_locked s) eqn:Hs.
  - destruct (release_inv (sc_mode s) t s l w) as (y & Hy & Hinv'); [done..| |by eexists _, y].
    intros m. rw Hl. destruct s as [m0 b]. cbn in Hs. subst b. by rw locked_adds.
  - exists s, (the_lock w). split; [unfold scoped_unlock; by rw Hs|]. split; [done|].
    apply keep_inv; [done|]. intros m. rw Hl (unlocked_adds m s Hs). lia.
Qed.

Lemma step_inv t op w r :
  locks_inv w → lock_step t op w = Some r →
  match r with Ret _ w' => locks_inv w' | _ => False end.
Proof.
  intros Hinv. unfold lock_step. destruct op as [m|i|i|].
  - unfold Scoped_new. destruct (acquire m t (the_lock w)) as [y|] eqn:Ha; [|done].
    intros [= <-]. eapply acquire_inv; [done|exact Ha|].
    intros m'. rw holding_cons locked_adds. lia.
  - destruct (scopes_of t w !! i) as [s|] eqn:Hs; [|done]. cbn. unfold scoped_lock.
    destruct (sc_mode s) eqn:Hm; [done|]. destruct (m_locked s) eqn:Hl; cbn [negb].
    + intros [= <-]. apply keep_inv; [done|]. intros m. by rw list_insert_id.
    + destruct (acquire Exclusive t (the_lock w)) as [y|] eqn:Ha; [|done]. intros [= <-].
      eapply acquire_inv; [done|exact Ha|]. intros m'.
      pose proof (holding_insert m' _ i s (MkScoped Exclusive true) Hs) as H.
      rw (unlocked_adds m' s Hl) locked_adds in H. lia.
  - destruct (scopes_of t w !! i) as [s|] eqn:Hs; [|done]. cbn [mbind option_bind]. intros [= <-].
    (* the scope stays, unlocked *)
    assert (∀ s' m, m_locked s' = false →
      holding m (scopes_of t w) = holding m (<[i := s']> (scopes_of t w)) + adds_one m s) as H.
    { intros s' m Hs'. pose proof (holding_insert m _ i s s' Hs) as H.
      rw (unlocked_adds m s' Hs') in H. lia. }
    destruct (m_locked s) eqn:Hl.
    + destruct (unlock_inv t s (<[i := MkScoped (sc_mode s) false]> (scopes_of t w)) w Hinv) as
        (s' & y & Hu & _ & Hinv'); [intros m; by apply H|].
      assert (s' = MkScoped (sc_mode s) false) as ->.
      { revert Hu. unfold scoped_unlock. rw Hl. by destruct (release t (the_lock w)); intros [= <- _]. }
      by rw Hu.
    + unfold scoped_unlock. rw Hl. apply keep_inv; [done|]. intros m. by rw list_insert_id.
  - destruct (scopes_of t w) as [|s l] eqn:Hs; [done|]. intros [= <-].
    destruct (unlock_inv t s l w Hinv) as (s' & y & Hu & _ & Hinv').
    { intros m. rw Hs holding_cons. lia. }
    by rw Hu.
Qed.

Lemma lock_start_inv : locks_inv (lock_start (T := T)).
Proof.
  destruct spec_new as [Hok Hh]. split; [done|]. split.
  - intros t. cbn [the_lock lock_start]. rw Hh. by intros ?%elem_of_nil.
  - intros t m. cbn [the_lock lock_start]. rw Hh. unfold scopes_of. cbn. by rw lookup_empty.
Qed.

Lemma locked_holding i s l : l !! i = Some s → m_locked s = true → 0 < holding (sc_mode s) l.
Proof.
  intros Hs Hl. pose proof (holding_insert (sc_mode s) l i s (MkScoped (sc_mode s) false) Hs) as H.
  destruct s as [m b]. cbn [sc_mode m_locked] in *. subst b. rw locked_adds decide_True in H; [done|].
  rw (unlocked_adds m (MkScoped m false)) in H; [done|lia].
Qed.
Lemma two_locked i j s s' l : l !! i = Some s → l !! j = Some s' → m_locked s = true →
  m_locked s' = true → sc_mode s' = sc_mode s → i ≠ j → 1 < holding (sc_mode s) l.
Proof.
  intros Hs Hs' Hl Hl' Hm Hne.
  pose proof (holding_insert (sc_mode s) l i s (MkScoped (sc_mode s) false) Hs) as H.
  assert (0 < holding (sc_mode s') (<[i := MkScoped (sc_mode s) false]> l)) as H'
    by (apply (locked_holding j); [by rw list_lookup_insert_ne|done]).
  rw Hm in H'. destruct s as [m b]. cbn [sc_mode m_locked] in *. subst b. rw locked_adds decide_True in H; [done|].
  rw (unlocked_adds m (MkScoped m false)) in H; [done|lia].
Qed.

Lemma holding_locked m l : 0 < holding m l → ∃ i s, l !! i = Some s ∧ m_locked s = true.
Proof.
  induction l as [|s l IH]; intros H; [by apply Nat.lt_irrefl in H|]. rw holding_cons in H.
  destruct (m_locked s) eqn:Hs; [by exists 0, s|]. rw (unlocked_adds m s Hs) in H.
  destruct (IH H) as (i & s' & Hi). by exists (S i), s'.
Qed.

Lemma reachable_inv w : lock_reachable w → locks_inv w.
Proof.
  induction 1 as [|t op w w' _ IH Hstep]; [apply lock_start_inv|]. exact (step_inv t op w _ IH Hstep).
Qed.
End spec.

(** * The locks of thread.h *)

Section pthread_facts.
Context {P : Type} `{!Lockable P} (Q : LockSpec P).

(** A class around a pthread object promises what the object does. *)
Definition forwards {T} `{!Lockable T} (obj : T → P) (sup : mode → bool) : Prop :=
  obj lk_new = lk_new ∧
  (∀ m t x y, acquire m t x = Some y → acquire m t (obj x) = Some (obj y)) ∧
  (∀ m t x y, sup m = true → acquire m t (obj x) = Some y → is_Some (acquire m t x)) ∧
  (∀ t x y, release t (obj x) = Some y → ∃ z, release t x = Some z ∧ obj z = y).

Program Definition forwarded {T} `{!Lockable T} (obj : T → P) (sup : mode → bool)
    (H : forwards obj sup) : LockSpec T := {|
  supports m := sup m && supports m;
  lock_ok x := lock_ok (obj x);
  holders x := holders (obj x)
|}.
Next Obligation. intros T ? obj sup (H & _). cbn. rw H. apply spec_new. Qed.
Next Obligation.
  intros T ? obj sup (_ & H & _) m t x y Hok Ha. exact (spec_acquire m t _ _ Hok (H m t x y Ha)).
Qed.
Next Obligation.
  intros T ? obj sup (_ & _ & _ & H) m t x Hok Hin.
  destruct (spec_release m t _ Hok Hin) as (y & Hy & Hrest). destruct (H t x y Hy) as (z & Hz & <-).
  by exists z.
Qed.
Next Obligation.
  intros T ? obj sup (_ & _ & H & _) m t x Hok Hh [Hs Hm]%andb_prop.
  destruct (spec_free m t _ Hok Hh Hm) as [y Hy]. by eapply H.
Qed.

Definition only_exclusive (m : mode) : bool := match m with Exclusive => true | Shared => false end.

Ltac forward_calls mk :=
  split; [done|]; split; [|split];
  [ intros [] t [x] [y] H; try discriminate H;
      apply fmap_Some in H as (z & Hz & [= ->]); exact Hz
  | intros [] t [x] y Hs H; try discriminate Hs; eexists; apply fmap_Some; by exists y
  | intros t [x] y H; exists (mk y); split; [|done]; apply fmap_Some; by exists y ].

Lemma Mutex_forwards : forwards (T := Mutex P) m_mutex only_exclusive.
Proof. forward_calls (MkMutex (P := P)). Qed.
Lemma Spinlock_forwards : forwards (T := Spinlock P) s_mutex only_exclusive.
Proof. forward_calls (MkSpinlock (P := P)). Qed.
Lemma RWMutex_forwards : forwards (T := RWMutex P) m_lock (λ _, true).
Proof. forward_calls (MkRWMutex (P := P)). Qed.
End pthread_facts.

#[export] Instance Mutex_spec `{!Lockable P} (Q : LockSpec P) : LockSpec (Mutex P) :=
  forwarded Q m_mutex only_exclusive Mutex_forwards.
#[export] Instance Spinlock_spec `{!Lockable P} (Q : LockSpec P) : LockSpec (Spinlock P) :=
  forwarded Q s_mutex only_exclusive Spinlock_forwards.
#[export] Instance RWMutex_spec `{!Lockable P} (Q : LockSpec P) : LockSpec (RWMutex P) :=
  forwarded Q m_lock (λ _, true) RWMutex_forwards.

(** ** [CASLock] *)

Lemma cas_inv x : cas_reachable x →
  if flag x then ∃ i, users x !! i = Some Holding ∧
    ∀ j, users x !! j = Some Holding → j = i
  else ∀ i, users x !! i ≠ Some Holding.
Proof.
  induction 1 as [|x y i _ IH [Hy|[Hy|Hy]]]; [by intros i|..].
  - unfold cas_enter in Hy. destruct (users x !! i) eqn:Hi; [done|]. injection Hy as <-. cbn.
    assert (∀ j, <[i:=Spinning]> (users x) !! j = Some Holding ↔ users x !! j = Some Holding) as Hj.
    { intros j. destruct (decide (i = j)) as [->|Hne]; [|by rw lookup_insert_ne].
      rw lookup_insert_eq Hi. done. }
    destruct (flag x).
    + destruct IH as (k & Hk & Hu). exists k. split; [by apply Hj|]. intros j Hj'. by apply Hu, Hj.
    + intros j Hj'. by apply (IH j), Hj.
  - unfold cas_spin in Hy. destruct (users x !! i) as [[]|] eqn:Hi; try done. injection Hy as <-.
    cbn. destruct (flag x); [done|]. exists i. split; [by rw lookup_insert_eq|].
    intros j. destruct (decide (i = j)) as [->|Hne]; [done|]. rw lookup_insert_ne; [done|].
    intros Hj. by destruct (IH j).
  - unfold cas_unlock in Hy. destruct (users x !! i) as [[]|] eqn:Hi; try done. injection Hy as <-.
    cbn. intros j. destruct (decide (i = j)) as [->|Hne]; [by rw lookup_delete_eq|].
    rw lookup_delete_ne; [done|]. intros Hj. destruct (flag x).
    + destruct IH as (k & _ & Hu). apply Hne. rw (Hu i Hi). by rw (Hu j Hj).
    + by destruct (IH j).
Qed.

(** With no thread in the loop of [lock]. *)
Definition cas_quiet (x : CASLock) : Prop :=
  x = MkCas false ∅ ∨ ∃ i, x = MkCas true {[i := Holding]}.

Lemma cas_lock_quiet i x y : cas_quiet x → cas_lock i x = Some y →
  x = MkCas false ∅ ∧ y = MkCas true {[i := Holding]}.
Proof.
  intros [-> |[j ->]] H; [|done]. split; [done|].
  unfold cas_lock, cas_enter, cas_spin in H. cbn in H. rw lookup_empty in H.
  cbn in H. rw lookup_insert_eq in H. injection H as <-. f_equal. apply insert_insert_eq.
Qed.

#[export] Program Instance CASLock_spec : LockSpec CASLock := {|
  supports := only_exclusive;
  lock_ok := cas_quiet;
  holders x := (λ kv, (kv.1, Exclusive)) <$> map_to_list (users x)
|}.
Next Obligation. split; [by left|done]. Qed.
Next Obligation.
  intros [] t x y Hx H; [done|]. destruct (cas_lock_quiet t x y Hx H) as [-> ->]. cbn.
  split; [right; by exists t|]. rw map_to_list_singleton map_to_list_empty. done.
Qed.
Next Obligation.
  intros m t x [-> |[i ->]] Hin; cbn in Hin.
  - rw map_to_list_empty in Hin. by apply elem_of_nil in Hin.
  - rw map_to_list_singleton in Hin. apply list_elem_of_singleton in Hin as [= -> ->].
    exists (MkCas false ∅). cbn. unfold cas_unlock. cbn. rw lookup_singleton_eq delete_singleton_eq.
    split; [done|]. split; [by left|]. by rw map_to_list_singleton map_to_list_empty.
Qed.
Next Obligation.
  intros [] t x Hx Hh Hs; [done|]. destruct Hx as [-> |[i ->]].
  - eexists. cbn. unfold cas_lock, cas_enter, cas_spin. cbn. rw lookup_empty. cbn.
    by rw lookup_insert_eq.
  - cbn in Hh. by rw map_to_list_singleton in Hh.
Qed.

(** ** A lock object *)

(** Who holds it, as a list: what the system keeps. *)
Definition held_list : Type := list (nat * mode).
Definition free_of_writers (l : held_list) : bool :=
  forallb (λ h, bool_decide (h.2 = Shared)) l.
Fixpoint drop_holder (t : nat) (l : held_list) : option held_list :=
  match l with
  | [] => None
  | h :: l => if decide (h.1 = t) then Some l else cons h <$> drop_holder t l
  end.
#[export] Instance list_lockable : Lockable held_list := {|
  lk_new := [];
  acquire m t l :=
    match m with
    | Exclusive => if decide (l = []) then Some [(t, m)] else None
    | Shared => if free_of_writers l then Some ((t, m) :: l) else None
    end;
  release := drop_holder
|}.

Lemma free_of_writers_spec l :
  free_of_writers l = true ↔ ∀ t m, (t, m) ∈ l → m = Shared.
Proof.
  unfold free_of_writers. rw forallb_forall. split.
  - intros H t m Hin%list_elem_of_In. by apply H, bool_decide_eq_true in Hin.
  - intros H [t m] Hin%list_elem_of_In. by apply bool_decide_eq_true, (H t).
Qed.

Lemma drop_holder_spec t m l : (t, m) ∈ l → (∀ m', (t, m') ∈ l → m' = m) →
  ∃ l', drop_holder t l = Some l' ∧ l ≡ₚ (t, m) :: l'.
Proof.
  induction l as [|[u m'] l IH]; intros Hin Hm; [by apply elem_of_nil in Hin|]. cbn.
  destruct (decide (u = t)) as [->|Hne].
  - exists l. split; [done|]. by rw (Hm m'); [left|].
  - destruct IH as (l' & -> & Hp).
    + apply elem_of_cons in Hin as [[= -> _]|Hin]; done.
    + intros m2 H2. apply Hm. by right.
    + eexists. split; [done|]. rw Hp. apply Permutation_swap.
Qed.

#[export] Program Instance list_spec : LockSpec held_list := {|
  supports _ := true;
  lock_ok l := free_of_writers l = true ∨ ∃ t, l = [(t, Exclusive)];
  holders l := l
|}.
Next Obligation. split; [by left|done]. Qed.
Next Obligation.
  intros [] t x y Hx H; unfold acquire, list_lockable in H.
  - destruct (free_of_writers x) eqn:Hf; [|done]. injection H as <-. split; [by left|].
    split; [done|]. intros u Hu. by apply (proj1 (free_of_writers_spec x) Hf) in Hu.
  - case_decide as Hx'; [|done]. subst x. injection H as <-.
    split; [right; by exists t|done].
Qed.
Next Obligation.
  intros m t x Hx Hin. cbn in *.
  assert (∀ m', (t, m') ∈ x → m' = m) as Hm.
  { intros m' Hin'. destruct Hx as [Hf|[u ->]].
    - apply (proj1 (free_of_writers_spec x) Hf) in Hin as ->.
      by apply (proj1 (free_of_writers_spec x) Hf) in Hin'.
    - apply list_elem_of_singleton in Hin, Hin'. congruence. }
  destruct (drop_holder_spec t m x Hin Hm) as (y & Hy & Hp). exists y. split; [done|]. split; [|done].
  destruct Hx as [Hf|[u ->]]; left.
  - apply free_of_writers_spec. intros u m' Hu.
    apply (proj1 (free_of_writers_spec x) Hf u). rw Hp. by right.
  - apply Permutation_length in Hp. by destruct y.
Qed.
Next Obligation. intros [] t x Hx Hh Hs; cbn in Hh; subst x; eexists; reflexivity. Qed.

(** * Properties *)

(** C17. Any number of threads with scoped locks on one lock, which they enter, unlock, lock
    again and leave in any order.  If the lock does what is documented of it, [unlock] is
    never called where it is undefined; a scoped lock that holds the lock exclusively is
    the only one, of all threads, that holds it; and when none holds it, it can be taken. *)
Theorem scoped_exclusion {T} `{!Lockable T, !LockSpec T} (w : Threads T) :
  lock_reachable w →
  (∀ t op f, lock_step t op w ≠ Some (Crash f)) ∧
  (∀ t i s u j s', locked_at t i s w → locked_at u j s' w → sc_mode s = Exclusive →
     u = t ∧ j = i) ∧
  ((∀ t i s, ¬ locked_at t i s w) → ∀ m t, supports m = true →
     is_Some (lock_step t (Enter m) w)).
Proof.
  intros Hw. pose proof (reachable_inv w Hw) as Hinv. destruct Hinv as (Hok & Hex & Hocc).
  split; [|split].
  - intros t op f H. by apply (step_inv t op w _ (reachable_inv w Hw)) in H.
  - intros t i s u j s' [Hs Hl] [Hs' Hl'] Hm.
    assert ((t, Exclusive) ∈ holders (the_lock w)) as Hin.
    { apply occurrences_in. rw Hocc -Hm. by eapply locked_holding. }
    assert ((u, sc_mode s') ∈ holders (the_lock w)) as Hin'.
    { apply occurrences_in. rw Hocc. by eapply locked_holding. }
    pose proof (Hex t Hin) as Hone. pose proof (Hocc t Exclusive) as Ht.
    destruct (holders (the_lock w)) as [|h [|]]; [done| |done].
    apply list_elem_of_singleton in Hin as <-. apply list_elem_of_singleton in Hin' as [= -> Hm'].
    split; [done|]. destruct (decide (i = j)) as [|Hne]; [done|].
    pose proof (two_locked i j s s' _ Hs Hs' Hl Hl' ltac:(congruence) Hne) as H2.
    rw Hm -Ht occurrences_cons decide_True in H2; [done|]. cbn in H2. lia.
  - intros Hno m t Hm.
    assert (holders (the_lock w) = []) as Hh.
    { destruct (holders (the_lock w)) as [|[u m'] l] eqn:Hh; [done|].
      assert (0 < holding m' (scopes_of u w)) as H by (rw -Hocc; apply occurrences_in; left).
      destruct (holding_locked _ _ H) as (i & s & Hi). by destruct (Hno u i s). }
    destruct (spec_free m t _ Hok Hh Hm) as [y Hy]. cbn. unfold Scoped_new. rw Hy. by eexists.
Qed.

Lemma lock_run_reachable {T} `{!Lockable T} ops : ∀ w w' : Threads T,
  lock_reachable w → lock_run ops w = Some w' → lock_reachable w'.
Proof.
  induction ops as [|[t op] ops IH]; intros w w' Hw H; [by injection H as <-|]. cbn in H.
  destruct (lock_step t op w) as [[[] w1| |]|] eqn:Hs; try done.
  eapply IH; [eapply reach_step; [exact Hw|exact Hs]|exact H].
Qed.

(** Two readers and a writer that waits for them; after they unlock, it gets the lock,
    and the readers' scopes end while it holds it. *)
Definition rw_ops : list (nat * lock_op) :=
  [(0, Enter Shared); (1, Enter Shared); (0, Unlock 0); (1, Unlock 0); (2, Enter Exclusive);
   (0, Leave)].
Definition rw_state : Threads (RWMutex held_list) := default lock_start (lock_run rw_ops lock_start).

Lemma scoped_exclusion_witness :
  locked_at 2 0 (MkScoped Exclusive true) rw_state ∧
  ∀ u j s', locked_at u j s' rw_state → u = 2 ∧ j = 0.
Proof.
  assert (lock_reachable rw_state) as Hr.
  { apply (lock_run_reachable rw_ops lock_start); [apply reach_start|vm_compute; reflexivity]. }
  assert (locked_at 2 0 (MkScoped Exclusive true) rw_state) as Hl by (split; vm_compute; reflexivity).
  split; [exact Hl|]. intros u j s' H.
  exact (proj1 (proj2 (scoped_exclusion rw_state Hr)) 2 0 _ u j s' Hl H eq_refl).
Defined.

(** A reader keeps a writer out, and a [CASLock] a second thread. *)
Example reader_blocks_writer :
  lock_run [(0, Enter Shared); (1, Enter Exclusive)] (lock_start (T := RWMutex held_list)) = None ∧
  lock_run [(0, Enter Exclusive); (1, Enter Exclusive)] (lock_start (T := CASLock)) = None.
Proof. split; vm_compute; reflexivity. Qed.
(** [NullMutex] keeps nobody out. *)
Example null_mutex_is_none :
  is_Some (lock_run [(0, Enter Exclusive); (1, Enter Exclusive)] (lock_start (T := NullMutex))).
Proof. vm_compute. by eexists. Qed.

(** At most one thread holds a [CASLock], its flag is set exactly while one does, and a
    thread that spins gets the lock with its next round once the flag is clear. *)
Theorem cas_mutual_exclusion x : cas_reachable x →
  (∀ i j, users x !! i = Some Holding → users x !! j = Some Holding → i = j) ∧
  (flag x = true ↔ ∃ i, users x !! i = Some Holding) ∧
  (flag x = false → ∀ i, users x !! i = Some Spinning →
     ∃ y, cas_spin i x = Some y ∧ users y !! i = Some Holding).
Proof.
  intros Hx. pose proof (cas_inv x Hx) as H. split; [|split].
  - intros i j Hi Hj. destruct (flag x).
    + destruct H as (k & _ & Hu). by rw (Hu i Hi) (Hu j Hj).
    + by destruct (H i).
  - destruct (flag x); [by split; [intros _; destruct H as (k & Hk & _); exists k|]|].
    split; [done|]. intros (i & Hi). by destruct (H i).
  - intros Hm i Hi. unfold cas_spin. rw Hi Hm. eexists. split; [done|]. cbn. by rw lookup_insert_eq.
Qed.

Lemma cas_mutual_exclusion_witness :
  let x := MkCas true {[1 := Spinning; 0 := Holding]} in
  ∀ i j, users x !! i = Some Holding → users x !! j = Some Holding → i = j.
Proof.
  intros x. refine (proj1 (cas_mutual_exclusion x _)).
  apply (cas_do (MkCas true {[0 := Holding]}) _ 1); [|by left].
  apply (cas_do (MkCas false {[0 := Spinning]}) _ 0); [|by right; left].
  apply (cas_do CASLock_new _ 0); [apply cas_start|by left].
Defined.

(** ** The calls of a scope *)

(** A lock that records the calls made on it. *)
Inductive mutex_call := CLock | CUnlock.
#[export] Instance recorder : Lockable (list mutex_call) := {|
  lk_new := [];
  acquire _ _ l := Some (l ++ [CLock]);
  release _ l := Some (l ++ [CUnlock])
|}.

(** A scope: construction, calls of [lock] ([true]) and [unlock], destruction. *)
Definition inside (ops : list bool) : list (nat * lock_op) :=
  (λ b : bool, (0, if b then Relock 0 else Unlock 0)) <$> ops.
Definition scope (ops : list bool) : option (list mutex_call) :=
  the_lock <$> lock_run ((0, Enter Exclusive) :: inside ops ++ [(0, Leave)]) lock_start.

(** Calls of [lock] and [unlock] in turn, from an unlocked to an unlocked mutex. *)
Fixpoint alternates (l : list mutex_call) : bool :=
  match l with
  | [] => true
  | CLock :: CUnlock :: l => alternates l
  | _ => false
  end.

Lemma alternates_app l1 l2 : alternates l1 = true → alternates (l1 ++ l2) = alternates l2.
Proof.
  revert l2. induction l1 as [l1 IH] using (well_founded_ind (well_founded_ltof _ length)).
  intros l2. destruct l1 as [|[] [|[] l1]]; try done. cbn. apply IH. unfold ltof. cbn. lia.
Qed.

(** In the scope: the calls so far. *)
Definition in_scope (w : Threads (list mutex_call)) : Prop :=
  ∃ b l, scopes_of 0 w = [MkScoped Exclusive b] ∧ alternates l = true ∧
    the_lock w = if b : bool then l ++ [CLock] else l.

Lemma alternates_pair l : alternates l = true → alternates ((l ++ [CLock]) ++ [CUnlock]) = true.
Proof. intros Hl. rw -app_assoc. by rw alternates_app. Qed.

Lemma inside_runs ops w : in_scope w →
  ∃ l, the_lock <$> lock_run (inside ops ++ [(0, Leave)]) w = Some l ∧ alternates l = true ∧
    (the_lock w ≠ [] → l ≠ []).
Proof.
  revert w. induction ops as [|b ops IH]; intros w (c & l & Hs & Hl & Hw); cbn [inside fmap list_fmap app].
  - cbn. rw Hs. unfold scoped_unlock. destruct c; cbn.
    + eexists. split; [done|]. rw Hw. split; [by apply alternates_pair|by destruct l].
    + eexists. split; [done|]. rw Hw. by split.
  - assert (∃ w', lock_step 0 (if b then Relock 0 else Unlock 0) w = Some (Ret tt w') ∧ in_scope w' ∧
      (the_lock w ≠ [] → the_lock w' ≠ [])) as (w' & Hstep & Hin & Hne).
    { unfold lock_step. rw Hs. destruct b, c; cbn; rw Hw.
      - eexists. split; [done|]. split; [by exists true, l; rw scopes_put|done].
      - eexists. split; [done|]. split; [by exists true, l; rw scopes_put|by destruct l].
      - eexists. split; [done|]. split; [|by destruct l].
        exists false, ((l ++ [CLock]) ++ [CUnlock]). rw scopes_put. split; [done|].
        split; [by apply alternates_pair|done].
      - eexists. split; [done|]. split; [by exists false, l; rw scopes_put|done]. }
    destruct (IH w' Hin) as (l' & Hl' & Ha & Hne'). exists l'. split; [|by split; [|auto]].
    cbn [lock_run]. by rw Hstep.
Qed.

(** A scoped lock calls [lock] and [unlock] of its mutex in turn, first [lock] and last
    [unlock], however often its own [lock] and [unlock] are called in the scope. *)
Theorem scope_alternates ops : ∃ l, scope ops = Some l ∧ alternates l = true ∧ l ≠ [].
Proof.
  unfold scope. cbn [lock_run lock_step]. cbn [Scoped_new acquire recorder mbind option_bind].
  destruct (inside_runs ops (put 0 [MkScoped Exclusive true] [CLock] lock_start)) as (l & Hl & Ha & Hne).
  { exists true, []. rw scopes_put. by split. }
  exists l. split; [exact Hl|]. split; [done|]. by apply Hne.
Qed.
