(* ===== verification/Thread.v ===== *)
(** Threads: duan_src/thread.{h,cc}.

    A [Thread] is started by a handshake between the constructor and
    [Thread::run] in the new thread; [exec] has one action for every step of
    either that the other can observe, and [run_acts] any interleaving of them.
    The locks of thread.h are in Locks.v. *)

From S2P Require Import Prelude.

(** * The thread object *)

(** The data members; [th_cb] is [m_cb], empty once it was swapped out, and
    [th_sem] the count of [m_semaphore]. *)
Record Thread := MkThread {
  th_id : Z;
  th_thread : Z;
  th_cb : option nat;
  th_name : str;
  th_sem : nat
}.

(** Where the constructor is. *)
Inductive parent_pc := Creating | Waiting | Constructed | Failed.

(** Where [Thread::run] is: the constructors name the statement that is next. *)
Inductive child_pc :=
  | NotStarted | SetThis | SetThreadName | SetId | SetOsName | SwapCb | Notify | CallCb
  | InCb | Finished.

(** The object ([None] once it is destroyed), both threads, the thread-local
    variables of the new thread, the name the system knows it by, and the
    functions it has called. *)
Record Start := MkStart {
  obj : option Thread;
  parent : parent_pc;
  child : child_pc;
  local_cb : option nat;
  t_thread : bool;
  t_thread_name : str;
  os_name : str;
  called : list nat
}.

(** [Semaphore::wait] returns when the count is positive, [Semaphore::notify] adds
    one. *)
Definition sem_take (t : Thread) : option Thread :=
  match th_sem t with
  | 0 => None
  | S n => Some (MkThread (th_id t) (th_thread t) (th_cb t) (th_name t) n)
  end.
Definition sem_give (t : Thread) : Thread :=
  MkThread (th_id t) (th_thread t) (th_cb t) (th_name t) (S (th_sem t)).

(** The members before the body of [Thread::Thread(cb, name)], and its first
    statement. *)
Definition Thread_init (cb : nat) (name : str) : Thread :=
  MkThread (-1) 0 (Some cb) (if decide (name = []) then L "UNKNOW" else name) 0.

Definition Start_init (cb : nat) (name : str) : Start :=
  MkStart (Some (Thread_init cb name)) Creating NotStarted None false (L "UNKNOW") [] [].

(** What a thread can do next: the constructor returns from [pthread_create] with
    [rt], and from [sem_wait] or is interrupted in it by a signal; the owner of
    the object joins or destroys it; the new thread takes a step, or calls
    [Thread::SetName] inside its function, or the function ends. *)
Inductive act :=
  | ACreate (rt handle : Z)
  | AWait
  | AInterrupt
  | AJoin (rt : Z)
  | ADestroy
  | AChild
  | ASetName (name : str)
  | AReturn.

#[export] Instance act_eq : EqDecision act.
Proof. solve_decision. Defined.

Definition set_obj (o : option Thread) (s : Start) : Start :=
  MkStart o (parent s) (child s) (local_cb s) (t_thread s) (t_thread_name s) (os_name s) (called s).
Definition set_parent (p : parent_pc) (s : Start) : Start :=
  MkStart (obj s) p (child s) (local_cb s) (t_thread s) (t_thread_name s) (os_name s) (called s).
Definition set_child (c : child_pc) (s : Start) : Start :=
  MkStart (obj s) (parent s) c (local_cb s) (t_thread s) (t_thread_name s) (os_name s) (called s).

(** Access to the object from the new thread. *)
Definition deref_thread : M Start Thread :=
  o ← mgets obj;
  match o with Some t => mret t | None => mcrash (Undefined "destroyed Thread") end.

(** [Thread::run], statement by statement; [tid] is [GetThreadId()]. *)
Definition run_step (tid : Z) : M Start unit :=
  s ← mget;
  match child s with
  | SetThis =>
      mmodify (λ s, MkStart (obj s) (parent s) SetThreadName (local_cb s) true (t_thread_name s)
        (os_name s) (called s))
  | SetThreadName =>
      t ← deref_thread;
      mmodify (λ s, MkStart (obj s) (parent s) SetId (local_cb s) (t_thread s) (th_name t)
        (os_name s) (called s))
  | SetId =>
      t ← deref_thread;
      mmodify (λ s, set_child SetOsName
        (set_obj (Some (MkThread tid (th_thread t) (th_cb t) (th_name t) (th_sem t))) s))
  | SetOsName =>
      t ← deref_thread;
      mmodify (λ s, MkStart (obj s) (parent s) SwapCb (local_cb s) (t_thread s) (t_thread_name s)
        (take 15 (th_name t)) (called s))
  | SwapCb =>
      t ← deref_thread;
      mmodify (λ s, MkStart
        (Some (MkThread (th_id t) (th_thread t) None (th_name t) (th_sem t))) (parent s) Notify
        (th_cb t) (t_thread s) (t_thread_name s) (os_name s) (called s))
  | Notify =>
      t ← deref_thread;
      mmodify (λ s, set_child CallCb (set_obj (Some (sem_give t)) s))
  | CallCb =>
      match local_cb s with
      | Some cb =>
          mmodify (λ s, MkStart (obj s) (parent s) InCb (local_cb s) (t_thread s)
            (t_thread_name s) (os_name s) (called s ++ [cb]))
      | None => mthrow (Exn "bad_function_call")
      end
  | NotStarted | InCb | Finished => mret tt
  end.

(** [Thread::SetName], in the new thread. *)
Definition SetName (name : str) : M Start unit :=
  if decide (name = []) then mret tt
  else
    s ← mget;
    (if t_thread s then
       t ← deref_thread;
       mmodify (set_obj (Some (MkThread (th_id t) (th_thread t) (th_cb t) name (th_sem t))))
     else mret tt) ;;
    mmodify (λ s, MkStart (obj s) (parent s) (child s) (local_cb s) (t_thread s) name
      (os_name s) (called s)).

(** [Thread::join]: the result of [pthread_join] is [rt]. *)
Definition join (rt : Z) : M Start unit :=
  t ← deref_thread;
  if (th_thread t =? 0)%Z then mret tt
  else if negb (rt =? 0)%Z then mthrow (Exn "pthread_join error")
  else mmodify (set_obj (Some (MkThread (th_id t) 0 (th_cb t) (th_name t) (th_sem t)))).

(** The constructor after [pthread_create]. *)
Definition create (rt handle : Z) : M Start unit :=
  t ← deref_thread;
  if (rt =? 0)%Z then
    mmodify (λ s, MkStart
      (Some (MkThread (th_id t) handle (th_cb t) (th_name t) (th_sem t))) Waiting SetThis
      (local_cb s) (t_thread s) (t_thread_name s) (os_name s) (called s))
  else mmodify (λ s, set_obj None (set_parent Failed s)).

(** One action; [None] if it cannot happen in the state. An exception of the
    constructor destroys the members that were built. *)
Definition exec (tid : Z) (a : act) (s : Start) : option (result Start unit) :=
  match a, parent s, child s with
  | ACreate rt handle, Creating, _ => Some (create rt handle s)
  | AWait, Waiting, _ =>
      match obj s with
      | Some t =>
          match sem_take t with
          | Some t' => Some (Ret tt (set_obj (Some t') (set_parent Constructed s)))
          | None => None
          end
      | None => Some (Crash (Undefined "destroyed Thread"))
      end
  | AInterrupt, Waiting, _ => Some (Ret tt (set_obj None (set_parent Failed s)))
  | AJoin rt, Constructed, Finished =>
      match obj s with Some _ => Some (join rt s) | None => None end
  | ADestroy, Constructed, _ =>
      match obj s with Some _ => Some (Ret tt (set_obj None s)) | None => None end
  | AChild, _, (SetThis | SetThreadName | SetId | SetOsName | SwapCb | Notify | CallCb) =>
      Some (run_step tid s)
  | ASetName name, _, InCb => Some (SetName name s)
  | AReturn, _, InCb => Some (Ret tt (set_child Finished s))
  | _, _, _ => None
  end.

(** The states of all interleavings. *)
Inductive run_acts (tid : Z) : Start → list act → Start → Prop :=
  | run_nil s : run_acts tid s [] s
  | run_cons s a s1 acts s2 :
      exec tid a s = Some (Ret tt s1) → run_acts tid s1 acts s2 → run_acts tid s (a :: acts) s2.

(** The same, computed. *)
Fixpoint run_fn (tid : Z) (acts : list act) (s : Start) : option Start :=
  match acts with
  | [] => Some s
  | a :: acts =>
      match exec tid a s with Some (Ret tt s1) => run_fn tid acts s1 | _ => None end
  end.

(** * Specification *)

(** The handshake, as long as no signal interrupts the constructor. *)
Definition start_inv (cb : nat) (tid : Z) (s : Start) : Prop :=
  match parent s with
  | Creating => child s = NotStarted ∧ called s = [] ∧
      ∃ t, obj s = Some t ∧ th_cb t = Some cb ∧ th_sem t = 0
  | Failed => child s = NotStarted ∧ called s = [] ∧ obj s = None
  | Waiting => ∃ t, obj s = Some t ∧
      match child s with
      | NotStarted => False
      | SetThis | SetThreadName | SetId => called s = [] ∧ th_cb t = Some cb ∧ th_sem t = 0
      | SetOsName | SwapCb =>
          called s = [] ∧ th_cb t = Some cb ∧ th_sem t = 0 ∧ th_id t = tid
      | Notify => called s = [] ∧ th_cb t = None ∧ th_sem t = 0 ∧ th_id t = tid ∧
          local_cb s = Some cb
      | CallCb => called s = [] ∧ th_cb t = None ∧ th_sem t = 1 ∧ th_id t = tid ∧
          local_cb s = Some cb
      | InCb | Finished => called s = [cb] ∧ th_cb t = None ∧ th_sem t = 1 ∧ th_id t = tid
      end
  | Constructed =>
      (∀ t, obj s = Some t → th_cb t = None ∧ th_id t = tid) ∧
      match child s with
      | CallCb => called s = [] ∧ local_cb s = Some cb
      | InCb | Finished => called s = [cb]
      | _ => False
      end
  end.

(** [Thread::run] has a statement to execute. *)
Definition can_step (c : child_pc) : bool :=
  match c with NotStarted | InCb | Finished => false | _ => true end.

(** The steps of [Thread::run] before the constructor can go on. *)
Definition steps_left (c : child_pc) : nat :=
  match c with
  | NotStarted => 7 | SetThis => 6 | SetThreadName => 5 | SetId => 4 | SetOsName => 3
  | SwapCb => 2 | Notify => 1 | CallCb | InCb | Finished => 0
  end.

(** * The handshake *)

(** The parent's actions. *)
Lemma create_inv cb tid rt handle s :
  start_inv cb tid s → parent s = Creating →
  ∃ s', create rt handle s = Ret tt s' ∧ start_inv cb tid s'.
Proof.
  destruct s as [o p c lc tt_ tn os cl]. unfold start_inv. cbn. intros Hinv ->.
  destruct Hinv as (-> & -> & [i th cb' nm sem] & -> & Hcb & Hsem). cbn in *.
  unfold create, deref_thread. mrun. destruct (rt =? 0)%Z; mrun; eexists; split; [done| |done|done].
  by eexists.
Qed.

Lemma wait_inv cb tid s t t' :
  start_inv cb tid s → parent s = Waiting → obj s = Some t → sem_take t = Some t' →
  start_inv cb tid (set_obj (Some t') (set_parent Constructed s)).
Proof.
  destruct s as [o p c lc tt_ tn os cl]. unfold start_inv. cbn. intros Hinv -> -> Ht'.
  destruct Hinv as (t0 & [= <-] & H). unfold sem_take in Ht'.
  destruct t as [i th cb' nm sem]. cbn in *. destruct sem as [|sem]; [done|]. injection Ht' as <-.
  destruct c; try done; try (by destruct H as (? & ? & ? & _));
    split; try (intros t [= <-]); naive_solver.
Qed.

(** The steps of [Thread::run]. *)
Lemma run_step_inv cb tid s :
  start_inv cb tid s →
  can_step (child s) = true →
  ∃ s', run_step tid s = Ret tt s' ∧ start_inv cb tid s' ∧ parent s' = parent s ∧
    steps_left (child s') = steps_left (child s) - 1 ∧
    (steps_left (child s) ≠ 0 → child s' ≠ NotStarted).
Proof.
  destruct s as [o p c lc tt_ tn os cl]. unfold start_inv. cbn. intros Hinv Hc.
  assert (p = Waiting ∨ p = Constructed ∧ c = CallCb) as [->|[-> ->]].
  { destruct p; [by destruct Hinv as (-> & _)|by left|right|by destruct Hinv as (-> & _)].
    destruct Hinv as (_ & Hinv). by destruct c. }
  - destruct Hinv as ([i th cb' nm sem] & -> & H). unfold run_step, deref_thread.
    destruct c; mrun; cbn in H; try done.
    1-6: (eexists; split; [done|]; split; [eexists; split; [done|]; cbn; naive_solver|done]).
    destruct H as (-> & -> & -> & -> & ->). mrun. eexists. split; [done|].
    split; [by eexists|done].
  - destruct Hinv as (Ho & -> & ->). unfold run_step. mrun. by eexists.
Qed.

Lemma SetName_inv cb tid name s :
  start_inv cb tid s → child s = InCb →
  match SetName name s with
  | Ret _ s' => start_inv cb tid s'
  | Throw _ _ => False
  | Crash _ => obj s = None
  end.
Proof.
  destruct s as [o p c lc tt_ tn os cl]. unfold start_inv, SetName, deref_thread. cbn.
  intros Hinv ->. case_decide as Hn; [done|]. mrun.
  destruct tt_; [|by mrun]. mrun. destruct o as [[i th cb' nm sem]|]; mrun; [|done].
  destruct p; [naive_solver| | |naive_solver].
  - destruct Hinv as (t & [= <-] & H). by eexists.
  - destruct Hinv as (Ho & H). split; [|done]. intros t [= <-]. by apply (Ho _ eq_refl).
Qed.

Lemma exec_inv cb tid a s r :
  start_inv cb tid s → exec tid a s = Some r → a ≠ AInterrupt →
  match r with
  | Ret _ s' => start_inv cb tid s'
  | Throw _ s' => s' = s
  | Crash _ => (∃ name, a = ASetName name) ∧ obj s = None
  end.
Proof.
  intros Hinv Hexec Ha. unfold exec in Hexec. destruct a as [rt handle| | |rt| | |name|].
  - destruct (parent s) eqn:Hp; try done. injection Hexec as <-.
    destruct (create_inv cb tid rt handle s Hinv Hp) as (s' & -> & Hs'). done.
  - destruct (parent s) eqn:Hp; try done. destruct (obj s) as [t|] eqn:Ho.
    + destruct (sem_take t) as [t'|] eqn:Ht; [|done]. injection Hexec as <-. exact (wait_inv cb tid s t t' Hinv Hp Ho Ht).
    + exfalso. unfold start_inv in Hinv. rw Hp in Hinv. destruct Hinv as (t & Ht & _). congruence.
  - done.
  - destruct (parent s) eqn:Hp, (child s) eqn:Hc; try done. destruct (obj s) as [t|] eqn:Ho; [|done].
    injection Hexec as <-. unfold join, deref_thread. mrun. rw Ho. mrun.
    destruct (th_thread t =? 0)%Z; [done|]. destruct (rt =? 0)%Z; mrun; [|done].
    unfold start_inv in *. cbn. rw Hp Hc in Hinv. rw Hp Hc. destruct Hinv as [Hobj Hcall].
    split; [|done]. intros t' [= <-]. exact (Hobj t Ho).
  - destruct (parent s) eqn:Hp; try done. destruct (obj s) as [t|] eqn:Ho; [|done].
    injection Hexec as <-. unfold start_inv in *. cbn. rw Hp in Hinv. rw Hp.
    destruct Hinv as [_ Hcall]. by split.
  - assert (can_step (child s) = true ∧
      r = run_step tid s) as [Hc ->].
    { destruct (parent s), (child s); try done; by injection Hexec as <-. }
    destruct (run_step_inv cb tid s Hinv Hc) as (s' & -> & Hs' & _). done.
  - assert (child s = InCb ∧ r = SetName name s) as [Hc ->].
    { destruct (parent s), (child s); try done; by injection Hexec as <-. }
    pose proof (SetName_inv cb tid name s Hinv Hc) as H.
    destruct (SetName name s); [done|done|]. split; [by eexists|done].
  - assert (child s = InCb ∧ r = Ret tt (set_child Finished s)) as [Hc ->].
    { destruct (parent s), (child s); try done; by injection Hexec as <-. }
    unfold start_inv in *. cbn. rw Hc in Hinv. destruct (parent s); naive_solver.
Qed.

Lemma run_inv cb tid s acts s' :
  start_inv cb tid s → run_acts tid s acts s' → AInterrupt ∉ acts → start_inv cb tid s'.
Proof.
  intros Hinv Hrun. induction Hrun as [s|s a s1 acts s2 Hexec _ IH]; [done|].
  intros [Ha Hacts]%not_elem_of_cons. apply IH; [|done].
  exact (exec_inv cb tid a s _ Hinv Hexec (λ H, Ha (eq_sym H))).
Qed.

Lemma run_fn_sound tid acts : ∀ s s', run_fn tid acts s = Some s' → run_acts tid s acts s'.
Proof.
  induction acts as [|a acts IH]; intros s s' H; cbn in H; [injection H as <-; apply run_nil|].
  destruct (exec tid a s) as [[[] s1|e s1|f]|] eqn:Ha; try done.
  eapply run_cons; [exact Ha|by apply IH].
Qed.

Lemma init_inv cb tid name : start_inv cb tid (Start_init cb name).
Proof. split; [done|]. split; [done|]. by eexists. Qed.

Lemma child_runs cb tid n : ∀ s,
  start_inv cb tid s → parent s = Waiting → steps_left (child s) = n →
  ∃ s', run_acts tid s (replicate n AChild ++ [AWait]) s' ∧ parent s' = Constructed.
Proof.
  induction n as [|n IH]; intros s Hinv Hp Hn.
  - assert (∃ t, obj s = Some t ∧ th_sem t = 1) as (t & Ho & Hsem).
    { unfold start_inv in Hinv. rw Hp in Hinv. destruct Hinv as (t & Ho & H). exists t.
      split; [done|]. destruct (child s); try done; naive_solver. }
    eexists. split; [eapply run_cons; [|apply run_nil]|].
    + unfold exec. rw Hp Ho. unfold sem_take. by rw Hsem.
    + done.
  - assert (can_step (child s) = true) as Hc.
    { destruct (child s) eqn:Hc; try done.
      unfold start_inv in Hinv. rw Hp Hc in Hinv. by destruct Hinv as (t & _ & []). }
    destruct (run_step_inv cb tid s Hinv Hc) as (s1 & Hs1 & Hinv1 & Hp1 & Hn1 & _).
    destruct (IH s1 Hinv1) as (s2 & Hrun & Hs2); [congruence|lia|].
    exists s2. split; [|done]. eapply run_cons; [|exact Hrun].
    unfold exec. rw Hs1. by destruct (child s).
Qed.

(** * Properties *)

(** C33. In every interleaving of a thread's start in which no signal interrupts the
    constructor, the new thread never uses the object after it was destroyed, except by a later
    call of [SetName]. Once the constructor has returned, the object has its thread id and no
    function any more, and the function is called at most once, and exactly once when the thread
    is done. *)
Theorem thread_start cb name tid acts s :
  run_acts tid (Start_init cb name) acts s → AInterrupt ∉ acts →
  (∀ a f, exec tid a s = Some (Crash f) → a ≠ AInterrupt →
     obj s = None ∧ ∃ new_name, a = ASetName new_name) ∧
  (parent s = Constructed →
     (∀ t, obj s = Some t → th_id t = tid ∧ th_cb t = None) ∧
     (called s = [] ∨ called s = [cb]) ∧ (child s = Finished → called s = [cb])).
Proof.
  intros Hrun Hacts. pose proof (run_inv cb tid _ _ _ (init_inv cb tid name) Hrun Hacts) as Hinv.
  split.
  - intros a f Hexec Ha. by destruct (exec_inv cb tid a s _ Hinv Hexec Ha) as [? ?].
  - intros Hp. unfold start_inv in Hinv. rw Hp in Hinv. destruct Hinv as [Hobj Hc].
    split; [intros t Ht; by destruct (Hobj t Ht)|]. destruct (child s); naive_solver.
Qed.

Lemma thread_start_witness :
  let s := MkStart (Some (MkThread 42 1 None (L "worker") 0)) Constructed Finished (Some 7) true
    (L "worker") (L "worker") [7] in
  parent s = Constructed ∧
  (∀ t, obj s = Some t → th_id t = 42%Z ∧ th_cb t = None) ∧
  (called s = [] ∨ called s = [7]) ∧ (child s = Finished → called s = [7]).
Proof.
  intros s. split; [reflexivity|]. refine (proj2 (thread_start 7 (L "worker") 42
    ([ACreate 0 1] ++ replicate 6 AChild ++ [AWait; AChild; AReturn]) s _ _) eq_refl).
  - apply run_fn_sound. vm_compute. reflexivity.
  - apply (bool_decide_unpack _). vm_compute. exact I.
Defined.

(** The constructor of [Thread] gets to its end: whenever it waits, the steps the new thread
    has left before it calls its function can be taken, and then the wait returns. *)
Theorem thread_start_ends cb name tid acts s :
  run_acts tid (Start_init cb name) acts s → AInterrupt ∉ acts → parent s = Waiting →
  ∃ s', run_acts tid s (replicate (steps_left (child s)) AChild ++ [AWait]) s' ∧
    parent s' = Constructed.
Proof.
  intros Hrun Hacts Hp. eapply child_runs; [|done|done].
  exact (run_inv cb tid _ _ _ (init_inv cb tid name) Hrun Hacts).
Qed.

Lemma thread_start_ends_witness : ∃ s',
  run_acts 42 (set_child SetThis (set_parent Waiting
    (set_obj (Some (MkThread (-1) 1 (Some 7) (L "worker") 0)) (Start_init 7 (L "worker")))))
    (replicate 6 AChild ++ [AWait]) s' ∧ parent s' = Constructed.
Proof.
  refine (thread_start_ends 7 (L "worker") 42 [ACreate 0 1] _ _ _ _).
  - apply run_fn_sound. vm_compute. reflexivity.
  - apply (bool_decide_unpack _). vm_compute. exact I.
  - reflexivity.
Defined.

(** A signal that interrupts [sem_wait] makes the constructor throw while the new thread is
    still starting: the object is destroyed under it, and its next step uses the destroyed
    object. And after the object of a running thread is destroyed, [SetName] in the thread does
    so as well. *)
Theorem thread_use_after_free cb name tid :
  (∃ acts s f, run_acts tid (Start_init cb name) acts s ∧ child s = SetThreadName ∧
     exec tid AChild s = Some (Crash f)) ∧
  (∃ acts s f, run_acts tid (Start_init cb name) acts s ∧ AInterrupt ∉ acts ∧ child s = InCb ∧
     exec tid (ASetName (L "x")) s = Some (Crash f)).
Proof.
  set (nm := th_name (Thread_init cb name)). split.
  - exists [ACreate 0 1; AChild; AInterrupt],
      (MkStart None Failed SetThreadName None true (L "UNKNOW") [] []), (Undefined "destroyed Thread").
    split; [apply run_fn_sound; vm_compute; reflexivity|split; reflexivity].
  - exists ([ACreate 0 1] ++ replicate 6 AChild ++ [AWait; AChild; ADestroy]),
      (MkStart None Constructed InCb (Some cb) true nm (take 15 nm) [cb]),
      (Undefined "destroyed Thread").
    split; [apply run_fn_sound; vm_compute; reflexivity|].
    split; [apply (bool_decide_unpack _); vm_compute; exact I|split; reflexivity].
Qed.
