(* ===== verification/Hook.v ===== *)
(** The hooked system calls of duan_src/hook.{h,cc}: versions of [sleep], [read],
    [write], [connect], ... that let the fiber wait in the I/O scheduler instead of
    blocking the thread.

    A call that waits is cut at [yield()]: [do_io] and its like run up to there and
    return [Suspended], [do_io_resume] and its like go on when the scheduler has
    resumed the fiber.  In between the rest of the process runs.

    The process is the [Sched] of IOManager.v with Timer.v as its timers; what the
    hooks add to it ([Proc]) sits around the kernel.  The file uses classes and
    members that are not in the repository: [FdCtx] and [FdMgr] are the class
    [FdManager], [Fiber::yield] is the point where a call is cut, and a call of
    [addConditionTimer] with three arguments is one with [recurring = false].
    The functions behind the pointers [read_f], ... are the class [Originals]. *)

From S2P Require Import Prelude.
From S2P Require Import Timer.
From S2P Require Import Fiber.
From S2P Require Import Scheduler.
From S2P Require Import IOManager.

(** * Constants of the system *)

Definition EINTR : Z := 4.
Definition EBADF : Z := 9.
Definition EAGAIN : Z := 11.
Definition ETIMEDOUT : Z := 110.
Definition EINPROGRESS : Z := 115.
Definition SOL_SOCKET : Z := 1.
Definition SO_ERROR : Z := 4.
Definition SO_RCVTIMEO : Z := 20.
Definition SO_SNDTIMEO : Z := 21.
Definition O_NONBLOCK : Z := 2048.
Definition FIONBIO : Z := 21537.
Definition F_GETFL : Z := 3.
Definition F_SETFL : Z := 4.

(** * What the code calls *)

(** A call of one of the original functions; pointers are addresses, and [pointee]
    is the [int] that the pointer given to [ioctl] leads to. *)
Inductive sysreq :=
  | sleep_f (seconds : Z)
  | usleep_f (usec : Z)
  | nanosleep_f (tv_sec tv_nsec rem : Z)
  | socket_f (domain type protocol : Z)
  | connect_f (fd addr addrlen : Z)
  | accept_f (s addr addrlen : Z)
  | read_f (fd buf count : Z)
  | readv_f (fd iov iovcnt : Z)
  | recv_f (sockfd buf len flags : Z)
  | recvfrom_f (sockfd buf len flags src_addr addrlen : Z)
  | recvmsg_f (sockfd msg flags : Z)
  | write_f (fd buf count : Z)
  | writev_f (fd iov iovcnt : Z)
  | send_f (s msg len flags : Z)
  | sendto_f (s msg len flags to tolen : Z)
  | sendmsg_f (s msg flags : Z)
  | close_f (fd : Z)
  | fcntl_f (fd cmd : Z) (arg : option Z)
  | ioctl_f (d request arg pointee : Z)
  | getsockopt_f (sockfd level optname optval optlen : Z)
  | setsockopt_f (sockfd level optname optval optlen : Z).

(** What a function returns, and [errno] where it is known. *)
Record sysret := SysRet { ret : Z; errno : option Z }.

(** The original functions: the value they return and the [errno] they leave;
    [so_error] is [getsockopt_f(fd, SOL_SOCKET, SO_ERROR, &error, &len)], with
    the value of [error]. *)
Class Originals (K : Type) := {
  original : sysreq → K → (Z * Z) * K;
  so_error : Z → K → (Z * Z * Z) * K
}.

(** [FdMgr] and the [FdCtx] objects it hands out, by address. *)
Class FdManager (D : Type) := {
  fm_get : Z → bool → D → option nat * D;
  fm_del : Z → D → D;
  isClose : nat → D → bool;
  isSocket : nat → D → bool;
  getUserNonblock : nat → D → bool;
  getSysNonblock : nat → D → bool;
  getTimeout : nat → Z → D → Z;
  setUserNonblock : nat → bool → D → D;
  setTimeout : nat → Z → Z → D → D
}.

(** Looking a descriptor up creates nothing, a setter is read back by its getter
    and by no other, and an entry that was deleted is gone. *)
Class FdManagerLaws (D : Type) `{!FdManager D} : Prop := {
  get_pure fd d : (fm_get fd false d).2 = d;
  get_user_set p b fd d :
    (fm_get fd false (setUserNonblock p b d)).1 = (fm_get fd false d).1;
  get_deleted fd d : (fm_get fd false (fm_del fd d)).1 = None;
  user_nonblock_set p b d : getUserNonblock p (setUserNonblock p b d) = b;
  isClose_user_set p b d : isClose p (setUserNonblock p b d) = isClose p d;
  isSocket_user_set p b d : isSocket p (setUserNonblock p b d) = isSocket p d;
  sys_user_set p b d : getSysNonblock p (setUserNonblock p b d) = getSysNonblock p d;
  get_timeout_set p o v fd d :
    (fm_get fd false (setTimeout p o v d)).1 = (fm_get fd false d).1;
  timeout_set p o v d : getTimeout p o (setTimeout p o v d) = v;
  isClose_timeout_set p o v d : isClose p (setTimeout p o v d) = isClose p d;
  isSocket_timeout_set p o v d : isSocket p (setTimeout p o v d) = isSocket p d;
  user_timeout_set p o v d : getUserNonblock p (setTimeout p o v d) = getUserNonblock p d
}.

(** * State *)

(** The functions the hooks give to timers: the lambda of [do_io] and
    [connect_with_timeout], and [std::bind(&schedule, iom, fiber, -1)]. *)
Inductive closure :=
  | TimedOut (tinfo : nat) (fd event : Z)
  | Resume (fiber : nat) (thread : Z).

(** The system with what the hooks keep: the descriptor contexts, the
    [timer_info] objects with their [cancelled], and the functions by number.
    An object is [None] once its last [shared_ptr] is gone; its number is not
    used again, since a [weak_ptr] never sees another object. *)
Record Proc (K D : Type) := MkProc {
  os : K;
  fds : D;
  tinfos : gmap nat (option Z);
  closures : gmap nat closure
}.
Arguments MkProc {K D}.
Arguments os {K D}.
Arguments fds {K D}.
Arguments tinfos {K D}.
Arguments closures {K D}.

Definition on_os {K D A} (call : K → A * K) (x : Proc K D) : A * Proc K D :=
  let '(a, k) := call (os x) in (a, MkProc k (fds x) (tinfos x) (closures x)).

#[export] Instance proc_kernel {K D} `{!Kernel K} : Kernel (Proc K D) := {|
  sys_epoll_create := on_os sys_epoll_create;
  sys_pipe := on_os sys_pipe;
  sys_fcntl fd := on_os (sys_fcntl fd);
  sys_epoll_ctl op fd events data := on_os (sys_epoll_ctl op fd events data);
  sys_epoll_wait timeout := on_os (sys_epoll_wait timeout);
  sys_write := on_os sys_write;
  sys_read := on_os sys_read;
  sys_time := on_os sys_time
|}.

(** The thread that runs the call: [t_hook_enable], whether [IOManager::GetThis()]
    is this [IOManager] (it is null otherwise), and [Fiber::GetThis()]. *)
Record Caller := MkCaller {
  t_hook_enable : bool;
  has_iom : bool;
  this_fiber : nat
}.
Definition is_hook_enable (c : Caller) : bool := t_hook_enable c.
Definition set_hook_enable (flag : bool) (c : Caller) : Caller :=
  MkCaller flag (has_iom c) (this_fiber c).

(** A call has returned, or waits in [yield()] with the local variables [B]. *)
Inductive progress (B : Type) := Returned (r : sysret) | Suspended (b : B).
Arguments Returned {B} r.
Arguments Suspended {B} b.

(** * Auxiliary operations *)

Section hook.
Context {E : Set → Type} {K D : Type} `{!Kernel K, !Originals K, !FdManager D}.
(** Bound on the calls that are interrupted one after the other. *)
Context (fuel : nat).
Notation P := (Proc K D).
Notation St := (Sched E (IO TimerManager P)).

Definition proc {A} (m : M P A) : M St A := io (mzoom kernel set_kernel m).
Definition proc_gets {A} (f : P → A) : M St A := mgets (λ s : St, f (kernel (host s))).

Definition set_os (k : K) (x : P) : P := MkProc k (fds x) (tinfos x) (closures x).
Definition set_fds (d : D) (x : P) : P := MkProc (os x) d (tinfos x) (closures x).
Definition set_tinfos (t : gmap nat (option Z)) (x : P) : P := MkProc (os x) (fds x) t (closures x).
Definition set_closures (c : gmap nat closure) (x : P) : P :=
  MkProc (os x) (fds x) (tinfos x) c.

(** Calling an original function. *)
Definition call_original (r : sysreq) : M St sysret := λ s,
  let '((n, e), k) := original r (os (kernel (host s))) in
  Ret (SysRet n (Some e)) (set_host (set_kernel (set_os k (kernel (host s))) (host s)) s).

(** [FdMgr::GetInstance()->get(fd, auto_create)] and [del(fd)] *)
Definition fd_get (fd : Z) (auto_create : bool) : M St (option nat) :=
  proc (λ x, let '(p, d) := fm_get fd auto_create (fds x) in Ret p (set_fds d x)).
Definition fd_del (fd : Z) : M St unit := proc (mmodify (λ x, set_fds (fm_del fd (fds x)) x)).
(** A getter or a setter of a [FdCtx]. *)
Definition fd_ask {A} (f : D → A) : M St A := proc_gets (λ x, f (fds x)).
Definition fd_set (f : D → D) : M St unit := proc (mmodify (λ x, set_fds (f (fds x)) x)).

(** [weak_ptr::lock]: the value of [cancelled] if the object is alive. *)
Definition alive (t : nat) (x : P) : option Z := mjoin (tinfos x !! t).

(** [new timer_info], the end of its last [shared_ptr], and [cancelled]. *)
Definition new_tinfo : M St nat :=
  proc (λ x, let t := fresh (dom (tinfos x)) in
    Ret t (set_tinfos (<[t := Some 0%Z]> (tinfos x)) x)).
Definition free_tinfo (t : nat) : M St unit :=
  proc (mmodify (λ x, set_tinfos (<[t := None]> (tinfos x)) x)).
Definition cancelled (t : nat) : M St Z :=
  o ← proc_gets (alive t);
  match o with Some v => mret v | None => mcrash (Undefined "dangling timer_info") end.

Definition new_closure (c : closure) : M St nat :=
  proc (λ x, let f := fresh (dom (closures x)) in
    Ret f (set_closures (<[f := c]> (closures x)) x)).

(** The [IOManager] a member function is called on. *)
Definition get_iom (c : Caller) : M St unit :=
  if has_iom c then mret tt else mcrash (Undefined "null IOManager pointer").

(** [iom->addTimer(ms, cb)] and [iom->addConditionTimer(ms, cb, weak_cond)]: the
    clock is read by the constructor of [Timer]. *)
Definition iom_timer (add : nat → Z → M TimerManager bool) : M St nat :=
  now ← syscall sys_time;
  p ← mgets (λ s : St, fresh (dom (tm_heap (timers (host s)))));
  at_front ← timer_op (add p now);
  mwhen at_front onTimerInsertedAtFront ;;
  mret p.
Definition iom_addTimer (ms : Z) (f : nat) : M St nat :=
  iom_timer (λ p now, addTimer p now ms (Some (Fun f)) false).
Definition iom_addConditionTimer (ms : Z) (f weak_cond : nat) : M St nat :=
  iom_timer (λ p now, addConditionTimer p now ms (Some f) weak_cond false).

(** [if(timer) { timer->cancel(); }] *)
Definition cancel_timer (timer : option nat) : M St unit :=
  match timer with
  | Some p => _ ← timer_op (cancel p); mret tt
  | None => mret tt
  end.

(** * Waiting in [do_io] and [connect_with_timeout] *)

(** [if(to != (uint64_t)-1) { timer = iom->addConditionTimer(...); }] *)
Definition arm_timeout (c : Caller) (fd event to : Z) (tinfo : nat) : M St (option nat) :=
  if (to =? u64_max)%Z then mret None
  else
    get_iom c ;;
    f ← new_closure (TimedOut tinfo fd event);
    timer ← iom_addConditionTimer to f tinfo;
    mret (Some timer).

(** [iom->addEvent(fd, event)] by the running fiber. *)
Definition iom_addEvent (c : Caller) (fd event : Z) : M St Z :=
  get_iom c ;;
  addEvent fd event None (Some 0) (this_fiber c).

(** The lambda: it does nothing if the call is over or has timed out already. *)
Definition timed_out (tinfo : nat) (fd event : Z) : M St unit :=
  t ← proc_gets (alive tinfo);
  match t with
  | Some 0%Z =>
      proc (mmodify (λ x, set_tinfos (<[tinfo := Some ETIMEDOUT]> (tinfos x)) x)) ;;
      _ ← cancelEvent fd event;
      mret tt
  | _ => mret tt
  end.

(** Calling a function that a timer stored; [user] runs those of other code. *)
Definition call_closure (user : nat → M St unit) (f : nat) : M St unit :=
  o ← proc_gets (λ x, closures x !! f);
  match o with
  | Some (TimedOut tinfo fd event) => timed_out tinfo fd event
  | Some (Resume fiber thread) =>
      scheduler (SchedTickle0 := IO_tickle) (FcFiber (Some fiber)) thread
  | None => user f
  end.
Definition run_timer_callback (user : nat → M St unit) (cb : callback) : M St unit :=
  x ← mgets (λ s : St, kernel (host s));
  match run_callback (λ w, bool_decide (is_Some (alive w x))) cb [] with
  | Ret _ calls => miter (call_closure user) calls
  | Throw e _ => mthrow e
  | Crash f => mcrash f
  end.

(** * [do_io] *)

(** The local variables of [do_io] while it waits. *)
Record io_call := MkIoCall {
  io_fd : Z;
  io_fun : sysreq;
  io_event : Z;
  io_to : Z;
  io_tinfo : nat;
  io_timer : option nat
}.

(** The call after [retry:] with the loop for [EINTR]. *)
Definition failed_with (e : Z) (r : sysret) : bool :=
  (ret r =? -1)%Z && bool_decide (errno r = Some e).
Fixpoint call_uninterrupted (n : nat) (r : sysreq) : M St sysret :=
  match n with
  | 0 => mcrash (Terminated "interrupted without end")
  | S n' =>
      x ← call_original r;
      if failed_with EINTR x then call_uninterrupted n' r else mret x
  end.

(** From [addEvent] to [yield()]. *)
Definition do_io_register (c : Caller) (b : io_call) : M St (progress io_call) :=
  rt ← iom_addEvent c (io_fd b) (io_event b);
  if negb (rt =? 0)%Z then
    cancel_timer (io_timer b) ;;
    free_tinfo (io_tinfo b) ;;
    mret (Returned (SysRet (-1) None))
  else mret (Suspended b).

Definition do_io_wait (c : Caller) (b : io_call) : M St (progress io_call) :=
  timer ← arm_timeout c (io_fd b) (io_event b) (io_to b) (io_tinfo b);
  do_io_register c
    (MkIoCall (io_fd b) (io_fun b) (io_event b) (io_to b) (io_tinfo b) timer).

(** From [retry:] on. *)
Definition do_io_retry (c : Caller) (b : io_call) : M St (progress io_call) :=
  n ← call_uninterrupted fuel (io_fun b);
  if failed_with EAGAIN n then do_io_wait c b
  else free_tinfo (io_tinfo b) ;; mret (Returned n).

(** After [yield()]. *)
Definition do_io_resume (c : Caller) (b : io_call) : M St (progress io_call) :=
  cancel_timer (io_timer b) ;;
  e ← cancelled (io_tinfo b);
  if negb (e =? 0)%Z then
    free_tinfo (io_tinfo b) ;; mret (Returned (SysRet (-1) (Some e)))
  else do_io_retry c b.

Definition returned {B} (m : M St sysret) : M St (progress B) := r ← m; mret (Returned r).

Definition do_io (c : Caller) (fd : Z) (f : sysreq) (event timeout_so : Z) :
    M St (progress io_call) :=
  if negb (t_hook_enable c) then returned (call_original f)
  else
    ctx ← fd_get fd false;
    match ctx with
    | None => returned (call_original f)
    | Some p =>
        closed ← fd_ask (isClose p);
        if (closed : bool) then mret (Returned (SysRet (-1) (Some EBADF)))
        else
          socket ← fd_ask (isSocket p);
          nonblock ← fd_ask (getUserNonblock p);
          if negb socket || nonblock then returned (call_original f)
          else
            to ← fd_ask (getTimeout p timeout_so);
            tinfo ← new_tinfo;
            do_io_retry c (MkIoCall fd f event (u64 to) tinfo None)
    end.
End hook.

(** * The hooked functions *)

Module Hooked.
Section hooked.
Context {E : Set → Type} {K D : Type} `{!Kernel K, !Originals K, !FdManager D}.
Context (fuel : nat).
Notation St := (Sched E (IO TimerManager (Proc K D))).

(** ** Sleeping: up to [yield()]; the functions return 0 after it. *)
Definition sleep_for (c : Caller) (ms : Z) : M St (progress unit) :=
  get_iom c ;;
  f ← new_closure (Resume (this_fiber c) (-1));
  _ ← iom_addTimer ms f;
  mret (Suspended tt).

(** [seconds * 1000] is an [unsigned int]. *)
Definition sleep (c : Caller) (seconds : Z) : M St (progress unit) :=
  if negb (t_hook_enable c) then returned (call_original (sleep_f seconds))
  else sleep_for c (u32 (seconds * 1000)).
Definition usleep (c : Caller) (usec : Z) : M St (progress unit) :=
  if negb (t_hook_enable c) then returned (call_original (usleep_f usec))
  else sleep_for c (Z.quot usec 1000).
(** [timeout_ms] is an [int], which [addTimer] takes as a [uint64_t]. *)
Definition nanosleep (c : Caller) (tv_sec tv_nsec rem : Z) : M St (progress unit) :=
  if negb (t_hook_enable c) then returned (call_original (nanosleep_f tv_sec tv_nsec rem))
  else
    let timeout_ms := i32 (tv_sec * 1000 + Z.quot (Z.quot tv_nsec 1000) 1000) in
    sleep_for c (u64 timeout_ms).
Definition sleep_resume : sysret := SysRet 0 None.

(** ** Sockets *)

Definition socket (c : Caller) (domain type protocol : Z) : M St sysret :=
  if negb (t_hook_enable c) then call_original (socket_f domain type protocol)
  else
    fd ← call_original (socket_f domain type protocol);
    if (ret fd =? -1)%Z then mret fd
    else _ ← fd_get (ret fd) true; mret fd.

(** The local variables of [connect_with_timeout] while it waits. *)
Record connect_call := MkConnectCall {
  co_fd : Z;
  co_tinfo : nat;
  co_timer : option nat
}.

(** Its end. *)
Definition connect_result (fd : Z) : M St sysret := λ s,
  let '((n, e, error), k) := so_error fd (os (kernel (host s))) in
  Ret (if (n =? -1)%Z then SysRet (-1) (Some e)
       else if (error =? 0)%Z then SysRet 0 None
       else SysRet (-1) (Some error))
    (set_host (set_kernel (set_os k (kernel (host s))) (host s)) s).

(** After [yield()]. *)
Definition connect_resume (b : connect_call) : M St sysret :=
  cancel_timer (co_timer b) ;;
  e ← cancelled (co_tinfo b);
  r ← (if negb (e =? 0)%Z then mret (SysRet (-1) (Some e)) else connect_result (co_fd b));
  free_tinfo (co_tinfo b) ;;
  mret r.

Definition connect_with_timeout (c : Caller) (fd addr addrlen timeout_ms : Z) :
    M St (progress connect_call) :=
  if negb (t_hook_enable c) then returned (call_original (connect_f fd addr addrlen))
  else
    ctx ← fd_get fd false;
    match ctx with
    | None => mret (Returned (SysRet (-1) (Some EBADF)))
    | Some p =>
        closed ← fd_ask (isClose p);
        socket ← fd_ask (isSocket p);
        nonblock ← fd_ask (getUserNonblock p);
        if (closed : bool) then mret (Returned (SysRet (-1) (Some EBADF)))
        else if negb socket || nonblock then returned (call_original (connect_f fd addr addrlen))
        else
          n ← call_original (connect_f fd addr addrlen);
          if (ret n =? 0)%Z then mret (Returned (SysRet 0 None))
          else if negb (failed_with EINPROGRESS n) then mret (Returned n)
          else
            tinfo ← new_tinfo;
            timer ← arm_timeout c fd WRITE timeout_ms tinfo;
            rt ← iom_addEvent c fd WRITE;
            if (rt =? 0)%Z then mret (Suspended (MkConnectCall fd tinfo timer))
            else
              cancel_timer timer ;;
              r ← connect_result fd;
              free_tinfo tinfo ;;
              mret (Returned r)
    end.

(** The timeout is [s_connect_timeout]. *)
Definition connect (s_connect_timeout : Z) (c : Caller) (sockfd addr addrlen : Z) :
    M St (progress connect_call) :=
  connect_with_timeout c sockfd addr addrlen s_connect_timeout.

(** [accept] registers the new descriptor when [do_io] has returned it. *)
Definition accepted (p : progress io_call) : M St (progress io_call) :=
  match p with
  | Returned r =>
      let fd := i32 (ret r) in
      (if (0 <=? fd)%Z then _ ← fd_get fd true; mret tt else mret tt) ;;
      mret (Returned (SysRet fd (errno r)))
  | Suspended b => mret (Suspended b)
  end.
Definition accept (c : Caller) (s addr addrlen : Z) : M St (progress io_call) :=
  p ← do_io fuel c s (accept_f s addr addrlen) READ SO_RCVTIMEO; accepted p.
Definition accept_resume (c : Caller) (b : io_call) : M St (progress io_call) :=
  p ← do_io_resume fuel c b; accepted p.

(** ** Reading and writing *)

Definition read (c : Caller) (fd buf count : Z) : M St (progress io_call) :=
  do_io fuel c fd (read_f fd buf count) READ SO_RCVTIMEO.
Definition readv (c : Caller) (fd iov iovcnt : Z) : M St (progress io_call) :=
  do_io fuel c fd (readv_f fd iov iovcnt) READ SO_RCVTIMEO.
Definition recv (c : Caller) (sockfd buf len flags : Z) : M St (progress io_call) :=
  do_io fuel c sockfd (recv_f sockfd buf len flags) READ SO_RCVTIMEO.
Definition recvfrom (c : Caller) (sockfd buf len flags src_addr addrlen : Z) :
    M St (progress io_call) :=
  do_io fuel c sockfd (recvfrom_f sockfd buf len flags src_addr addrlen) READ SO_RCVTIMEO.
Definition recvmsg (c : Caller) (sockfd msg flags : Z) : M St (progress io_call) :=
  do_io fuel c sockfd (recvmsg_f sockfd msg flags) READ SO_RCVTIMEO.
Definition write (c : Caller) (fd buf count : Z) : M St (progress io_call) :=
  do_io fuel c fd (write_f fd buf count) WRITE SO_SNDTIMEO.
Definition writev (c : Caller) (fd iov iovcnt : Z) : M St (progress io_call) :=
  do_io fuel c fd (writev_f fd iov iovcnt) WRITE SO_SNDTIMEO.
Definition send (c : Caller) (s msg len flags : Z) : M St (progress io_call) :=
  do_io fuel c s (send_f s msg len flags) WRITE SO_SNDTIMEO.
Definition sendto (c : Caller) (s msg len flags to tolen : Z) : M St (progress io_call) :=
  do_io fuel c s (sendto_f s msg len flags to tolen) WRITE SO_SNDTIMEO.
Definition sendmsg (c : Caller) (s msg flags : Z) : M St (progress io_call) :=
  do_io fuel c s (sendmsg_f s msg flags) WRITE SO_SNDTIMEO.

(** ** Descriptors *)

Definition close (c : Caller) (fd : Z) : M St sysret :=
  if negb (t_hook_enable c) then call_original (close_f fd)
  else
    ctx ← fd_get fd false;
    (match ctx with
     | Some _ =>
         (if has_iom c then _ ← cancelAll fd; mret tt else mret tt) ;;
         fd_del fd
     | None => mret tt
     end) ;;
    call_original (close_f fd).

(** [!ctx || ctx->isClose() || !ctx->isSocket()]; the context otherwise. *)
Definition socket_ctx (fd : Z) : M St (option nat) :=
  ctx ← fd_get fd false;
  match ctx with
  | None => mret None
  | Some p =>
      closed ← fd_ask (isClose p);
      socket ← fd_ask (isSocket p);
      mret (if (closed : bool) || negb socket then None else Some p)
  end.

Definition set_nonblock (b : bool) (arg : Z) : Z :=
  if b then Z.lor arg O_NONBLOCK else Z.land arg (Z.lnot O_NONBLOCK).

(** The commands whose argument [fcntl] passes on. *)
Definition with_arg : list Z :=
  [0 (* F_DUPFD *); 1030 (* F_DUPFD_CLOEXEC *); 2 (* F_SETFD *); 8 (* F_SETOWN *);
   10 (* F_SETSIG *); 1024 (* F_SETLEASE *); 1026 (* F_NOTIFY *); 1031 (* F_SETPIPE_SZ *);
   6 (* F_SETLK *); 7 (* F_SETLKW *); 5 (* F_GETLK *); 16 (* F_GETOWN_EX *);
   15 (* F_SETOWN_EX *)]%Z.

(** [fcntl(fd, cmd, arg)]; a command that is not listed is passed on without its
    argument, as are those that have none. *)
Definition fcntl (fd cmd arg : Z) : M St sysret :=
  if (cmd =? F_SETFL)%Z then
    ctx ← socket_ctx fd;
    match ctx with
    | None => call_original (fcntl_f fd cmd (Some arg))
    | Some p =>
        fd_set (setUserNonblock p (negb (Z.land arg O_NONBLOCK =? 0)%Z)) ;;
        sys ← fd_ask (getSysNonblock p);
        call_original (fcntl_f fd cmd (Some (set_nonblock sys arg)))
    end
  else if (cmd =? F_GETFL)%Z then
    arg ← call_original (fcntl_f fd cmd None);
    ctx ← socket_ctx fd;
    match ctx with
    | None => mret arg
    | Some p =>
        user ← fd_ask (getUserNonblock p);
        mret (SysRet (set_nonblock user (ret arg)) (errno arg))
    end
  else if bool_decide (cmd ∈ with_arg) then call_original (fcntl_f fd cmd (Some arg))
  else call_original (fcntl_f fd cmd None).

(** [ioctl(d, request, arg)]; [pointee] is the [int] that [arg] points to. *)
Definition ioctl (d request arg pointee : Z) : M St sysret :=
  if (FIONBIO =? request)%Z then
    let user_nonblock := negb (pointee =? 0)%Z in
    ctx ← socket_ctx d;
    match ctx with
    | None => call_original (ioctl_f d request arg pointee)
    | Some p =>
        fd_set (setUserNonblock p user_nonblock) ;;
        call_original (ioctl_f d request arg pointee)
    end
  else call_original (ioctl_f d request arg pointee).

Definition getsockopt (sockfd level optname optval optlen : Z) : M St sysret :=
  call_original (getsockopt_f sockfd level optname optval optlen).

(** [setsockopt]; [tv_sec] and [tv_usec] are the [timeval] that [optval] points to. *)
Definition setsockopt (c : Caller) (sockfd level optname optval optlen tv_sec tv_usec : Z) :
    M St sysret :=
  (if t_hook_enable c && (level =? SOL_SOCKET)%Z &&
      ((optname =? SO_RCVTIMEO)%Z || (optname =? SO_SNDTIMEO)%Z)
   then
     ctx ← fd_get sockfd false;
     match ctx with
     | Some p => fd_set (setTimeout p optname (u64 (tv_sec * 1000 + Z.quot tv_usec 1000)))
     | None => mret tt
     end
   else mret tt) ;;
  call_original (setsockopt_f sockfd level optname optval optlen).
End hooked.
End Hooked.

(** * A process to run the hooks in

    A kernel with a clock, the answers it gives to the next calls, and the flags
    of its files; a table of descriptor contexts. *)

Module Demo.
Record Os := MkOs { clock : Z; answers : list (Z * Z); flags : gmap Z Z; error : Z }.
Definition with_clock (t : Z) (k : Os) : Os := MkOs t (answers k) (flags k) (error k).

#[global] Instance kernel : Kernel Os := {|
  sys_epoll_create k := (3%Z, k);
  sys_pipe k := ((0%Z, (4%Z, 5%Z)), k);
  sys_fcntl _ k := (0%Z, k);
  sys_epoll_ctl _ _ _ _ k := (0%Z, k);
  sys_epoll_wait _ k := (WaitReady [], k);
  sys_write k := (1%Z, k);
  sys_read k := (0%Z, k);
  sys_time k := (clock k, k)
|}.

Definition file_flags (fd : Z) (k : Os) : Z := default 0%Z (flags k !! fd).
Definition set_flags (fd v : Z) (k : Os) : Os :=
  MkOs (clock k) (answers k) (<[fd := v]> (flags k)) (error k).

#[global] Instance originals : Originals Os := {|
  original r k :=
    match r with
    | fcntl_f fd cmd arg =>
        if (cmd =? F_GETFL)%Z then ((file_flags fd k, 0%Z), k)
        else if (cmd =? F_SETFL)%Z then ((0%Z, 0%Z), set_flags fd (default 0%Z arg) k)
        else ((0%Z, 0%Z), k)
    | ioctl_f fd request _ pointee =>
        if (request =? FIONBIO)%Z
        then ((0%Z, 0%Z), set_flags fd (Hooked.set_nonblock (negb (pointee =? 0)%Z) (file_flags fd k)) k)
        else ((0%Z, 0%Z), k)
    | _ =>
        match answers k with
        | a :: rest => (a, MkOs (clock k) rest (flags k) (error k))
        | [] => ((0%Z, 0%Z), k)
        end
    end;
  so_error _ k := ((0%Z, 0%Z, error k), k)
|}.

Record Fd := MkFd {
  closed : bool; socket : bool; user : bool; sys : bool; timeouts : gmap Z Z
}.
Record Fds := MkFds { table : gmap Z nat; ctxs : gmap nat Fd }.
Definition new_fd : Fd := MkFd false true false true ∅.
Definition fd_at (p : nat) (d : Fds) : Fd := default new_fd (ctxs d !! p).
Definition update (p : nat) (f : Fd → Fd) (d : Fds) : Fds :=
  MkFds (table d) (<[p := f (fd_at p d)]> (ctxs d)).

#[global] Instance fd_manager : FdManager Fds := {|
  fm_get fd auto_create d :=
    match table d !! fd with
    | Some p => (Some p, d)
    | None =>
        if auto_create : bool then
          let p := fresh (dom (ctxs d)) in
          (Some p, MkFds (<[fd := p]> (table d)) (<[p := new_fd]> (ctxs d)))
        else (None, d)
    end;
  fm_del fd d := MkFds (delete fd (table d)) (ctxs d);
  isClose p d := closed (fd_at p d);
  isSocket p d := socket (fd_at p d);
  getUserNonblock p d := user (fd_at p d);
  getSysNonblock p d := sys (fd_at p d);
  getTimeout p o d := default u64_max (timeouts (fd_at p d) !! o);
  setUserNonblock p b := update p (λ x, MkFd (closed x) (socket x) b (sys x) (timeouts x));
  setTimeout p o v := update p (λ x,
    MkFd (closed x) (socket x) (user x) (sys x) (<[o := v]> (timeouts x)))
|}.

(** Descriptor 7 is a socket with a receive timeout of 50 ms; fiber 1 is
    running; the kernel answers [l] to the next calls. *)
Definition state_of (n : nat) (l : list (Z * Z)) :
    Sched (does callback) (IO TimerManager (Proc Os Fds)) :=
  MkSched [] 0 0 true true 0 None [] 1 []
    {[1 := MkFiber 1 131072 EXEC true (Some 0) CtxNone]} 0
    (new_contexts n (MkIO [] ∅ 0 (4, 5)%Z (TimerManager_new 1000)
      (MkProc (MkOs 1000 l ∅ 0)
        (MkFds {[7%Z := 0]} {[0 := MkFd false true false true {[SO_RCVTIMEO := 50%Z]}]}) ∅ ∅) [])).
Definition state := state_of 16.
Definition caller : Caller := MkCaller true true 1.
End Demo.
