(* ===== verification/HookSpec.v ===== *)
(** What the operations of Hook.v do, piece by piece: triples over the parts of the
    process that matter to a hooked call, for the theorems of HookInv.v and
    HookCalls.v. *)

From S2P Require Import Prelude.
From S2P Require Import Timer.
From S2P Require Import Fiber.
From S2P Require Import Scheduler.
From S2P Require Import IOManager.
From S2P Require Import Hook.


(** * The parts of the state that the I/O scheduler leaves alone *)

(** Splits a sequence and closes what the hint database knows. *)
Ltac keep :=
  repeat first
    [ solve [eauto 2 with duan]
    | apply keeps_bind; [solve [eauto 2 with duan] | ]
    | apply keeps_bind
    | apply keeps_when
    | match goal with |- ∀ _, _ => intro end ].

Section beside.
Context {E : Set → Type} {K D : Type} `{!Kernel K}.
Notation St := (Sched E (IO TimerManager (Proc K D))).

(** Something known of the timers and the process, which the calls of the kernel that
    the scheduler makes do not change. *)
Context (R : TimerManager → Proc K D → Prop).
Hypothesis R_write : ∀ t x, R t x → R t (on_os sys_write x).2.
Hypothesis R_ctl : ∀ t x op fd ev data, R t x → R t (on_os (sys_epoll_ctl op fd ev data) x).2.

Definition beside (s : St) : Prop := R (timers (host s)) (kernel (host s)).

Lemma beside_syscall {A} (call : Proc K D → A * Proc K D) :
  (∀ t x, R t x → R t (call x).2) → keeps beside (syscall call).
Proof.
  intros Hc s Hs. unfold syscall, io, mzoom. specialize (Hc _ _ Hs).
  by destruct (call (kernel (host s))).
Qed.
Lemma beside_get_ctx p : keeps beside (get_ctx p).
Proof. intros s Hs. unfold get_ctx, io, mzoom. by destruct (fd_heap (host s) !! p). Qed.
Lemma beside_put_ctx p c : keeps beside (put_ctx p c).
Proof. by intros s Hs. Qed.
Lemma beside_pending n : keeps beside (add_pending n).
Proof. by intros s Hs. Qed.
Lemma beside_getContext event c : keeps beside (getContext event c).
Proof.
  unfold getContext. destruct (_ =? _)%Z; [apply keeps_ret|].
  destruct (_ =? _)%Z; [apply keeps_ret|apply keeps_crash].
Qed.
Lemma beside_tickle : keeps beside IO_tickle.
Proof.
  apply keeps_bind; [apply keeps_get|]. intros s. destruct (hasIdleThreads s); [apply keeps_ret|].
  apply keeps_bind; [by apply beside_syscall; intros; apply R_write|intros; apply keeps_assert].
Qed.
Lemma beside_scheduler fc th : keeps beside (scheduler (SchedTickle0 := IO_tickle) fc th).
Proof.
  apply keeps_bind; [|intros []; [apply beside_tickle|apply keeps_ret]].
  apply keeps_bind; [apply keeps_gets|]. intros b. apply keeps_bind; [|intros; apply keeps_ret].
  apply keeps_when, keeps_modify. by intros s.
Qed.
Lemma beside_schedule_on target fc : keeps beside (schedule_on target fc).
Proof.
  destruct target as [[|n]|]; [apply beside_scheduler| |apply keeps_crash].
  apply keeps_when. by intros s Hs.
Qed.
Hint Resolve beside_get_ctx beside_put_ctx beside_pending beside_getContext beside_schedule_on : duan.

Lemma beside_trigger p event : keeps beside (triggerEvent p event).
Proof.
  unfold triggerEvent. keep. destruct (ec_cb _); keep.
Qed.
Hint Resolve beside_trigger : duan.

Lemma beside_ctl op fd ev data :
  keeps beside (syscall (A := Z) (sys_epoll_ctl op fd ev data)).
Proof. apply beside_syscall. intros. by apply R_ctl. Qed.
Lemma beside_load f : keeps beside (load f).
Proof. intros s Hs. unfold load. by destruct (heap s !! f). Qed.
Lemma beside_table_at fd : keeps beside (table_at fd).
Proof. intros s Hs. unfold table_at. by destruct (if (fd <? 0)%Z then _ else _). Qed.
Lemma new_contexts_rest n : ∀ x : IO TimerManager (Proc K D),
  timers (new_contexts n x) = timers x ∧ kernel (new_contexts n x) = kernel x.
Proof.
  induction n as [|n IH]; [done|]. intros x. cbn [new_contexts]. by destruct (IH
    (set_table (m_fdContexts x ++ [fresh (dom (fd_heap x))])
      (set_fd_heap (<[fresh (dom (fd_heap x)) := FdContext_new (Z.of_nat (length (m_fdContexts x)))]>
        (fd_heap x)) x))) as [-> ->].
Qed.
Lemma beside_resize size : keeps beside (contextResize size).
Proof.
  intros s Hs. unfold contextResize, io, mzoom, mmodify. destruct (decide _); [done|].
  unfold beside. cbn. by destruct (new_contexts_rest (size - length (m_fdContexts (host s))) (host s))
    as [-> ->].
Qed.
Hint Resolve beside_ctl beside_load beside_table_at beside_resize : duan.

Lemma beside_lookup fd : keeps beside (lookup_ctx fd).
Proof. unfold lookup_ctx, table_size. keep. destruct (_ <? _)%Z; keep. Qed.
Lemma beside_addEvent fd event cb sch f : keeps beside (addEvent fd event cb sch f).
Proof.
  apply keeps_bind; [apply beside_lookup|]. intros found.
  apply keeps_bind; [destruct found; unfold grow_ctx; keep|]. intros p.
  unfold addEvent_locked. keep. destruct (_ =? 0)%Z; cbn [negb]; keep; destruct cb; keep.
Qed.
Lemma beside_cancelEvent fd event : keeps beside (cancelEvent fd event).
Proof.
  apply keeps_bind; [apply beside_lookup|]. intros [p|]; [|apply keeps_ret].
  unfold cancelEvent_locked. keep. destruct (has _ _); cbn [negb]; keep.
  destruct (_ =? 0)%Z; cbn [negb]; keep.
Qed.
Lemma beside_handle fuel ev p : keeps beside (handle_event fuel (ev, DataPtr p)).
Proof.
  unfold handle_event. keep. destruct (_ =? _)%Z; keep.
  destruct (_ =? 0)%Z; cbn [negb]; keep.
Qed.
Lemma beside_cancelAll fd : keeps beside (cancelAll fd).
Proof.
  apply keeps_bind; [apply beside_lookup|]. intros [p|]; [|apply keeps_ret].
  unfold cancelAll_locked, trigger_if_set. keep.
  destruct (_ =? 0)%Z; cbn [negb]; keep. destruct (_ =? 0)%Z; cbn [negb]; keep.
Qed.
End beside.

Section apart.
Context {E : Set → Type} {K D : Type} `{!Kernel K}.
Notation St := (Sched E (IO TimerManager (Proc K D))).
Context (t : TimerManager) (d : D) (ti : gmap nat (option Z)) (cl : gmap nat closure).

(** The timers and what the hooks keep are these. *)
Definition apart (s : St) : Prop :=
  timers (host s) = t ∧ fds (kernel (host s)) = d ∧ tinfos (kernel (host s)) = ti ∧
  closures (kernel (host s)) = cl.

Definition rest (t' : TimerManager) (x : Proc K D) : Prop :=
  t' = t ∧ fds x = d ∧ tinfos x = ti ∧ closures x = cl.
Lemma rest_os {A} (call : K → A * K) t' x : rest t' x → rest t' (on_os call x).2.
Proof. unfold on_os. by destruct (call (os x)). Qed.

Lemma apart_syscall {A} (call : K → A * K) : keeps apart (syscall (on_os call)).
Proof. apply (beside_syscall rest). apply rest_os. Qed.
Lemma apart_tickle : keeps apart IO_tickle.
Proof. apply (beside_tickle rest). intros. by apply rest_os. Qed.
Lemma apart_scheduler fc th : keeps apart (scheduler (SchedTickle0 := IO_tickle) fc th).
Proof. apply (beside_scheduler rest). intros. by apply rest_os. Qed.
Lemma apart_addEvent fd event cb sch f : keeps apart (addEvent fd event cb sch f).
Proof. apply (beside_addEvent rest). intros. by apply rest_os. Qed.
Lemma apart_cancelEvent fd event : keeps apart (cancelEvent fd event).
Proof. apply (beside_cancelEvent rest); intros; by apply rest_os. Qed.
Lemma apart_handle fuel ev p : keeps apart (handle_event fuel (ev, DataPtr p)).
Proof. apply (beside_handle rest); intros; by apply rest_os. Qed.
Lemma apart_cancelAll fd : keeps apart (cancelAll fd).
Proof. apply (beside_cancelAll rest); intros; by apply rest_os. Qed.
End apart.

(** * What the operations do *)

(** The calls of the kernel that the code asserts or relies on succeed. *)
Class KernelAccepts (K : Type) `{!Kernel K} : Prop := {
  write_accepted (k : K) : (sys_write k).1 = 1%Z;
  ctl_accepted op fd events data (k : K) : (sys_epoll_ctl op fd events data k).1 = 0%Z
}.

Section specs.
Context {E : Set → Type} {K D : Type} `{!Kernel K, !KernelAccepts K, !Originals K, !FdManager D}.
Notation St := (Sched E (IO TimerManager (Proc K D))).
Notation none := (λ _ : fault, False).
Context (hp : gmap nat (Fiber E)) (tb : list nat).
Implicit Types s : St.

(** The whole state but the kernel. *)
Definition at_hook (q : list FiberAndThread) (h : gmap nat FdContext) (n : Z)
    (t : TimerManager) (d : D) (ti : gmap nat (option Z)) (cl : gmap nat closure) (s : St) : Prop :=
  at_view hp q tb h n s ∧ apart t d ti cl s.

Lemma proc_write_ok (k : Proc K D) : (sys_write k).1 = 1%Z.
Proof.
  destruct k as [k]. cbn. unfold on_os. cbn. pose proof (write_accepted k).
  by destruct (sys_write k).
Qed.
Lemma proc_ctl_ok op fd ev data (k : Proc K D) : (sys_epoll_ctl op fd ev data k).1 = 0%Z.
Proof.
  destruct k as [k]. cbn. unfold on_os. cbn. pose proof (ctl_accepted op fd ev data k).
  by destruct (sys_epoll_ctl op fd ev data k).
Qed.

(** The descriptor [fd] has the context [c] at [p] and can wait for [event]. *)
Definition has_ctx (h : gmap nat FdContext) (fd : Z) (p : nat) (c : FdContext) : Prop :=
  (0 <= fd < i32 (Z.of_nat (length tb)))%Z ∧ tb !! Z.to_nat fd = Some p ∧ h !! p = Some c.

(** [addEvent] leaves the running fiber [f] in the context. *)
Definition waits_in (event : Z) (f : nat) (c : FdContext) : FdContext :=
  registered_ctx event (new_task None (Some 0) f) c.

Lemma hook_addEvent q h n t d ti cl c fd event p x F :
  has_iom c = true → event = READ ∨ event = WRITE → has_ctx h fd p x → io_ok tb h n →
  has (m_events x) event = false → hp !! this_fiber c = Some F → m_state F = EXEC →
  let h' := <[p := waits_in event (this_fiber c) x]> h in
  spec none (at_hook q h n t d ti cl) (iom_addEvent c fd event)
    (λ rt s, rt = 0%Z ∧ io_ok tb h' (u64 (n + 1)) ∧ at_hook q h' (u64 (n + 1)) t d ti cl s).
Proof.
  intros Hi He (Hfd & Htb & Hp) Hok Hhas HF Hst h'. unfold iom_addEvent, get_iom. rw Hi.
  eapply spec_bind with (R := λ _, at_hook q h n t d ti cl); [by apply spec_ret|]. intros [].
  eapply spec_conseq; [apply spec_frame; [|apply apart_addEvent]| |].
  - eapply (view_addEvent hp q tb h n fd event None (this_fiber c) p x);
      [exact He|exact Htb|exact Hfd|exact Hp|exact Hok|exact Hhas|right; by exists F
      |apply proc_ctl_ok|apply proc_write_ok].
  - done.
  - by intros rt s [(-> & Hok' & Hv) Ha].
Qed.

(** [cancelEvent] takes it out again and queues the fiber. *)
Lemma hook_cancelEvent q h n t d ti cl fd event f p x :
  event = READ ∨ event = WRITE → has_ctx h fd p (waits_in event f x) → io_ok tb h n →
  ctx_ok x → has (m_events x) event = false →
  let h' := <[p := x]> h in
  spec none (at_hook q h n t d ti cl) (cancelEvent fd event)
    (λ b s, b = true ∧ io_ok tb h' (u64 (n + -1)) ∧
       at_hook (q ++ [fiber_task f]) h' (u64 (n + -1)) t d ti cl s).
Proof.
  intros He (Hfd & Htb & Hp) Hok Hx Hhas h'.
  destruct (released_registered event (new_task None (Some 0) f) x He Hx Hhas)
    as (Hrel & Hslot & Hhas').
  eapply spec_conseq; [apply spec_frame; [|apply apart_cancelEvent]| |].
  - unfold cancelEvent, on_ctx. eapply spec_bind; [by apply (view_lookup _ hp q tb h n fd p)|].
    intros r. apply spec_pure. intros ->.
    eapply (view_cancel none hp (or_introl proc_write_ok)); eauto. left. unfold waits_in. by rw Hslot.
  - done.
  - intros b s [Hb Ha]. destruct b.
    + destruct Hb as (_ & Hv & Hok'). unfold released_task, waits_in in *.
      rw Hrel Hslot in Hv Hok'. done.
    + destruct Hb as (_ & [Hb|(op & ev & k & Hk)]).
      * unfold waits_in in Hb. by rw Hhas' in Hb.
      * by rw proc_ctl_ok in Hk.
Qed.

(** It has no effect when the event is not registered. *)
Lemma hook_cancelEvent_none q h n t d ti cl fd event p x :
  has_ctx h fd p x → has (m_events x) event = false →
  spec none (at_hook q h n t d ti cl) (cancelEvent fd event)
    (λ b s, b = false ∧ at_hook q h n t d ti cl s).
Proof.
  intros (Hfd & Htb & Hp) Hhas.
  eapply spec_conseq with (Q := λ b s, (b = false ∧ at_view hp q tb h n s) ∧ apart t d ti cl s);
    [apply spec_frame; [|apply apart_cancelEvent]| |].
  - unfold cancelEvent, on_ctx. eapply spec_bind; [by apply (view_lookup _ hp q tb h n fd p)|].
    intros r. apply spec_pure. intros ->. unfold cancelEvent_locked.
    eapply spec_bind; [by apply (view_get none hp)|].
    intros y. apply spec_pure. intros ->. rw Hhas. cbn [negb]. by apply spec_ret.
  - done.
  - by intros b s [[-> Hv] Ha].
Qed.

(** [cancelAll] takes out everything. *)
Lemma hook_cancelAll q h n t d ti cl fd p x :
  has_ctx h fd p x → io_ok tb h n → m_events x ≠ 0%Z →
  (∀ e, e ∈ [READ; WRITE] → has (m_events x) e = true → ec_scheduler (slot e x) = Some 0) →
  let b1 := has (m_events x) READ in
  let b2 := has (m_events x) WRITE in
  spec none (at_hook q h n t d ti cl) (cancelAll fd) (λ _ s, ∃ x' n', m_events x' = 0%Z ∧
    io_ok tb (<[p := x']> h) n' ∧
    at_hook (q ++ (if b1 then [task_of (IOManager.read x)] else []) ++
                  (if b2 then [task_of (IOManager.write x)] else [])) (<[p := x']> h) n' t d ti cl s).
Proof.
  intros (Hfd & Htb & Hp) Hok Hev Hsch b1 b2.
  eapply spec_conseq; [apply spec_frame; [|apply (apart_cancelAll t d ti cl)]| |].
  - unfold cancelAll, on_ctx. eapply spec_bind; [by apply (view_lookup _ hp q tb h n fd p)|].
    intros r. apply spec_pure. intros ->.
    eapply (view_cancelAll none hp (or_introl proc_write_ok)); [exact Hp|exact Hok|].
    intros e He Hh. left. by rw (Hsch e He Hh).
  - done.
  - intros [|] s [H Ha]; cbn beta iota zeta in H.
    + destruct H as (_ & H0 & Hok' & Hv). fold b1 b2 in H0, Hok', Hv. eexists _, _. split; [exact H0|].
      split; [exact Hok'|]. split; [|exact Ha].
      assert (∀ e, e ∈ [READ; WRITE] → has (m_events x) e = true →
        tasks_if true e x = [task_of (slot e x)]) as Ht.
      { intros e He Hh. cbn. unfold released_task. by rw (Hsch e He Hh). }
      destruct b1 eqn:H1; [rw (Ht READ (list_elem_of_here _ _) H1) in Hv|]; destruct b2 eqn:H2;
        [rw (Ht WRITE (list_elem_of_further _ _ _ (list_elem_of_here _ _)) H2) in Hv| |
         rw (Ht WRITE (list_elem_of_further _ _ _ (list_elem_of_here _ _)) H2) in Hv|]; exact Hv.
    + destruct H as (_ & [?|(k & Hk)]); [done|]. by rw proc_ctl_ok in Hk.
Qed.

(** An operation of the timer manager. *)
Lemma hook_timer_op {A} q h n t d ti cl (m : M TimerManager A) Q :
  returns m t Q →
  spec none (at_hook q h n t d ti cl) (timer_op m)
    (λ a s, ∃ t', Q a t' ∧ at_hook q h n t' d ti cl s).
Proof.
  intros Hm s [Hv (Ht & Hd & Hti & Hcl)]. unfold timer_op, io, mzoom. rw Ht.
  unfold returns in Hm. destruct (m t) as [a t'| |]; [|done..]. by exists t'.
Qed.

Lemma hook_tickle q h n t d ti cl :
  spec none (at_hook q h n t d ti cl) onTimerInsertedAtFront
    (λ _, at_hook q h n t d ti cl).
Proof.
  apply spec_frame; [apply view_tickle; left; apply proc_write_ok|apply apart_tickle].
Qed.

(** The timer [p] is queued with [tm] in [t'], besides those of [t]. *)
Record adds (t t' : TimerManager) (p : nat) (tm : Timer) : Prop := {
  adds_new : tm_heap t !! p = None;
  adds_heap : tm_heap t' = <[p := tm]> (tm_heap t);
  adds_queued : p ∈ m_timers t';
  adds_wf : wf t'
}.

Lemma hook_timer q h n t d ti cl ms cb :
  wf t → in_u64 ms →
  spec none (at_hook q h n t d ti cl) (iom_timer (λ p now, addTimer p now ms cb false))
    (λ p s, ∃ k t', adds t t' p (Timer_new (sys_time (k : K)).1 ms cb false) ∧
       at_hook q h n t' d ti cl s).
Proof.
  intros Hwf Hms. unfold iom_timer.
  eapply spec_bind with (R := λ now s, (∃ k : K, now = (sys_time k).1) ∧ at_hook q h n t d ti cl s).
  { intros s [Hv Ha]. pose proof (apart_syscall t d ti cl sys_time s Ha) as Ha'. revert Ha'.
    unfold syscall, io, mzoom. cbn. unfold on_os.
    destruct (sys_time (os (kernel (host s)))) as [now k] eqn:Hk. cbn. intros Ha'.
    split; [exists (os (kernel (host s))); by rw Hk|done]. }
  intros now. apply spec_pure. intros [k ->].
  eapply spec_bind with (R := λ p s, p = fresh (dom (tm_heap t)) ∧ at_hook q h n t d ti cl s).
  { apply spec_gets. intros s Hs. split; [|done]. by destruct Hs as [_ (-> & _)]. }
  intros p. apply spec_pure. intros ->. set (p := fresh (dom (tm_heap t))).
  assert (tm_heap t !! p = None) as Hp by apply not_elem_of_dom, is_fresh.
  eapply spec_bind; [eapply hook_timer_op, addTimer_spec; eauto|].
  intros front s (t' & (Hwf' & Hh & Hq & _) & Hs).
  eapply (spec_bind none (at_hook q h n t' d ti cl)
    _ _ (λ _, at_hook q h n t' d ti cl)); [| |exact Hs].
  - apply spec_when; [intros _; apply hook_tickle|done].
  - intros []. apply spec_ret. intros s' Hs'. exists k, t'. split; [|done].
    split; [done|done|rw Hq; by left|done].
Qed.

(** ** The objects of the hooks *)

Lemma hook_new_closure q h n t d ti cl c :
  spec none (at_hook q h n t d ti cl) (new_closure c)
    (λ f s, cl !! f = None ∧ at_hook q h n t d ti (<[f := c]> cl) s).
Proof.
  intros s [Hv (Ht & Hd & Hti & Hcl)]. split; [by rw -Hcl; apply not_elem_of_dom, is_fresh|]. split; [done|]. unfold apart. cbn. by rw Hcl.
Qed.
Lemma hook_new_tinfo q h n t d ti cl :
  spec none (at_hook q h n t d ti cl) new_tinfo
    (λ w s, ti !! w = None ∧ at_hook q h n t d (<[w := Some 0%Z]> ti) cl s).
Proof.
  intros s [Hv (Ht & Hd & Hti & Hcl)]. split; [by rw -Hti; apply not_elem_of_dom, is_fresh|]. split; [done|]. unfold apart. cbn. by rw Hti.
Qed.
Lemma hook_free_tinfo q h n t d ti cl w :
  spec none (at_hook q h n t d ti cl) (free_tinfo w)
    (λ _, at_hook q h n t d (<[w := None]> ti) cl).
Proof.
  intros s [Hv (Ht & Hd & Hti & Hcl)]. split; [done|]. unfold apart. cbn. by rw Hti.
Qed.
Lemma hook_alive q h n t d ti cl w :
  spec none (at_hook q h n t d ti cl) (proc_gets (alive w))
    (λ v s, v = mjoin (ti !! w) ∧ at_hook q h n t d ti cl s).
Proof.
  apply spec_gets. intros s Hs. split; [|done]. unfold alive. by destruct Hs as [_ (_ & _ & -> & _)].
Qed.
Lemma hook_cancelled q h n t d ti cl w v :
  ti !! w = Some (Some v) →
  spec none (at_hook q h n t d ti cl) (cancelled w)
    (λ v' s, v' = v ∧ at_hook q h n t d ti cl s).
Proof.
  intros Hw. eapply spec_bind; [apply hook_alive|]. intros v'. apply spec_pure. intros ->.
  rw Hw. by apply spec_ret.
Qed.

(** [timer->cancel()] on an armed timer, and on one that has fired. *)
Lemma hook_cancel_armed q h n t d ti cl p tm cb :
  wf t → tm_heap t !! p = Some tm → t_cb tm = Some cb →
  spec none (at_hook q h n t d ti cl) (cancel_timer (Some p))
    (λ _ s, ∃ t', wf t' ∧ retired p t' ∧ at_hook q h n t' d ti cl s).
Proof.
  intros Hwf Hp Hcb. eapply spec_bind; [by eapply hook_timer_op, cancel_armed|].
  intros r. apply spec_ret. intros s (t' & (_ & Hwf' & Hh & Hq) & Hs). exists t'.
  split; [done|]. split; [|done]. split; [rw Hq; tauto|].
  rw Hh. eexists. rw lookup_insert_eq. split; [done|done].
Qed.
Lemma hook_cancel_retired q h n t d ti cl p :
  retired p t →
  spec none (at_hook q h n t d ti cl) (cancel_timer (Some p))
    (λ _ s, at_hook q h n t d ti cl s).
Proof.
  intros (_ & tm & Hp & Hcb). eapply spec_bind with (R := λ _, at_hook q h n t d ti cl);
    [|intros; by apply spec_ret].
  eapply spec_conseq; [apply (hook_timer_op q h n t d ti cl _ (λ r t', t' = t))| |].
  - unfold returns, cancel. rw (bind_Ret _ _ _ _ _ (deref_ok _ _ _ Hp)). by rw Hcb.
  - done.
  - by intros r s (t' & -> & Hs).
Qed.

(** Arming the timeout of a call. *)
Lemma hook_arm q h n t d ti cl c fd event to w :
  has_iom c = true → wf t → in_u64 to → to ≠ u64_max →
  spec none (at_hook q h n t d ti cl) (arm_timeout c fd event to w)
    (λ r s, ∃ k p f t', r = Some p ∧ cl !! f = None ∧
       adds t t' p (Timer_new (sys_time (k : K)).1 to (Some (BindOnTimer w (Some f))) false) ∧
       at_hook q h n t' d ti (<[f := TimedOut w fd event]> cl) s).
Proof.
  intros Hi Hwf Hto Hne. unfold arm_timeout, get_iom. rw Hi.
  destruct (Z.eqb_spec to u64_max); [done|].
  eapply spec_bind with (R := λ _, at_hook q h n t d ti cl); [by apply spec_ret|]. intros [].
  eapply spec_bind; [apply hook_new_closure|]. intros f. apply spec_pure. intros Hf.
  eapply spec_bind; [by apply hook_timer|]. intros p.
  apply spec_ret. intros s (k & t' & Ha & Hs). by exists k, p, f, t'.
Qed.

(** Starting to sleep. *)
Lemma hook_sleep_for q h n t d ti cl c ms :
  has_iom c = true → wf t → in_u64 ms →
  spec none (at_hook q h n t d ti cl) (Hooked.sleep_for c ms)
    (λ r s, r = Suspended tt ∧ ∃ k p f t',
       adds t t' p (Timer_new (sys_time (k : K)).1 ms (Some (Fun f)) false) ∧
       at_hook q h n t' d ti (<[f := Resume (this_fiber c) (-1)]> cl) s).
Proof.
  intros Hi Hwf Hms. unfold Hooked.sleep_for, get_iom. rw Hi.
  eapply spec_bind with (R := λ _, at_hook q h n t d ti cl); [by apply spec_ret|]. intros [].
  eapply spec_bind; [apply hook_new_closure|]. intros f. apply spec_pure. intros _.
  eapply spec_bind; [by apply hook_timer|]. intros p. apply spec_ret.
  intros s (k & t' & Ha & Hs). split; [done|]. by exists k, p, f, t'.
Qed.

(** Running the function of a condition timer whose call is over, has timed out,
    or still waits. *)
Lemma hook_callback_dead q h n t d ti cl user w cb :
  mjoin (ti !! w) = None →
  spec none (at_hook q h n t d ti cl) (run_timer_callback user (BindOnTimer w cb))
    (λ _, at_hook q h n t d ti cl).
Proof.
  intros Hw s Hs. unfold run_timer_callback. rw (bind_Ret _ _ _ _ _ (eq_refl : mgets _ s = Ret _ s)).
  cbn. unfold OnTimer, alive. destruct Hs as [Hv (Ht & Hd & Hti & Hcl)]. rw Hti Hw. done.
Qed.

Lemma hook_call_closure q h n t d ti cl user f c (Q : unit → St → Prop) :
  cl !! f = Some c →
  spec none (at_hook q h n t d ti cl)
    match c with
    | TimedOut tinfo fd event => timed_out tinfo fd event
    | Resume fiber thread => scheduler (SchedTickle0 := IO_tickle) (FcFiber (Some fiber)) thread
    end Q →
  spec none (at_hook q h n t d ti cl) (miter (call_closure user) [f]) Q.
Proof.
  intros Hf Hc. cbn [miter]. eapply (spec_bind none _ _ _ Q); [|by intros []; apply spec_ret].
  eapply spec_bind with (R := λ o s, o = Some c ∧ at_hook q h n t d ti cl s).
  - apply spec_gets. intros s Hs. split; [|done]. by destruct Hs as [_ (_ & _ & _ & ->)].
  - intros o. apply spec_pure. intros ->. by destruct c.
Qed.
Lemma hook_callback_alive q h n t d ti cl user w f v c (Q : unit → St → Prop) :
  ti !! w = Some (Some v) → cl !! f = Some c →
  spec none (at_hook q h n t d ti cl)
    match c with
    | TimedOut tinfo fd event => timed_out tinfo fd event
    | Resume fiber thread => scheduler (SchedTickle0 := IO_tickle) (FcFiber (Some fiber)) thread
    end Q →
  spec none (at_hook q h n t d ti cl) (run_timer_callback user (BindOnTimer w (Some f))) Q.
Proof.
  intros Hw Hf Hc s Hs. unfold run_timer_callback.
  rw (bind_Ret _ _ _ _ _ (eq_refl : mgets _ s = Ret _ s)).
  cbn [run_callback OnTimer]. unfold OnTimer, alive.
  assert (tinfos (kernel (host s)) !! w = Some (Some v)) as ->
    by by destruct Hs as [_ (_ & _ & -> & _)].
  exact (hook_call_closure q h n t d ti cl user f c Q Hf Hc s Hs).
Qed.
Lemma hook_callback_fun q h n t d ti cl user f c (Q : unit → St → Prop) :
  cl !! f = Some c →
  spec none (at_hook q h n t d ti cl)
    match c with
    | TimedOut tinfo fd event => timed_out tinfo fd event
    | Resume fiber thread => scheduler (SchedTickle0 := IO_tickle) (FcFiber (Some fiber)) thread
    end Q →
  spec none (at_hook q h n t d ti cl) (run_timer_callback user (Fun f)) Q.
Proof. intros Hf Hc. by apply (hook_call_closure q h n t d ti cl user f c Q). Qed.

Lemma hook_mark q h n t d ti cl w v :
  spec none (at_hook q h n t d ti cl)
    (proc (mmodify (λ x, set_tinfos (<[w := v]> (tinfos x)) x)))
    (λ _, at_hook q h n t d (<[w := v]> ti) cl).
Proof.
  intros s [Hv (Ht & Hd & Hti & Hcl)]. split; [done|]. unfold apart. cbn. by rw Hti.
Qed.

(** The timeout of a call that waits for [event] in the context [x]. *)
Lemma hook_timed_out q h n t d ti cl w fd event f p x :
  ti !! w = Some (Some 0%Z) →
  event = READ ∨ event = WRITE → has_ctx h fd p (waits_in event f x) → io_ok tb h n →
  ctx_ok x → has (m_events x) event = false →
  let h' := <[p := x]> h in
  spec none (at_hook q h n t d ti cl) (timed_out w fd event)
    (λ _ s, io_ok tb h' (u64 (n + -1)) ∧
       at_hook (q ++ [fiber_task f]) h' (u64 (n + -1)) t d (<[w := Some ETIMEDOUT]> ti) cl s).
Proof.
  intros Hw He Hc Hok Hx Hhas h'. unfold timed_out.
  eapply spec_bind; [apply hook_alive|]. intros v. apply spec_pure. intros ->. rw Hw. cbn.
  eapply spec_bind; [apply hook_mark|]. intros [].
  eapply spec_bind; [by apply (hook_cancelEvent q h n t d _ cl fd event f p x)|].
  intros b. apply spec_ret. intros s (_ & Hok' & Hs). done.
Qed.
(** The same before the event is registered. *)
Lemma hook_timed_out_early q h n t d ti cl w fd event p x :
  ti !! w = Some (Some 0%Z) → has_ctx h fd p x → has (m_events x) event = false →
  spec none (at_hook q h n t d ti cl) (timed_out w fd event)
    (λ _ s, at_hook q h n t d (<[w := Some ETIMEDOUT]> ti) cl s).
Proof.
  intros Hw Hc Hhas. unfold timed_out.
  eapply spec_bind; [apply hook_alive|]. intros v. apply spec_pure. intros ->. rw Hw. cbn.
  eapply spec_bind; [apply hook_mark|]. intros [].
  eapply spec_bind; [by eapply hook_cancelEvent_none|]. intros b. by apply spec_ret; intros s [_ Hs].
Qed.

(** ** Calling the original function *)

Definition with_os (k : K) (s : St) : St :=
  set_host (set_kernel (set_os k (kernel (host s))) (host s)) s.
Definition the_os (s : St) : K := os (kernel (host s)).
Definition answer (a : Z * Z) : sysret := SysRet a.1 (Some a.2).
Definition interrupted (a : Z * Z) : Prop := a = ((-1)%Z, EINTR).

Lemma call_original_step r s :
  call_original r s = Ret (answer (original r (the_os s)).1) (with_os (original r (the_os s)).2 s).
Proof. unfold call_original, the_os. by destruct (original r _) as [[a e] k]. Qed.

Lemma hook_with_os q h n t d ti cl k s :
  at_hook q h n t d ti cl s → at_hook q h n t d ti cl (with_os k s).
Proof. done. Qed.

Lemma failed_with_true e a : failed_with e (answer a) = true ↔ a = ((-1)%Z, e).
Proof.
  destruct a as [v e']. unfold failed_with. cbn. rw andb_true_iff Z.eqb_eq bool_decide_eq_true.
  naive_solver.
Qed.

Lemma call_uninterrupted_ends n : ∀ m r s,
  settles (original r) interrupted n (the_os s) → n < m →
  call_uninterrupted m r s =
    Ret (answer (original r (calls_from (original r) n (the_os s))).1)
      (with_os (calls_from (original r) (S n) (the_os s)) s).
Proof.
  induction n as [|n IH]; intros [|m] r s Hs Hm; try lia.
  all: cbn [call_uninterrupted]; rw (bind_Ret _ _ _ _ _ (call_original_step r s)).
  - destruct Hs as [_ Hs]. destruct (failed_with _ _) eqn:Hf; [|done].
    by apply failed_with_true in Hf.
  - apply settles_S in Hs as [H0 Hs]. apply failed_with_true in H0. rw H0.
    exact (IH m r (with_os (original r (the_os s)).2 s) Hs ltac:(lia)).
Qed.

(** The context of [fd], when [do_io] takes the call over; and when it refuses it. *)
Definition managed (c : Caller) (fd : Z) (d : D) : option nat :=
  if t_hook_enable c then
    p ← (fm_get fd false d).1;
    if negb (isClose p d) && isSocket p d && negb (getUserNonblock p d) then Some p else None
  else None.
Definition refused (c : Caller) (fd : Z) (d : D) : bool :=
  t_hook_enable c &&
  match (fm_get fd false d).1 with Some p => isClose p d | None => false end.

Lemma fd_get_step `{!FdManagerLaws D} fd s :
  fd_get fd false s = Ret (fm_get fd false (fds (kernel (host s)))).1 s.
Proof.
  unfold fd_get, proc, io, mzoom. pose proof (get_pure fd (fds (kernel (host s)))) as H.
  destruct (fm_get fd false _) as [p d]. cbn in H. subst d.
  by destruct s as [? ? ? ? ? ? ? ? ? ? ? ? [? ? ? ? ? [] ?]].
Qed.

Lemma do_io_cases `{!FdManagerLaws D} fuel c fd f event o s :
  do_io fuel c fd f event o s =
    match managed c fd (fds (kernel (host s))) with
    | Some p =>
        (w ← new_tinfo; do_io_retry fuel c (MkIoCall fd f event
           (u64 (getTimeout p o (fds (kernel (host s))))) w None)) s
    | None =>
        if refused c fd (fds (kernel (host s))) then Ret (Returned (SysRet (-1) (Some EBADF))) s
        else Ret (Returned (answer (original f (the_os s)).1))
               (with_os (original f (the_os s)).2 s)
    end.
Proof.
  unfold do_io, managed, refused, returned.
  pose proof (bind_Ret _ (λ r : sysret, mret (Returned (B:=io_call) r)) _ _ _ (call_original_step f s)) as Hf.
  destruct (t_hook_enable c); cbn [negb andb]; [|exact Hf].
  rw (bind_Ret _ _ _ _ _ (fd_get_step fd s)).
  destruct (fm_get fd false _).1 as [p|]; cbn [mbind option_bind]; [|exact Hf].
  unfold fd_ask, proc_gets. cbv [mbind M_bind mgets].
  destruct (isClose p _); cbn [negb andb]; [done|].
  destruct (isSocket p _); cbn [negb andb orb]; [|exact Hf].
  by destruct (getUserNonblock p _); cbn [negb orb].
Qed.

(** ** Waiting for an event *)

(** The caller can wait for [event] on [fd], whose context is [x] at [p]. *)
Record can_wait (c : Caller) (fd event : Z) (p : nat) (x : FdContext)
    (h : gmap nat FdContext) (n : Z) (t : TimerManager) : Prop := {
  cw_iom : has_iom c = true;
  cw_event : event = READ ∨ event = WRITE;
  cw_ctx : has_ctx h fd p x;
  cw_free : has (m_events x) event = false;
  cw_fiber : ∃ F, hp !! this_fiber c = Some F ∧ m_state F = EXEC;
  cw_ok : io_ok tb h n;
  cw_wf : wf t;
  cw_count : in_u64 n
}.

(** [timer] is the timeout [to] of the call [w] that waits for [event] on [fd]. *)
Definition timeout_armed (t t' : TimerManager) (cl cl' : gmap nat closure) (fd event to : Z)
    (w : nat) (timer : option nat) : Prop :=
  match timer with
  | None => to = u64_max ∧ t' = t ∧ cl' = cl
  | Some p => to ≠ u64_max ∧ ∃ k f,
      adds t t' p (Timer_new (sys_time (k : K)).1 to (Some (BindOnTimer w (Some f))) false) ∧
      cl' = <[f := TimedOut w fd event]> cl
  end.

Lemma timeout_armed_wf t t' cl cl' fd event to w timer :
  wf t → timeout_armed t t' cl cl' fd event to w timer → wf t'.
Proof. destruct timer; [intros _ (_ & k & f & H & _); apply H|by intros ? (_ & -> & _)]. Qed.

Lemma hook_arm_timeout q h n t d ti cl c fd event to w :
  has_iom c = true → wf t → in_u64 to →
  spec none (at_hook q h n t d ti cl) (arm_timeout c fd event to w)
    (λ r s, ∃ t' cl', timeout_armed t t' cl cl' fd event to w r ∧ at_hook q h n t' d ti cl' s).
Proof.
  intros Hi Hwf Hto. destruct (decide (to = u64_max)) as [->|Hne].
  - apply spec_ret. intros s Hs. by exists t, cl.
  - eapply spec_conseq; [by apply hook_arm|done|].
    intros r s (k & p & f & t' & -> & _ & Ha & Hs). exists t', (<[f := TimedOut w fd event]> cl).
    split; [|done]. split; [done|]. by exists k, f.
Qed.

Lemma can_wait_ctx_ok c fd event p x h n t : can_wait c fd event p x h n t → ctx_ok x.
Proof. intros H. destruct (cw_ctx _ _ _ _ _ _ _ _ H) as (_ & _ & Hp). by eapply io_ctxs, Hp; apply H. Qed.

Definition with_timer (timer : option nat) (b : io_call) : io_call :=
  MkIoCall (io_fd b) (io_fun b) (io_event b) (io_to b) (io_tinfo b) timer.

Lemma hook_do_io_register q h n t d ti cl c b p x :
  can_wait c (io_fd b) (io_event b) p x h n t →
  let h' := <[p := waits_in (io_event b) (this_fiber c) x]> h in
  spec none (at_hook q h n t d ti cl) (do_io_register c b)
    (λ r s, r = Suspended b ∧ io_ok tb h' (u64 (n + 1)) ∧ at_hook q h' (u64 (n + 1)) t d ti cl s).
Proof.
  intros [Hi He Hc Hf (F & HF & Hst) Hok Hwf Hn] h'. unfold do_io_register.
  eapply spec_bind; [by apply (hook_addEvent q h n t d ti cl c _ _ p x F)|].
  intros rt. apply spec_pure. intros ->. by apply spec_ret.
Qed.

Lemma hook_do_io_wait q h n t d ti cl c b p x :
  can_wait c (io_fd b) (io_event b) p x h n t → in_u64 (io_to b) →
  let h' := <[p := waits_in (io_event b) (this_fiber c) x]> h in
  spec none (at_hook q h n t d ti cl) (do_io_wait c b)
    (λ r s, ∃ timer t' cl', r = Suspended (with_timer timer b) ∧
       timeout_armed t t' cl cl' (io_fd b) (io_event b) (io_to b) (io_tinfo b) timer ∧
       io_ok tb h' (u64 (n + 1)) ∧ at_hook q h' (u64 (n + 1)) t' d ti cl' s).
Proof.
  intros Hw Hto h'. unfold do_io_wait.
  eapply spec_bind; [apply hook_arm_timeout; [apply Hw|apply Hw|done]|].
  intros timer s (t' & cl' & Ha & Hs).
  assert (can_wait c (io_fd b) (io_event b) p x h n t') as Hw'.
  { destruct Hw. split; eauto using timeout_armed_wf. }
  pose proof (hook_do_io_register q h n t' d ti cl' c (with_timer timer b) p x Hw' s Hs) as H.
  unfold with_timer in H. revert H. destruct (do_io_register c _ s); [|done..].
  intros (-> & Hok & Hs'). by exists timer, t', cl'.
Qed.

(** A wait is undone by [cancelEvent]. *)
Lemma waits_back c fd event p x h n t f :
  can_wait c fd event p x h n t →
  <[p := x]> (<[p := waits_in event f x]> h) = h ∧ u64 (u64 (n + 1) + -1) = n.
Proof.
  intros Hw. split.
  - rw insert_insert_eq. apply insert_id. apply Hw.
  - rw u64_add_l. replace (n + 1 + -1)%Z with n by lia. apply u64_id, Hw.
Qed.

(** [do_io] up to its first [yield()]. *)
Lemma do_io_suspends `{!FdManagerLaws D} fuel q h n t d ti cl c fd f event o pd p x i s :
  at_hook q h n t d ti cl s → can_wait c fd event p x h n t →
  managed c fd d = Some pd →
  settles (original f) interrupted i (the_os s) → i < fuel →
  (original f (calls_from (original f) i (the_os s))).1 = ((-1)%Z, EAGAIN) →
  let to := u64 (getTimeout pd o d) in
  let h' := <[p := waits_in event (this_fiber c) x]> h in
  returns (do_io fuel c fd f event o) s (λ r s1, ∃ w timer t' cl', ti !! w = None ∧
    r = Suspended (MkIoCall fd f event to w timer) ∧
    timeout_armed t t' cl cl' fd event to w timer ∧ io_ok tb h' (u64 (n + 1)) ∧
    at_hook q h' (u64 (n + 1)) t' d (<[w := Some 0%Z]> ti) cl' s1).
Proof.
  intros Hs Hw Hm Hset Hi Ha to h'.
  assert (fds (kernel (host s)) = d) as Hd by by destruct Hs as [_ (_ & -> & _)].
  unfold returns. rw do_io_cases Hd Hm. fold to.
  pose proof (hook_new_tinfo q h n t d ti cl s Hs) as Ht.
  destruct (new_tinfo s) as [w s0| |] eqn:Hnew; [|done..].
  rw (bind_Ret _ _ _ _ _ Hnew). destruct Ht as [Hfresh Hs0].
  assert (the_os s0 = the_os s) as Hos by (revert Hnew; unfold new_tinfo, proc, io, mzoom; by intros [= _ <-]).
  unfold do_io_retry. cbn [io_fun].
  rw -Hos in Hset Ha. rw (bind_Ret _ _ _ _ _ (call_uninterrupted_ends i fuel f s0 Hset Hi)).
  rw Ha. cbn [io_fun].
  assert (failed_with EAGAIN (answer ((-1)%Z, EAGAIN)) = true) as -> by done.
  pose proof (hook_do_io_wait q h n t d (<[w := Some 0%Z]> ti) cl c (MkIoCall fd f event to w None) p x
    Hw (u64_range _) (with_os (calls_from (original f) (S i) (the_os s0)) s0)
    (hook_with_os _ _ _ _ _ _ _ _ _ Hs0)) as H.
  destruct (do_io_wait c _ _); [|done..].
  destruct H as (timer & t' & cl' & -> & Harm & Hok & Hs1). by exists w, timer, t', cl'.
Qed.

(** ** Going on after [yield()] *)

(** The timer of a call, if it has one, has fired or is armed. *)
Definition timer_live (t : TimerManager) (timer : option nat) : Prop :=
  ∀ p, timer = Some p → retired p t ∨ ∃ tm cb, tm_heap t !! p = Some tm ∧ t_cb tm = Some cb.
Definition timer_over (t : TimerManager) (timer : option nat) : Prop :=
  ∀ p, timer = Some p → retired p t.

Lemma hook_cancel_timer q h n t d ti cl timer :
  wf t → timer_live t timer →
  spec none (at_hook q h n t d ti cl) (cancel_timer timer)
    (λ _ s, ∃ t', wf t' ∧ timer_over t' timer ∧ at_hook q h n t' d ti cl s).
Proof.
  intros Hwf Hl. destruct timer as [p|].
  - destruct (Hl p eq_refl) as [Hr|(tm & cb & Hp & Hcb)].
    + eapply spec_conseq; [by apply hook_cancel_retired|done|]. intros [] s Hs.
      exists t. split; [done|]. split; [by intros ? [= <-]|done].
    + eapply spec_conseq; [by eapply hook_cancel_armed|done|].
      intros [] s (t' & ? & Hr & Hs). exists t'. split; [done|]. split; [by intros ? [= <-]|done].
  - apply spec_ret. intros s Hs. by exists t.
Qed.

Lemma timeout_armed_live t t' cl cl' fd event to w timer :
  timeout_armed t t' cl cl' fd event to w timer → timer_live t' timer.
Proof.
  intros H p ->. right. destruct H as (_ & k & f & [_ Hh _ _] & _). rw Hh. eexists _, _.
  rw lookup_insert_eq. by split.
Qed.

(** The call has timed out. *)
Lemma hook_resume_cancelled fuel q h n t d ti cl c b e :
  wf t → timer_live t (io_timer b) → ti !! io_tinfo b = Some (Some e) → e ≠ 0%Z →
  spec none (at_hook q h n t d ti cl) (do_io_resume fuel c b)
    (λ r s, r = Returned (SysRet (-1) (Some e)) ∧ ∃ t', wf t' ∧ timer_over t' (io_timer b) ∧
       at_hook q h n t' d (<[io_tinfo b := None]> ti) cl s).
Proof.
  intros Hwf Hl Hw He. unfold do_io_resume.
  eapply spec_bind; [by apply hook_cancel_timer|]. intros _ s (t' & Hwf' & Ho & Hs).
  revert s Hs. change (spec none (at_hook q h n t' d ti cl)
    (e' ← cancelled (io_tinfo b);
     if negb (e' =? 0)%Z then free_tinfo (io_tinfo b) ;; mret (Returned (SysRet (-1) (Some e')))
     else do_io_retry fuel c b) (λ r s, r = Returned (SysRet (-1) (Some e)) ∧ ∃ t', wf t' ∧
       timer_over t' (io_timer b) ∧ at_hook q h n t' d (<[io_tinfo b := None]> ti) cl s)).
  eapply spec_bind; [by apply hook_cancelled|]. intros e'. apply spec_pure. intros ->.
  destruct (Z.eqb_spec e 0); [done|]. cbn [negb].
  eapply spec_bind; [apply hook_free_tinfo|]. intros []. apply spec_ret. intros s Hs.
  split; [done|]. by exists t'.
Qed.

Lemma os_cancel_timer k timer :
  keeps (λ s, the_os s = k) (cancel_timer timer).
Proof.
  destruct timer as [p|]; [|apply keeps_ret]. apply keeps_bind; [|intros; apply keeps_ret].
  intros s Hs. unfold timer_op, io, mzoom. by destruct (cancel p (timers (host s))).
Qed.

(** The beginning of every resumed call. *)
Lemma resume_prefix_eq {B} q h n t d ti cl timer w e (k : Z → M St B) s :
  wf t → timer_live t timer → ti !! w = Some (Some e) → at_hook q h n t d ti cl s →
  ∃ t' s1, wf t' ∧ timer_over t' timer ∧ the_os s1 = the_os s ∧ at_hook q h n t' d ti cl s1 ∧
    (cancel_timer timer ;; v ← cancelled w; k v) s = k e s1.
Proof.
  intros Hwf Hl Hw Hs.
  pose proof (spec_frame _ _ _ _ _ (hook_cancel_timer q h n t d ti cl timer Hwf Hl)
    (os_cancel_timer (the_os s) timer) s (conj Hs eq_refl)) as H.
  destruct (cancel_timer timer s) as [[] s1| |] eqn:Hc; [|done..].
  destruct H as [(t' & Hwf' & Ho & Hs1) Hos].
  exists t', s1. do 4 (split; [done|]). rw (bind_Ret _ _ _ _ _ Hc).
  apply (bind_Ret _ _ s1 e s1). unfold cancelled, proc_gets, alive. cbv [mbind M_bind mgets].
  destruct Hs1 as [_ (_ & _ & Hti & _)]. by rw Hti Hw.
Qed.
Lemma resume_prefix {B} q h n t d ti cl timer w e (k : Z → M St B) s (Q : B → St → Prop) :
  wf t → timer_live t timer → ti !! w = Some (Some e) → at_hook q h n t d ti cl s →
  (∀ t' s1, wf t' → timer_over t' timer → the_os s1 = the_os s →
     at_hook q h n t' d ti cl s1 → returns (k e) s1 Q) →
  returns (cancel_timer timer ;; v ← cancelled w; k v) s Q.
Proof.
  intros Hwf Hl Hw Hs Hk.
  destruct (resume_prefix_eq q h n t d ti cl timer w e k s Hwf Hl Hw Hs)
    as (t' & s1 & ? & ? & ? & ? & Heq).
  unfold returns. rw Heq. by apply (Hk t' s1).
Qed.

(** The call is made again, and answered. *)
Lemma hook_resume_answered fuel q h n t d ti cl c b i s :
  wf t → timer_live t (io_timer b) → ti !! io_tinfo b = Some (Some 0%Z) →
  at_hook q h n t d ti cl s →
  settles (original (io_fun b)) interrupted i (the_os s) → i < fuel →
  let a := (original (io_fun b) (calls_from (original (io_fun b)) i (the_os s))).1 in
  a ≠ ((-1)%Z, EAGAIN) →
  returns (do_io_resume fuel c b) s (λ r s', r = Returned (answer a) ∧
    ∃ t', wf t' ∧ timer_over t' (io_timer b) ∧
      at_hook q h n t' d (<[io_tinfo b := None]> ti) cl s').
Proof.
  intros Hwf Hl Hw Hs Hset Hi. cbv zeta. intros Ha. unfold do_io_resume.
  apply (resume_prefix q h n t d ti cl (io_timer b) (io_tinfo b) 0); try done.
  intros t' s1 Hwf' Ho Hos Hs1. cbn [Z.eqb negb].
  unfold do_io_retry. rw -Hos in Hset Ha *.
  eapply bind_step; [by apply (call_uninterrupted_ends i)|]. cbn beta.
  destruct (failed_with EAGAIN _) eqn:Hf; [by apply failed_with_true in Hf|].
  eapply spec_returns; [|apply hook_with_os, Hs1].
  eapply spec_bind; [apply hook_free_tinfo|]. intros []. apply spec_ret. intros s3 Hs3.
  split; [done|]. by exists t'.
Qed.

(** ** What happens while a call waits *)

(** The event is ready. *)
Lemma hook_ready fuel q h n t d ti cl ev event f p x :
  event = READ ∨ event = WRITE → h !! p = Some (waits_in event f x) → io_ok tb h n →
  ctx_ok x → has (m_events x) event = false → real_events ev = event →
  let h' := <[p := x]> h in
  spec none (at_hook q h n t d ti cl) (handle_event fuel (ev, DataPtr p))
    (λ _ s, io_ok tb h' (u64 (n + -1)) ∧
       at_hook (q ++ [fiber_task f]) h' (u64 (n + -1)) t d ti cl s).
Proof.
  intros He Hp Hok Hx Hhas Hreal h'.
  destruct (released_registered event (new_task None (Some 0) f) x He Hx Hhas)
    as (Hrel & Hslot & Hhas'). fold (waits_in event f x) in Hrel, Hslot, Hhas'.
  assert (takeable none event (waits_in event f x)) as Htake.
  { split; left; [done|]. by rw Hslot. }
  eapply spec_conseq; [apply spec_frame; [|apply apart_handle]| |].
  - eapply (view_handle none hp (or_introl proc_write_ok)); rw ?Hreal; eauto;
      by destruct He as [-> | ->].
  - done.
  - rw Hreal. intros [] s [[((Hland & _ & _) & Hok' & Hv)|[_ [Hz|(op & e & k & Hk)]]] Ha];
      [|exfalso|by rw proc_ctl_ok in Hk].
    + assert (released_task event (waits_in event f x) = [fiber_task f]) as Ht.
      { unfold released_task. by rw Hslot. }
      revert Hrel Ht Hok' Hv. generalize (waits_in event f x) as y. intros y Hrel Ht Hok' Hv.
      destruct He as [-> | ->];
        [change (has READ READ) with true in *; change (has READ WRITE) with false in *
        |change (has WRITE READ) with false in *; change (has WRITE WRITE) with true in *];
        cbn [tasks_if release_if pending_if app] in Hok', Hv;
        rw Ht ?app_nil_r Hrel in Hv; rw Hrel in Hok'; done.
    + unfold has in Hhas'. by rw Hz in Hhas'.
Qed.

(** A timer that is due, from the clock to its function. *)
Lemma hook_expires q h n t d ti cl a now tp tm cb s :
  at_hook q h n t d ti cl s → wf t → tm_heap t !! a = None → tm_heap t !! tp = Some tm →
  tp ∈ m_timers t → t_cb tm = Some cb → t_recurring tm = false → (t_next tm <= now)%Z →
  returns (timer_op (listExpiredCb a now)) s (λ cbs s', Some cb ∈ cbs ∧
    ∃ t', wf t' ∧ retired tp t' ∧ at_hook q h n t' d ti cl s').
Proof.
  intros Hs Hwf Ha Hp Hq Hcb Hrec Hdue.
  eapply returns_mono; [eapply spec_returns; [by eapply hook_timer_op, due_handed_out|exact Hs]|].
  cbv beta. intros cbs s' (t' & (Hin & Hwf' & Hret) & Hs'). split; [done|]. by exists t'.
Qed.

(** ** [connect_with_timeout] *)

Lemma connect_managed `{!FdManagerLaws D} c fd addr addrlen to pd s :
  managed c fd (fds (kernel (host s))) = Some pd →
  (original (connect_f fd addr addrlen) (the_os s)).1 = ((-1)%Z, EINPROGRESS) →
  Hooked.connect_with_timeout c fd addr addrlen to s =
    (tinfo ← new_tinfo;
     timer ← arm_timeout c fd WRITE to tinfo;
     rt ← iom_addEvent c fd WRITE;
     if (rt =? 0)%Z then mret (Suspended (Hooked.MkConnectCall fd tinfo timer))
     else
       cancel_timer timer ;;
       r ← Hooked.connect_result fd;
       free_tinfo tinfo ;;
       mret (Returned r)) (with_os (original (connect_f fd addr addrlen) (the_os s)).2 s).
Proof.
  intros Hm Ha. unfold Hooked.connect_with_timeout, managed in *.
  destruct (t_hook_enable c); [|done]. cbn [negb].
  rw (bind_Ret _ _ _ _ _ (fd_get_step fd s)).
  destruct (fm_get fd false _).1 as [p|]; cbn [mbind option_bind] in Hm; [|done].
  unfold fd_ask, proc_gets. cbv [mbind M_bind mgets].
  destruct (isClose p _); cbn [negb andb] in Hm; [done|].
  destruct (isSocket p _); cbn [negb andb] in Hm; [|done].
  destruct (getUserNonblock p _); cbn [negb] in Hm; [done|]. cbn [negb orb].
  by rw call_original_step Ha.
Qed.

Lemma hook_connect_wait q h n t d ti cl c fd to p x :
  can_wait c fd WRITE p x h n t → in_u64 to →
  let h' := <[p := waits_in WRITE (this_fiber c) x]> h in
  spec none (at_hook q h n t d ti cl)
    (tinfo ← new_tinfo;
     timer ← arm_timeout c fd WRITE to tinfo;
     rt ← iom_addEvent c fd WRITE;
     if (rt =? 0)%Z then mret (Suspended (Hooked.MkConnectCall fd tinfo timer))
     else
       cancel_timer timer ;;
       r ← Hooked.connect_result fd;
       free_tinfo tinfo ;;
       mret (Returned r))
    (λ r s, ∃ w timer t' cl', r = Suspended (Hooked.MkConnectCall fd w timer) ∧
       timeout_armed t t' cl cl' fd WRITE to w timer ∧ io_ok tb h' (u64 (n + 1)) ∧
       at_hook q h' (u64 (n + 1)) t' d (<[w := Some 0%Z]> ti) cl' s).
Proof.
  intros [Hi He Hc Hf (F & HF & Hst) Hok Hwf Hn] Hto h'.
  eapply spec_bind; [apply hook_new_tinfo|]. intros w. apply spec_pure. intros _.
  eapply spec_bind; [by apply hook_arm_timeout|]. intros timer s (t' & cl' & Harm & Hs).
  revert s Hs.
  match goal with |- ∀ s, at_hook _ _ _ _ _ _ _ s → match ?m s with Ret _ _ => _ | _ => _ end =>
    change (spec none (at_hook q h n t' d (<[w := Some 0%Z]> ti) cl') m (λ r s, ∃ w timer t' cl',
       r = Suspended (Hooked.MkConnectCall fd w timer) ∧
       timeout_armed t t' cl cl' fd WRITE to w timer ∧ io_ok tb h' (u64 (n + 1)) ∧
       at_hook q h' (u64 (n + 1)) t' d (<[w := Some 0%Z]> ti) cl' s)) end.
  eapply spec_bind; [by apply (hook_addEvent _ _ _ _ _ _ _ c _ _ p x F)|].
  intros rt. apply spec_pure. intros ->. cbn [Z.eqb]. apply spec_ret.
  intros s [Hok' Hs]. by exists w, timer, t', cl'.
Qed.

(** After [yield()]: the outcome is that of the connection, or [ETIMEDOUT]. *)
Definition connect_outcome_of (a : Z * Z * Z) : sysret :=
  let '(n, e, error) := a in
  if (n =? -1)%Z then SysRet (-1) (Some e)
  else if (error =? 0)%Z then SysRet 0 None else SysRet (-1) (Some error).

Lemma connect_result_step fd s :
  Hooked.connect_result fd s =
    Ret (connect_outcome_of (so_error fd (the_os s)).1) (with_os (so_error fd (the_os s)).2 s).
Proof. unfold Hooked.connect_result, the_os. by destruct (so_error fd _) as [[[n e] error] k]. Qed.

Lemma hook_connect_resume q h n t d ti cl b e s :
  wf t → timer_live t (Hooked.co_timer b) → ti !! Hooked.co_tinfo b = Some (Some e) →
  at_hook q h n t d ti cl s →
  returns (Hooked.connect_resume b) s (λ r s',
    r = (if (e =? 0)%Z then connect_outcome_of (so_error (Hooked.co_fd b) (the_os s)).1
         else SysRet (-1) (Some e)) ∧
    ∃ t', wf t' ∧ timer_over t' (Hooked.co_timer b) ∧
      at_hook q h n t' d (<[Hooked.co_tinfo b := None]> ti) cl s').
Proof.
  intros Hwf Hl Hw Hs. unfold Hooked.connect_resume.
  apply (resume_prefix q h n t d ti cl (Hooked.co_timer b) (Hooked.co_tinfo b) e); try done.
  intros t' s1 Hwf' Ho Hos Hs1.
  assert (∀ (r : sysret) s0, at_hook q h n t' d ti cl s0 →
    returns (free_tinfo (Hooked.co_tinfo b) ;; mret r) s0 (λ r' s', r' = r ∧
      at_hook q h n t' d (<[Hooked.co_tinfo b := None]> ti) cl s')) as Hfree.
  { intros r s0 Hs0. eapply spec_returns; [|exact Hs0].
    eapply spec_bind; [apply hook_free_tinfo|]. intros []. by apply spec_ret. }
  destruct (e =? 0)%Z; cbn [negb].
  - eapply bind_step; [apply connect_result_step|]. cbn beta. rw Hos.
    eapply returns_mono; [apply Hfree, hook_with_os, Hs1|]. intros r s' [-> Hs']. split; [done|]. by exists t'.
  - eapply bind_step; [reflexivity|]. cbn beta.
    eapply returns_mono; [apply Hfree, Hs1|]. intros r s' [-> Hs']. split; [done|]. by exists t'.
Qed.
End specs.

(** * The end of a wait

    The call began with the fibers [hp0]; the event, or the timeout, comes when they
    are [hp]: the fiber that waits has given up the processor since. *)

Section wait_ends.
Context {E : Set → Type} {K D : Type} `{!Kernel K, !KernelAccepts K, !Originals K, !FdManager D}.
Context (hp0 hp : gmap nat (Fiber E)) (tb : list nat).
Implicit Types s : Sched E (IO TimerManager (Proc K D)).

(** The timeout of a call that waits comes first: what the rest of the call finds. *)
Lemma hook_times_out user q h n t t' d ti cl cl' c fd event to w tp p x s :
  can_wait hp0 tb c fd event p x h n t → ti !! w = Some (Some 0%Z) →
  timeout_armed t t' cl cl' fd event to w (Some tp) →
  let h' := <[p := waits_in event (this_fiber c) x]> h in
  io_ok tb h' (u64 (n + 1)) → at_hook hp tb q h' (u64 (n + 1)) t' d ti cl' s →
  ∃ tm, tm_heap t' !! tp = Some tm ∧ (∃ k : K, t_next tm = u64 ((sys_time k).1 + to)) ∧
  ∀ a now, tm_heap t' !! a = None → (t_next tm <= now)%Z →
  returns (timer_op (listExpiredCb a now)) s (λ cbs s2, ∃ cb, Some cb ∈ cbs ∧
  returns (run_timer_callback user cb) s2 (λ _ s3, ∃ t2, wf t2 ∧ timer_live t2 (Some tp) ∧
    at_hook hp tb (q ++ [fiber_task (this_fiber c)]) h n t2 d (<[w := Some ETIMEDOUT]> ti) cl' s3)).
Proof.
  intros Hw Hti Harm h' Hok Hs. pose proof (can_wait_ctx_ok _ _ _ _ _ _ _ _ _ _ Hw) as Hx.
  destruct Harm as (_ & k & g & [_ Hh Hq Hwf] & ->).
  assert (tm_heap t' !! tp = Some (Timer_new (sys_time k).1 to (Some (BindOnTimer w (Some g))) false))
    as Htp by by rw Hh lookup_insert_eq.
  eexists. split; [exact Htp|]. split; [by exists k|]. intros a now Ha Hdue.
  eapply returns_mono;
    [exact (hook_expires _ _ _ _ _ _ _ _ _ a now tp _ _ s Hs Hwf Ha Htp Hq eq_refl eq_refl Hdue)|].
  intros cbs s2 (Hcb & t2 & Hwf2 & Hret & Hs2). eexists. split; [exact Hcb|].
  eapply returns_mono.
  { eapply spec_returns; [|exact Hs2].
    eapply (hook_callback_alive _ _ _ _ _ _ _ _ _ user w g 0 (TimedOut w fd event)); [done|by rw lookup_insert_eq|].
    eapply (hook_timed_out _ _ _ _ _ _ _ _ _ w fd event (this_fiber c) p x); eauto; [apply Hw| |apply Hw].
    destruct (cw_ctx _ _ _ _ _ _ _ _ _ _ Hw) as (? & ? & _). split; [done|]. split; [done|].
    by rw lookup_insert_eq. }
  cbv beta zeta. intros [] s3 [_ Hs3]. exists t2. split; [done|].
  split; [intros ? [= <-]; by left|].
  destruct (waits_back _ _ _ _ _ _ _ _ _ _ (this_fiber c) Hw) as [Hback1 Hback2]. by rw Hback1 Hback2 in Hs3.
Qed.

(** The event comes first. *)
Lemma hook_event fuel q h n t t' d ti cl c fd event p x ev s :
  can_wait hp0 tb c fd event p x h n t → real_events ev = event →
  let h' := <[p := waits_in event (this_fiber c) x]> h in
  io_ok tb h' (u64 (n + 1)) → at_hook hp tb q h' (u64 (n + 1)) t' d ti cl s →
  returns (handle_event fuel (ev, DataPtr p)) s (λ _ s2,
    at_hook hp tb (q ++ [fiber_task (this_fiber c)]) h n t' d ti cl s2).
Proof.
  intros Hw Hev h' Hok Hs. pose proof (can_wait_ctx_ok _ _ _ _ _ _ _ _ _ _ Hw) as Hx.
  eapply returns_mono; [eapply spec_returns; [|exact Hs]|].
  { eapply (hook_ready _ _ fuel _ _ _ _ _ _ _ ev event (this_fiber c) p x); eauto;
      [apply Hw|by rw lookup_insert_eq|apply Hw]. }
  cbv beta zeta. intros [] s2 [_ Hs2].
  destruct (waits_back _ _ _ _ _ _ _ _ _ _ (this_fiber c) Hw) as [Hback1 Hback2]. by rw Hback1 Hback2 in Hs2.
Qed.

End wait_ends.

(** * The sample process *)

#[global] Instance demo_accepts : KernelAccepts Demo.Os.
Proof. by split. Qed.

Lemma demo_at_update p q f d :
  Demo.fd_at p (Demo.update q f d) = if decide (p = q) then f (Demo.fd_at q d) else Demo.fd_at p d.
Proof.
  unfold Demo.fd_at, Demo.update. cbn [Demo.ctxs]. destruct (decide (p = q)) as [->|].
  - by rw lookup_insert_eq.
  - by rw lookup_insert_ne.
Qed.

#[global] Instance demo_fd_laws : FdManagerLaws Demo.Fds.
Proof.
  split; intros; cbn; try (rw demo_at_update decide_True; [done|]; cbn).
  all: try done.
  all: try (by destruct (Demo.table d !! fd)).
  - rw lookup_delete_eq. done.
  - by rw lookup_insert_eq.
Qed.

Lemma demo_state_ok n l : io_inv (Demo.state_of n l).
Proof.
  unfold io_inv, Demo.state_of. cbn [host]. apply (new_contexts_ok n (MkIO [] ∅ 0 _ _ _ _)).
  split; [by intros i p Hi|by intros p c Hc|done].
Qed.
