(* ===== verification/HookInv.v ===== *)
(** The invariant of a process with hooked calls, kept by every operation, and the
    interleavings of those operations ([hook_steps]): timers and events of calls that
    wait, resumed calls, and timeouts that come too late. *)

From S2P Require Import Prelude.
From S2P Require Import Timer.
From S2P Require Import Fiber.
From S2P Require Import Scheduler.
From S2P Require Import IOManager.
From S2P Require Import Hook.
From S2P Require Import HookSpec.

(** * The invariant *)

Section invariant.
Context {E : Set → Type} {K D : Type} `{!Kernel K, !Originals K, !FdManager D}.
Context (fuel : nat).
Notation St := (Sched E (IO TimerManager (Proc K D))).
Implicit Types s : St.

(** The timers are well-formed, and what they store is known: the function of a
    condition timer is the lambda that belongs to its condition. *)
Record timers_ok (t : TimerManager) (cl : gmap nat closure) : Prop := {
  to_wf : wf t;
  to_event f w fd event : cl !! f = Some (TimedOut w fd event) → event = READ ∨ event = WRITE;
  to_known p tm w o : tm_heap t !! p = Some tm → t_cb tm = Some (BindOnTimer w o) →
    ∃ f fd event, o = Some f ∧ cl !! f = Some (TimedOut w fd event)
}.
(** The process with calls that are over: the objects of [dead]. *)
Definition hook_inv (dead : gset nat) (s : St) : Prop :=
  io_inv s ∧ timers_ok (timers (host s)) (closures (kernel (host s))) ∧
  ∀ w, w ∈ dead → tinfos (kernel (host s)) !! w = Some None.
Context (dead : gset nat).
Notation inv := (hook_inv dead).

(** What an operation of the I/O scheduler keeps. *)
Lemma inv_of_io {A} (m : M St A) :
  keeps io_inv m → (∀ t d ti cl, keeps (apart t d ti cl) m) → keeps inv m.
Proof.
  intros Hio Hap s (Hi & Ht & Hd). specialize (Hio s Hi).
  specialize (Hap (timers (host s)) (fds (kernel (host s))) (tinfos (kernel (host s)))
    (closures (kernel (host s))) s ltac:(done)).
  destruct (m s) as [a s'|e s'|f]; [| |done]; destruct Hap as (H1 & _ & H2 & H3);
    (split; [exact Hio|]); rw H1 H2 H3; done.
Qed.

Lemma inv_proc {A} (m : M (Proc K D) A) :
  (∀ x t, timers_ok t (closures x) → (∀ w, w ∈ dead → tinfos x !! w = Some None) →
     match m x with
     | Ret _ x' | Throw _ x' =>
         timers_ok t (closures x') ∧ ∀ w, w ∈ dead → tinfos x' !! w = Some None
     | Crash _ => True
     end) →
  keeps inv (proc m).
Proof.
  intros H s (Hi & Ht & Hd). unfold proc, io, mzoom.
  specialize (H (kernel (host s)) (timers (host s)) Ht Hd).
  destruct (m (kernel (host s))) as [a x|e x|f]; [| |done]; destruct H as [H1 H2];
    (split; [exact Hi|by split]).
Qed.
Lemma inv_proc_gets {A} (f : Proc K D → A) : keeps inv (proc_gets f).
Proof. apply keeps_gets. Qed.

Lemma inv_call_original r : keeps inv (call_original r).
Proof. intros s Hs. unfold call_original. by destruct (original r _) as [[a e] k]. Qed.
Lemma inv_fd_get fd b : keeps inv (fd_get fd b).
Proof. apply inv_proc. intros x t Ht Hd. by destruct (fm_get fd b (fds x)). Qed.
Lemma inv_fd_del fd : keeps inv (fd_del fd).
Proof. by apply inv_proc. Qed.
Lemma inv_fd_ask {A} (f : D → A) : keeps inv (fd_ask f).
Proof. apply keeps_gets. Qed.
Lemma inv_fd_set f : keeps inv (fd_set f).
Proof. by apply inv_proc. Qed.
Lemma inv_new_tinfo : keeps inv new_tinfo.
Proof.
  apply inv_proc. intros x t Ht Hd. split; [done|]. intros w Hw. cbn.
  rw lookup_insert_ne; [|by apply Hd]. intros Heq. specialize (Hd w Hw).
  assert (tinfos x !! w = None) as Hn by (rw -Heq; apply not_elem_of_dom, is_fresh). congruence.
Qed.
Lemma inv_free_tinfo w : keeps inv (free_tinfo w).
Proof.
  apply inv_proc. intros x t Ht Hd. split; [done|]. intros v Hv. cbn.
  destruct (decide (v = w)) as [->|]; [by rw lookup_insert_eq|].
  rw lookup_insert_ne; [done|]. by apply Hd.
Qed.
Lemma inv_cancelled w : keeps inv (cancelled w).
Proof. apply keeps_bind; [apply inv_proc_gets|]. intros []; [apply keeps_ret|apply keeps_crash]. Qed.
Lemma timers_ok_closure t cl f c :
  timers_ok t cl → cl !! f = None →
  (∀ w fd event, c = TimedOut w fd event → event = READ ∨ event = WRITE) →
  timers_ok t (<[f := c]> cl).
Proof.
  intros [Hwf He Hk] Hf Hc. split; [done| |].
  - intros g w fd event. destruct (decide (g = f)) as [->|].
    + rw lookup_insert_eq. intros [= ->]. by eapply Hc.
    + rw lookup_insert_ne; [done|]. apply He.
  - intros p tm w o Hp Hcb. destruct (Hk p tm w o Hp Hcb) as (g & fd & event & -> & Hg).
    exists g, fd, event. split; [done|]. rw lookup_insert_ne; [congruence|done].
Qed.
Lemma inv_new_closure c :
  (∀ w fd event, c = TimedOut w fd event → event = READ ∨ event = WRITE) →
  keeps inv (new_closure c).
Proof.
  intros Hc. apply inv_proc. intros x t Ht Hd. split; [|done].
  apply timers_ok_closure; [done|apply not_elem_of_dom, is_fresh|done].
Qed.

(** ** Timers *)

Notation inv_cl cl := (λ s, inv s ∧ closures (kernel (host s)) = cl).

Lemma inv_cl_of_io {A} cl (m : M St A) :
  keeps io_inv m → (∀ t d ti cl, keeps (apart t d ti cl) m) → keeps (inv_cl cl) m.
Proof.
  intros Hio Hap s [Hs Hcl]. pose proof (inv_of_io m Hio Hap s Hs) as H.
  specialize (Hap _ _ _ cl s (conj eq_refl (conj eq_refl (conj eq_refl Hcl)))).
  destruct (m s); [| |done]; destruct Hap as (_ & _ & _ & ->); done.
Qed.

Lemma inv_cl_timer_op {A} cl (m : M TimerManager A) :
  keeps (λ t, timers_ok t cl) m → keeps (inv_cl cl) (timer_op m).
Proof.
  intros H s [(Hi & Ht & Hd) Hcl]. rw Hcl in Ht. specialize (H _ Ht).
  unfold timer_op, io, mzoom. destruct (m (timers (host s))); [| |done];
    split; try done; split; try done; split; cbn; rw ?Hcl; done.
Qed.
Lemma inv_hook_timer_op {A} (m : M TimerManager A) :
  (∀ cl, keeps (λ t, timers_ok t cl) m) → keeps inv (timer_op m).
Proof.
  intros H s Hs. pose proof (inv_cl_timer_op _ m (H _) s (conj Hs eq_refl)) as H'.
  destruct (timer_op m s); [apply H'|apply H'|done].
Qed.

Lemma inv_cl_tickle cl : keeps (inv_cl cl) onTimerInsertedAtFront.
Proof. apply inv_cl_of_io; [apply inv_tickle|intros; apply apart_tickle]. Qed.

Lemma inv_iom_timer cl add :
  (∀ t p now, timers_ok t cl → tm_heap t !! p = None →
     match add p now t with Ret _ t' | Throw _ t' => timers_ok t' cl | Crash _ => True end) →
  keeps (inv_cl cl) (iom_timer add).
Proof.
  intros Hadd. unfold iom_timer.
  apply keeps_bind; [apply inv_cl_of_io; [apply inv_syscall|intros; apply apart_syscall]|].
  intros now s [(Hi & Ht & Hd) Hcl]. rw (bind_Ret _ _ _ _ _ (eq_refl : mgets _ s = Ret _ s)).
  rw Hcl in Ht.
  specialize (Hadd (timers (host s)) (fresh (dom (tm_heap (timers (host s))))) now Ht
    ltac:(apply not_elem_of_dom, is_fresh)).
  assert (∀ t', timers_ok t' cl → inv_cl cl (set_host (set_tq t' (host s)) s)) as Hset.
  { intros t' Ht'. split; [|done]. split; [done|]. split; [by cbn; rw Hcl|done]. }
  assert (∀ front p, keeps (inv_cl cl)
    (mwhen (front : bool) onTimerInsertedAtFront ;; mret (M := M St) (p : nat))) as Hk.
  { intros front p. apply keeps_bind; [apply keeps_when, inv_cl_tickle|intros; apply keeps_ret]. }
  unfold timer_op, io, mzoom. cbv [mbind M_bind].
  destruct (add _ now (timers (host s))) as [front t'|e t'|f]; [|by apply Hset|done].
  exact (Hk front _ _ (Hset t' Hadd)).
Qed.

Lemma timers_ok_insert t t' cl p tm :
  timers_ok t cl → wf t' → tm_heap t' = <[p := tm]> (tm_heap t) →
  (∀ w o, t_cb tm = Some (BindOnTimer w o) →
    ∃ f fd event, o = Some f ∧ cl !! f = Some (TimedOut w fd event)) →
  timers_ok t' cl.
Proof.
  intros [_ He Hk] Hwf Hh Htm. split; [done|done|]. intros p' tm' w o. rw Hh.
  destruct (decide (p' = p)) as [->|].
  - rw lookup_insert_eq. intros [= <-]. apply Htm.
  - rw lookup_insert_ne; [done|]. apply Hk.
Qed.

Lemma timers_ok_add cl ms cb t p now :
  in_u64 ms → (∀ w o, cb = BindOnTimer w o →
    ∃ f fd event, o = Some f ∧ cl !! f = Some (TimedOut w fd event)) →
  timers_ok t cl → tm_heap t !! p = None →
  match addTimer p now ms (Some cb) false t with
  | Ret _ t' | Throw _ t' => timers_ok t' cl
  | Crash _ => True
  end.
Proof.
  intros Hms Hcb Ht Hp.
  pose proof (addTimer_spec t p now ms (Some cb) false (to_wf _ _ Ht) Hp Hms) as H.
  unfold returns in H. destruct (addTimer p now ms _ _ t) as [front t'| |]; [|done..].
  destruct H as (Hwf & Hh & _). eapply timers_ok_insert; eauto. intros w o [= ->]. by apply Hcb.
Qed.

Lemma inv_cancel_timer timer : keeps inv (cancel_timer timer).
Proof.
  destruct timer as [p|]; [|apply keeps_ret]. apply keeps_bind; [|intros; apply keeps_ret].
  apply inv_hook_timer_op. intros cl t Ht.
  destruct (tm_heap t !! p) as [tm|] eqn:Hp; [|by cbv [cancel mbind M_bind deref]; rw Hp].
  destruct (t_cb tm) as [cb|] eqn:Hcb.
  - pose proof (cancel_armed t p tm cb (to_wf _ _ Ht) Hp Hcb) as H. unfold returns in H.
    destruct (cancel p t) as [r t'| |]; [|done..]. destruct H as (_ & Hwf & Hh & _).
    by eapply timers_ok_insert.
  - unfold cancel. rw (bind_Ret _ _ _ _ _ (deref_ok _ _ _ Hp)). by rw Hcb.
Qed.

(** A function that a timer stores. *)
Definition known (cl : gmap nat closure) (cb : callback) : Prop :=
  match cb with
  | Fun _ => True
  | BindOnTimer w o => ∃ f fd event, o = Some f ∧ cl !! f = Some (TimedOut w fd event)
  end.

(** [listExpiredCb] hands out known functions and keeps the timers in order. *)
Lemma expired_known cl a now t :
  timers_ok t cl → tm_heap t !! a = None →
  returns (listExpiredCb a now) t (λ cbs t', timers_ok t' cl ∧
    ∀ cb, Some cb ∈ cbs → known cl cb).
Proof.
  intros Ht Ha. unfold listExpiredCb, listExpired_check. mstep.
  destruct (m_timers t) as [|x l] eqn:Hl.
  { split; [done|]. intros cb Hcb. by apply elem_of_nil in Hcb. }
  eapply returns_mono; [apply collect_ok; [apply Ht|done|left; by rw Hl]|].
  cbv zeta. intros cbs t' (-> & Hwf & Hh & _). split.
  - split; [done|apply Ht|]. intros p tm w o. rw Hh.
    destruct (decide _); [|apply Ht].
    destruct (tm_heap t !! p) as [tm0|] eqn:Hp; [|done]. cbn. intros [= <-].
    unfold fired. destruct (t_recurring tm0); [|done]. cbn. by apply (to_known _ _ Ht p).
  - intros cb Hcb. apply list_elem_of_In, in_map_iff in Hcb as (p & Hp & _).
    destruct (tm_heap t !! p) as [tm0|] eqn:Htm; [|done]. cbn in Hp.
    destruct cb as [|w o]; [done|]. by apply (to_known _ _ Ht p tm0).
Qed.

(** ** Waiting *)

Lemma inv_get_iom c : keeps inv (get_iom c).
Proof. unfold get_iom. destruct (has_iom c); [apply keeps_ret|apply keeps_crash]. Qed.

(** Starting a timer with a function made for it. *)
Lemma inv_new_timer {B} c ms cb (k : nat → nat → M St B) :
  in_u64 ms →
  (∀ w fd event, c = TimedOut w fd event → event = READ ∨ event = WRITE) →
  (∀ f w o, cb f = BindOnTimer w o → ∃ fd event, o = Some f ∧ c = TimedOut w fd event) →
  (∀ f p, keeps inv (k f p)) →
  keeps inv (f ← new_closure c; p ← iom_timer (λ p now, addTimer p now ms (Some (cb f)) false);
             k f p).
Proof.
  intros Hms Hc Hcb Hk s Hs. pose proof (inv_new_closure c Hc s Hs) as H.
  destruct (new_closure c s) as [f s1| |] eqn:Hnew; [|done..].
  rw (bind_Ret _ _ _ _ _ Hnew).
  assert (closures (kernel (host s1)) !! f = Some c) as Hf.
  { revert Hnew. unfold new_closure, proc, io, mzoom. intros [= <- <-]. cbn. by rw lookup_insert_eq. }
  pose proof (inv_iom_timer (closures (kernel (host s1)))
    (λ p now, addTimer p now ms (Some (cb f)) false)) as Ht.
  assert (keeps (inv_cl (closures (kernel (host s1))))
    (iom_timer (λ p now, addTimer p now ms (Some (cb f)) false))) as Ht'.
  { apply Ht. intros t p now Hok Hp. apply timers_ok_add; [done| |done|done].
    intros w o Hw. destruct (Hcb f w o Hw) as (fd & event & -> & ->). by exists f, fd, event. }
  specialize (Ht' s1 (conj H eq_refl)). cbv [mbind M_bind] in *.
  destruct (iom_timer _ s1) as [p s2|e s2|]; [|by destruct Ht'|done].
  exact (Hk f p s2 (proj1 Ht')).
Qed.

Lemma inv_arm_timeout c fd event to w :
  in_u64 to → event = READ ∨ event = WRITE → keeps inv (arm_timeout c fd event to w).
Proof.
  intros Hto He. unfold arm_timeout. destruct (_ =? _)%Z; [apply keeps_ret|].
  apply keeps_bind; [apply inv_get_iom|]. intros [].
  apply (inv_new_timer (TimedOut w fd event) to (λ f, BindOnTimer w (Some f))
    (λ _ p, mret (Some p))); [done| | |intros; apply keeps_ret].
  - by intros ? ? ? [= _ _ <-].
  - intros f w' o [= <- <-]. by exists fd, event.
Qed.

Lemma inv_iom_addEvent c fd event :
  event = READ ∨ event = WRITE → keeps inv (iom_addEvent c fd event).
Proof.
  intros He. apply keeps_bind; [apply inv_get_iom|]. intros [].
  apply inv_of_io; [by apply inv_addEvent|intros; apply apart_addEvent].
Qed.

Lemma inv_call_uninterrupted n r : keeps inv (call_uninterrupted n r).
Proof.
  induction n as [|n IH]; [apply keeps_crash|].
  apply keeps_bind; [apply inv_call_original|]. intros x. destruct (failed_with _ _); [done|apply keeps_ret].
Qed.

Hint Resolve inv_call_original inv_fd_get inv_fd_del inv_fd_set inv_fd_ask u64_range inv_new_tinfo
  inv_free_tinfo inv_cancelled inv_cancel_timer inv_get_iom inv_arm_timeout inv_iom_addEvent
  inv_call_uninterrupted : duan.

Lemma inv_do_io_register c b :
  io_event b = READ ∨ io_event b = WRITE → keeps inv (do_io_register c b).
Proof. intros He. unfold do_io_register. keep. destruct (_ =? _)%Z; cbn [negb]; keep. Qed.
Hint Resolve inv_do_io_register : duan.
Lemma inv_do_io_retry c b :
  io_event b = READ ∨ io_event b = WRITE → in_u64 (io_to b) → keeps inv (do_io_retry fuel c b).
Proof.
  intros He Hto. unfold do_io_retry, do_io_wait. keep. destruct (failed_with _ _); keep.
Qed.
Hint Resolve inv_do_io_retry : duan.
Lemma inv_do_io_resume c b :
  io_event b = READ ∨ io_event b = WRITE → in_u64 (io_to b) → keeps inv (do_io_resume fuel c b).
Proof.
  intros He Hto. unfold do_io_resume. keep. destruct (_ =? _)%Z; cbn [negb]; keep.
Qed.
Lemma inv_do_io c fd f event o :
  event = READ ∨ event = WRITE → keeps inv (do_io fuel c fd f event o).
Proof.
  intros He. unfold do_io, returned. destruct (t_hook_enable c); cbn [negb]; keep.
  destruct a as [p|]; keep. destruct a; keep. destruct (_ || _); keep.
Qed.

(** ** The functions of the timers *)

Lemma inv_scheduler fc th : keeps inv (scheduler (SchedTickle0 := IO_tickle) fc th).
Proof.
  apply inv_of_io; [|intros; apply apart_scheduler].
  apply keeps_bind; [|intros []; [apply inv_tickle|apply keeps_ret]].
  apply keeps_bind; [apply keeps_gets|]. intros b. apply keeps_bind; [|intros; apply keeps_ret].
  apply keeps_when, keeps_modify. by intros s.
Qed.
Lemma inv_cancelEvent fd event :
  event = READ ∨ event = WRITE → keeps inv (cancelEvent fd event).
Proof.
  intros He. apply inv_of_io; [|intros; apply apart_cancelEvent].
  apply keeps_bind; [apply inv_lookup|]. intros [p|]; [by apply inv_cancel|apply keeps_ret].
Qed.
Lemma inv_timed_out w fd event :
  event = READ ∨ event = WRITE → keeps inv (timed_out w fd event).
Proof.
  intros He s Hs. unfold timed_out, proc_gets.
  rw (bind_Ret _ _ _ _ _ (eq_refl : mgets _ s = Ret _ s)).
  destruct (alive w (kernel (host s))) as [v|] eqn:Hv; [|done].
  destruct v; try done.
  set (s' := set_host (set_kernel (set_tinfos (<[w := Some ETIMEDOUT]> (tinfos (kernel (host s))))
    (kernel (host s))) (host s)) s).
  assert (inv s') as Hs'.
  { destruct Hs as (Hi & Ht & Hd). split; [done|]. split; [done|]. intros u Hu. cbn.
    rw lookup_insert_ne; [|by apply Hd]. intros ->. unfold alive in Hv. by rw (Hd u Hu) in Hv. }
  rw (bind_Ret _ _ s tt s'); [done|].
  exact (keeps_bind _ _ _ (inv_cancelEvent fd event He) (λ _, keeps_ret _ tt) s' Hs').
Qed.

(** Known functions are not empty. *)
Lemma known_runs cl cb alive : known cl cb → ∃ l, run_callback alive cb [] = Ret tt l.
Proof.
  destruct cb as [f|w o]; [by eexists|]. intros (f & fd & event & -> & _). cbn. unfold OnTimer.
  destruct (alive w); by eexists.
Qed.

Lemma inv_callback user cb : (∀ f, keeps inv (user f)) → keeps inv (run_timer_callback user cb).
Proof.
  intros Hu s Hs.
  assert (∀ f, keeps inv (call_closure user f)) as Hcall.
  { intros f s' Hs'. unfold call_closure, proc_gets.
    rw (bind_Ret _ _ _ _ _ (eq_refl : mgets _ s' = Ret _ s')).
    destruct (closures (kernel (host s')) !! f) as [[w fd event|g th]|] eqn:Hf.
    - apply inv_timed_out; [|done]. destruct Hs' as (_ & Ht & _). by eapply to_event.
    - by apply inv_scheduler.
    - by apply Hu. }
  assert (∀ l, keeps inv (miter (call_closure user) l)) as Hl by (intros l; by apply keeps_iter).
  unfold run_timer_callback. rw (bind_Ret _ _ _ _ _ (eq_refl : mgets _ s = Ret _ s)).
  destruct cb as [f|w o]; cbn [run_callback]; [by apply (Hl [f])|].
  unfold OnTimer. destruct (bool_decide _); [|by apply (Hl [])].
  destruct o as [f|]; [by apply (Hl [f])|done].
Qed.

(** ** The hooked functions *)

Lemma inv_handle_ptr fuel' ev p : keeps inv (handle_event fuel' (ev, DataPtr p)).
Proof. apply inv_of_io; [apply inv_handle|intros; apply apart_handle]. Qed.
Lemma inv_cancelAll_fd fd : keeps inv (cancelAll fd).
Proof.
  apply inv_of_io; [|intros; apply apart_cancelAll].
  apply keeps_bind; [apply inv_lookup|]. intros [p|]; [apply inv_cancelAll|apply keeps_ret].
Qed.
Lemma inv_connect_result fd : keeps inv (Hooked.connect_result fd).
Proof. intros s Hs. unfold Hooked.connect_result. by destruct (so_error fd _) as [[[n e] error] k]. Qed.
Hint Resolve inv_do_io inv_do_io_resume inv_cancelAll_fd inv_connect_result : duan.

Lemma inv_sleep_for c ms : in_u64 ms → keeps inv (Hooked.sleep_for c ms).
Proof.
  intros Hms. unfold Hooked.sleep_for. apply keeps_bind; [apply inv_get_iom|]. intros [].
  apply (inv_new_timer (Resume (this_fiber c) (-1)) ms Fun (λ _ _, mret (Suspended tt)));
    [done|done|done|intros; apply keeps_ret].
Qed.
Lemma inv_connect c fd addr addrlen to :
  in_u64 to → keeps inv (Hooked.connect_with_timeout c fd addr addrlen to).
Proof.
  intros Hto. unfold Hooked.connect_with_timeout, returned.
  assert (WRITE = READ ∨ WRITE = WRITE) as He by by right.
  destruct (t_hook_enable c); cbn [negb]; keep. destruct a as [p|]; keep. destruct a; keep.
  destruct (_ || _); keep. destruct (_ =? 0)%Z; keep. destruct (failed_with _ _); cbn [negb]; keep.
  destruct (_ =? 0)%Z; keep.
Qed.
Lemma inv_connect_resume b : keeps inv (Hooked.connect_resume b).
Proof. unfold Hooked.connect_resume. keep. destruct (_ =? 0)%Z; cbn [negb]; keep. Qed.
Lemma inv_accepted p : keeps inv (Hooked.accepted p).
Proof. destruct p; [|apply keeps_ret]. cbn. destruct (_ <=? _)%Z; keep. Qed.
Lemma inv_socket c domain type protocol : keeps inv (Hooked.socket c domain type protocol).
Proof. unfold Hooked.socket. destruct (t_hook_enable c); cbn [negb]; keep. destruct (_ =? _)%Z; keep. Qed.
Lemma inv_close c fd : keeps inv (Hooked.close c fd).
Proof.
  unfold Hooked.close. destruct (t_hook_enable c); cbn [negb]; keep.
  destruct a; keep.
Qed.
Lemma inv_socket_ctx fd : keeps inv (Hooked.socket_ctx fd).
Proof. unfold Hooked.socket_ctx. keep. destruct a; keep. Qed.
Hint Resolve inv_socket_ctx : duan.
Lemma inv_fcntl fd cmd arg : keeps inv (Hooked.fcntl fd cmd arg).
Proof.
  unfold Hooked.fcntl. destruct (_ =? _)%Z; [keep; destruct a; keep|].
  destruct (_ =? _)%Z; [keep; destruct a0; keep|]. destruct (bool_decide _); keep.
Qed.
Lemma inv_ioctl d request arg pointee : keeps inv (Hooked.ioctl d request arg pointee).
Proof. unfold Hooked.ioctl. destruct (_ =? _)%Z; keep. destruct a; keep. Qed.
Lemma inv_setsockopt c fd level optname optval optlen sec usec :
  keeps inv (Hooked.setsockopt c fd level optname optval optlen sec usec).
Proof. unfold Hooked.setsockopt. keep. destruct a; keep. Qed.
End invariant.

(** * Interleavings

    What the fibers and the idle fiber do, one piece at a time: a hooked call up
    to where it suspends or returns, the rest of one that was suspended, handing
    out the functions of expired timers, running one, and an event. *)

Inductive hook_op :=
  | OpSleep (c : Caller) (seconds : Z)
  | OpUsleep (c : Caller) (usec : Z)
  | OpNanosleep (c : Caller) (tv_sec tv_nsec rem : Z)
  | OpSocket (c : Caller) (domain type protocol : Z)
  | OpConnect (c : Caller) (fd addr addrlen timeout_ms : Z)
  | OpConnectResume (b : Hooked.connect_call)
  | OpAccept (c : Caller) (sockfd addr addrlen : Z)
  | OpAcceptResume (c : Caller) (b : io_call)
  | OpIo (c : Caller) (fd : Z) (f : sysreq) (event timeout_so : Z)
  | OpIoResume (c : Caller) (b : io_call)
  | OpClose (c : Caller) (fd : Z)
  | OpFcntl (fd cmd arg : Z)
  | OpIoctl (d request arg pointee : Z)
  | OpSetsockopt (c : Caller) (fd level optname optval optlen tv_sec tv_usec : Z)
  | OpExpired (a : nat) (now : Z)
  | OpCallback (cb : callback)
  | OpReady (events : Z) (p : nat).

Section steps.
Context {E : Set → Type} {K D : Type} `{!Kernel K, !Originals K, !FdManager D}.
Notation St := (Sched E (IO TimerManager (Proc K D))).
Context (fuel : nat) (user : nat → M St unit).
Implicit Types s : St.

Definition discard {A} (m : M St A) : M St unit := _ ← m; mret tt.

Definition exec (op : hook_op) : M St unit :=
  match op with
  | OpSleep c seconds => discard (Hooked.sleep c seconds)
  | OpUsleep c usec => discard (Hooked.usleep c usec)
  | OpNanosleep c tv_sec tv_nsec rem => discard (Hooked.nanosleep c tv_sec tv_nsec rem)
  | OpSocket c domain type protocol => discard (Hooked.socket c domain type protocol)
  | OpConnect c fd addr addrlen timeout_ms =>
      discard (Hooked.connect_with_timeout c fd addr addrlen timeout_ms)
  | OpConnectResume b => discard (Hooked.connect_resume b)
  | OpAccept c sockfd addr addrlen => discard (Hooked.accept fuel c sockfd addr addrlen)
  | OpAcceptResume c b => discard (Hooked.accept_resume fuel c b)
  | OpIo c fd f event timeout_so => discard (do_io fuel c fd f event timeout_so)
  | OpIoResume c b => discard (do_io_resume fuel c b)
  | OpClose c fd => discard (Hooked.close c fd)
  | OpFcntl fd cmd arg => discard (Hooked.fcntl fd cmd arg)
  | OpIoctl d request arg pointee => discard (Hooked.ioctl d request arg pointee)
  | OpSetsockopt c fd level optname optval optlen tv_sec tv_usec =>
      discard (Hooked.setsockopt c fd level optname optval optlen tv_sec tv_usec)
  | OpExpired a now => discard (timer_op (listExpiredCb a now))
  | OpCallback cb => run_timer_callback user cb
  | OpReady events p => handle_event fuel (events, DataPtr p)
  end.

(** The types of the arguments, and that the temporary timer of [listExpiredCb] is
    at an address that is free. *)
Definition enabled (op : hook_op) (s : St) : Prop :=
  match op with
  | OpUsleep _ usec => (0 <= usec < 2 ^ 32)%Z
  | OpConnect _ _ _ _ timeout_ms => in_u64 timeout_ms
  | OpIo _ _ _ event _ => event = READ ∨ event = WRITE
  | OpIoResume _ b | OpAcceptResume _ b =>
      (io_event b = READ ∨ io_event b = WRITE) ∧ in_u64 (io_to b)
  | OpExpired a _ => tm_heap (timers (host s)) !! a = None
  | _ => True
  end.

Inductive hook_steps : St → St → Prop :=
  | hook_refl s : hook_steps s s
  | hook_step s op s1 s2 :
      enabled op s → exec op s = Ret tt s1 → hook_steps s1 s2 → hook_steps s s2.

(** The same, computed. *)
Fixpoint run_ops (ops : list hook_op) (s : St) : option St :=
  match ops with
  | [] => Some s
  | op :: ops => match exec op s with Ret tt s1 => run_ops ops s1 | _ => None end
  end.
Lemma run_ops_steps ops s s' :
  (∀ op s, op ∈ ops → enabled op s) → run_ops ops s = Some s' → hook_steps s s'.
Proof.
  revert s. induction ops as [|op ops IH]; cbn [run_ops]; intros s Hen Hr.
  - injection Hr as <-. apply hook_refl.
  - destruct (exec op s) as [[] s1| |] eqn:Hop; [|done..].
    eapply hook_step; [apply Hen; left|exact Hop|]. apply IH; [|done].
    intros op' s2 H. apply Hen. by right.
Qed.

Context (user_ok : ∀ dead f, keeps (hook_inv dead) (user f)).

Lemma inv_discard {A} dead (m : M St A) :
  keeps (hook_inv dead) m → keeps (hook_inv dead) (discard m).
Proof. intros H. apply keeps_bind; [done|intros; apply keeps_ret]. Qed.

Lemma inv_returned {B} dead (m : M St sysret) :
  keeps (hook_inv dead) m → keeps (hook_inv dead) (returned (B:=B) m).
Proof. intros H. apply keeps_bind; [done|intros; apply keeps_ret]. Qed.

Lemma inv_expired dead a now s :
  hook_inv dead s → tm_heap (timers (host s)) !! a = None →
  returns (timer_op (listExpiredCb a now)) s (λ cbs s', hook_inv dead s' ∧
    ∀ cb, Some cb ∈ cbs → known (closures (kernel (host s'))) cb).
Proof.
  intros (Hi & Ht & Hd) Ha. pose proof (expired_known _ a now _ Ht Ha) as H.
  unfold returns, timer_op, io, mzoom in *.
  destruct (listExpiredCb a now (timers (host s))) as [cbs t'| |]; [|done..].
  destruct H as [Ht' Hk]. split; [|exact Hk]. split; [exact Hi|]. by split.
Qed.

Lemma inv_sleeping {B} dead c (m : M St sysret) (m' : M St (progress B)) :
  keeps (hook_inv dead) m → keeps (hook_inv dead) m' →
  keeps (hook_inv dead) (if negb (t_hook_enable c) then returned m else m').
Proof. intros. destruct (t_hook_enable c); [done|by apply inv_returned]. Qed.

Lemma u32_in_u64 z : in_u64 (u32 z).
Proof. unfold in_u64, u32. pose proof (Z.mod_pos_bound z (2 ^ 32)). lia. Qed.
Lemma quot_in_u64 z : (0 <= z < 2 ^ 32)%Z → in_u64 (Z.quot z 1000).
Proof.
  intros Hz. unfold in_u64. pose proof (Z.quot_pos z 1000). pose proof (Z.quot_le_upper_bound z 1000 z).
  lia.
Qed.

Hint Resolve inv_discard inv_sleeping inv_sleep_for inv_call_original inv_socket inv_connect
  inv_connect_resume inv_accepted inv_do_io inv_do_io_resume inv_close inv_fcntl inv_ioctl
  inv_setsockopt inv_callback inv_handle_ptr u32_in_u64 quot_in_u64 u64_range : duan.

Lemma inv_exec dead op s :
  hook_inv dead s → enabled op s →
  match exec op s with Ret _ s' | Throw _ s' => hook_inv dead s' | Crash _ => True end.
Proof.
  intros Hs Hen. destruct op; cbn [exec enabled] in *.
  8, 10: destruct Hen as [Hev Hto].
  15: { pose proof (inv_expired dead a now s Hs Hen) as H. unfold discard, returns in *.
        cbv [mbind M_bind]. by destruct (timer_op _ s) as [cbs s'| |]; [destruct H|..]. }
  all: match goal with |- match ?m _ with _ => _ end => cut (keeps (hook_inv dead) m) end;
    [by intros H; apply H|].
  all: unfold Hooked.sleep, Hooked.usleep, Hooked.nanosleep, Hooked.accept, Hooked.accept_resume.
  all: try solve [eauto 6 with duan].
Qed.

Lemma inv_steps dead s s' : hook_steps s s' → hook_inv dead s → hook_inv dead s'.
Proof.
  induction 1 as [s|s op s1 s2 Hen Hop _ IH]; [done|]. intros Hs. apply IH.
  pose proof (inv_exec dead op s Hs Hen) as H. by rw Hop in H.
Qed.
End steps.

(** * Safety *)

Section safety.
Context {E : Set → Type} {K D : Type} `{!Kernel K, !Originals K, !FdManager D}.
Notation St := (Sched E (IO TimerManager (Proc K D))).
Context (fuel : nat) (user : nat → M St unit).
Implicit Types s : St.

Lemma hook_inv_start t0 s :
  io_inv s → timers (host s) = TimerManager_new t0 → closures (kernel (host s)) = ∅ →
  hook_inv ∅ s.
Proof.
  intros Hio Ht Hcl. split; [done|]. split; [|intros w Hw; by apply elem_of_empty in Hw].
  rw Ht Hcl. split; [apply TimerManager_new_wf|by intros ? ? ? ? ?|by intros ? ? ? ? ?].
Qed.


End safety.

(** A read that waits, is answered, and is followed by another one that waits. *)
Definition demo_steps : Sched (does callback) (IO TimerManager (Proc Demo.Os Demo.Fds)) :=
  Demo.state [((-1)%Z, EAGAIN); (42%Z, 0%Z); ((-1)%Z, EAGAIN)].
Definition demo_io : hook_op := OpIo Demo.caller 7 (read_f 7 0 100) READ SO_RCVTIMEO.
Definition demo_first : list hook_op :=
  [demo_io; OpReady EPOLLIN 7;
   OpIoResume Demo.caller (MkIoCall 7 (read_f 7 0 100) READ 50 0 (Some 0))].
Definition demo_after (ops : list hook_op) : Sched (does callback) (IO TimerManager (Proc Demo.Os Demo.Fds)) :=
  default demo_steps (run_ops 5 (λ _, mret tt) ops demo_steps).

Lemma demo_enabled (op : hook_op) (s : Sched (does callback) (IO TimerManager (Proc Demo.Os Demo.Fds))) :
  op ∈ demo_first → enabled op s.
Proof.
  unfold demo_first. rw !elem_of_cons. intros [-> |[-> |[-> |H]]]; [by left|done| |].
  - split; [by left|done].
  - by apply elem_of_nil in H.
Qed.


