(* ===== verification/HookCalls.v ===== *)
(** What the hooked calls promise: when [do_io] answers at once, when it waits and what
    ends the wait, how long the sleeping functions sleep, what [connect], [close] and
    [fcntl] do. *)

From S2P Require Import Prelude.
From S2P Require Import Timer.
From S2P Require Import Fiber.
From S2P Require Import Scheduler.
From S2P Require Import IOManager.
From S2P Require Import Hook.
From S2P Require Import HookSpec.
From S2P Require Import HookInv.

Section properties.
Context {E : Set → Type} {K D : Type} `{!Kernel K, !KernelAccepts K, !Originals K, !FdManager D, !FdManagerLaws D}.
Notation St := (Sched E (IO TimerManager (Proc K D))).
Implicit Types s : St.

(** The state [s] satisfies [can_wait]. *)
Definition waitable (c : Caller) (fd event : Z) (p : nat) (x : FdContext) (s : St) : Prop :=
  can_wait (heap s) (m_fdContexts (host s)) c fd event p x (fd_heap (host s))
    (m_pendingEventCount (host s)) (timers (host s)).

Lemma waitable_ext c fd event p x s s' :
  heap s' = heap s → m_fdContexts (host s') = m_fdContexts (host s) →
  fd_heap (host s') = fd_heap (host s) →
  m_pendingEventCount (host s') = m_pendingEventCount (host s) →
  timers (host s') = timers (host s) → waitable c fd event p x s → waitable c fd event p x s'.
Proof. unfold waitable. by intros -> -> -> -> ->. Qed.

Lemma at_self s :
  at_hook (heap s) (m_fdContexts (host s)) (m_fibers s) (fd_heap (host s))
    (m_pendingEventCount (host s)) (timers (host s)) (fds (kernel (host s)))
    (tinfos (kernel (host s))) (closures (kernel (host s))) s.
Proof. done. Qed.

(** The process [s] with the [timer_info] [w] of a call that is over. *)
Definition with_dead (w : nat) (s : St) : St :=
  set_host (set_kernel (set_tinfos (<[w := None]> (tinfos (kernel (host s)))) (kernel (host s)))
    (host s)) s.

(** [do_io] without waiting.  With the hook off, on a descriptor without a
    context, on one that is no socket, and on one the user has made non-blocking,
    the original function is called once and its answer returned; on a closed one
    nothing is called and the answer is [EBADF]; otherwise the call is repeated as
    long as it is interrupted, and the answer returned unless it is [EAGAIN].  The
    rest of the process is as before: no event or timer is registered. *)
Theorem do_io_answers fuel c fd f event o s :
  let d := fds (kernel (host s)) in
  (managed c fd d = None → refused c fd d = false →
     do_io fuel c fd f event o s =
       Ret (Returned (answer (original f (the_os s)).1)) (with_os (original f (the_os s)).2 s)) ∧
  (refused c fd d = true →
     do_io fuel c fd f event o s = Ret (Returned (SysRet (-1) (Some EBADF))) s) ∧
  (∀ p n, managed c fd d = Some p →
     settles (original f) interrupted n (the_os s) → n < fuel →
     let a := (original f (calls_from (original f) n (the_os s))).1 in
     a ≠ ((-1)%Z, EAGAIN) →
     ∃ w, tinfos (kernel (host s)) !! w = None ∧
       do_io fuel c fd f event o s =
         Ret (Returned (answer a)) (with_dead w (with_os (calls_from (original f) (S n) (the_os s)) s))).
Proof.
  intros d. split_and!.
  - intros Hm Hr. rw do_io_cases. by rw Hm Hr.
  - intros Hr. rw do_io_cases. fold d.
    assert (managed c fd d = None) as ->; [|by rw Hr].
    revert Hr. unfold refused, managed. destruct (t_hook_enable c); [|done]. cbn [andb].
    destruct (fm_get fd false d).1 as [p|]; [|done]. cbn. by intros ->.
  - intros p n Hm Hset Hn. cbv zeta. intros Ha.
    exists (fresh (dom (tinfos (kernel (host s))))). split; [apply not_elem_of_dom, is_fresh|].
    rw do_io_cases. fold d. rw Hm. set (w := fresh (dom (tinfos (kernel (host s))))).
    set (s1 := set_host (set_kernel (set_tinfos (<[w := Some 0%Z]> (tinfos (kernel (host s))))
      (kernel (host s))) (host s)) s).
    assert (new_tinfo s = Ret w s1) as Hnew by done.
    rw (bind_Ret _ _ _ _ _ Hnew). unfold do_io_retry. cbn [io_fun io_tinfo].
    rw (bind_Ret _ _ _ _ _ (call_uninterrupted_ends n fuel f s1 Hset Hn)).
    destruct (failed_with EAGAIN _) eqn:Hf; [by apply failed_with_true in Hf|].
    unfold with_dead, with_os, free_tinfo, proc, io, mzoom, mmodify. cbv [mbind M_bind]. cbn.
    by rw insert_insert_eq.
Qed.

(** A call with a timeout whose descriptor never becomes ready.  [do_io]
    suspends the fiber with a timer armed for [to] milliseconds from the clock; once the
    clock has reached it, [listExpiredCb] hands out the function of the timer; running
    it queues the fiber; and the resumed call returns -1 with [ETIMEDOUT].  The contexts
    and the number of pending events are then as before the call. *)
Theorem do_io_times_out fuel user c fd f event o pd p x i s :
  waitable c fd event p x s →
  managed c fd (fds (kernel (host s))) = Some pd →
  settles (original f) interrupted i (the_os s) → i < fuel →
  (original f (calls_from (original f) i (the_os s))).1 = ((-1)%Z, EAGAIN) →
  let to := u64 (getTimeout pd o (fds (kernel (host s)))) in
  to ≠ u64_max →
  returns (do_io fuel c fd f event o) s (λ r s1, ∃ b tp tm,
    r = Suspended b ∧ m_fibers s1 = m_fibers s ∧
    tm_heap (timers (host s1)) !! tp = Some tm ∧
    (∃ k : K, t_next tm = u64 ((sys_time k).1 + to)) ∧
    ∀ a now, tm_heap (timers (host s1)) !! a = None → (t_next tm <= now)%Z →
    returns (timer_op (listExpiredCb a now)) s1 (λ cbs s2, ∃ cb, Some cb ∈ cbs ∧
    returns (run_timer_callback user cb) s2 (λ _ s3,
      m_fibers s3 = m_fibers s ++ [fiber_task (this_fiber c)] ∧
    returns (do_io_resume fuel c b) s3 (λ r s4,
      r = Returned (SysRet (-1) (Some ETIMEDOUT)) ∧ m_fibers s4 = m_fibers s3 ∧
      fd_heap (host s4) = fd_heap (host s) ∧
      m_pendingEventCount (host s4) = m_pendingEventCount (host s))))).
Proof.
  intros Hw Hm Hset Hi Ha to Hto.
  eapply returns_mono; [by eapply (do_io_suspends _ _ fuel); [apply at_self|..]|].
  cbv zeta. intros r s1 (w & timer & t1 & cl1 & Hw0 & -> & Harm & Hok & Hs1).
  pose proof (timeout_armed_live _ _ _ _ _ _ _ _ _ Harm) as Hlive.
  pose proof (timeout_armed_wf _ _ _ _ _ _ _ _ _ (cw_wf _ _ _ _ _ _ _ _ _ _ Hw) Harm) as Hwf1.
  destruct timer as [tp|]; [|by destruct Harm as [? _]].
  destruct (hook_times_out _ _ _ user _ _ _ _ _ _ _ _ _ c fd event _ w tp p x s1 Hw
    (lookup_insert_eq _ _ _) Harm Hok Hs1) as (tm & Htm & Hk & Hfire).
  eexists _, tp, tm. split; [done|]. split; [apply Hs1|]. destruct (Hs1) as [_ (-> & _)].
  split; [done|]. split; [done|]. intros a now Hfresh Hdue.
  eapply returns_mono; [by apply (Hfire a now)|]. intros cbs s2 (cb & Hcb & Hrun).
  exists cb. split; [done|]. eapply returns_mono; [exact Hrun|].
  intros [] s3 (t3 & Hwf3 & Hl3 & Hs3). split; [apply Hs3|].
  eapply returns_mono; [eapply spec_returns; [|exact Hs3]|].
  { eapply (hook_resume_cancelled _ _ fuel _ _ _ _ _ _ _ c (MkIoCall fd f event _ w (Some tp)) ETIMEDOUT Hwf3 Hl3);
      [by rw lookup_insert_eq|done]. }
  intros r s4 (-> & t4 & _ & _ & Hs4). split; [done|].
  split; [destruct Hs3 as [(_ & -> & _) _]; apply Hs4|]. split; apply Hs4.
Qed.

(** C9. A call whose descriptor becomes ready.  The event queues the fiber; the resumed
    call cancels its timer, makes the original call again and returns its answer.  The
    contexts and the counter are then as before, the timer is out of the queue for good,
    and if its function had already been handed out, running it changes nothing. *)
Theorem do_io_completes fuel fuel' user c fd f event o pd p x i ev s :
  waitable c fd event p x s →
  managed c fd (fds (kernel (host s))) = Some pd →
  settles (original f) interrupted i (the_os s) → i < fuel →
  (original f (calls_from (original f) i (the_os s))).1 = ((-1)%Z, EAGAIN) →
  real_events ev = event →
  returns (do_io fuel c fd f event o) s (λ r s1, ∃ b, r = Suspended b ∧
    m_fibers s1 = m_fibers s ∧
    returns (handle_event fuel' (ev, DataPtr p)) s1 (λ _ s2,
      m_fibers s2 = m_fibers s ++ [fiber_task (this_fiber c)] ∧
    ∀ j, settles (original f) interrupted j (the_os s2) → j < fuel →
      let a := (original f (calls_from (original f) j (the_os s2))).1 in
      a ≠ ((-1)%Z, EAGAIN) →
    returns (do_io_resume fuel c b) s2 (λ r s3, r = Returned (answer a) ∧
      fd_heap (host s3) = fd_heap (host s) ∧
      m_pendingEventCount (host s3) = m_pendingEventCount (host s) ∧
      (∀ tp, io_timer b = Some tp → retired tp (timers (host s3))) ∧
      ∀ cb, returns (run_timer_callback user (BindOnTimer (io_tinfo b) cb)) s3 (λ _ s4,
        m_fibers s4 = m_fibers s3 ∧ fd_heap (host s4) = fd_heap (host s3))))).
Proof.
  intros Hw Hm Hset Hi Ha Hev.
  eapply returns_mono; [by eapply (do_io_suspends _ _ fuel); [apply at_self|..]|].
  cbv zeta. intros r s1 (w & timer & t1 & cl1 & Hw0 & -> & Harm & Hok & Hs1).
  pose proof (timeout_armed_live _ _ _ _ _ _ _ _ _ Harm) as Hlive.
  pose proof (timeout_armed_wf _ _ _ _ _ _ _ _ _ (cw_wf _ _ _ _ _ _ _ _ _ _ Hw) Harm) as Hwf1.
  eexists. split; [done|]. split; [apply Hs1|].
  eapply returns_mono; [by eapply (hook_event _ _ _ fuel')|].
  intros [] s2 Hs2. split; [apply Hs2|]. intros j Hj Hlt Hans.
  eapply returns_mono; [eapply (hook_resume_answered _ _ fuel); [exact Hwf1|exact Hlive| |exact Hs2|exact Hj|done|exact Hans]|].
  { cbn. by rw lookup_insert_eq. }
  cbn [io_fun io_tinfo io_timer]. intros r s3 (-> & t3 & _ & Hover & Hs3). split; [done|].
  split; [apply Hs3|]. split; [apply Hs3|]. split.
  - intros tp ->. destruct Hs3 as [_ (-> & _)]. by apply Hover.
  - intros cb. eapply returns_mono; [eapply spec_returns; [|exact Hs3]|].
    { apply hook_callback_dead. by rw insert_insert_eq lookup_insert_eq. }
    intros [] s4 Hs4. split; [destruct Hs3 as [(_ & -> & _) _]; apply Hs4|].
    destruct Hs3 as [(_ & _ & _ & -> & _) _]. apply Hs4.
Qed.

(** C34. A timeout that is lost.  [do_io] arms its timer before it registers the event.  If
    the timer expires in between, on another thread, its function finds no event to cancel;
    [do_io] then registers the event and suspends the fiber, which nothing has queued, and
    no later step of the timer manager hands out a function of that timer. *)
Theorem timeout_lost user c b p x s :
  waitable c (io_fd b) (io_event b) p x s →
  tinfos (kernel (host s)) !! io_tinfo b = Some (Some 0%Z) →
  in_u64 (io_to b) → io_to b ≠ u64_max →
  returns (arm_timeout c (io_fd b) (io_event b) (io_to b) (io_tinfo b)) s (λ timer s1,
    ∃ tp tm, timer = Some tp ∧ tm_heap (timers (host s1)) !! tp = Some tm ∧
    ∀ a now, tm_heap (timers (host s1)) !! a = None → (t_next tm <= now)%Z →
    returns (timer_op (listExpiredCb a now)) s1 (λ cbs s2, ∃ cb, Some cb ∈ cbs ∧
    returns (run_timer_callback user cb) s2 (λ _ s3,
    returns (do_io_register c (with_timer timer b)) s3 (λ r s4,
      r = Suspended (with_timer timer b) ∧ m_fibers s4 = m_fibers s ∧
      fd_heap (host s4) !! p = Some (waits_in (io_event b) (this_fiber c) x) ∧
      ∀ fs t, tm_steps (timers (host s4)) fs t → tp ∉ fs)))).
Proof.
  intros Hw Hti Hto Hne.
  eapply returns_mono; [eapply spec_returns; [|apply at_self]|].
  { apply hook_arm; [apply Hw|apply Hw|done|done]. }
  intros timer s1 (k & tp & g & t1 & -> & _ & [Hnew Hh1 Hq1 Hwf1] & Hs1). eexists tp, _.
  destruct (Hs1) as [_ (-> & _)]. rw Hh1 lookup_insert_eq. split; [done|]. split; [done|].
  intros a now Hfresh Hdue. rw -Hh1 in Hfresh.
  assert (tm_heap t1 !! tp = Some (Timer_new (sys_time k).1 (io_to b)
    (Some (BindOnTimer (io_tinfo b) (Some g))) false)) as Htp by by rw Hh1 lookup_insert_eq.
  pose proof (due_handed_out a now t1 tp _ _ Hwf1 Hfresh Htp Hq1 eq_refl eq_refl Hdue) as Hexp.
  eapply returns_mono; [eapply spec_returns; [by apply hook_timer_op|exact Hs1]|].
  cbv beta. intros cbs s2 (t2 & (Hcb & Hwf2 & Hret) & Hs2). eexists. split; [exact Hcb|].
  eapply returns_mono.
  { eapply spec_returns; [|exact Hs2].
    eapply (hook_callback_alive _ _ _ _ _ _ _ _ _ user _ g 0); [done|by rw lookup_insert_eq|].
    eapply hook_timed_out_early; [done|apply Hw|apply Hw]. }
  cbv beta. intros [] s3 Hs3.
  eapply returns_mono; [eapply spec_returns; [|exact Hs3]|].
  { apply (hook_do_io_register _ _ _ _ _ _ _ _ _ c (with_timer (Some tp) b) p x).
    destruct Hw. by split. }
  cbv zeta. intros r s4 (-> & _ & Hs4). split; [done|]. split; [apply Hs4|]. split.
  - destruct Hs4 as [(_ & _ & _ & -> & _) _]. by rw lookup_insert_eq.
  - destruct Hs4 as [_ (-> & _)]. intros fs t Hst. by eapply (retired_steps tp t2).
Qed.

(** A hooked sleep of [ms] milliseconds suspends the fiber with a timer armed for [ms]
    from the clock.  Before that time (and without a clock rollover) the timer is not among
    those that are due; from then on [listExpiredCb] hands out its function, and running that
    queues the fiber. *)
Theorem sleep_wakes user c ms s :
  has_iom c = true → wf (timers (host s)) → in_u64 ms →
  returns (Hooked.sleep_for c ms) s (λ r s1, r = Suspended tt ∧ m_fibers s1 = m_fibers s ∧
    ∃ tp tm, tm_heap (timers (host s1)) !! tp = Some tm ∧
    (∃ k : K, t_next tm = u64 ((sys_time k).1 + ms)) ∧
    (∀ now, rolled_over (m_previousTime (timers (host s1))) now = false →
       (now < t_next tm)%Z → tp ∉ expired_at now (timers (host s1))) ∧
    ∀ a now, tm_heap (timers (host s1)) !! a = None → (t_next tm <= now)%Z →
    returns (timer_op (listExpiredCb a now)) s1 (λ cbs s2, ∃ cb, Some cb ∈ cbs ∧
    returns (run_timer_callback user cb) s2 (λ _ s3,
      m_fibers s3 = m_fibers s ++ [fiber_task (this_fiber c)]))).
Proof.
  intros Hi Hwf Hms.
  eapply returns_mono; [eapply spec_returns; [by apply hook_sleep_for|apply at_self]|].
  intros r s1 (-> & k & tp & f & t1 & [Hnew Hh1 Hq1 Hwf1] & Hs1).
  split; [done|]. split; [apply Hs1|]. destruct (Hs1) as [_ (-> & _)].
  assert (tm_heap t1 !! tp = Some (Timer_new (sys_time k).1 ms (Some (Fun f)) false)) as Htp
    by by rw Hh1 lookup_insert_eq.
  exists tp, (Timer_new (sys_time k).1 ms (Some (Fun f)) false). split; [done|].
  split; [by exists k|]. split.
  { intros now Hro Hlt. rw expired_at_spec Hro. unfold next_of. rw Htp. intros [_ [?|?]]; [done|lia]. }
  intros a now Hfresh Hdue.
  pose proof (due_handed_out a now t1 tp _ _ Hwf1 Hfresh Htp Hq1 eq_refl eq_refl Hdue) as Hexp.
  eapply returns_mono; [eapply spec_returns; [by apply hook_timer_op|exact Hs1]|].
  cbv beta. intros cbs s2 (t2 & (Hcb & _) & Hs2). eexists. split; [exact Hcb|].
  eapply returns_mono.
  { eapply spec_returns; [|exact Hs2].
    eapply hook_callback_fun; [by rw lookup_insert_eq|].
    apply spec_frame; [apply view_scheduler; left; apply proc_write_ok|apply apart_scheduler]. }
  cbv beta. intros [] s3 Hs3. apply Hs3.
Qed.

(** ** Flags *)

Lemma set_nonblock_bits b a i :
  Z.testbit (Hooked.set_nonblock b a) i = if (i =? 11)%Z then b else Z.testbit a i.
Proof.
  destruct (Z.ltb_spec i 0) as [Hn|Hn].
  { rw !(Z.testbit_neg_r _ i Hn). by destruct (Z.eqb_spec i 11); [lia|]. }
  assert (Z.testbit O_NONBLOCK i = (i =? 11)%Z) as Hb.
  { change O_NONBLOCK with (2 ^ 11)%Z. rw Z.pow2_bits_eqb; [lia|]. apply Z.eqb_sym. }
  unfold Hooked.set_nonblock. destruct b.
  - rw Z.lor_spec Hb. destruct (i =? 11)%Z; [apply orb_true_r|apply orb_false_r].
  - rw Z.land_spec Z.lnot_spec; [done|]. rw Hb.
    destruct (i =? 11)%Z; cbn; [apply andb_false_r|apply andb_true_r].
Qed.

Lemma nonblock_test arg : negb (Z.land arg O_NONBLOCK =? 0)%Z = Z.testbit arg 11.
Proof.
  change O_NONBLOCK with (2 ^ 11)%Z.
  destruct (Z.testbit arg 11) eqn:Hb; destruct (Z.eqb_spec (Z.land arg (2 ^ 11)) 0) as [H|H];
    cbn; try done.
  - assert (Z.testbit (Z.land arg (2 ^ 11)) 11 = true) as Ht; [|by rw H in Ht].
    by rw Z.land_spec Hb Z.pow2_bits_true.
  - destruct H. apply Z.bits_inj'. intros i Hi. rw Z.land_spec Z.bits_0 Z.pow2_bits_eqb; [lia|].
    destruct (Z.eqb_spec 11 i) as [<-|]; [by rw Hb|apply andb_false_r].
Qed.

(** The open socket [fd] has the context [p]. *)
Definition open_socket (fd : Z) (p : nat) (d : D) : Prop :=
  (fm_get fd false d).1 = Some p ∧ isClose p d = false ∧ isSocket p d = true.

Lemma socket_ctx_step fd p s :
  open_socket fd p (fds (kernel (host s))) → Hooked.socket_ctx fd s = Ret (Some p) s.
Proof.
  intros (Hg & Hc & Hs). unfold Hooked.socket_ctx. rw (bind_Ret _ _ _ _ _ (fd_get_step fd s)) Hg.
  unfold fd_ask, proc_gets. cbv [mbind M_bind mgets]. by rw Hc Hs.
Qed.

(** C36. The flags of a socket.  [fcntl(fd, F_SETFL, arg)] sets the flags of the file to [arg],
    except that [O_NONBLOCK] is what the hooks have put the socket in; what [F_GETFL] returns
    then has the [O_NONBLOCK] of [arg] and every other bit of the kernel's answer.  That holds
    of a failed call too: its -1 becomes -2049 if [O_NONBLOCK] was not set. *)
Theorem fcntl_roundtrip fd p arg arg2 s :
  open_socket fd p (fds (kernel (host s))) →
  returns (Hooked.fcntl fd F_SETFL arg) s (λ r s1,
    (∃ arg', r = answer (original (fcntl_f fd F_SETFL (Some arg')) (the_os s)).1 ∧
       the_os s1 = (original (fcntl_f fd F_SETFL (Some arg')) (the_os s)).2 ∧
       ∀ i, Z.testbit arg' i =
         if (i =? 11)%Z then getSysNonblock p (fds (kernel (host s))) else Z.testbit arg i) ∧
    returns (Hooked.fcntl fd F_GETFL arg2) s1 (λ r s2,
      let flags := (original (fcntl_f fd F_GETFL None) (the_os s1)).1.1 in
      (∀ i, Z.testbit (ret r) i = if (i =? 11)%Z then Z.testbit arg 11 else Z.testbit flags i) ∧
      (flags = (-1)%Z → Z.testbit arg 11 = false → ret r = (-2049)%Z))).
Proof.
  intros Hp. unfold Hooked.fcntl at 1. cbn [Z.eqb F_SETFL Pos.eqb].
  eapply bind_step; [by apply socket_ctx_step|]. cbn beta iota.
  rw nonblock_test. set (d := fds (kernel (host s))).
  generalize (Z.testbit arg 11) as b. intros b.
  set (s0 := set_host (set_kernel (set_fds (setUserNonblock p b d) (kernel (host s))) (host s)) s).
  eapply (bind_step _ _ s tt s0); [done|]. cbn beta.
  eapply (bind_step _ _ s0 (getSysNonblock p (setUserNonblock p b d)) s0); [done|]. cbn beta.
  rw sys_user_set. unfold returns at 1. rw call_original_step.
  set (arg' := Hooked.set_nonblock _ _). split.
  { exists arg'. split; [done|]. split; [done|]. intros i. apply set_nonblock_bits. }
  set (s1 := with_os _ s0).
  assert (open_socket fd p (fds (kernel (host s1)))) as Hp1.
  { destruct Hp as (Hg & Hc & Hs). unfold open_socket. cbn.
    by rw get_user_set isClose_user_set isSocket_user_set. }
  unfold Hooked.fcntl. cbn [Z.eqb F_SETFL F_GETFL Pos.eqb].
  eapply bind_step; [apply call_original_step|]. cbn beta.
  eapply bind_step; [by apply (socket_ctx_step fd p (with_os _ s1))|]. cbn beta iota.
  eapply (bind_step _ _ _ (getUserNonblock p (setUserNonblock p b d))); [done|]. cbn beta.
  rw user_nonblock_set. cbn [ret answer]. split.
  - intros i. apply set_nonblock_bits.
  - intros Hf ->. cbn [ret]. by rw Hf.
Qed.

(** C37. A connection in progress.  [connect] suspends the fiber until the socket can be
    written.  When the event comes it queues the fiber, and the call returns what [SO_ERROR]
    says of the connection, 0 or -1 with that error.  When the timeout comes first, running
    its function queues the fiber and the call returns -1 with [ETIMEDOUT].  In both cases
    the contexts are then as before. *)
Theorem connect_outcome fuel user c fd addr addrlen to pd p x ev s :
  waitable c fd WRITE p x s → in_u64 to →
  managed c fd (fds (kernel (host s))) = Some pd →
  (original (connect_f fd addr addrlen) (the_os s)).1 = ((-1)%Z, EINPROGRESS) →
  real_events ev = WRITE →
  returns (Hooked.connect_with_timeout c fd addr addrlen to) s (λ r s1, ∃ b,
    r = Suspended b ∧ m_fibers s1 = m_fibers s ∧
    returns (handle_event fuel (ev, DataPtr p)) s1 (λ _ s2,
      m_fibers s2 = m_fibers s ++ [fiber_task (this_fiber c)] ∧
      returns (Hooked.connect_resume b) s2 (λ r s3,
        r = connect_outcome_of (so_error fd (the_os s2)).1 ∧
        fd_heap (host s3) = fd_heap (host s))) ∧
    ∀ tp, Hooked.co_timer b = Some tp → ∃ tm, tm_heap (timers (host s1)) !! tp = Some tm ∧
      (∃ k : K, t_next tm = u64 ((sys_time k).1 + to)) ∧
      ∀ a now, tm_heap (timers (host s1)) !! a = None → (t_next tm <= now)%Z →
      returns (timer_op (listExpiredCb a now)) s1 (λ cbs s2, ∃ cb, Some cb ∈ cbs ∧
      returns (run_timer_callback user cb) s2 (λ _ s3,
        m_fibers s3 = m_fibers s ++ [fiber_task (this_fiber c)] ∧
        returns (Hooked.connect_resume b) s3 (λ r s4,
          r = SysRet (-1) (Some ETIMEDOUT) ∧ fd_heap (host s4) = fd_heap (host s))))).
Proof.
  intros Hw Hto Hm Ha Hev.
  unfold returns at 1. rw (connect_managed c fd addr addrlen to pd s Hm Ha).
  match goal with |- match ?m ?s0 with Ret a s' => @?Q a s' | _ => _ end => change (returns m s0 Q) end.
  eapply returns_mono; [eapply spec_returns; [by eapply hook_connect_wait|apply hook_with_os, at_self]|].
  cbv zeta. intros r s1 (w & timer & t1 & cl1 & -> & Harm & Hok & Hs1).
  pose proof (timeout_armed_live _ _ _ _ _ _ _ _ _ Harm) as Hlive.
  pose proof (timeout_armed_wf _ _ _ _ _ _ _ _ _ (cw_wf _ _ _ _ _ _ _ _ _ _ Hw) Harm) as Hwf1.
  eexists. split; [done|]. split; [apply Hs1|]. split.
  - eapply returns_mono; [by eapply (hook_event _ _ _ fuel)|].
    intros [] s2 Hs2. split; [apply Hs2|].
    eapply returns_mono; [eapply (hook_connect_resume _ _ _ _ _ _ _ _ _ _ 0); [exact Hwf1|exact Hlive| |exact Hs2]|].
    { cbn. by rw lookup_insert_eq. }
    cbn. intros r s3 (-> & t3 & _ & _ & Hs3). split; [done|]. apply Hs3.
  - cbn [Hooked.co_timer]. intros tp ->.
    destruct (hook_times_out _ _ _ user _ _ _ _ _ _ _ _ _ c fd WRITE to w tp p x s1 Hw
      (lookup_insert_eq _ _ _) Harm Hok Hs1) as (tm & Htm & Hk & Hfire).
    exists tm. destruct (Hs1) as [_ (-> & _)]. split; [done|]. split; [done|].
    intros a now Hfresh Hdue. eapply returns_mono; [by apply (Hfire a now)|].
    intros cbs s2 (cb & Hcb & Hrun). exists cb. split; [done|].
    eapply returns_mono; [exact Hrun|]. intros [] s3 (t3 & Hwf3 & Hl3 & Hs3). split; [apply Hs3|].
    eapply returns_mono; [eapply (hook_connect_resume _ _ _ _ _ _ _ _ _ _ ETIMEDOUT); [exact Hwf3|exact Hl3| |exact Hs3]|].
    { cbn. by rw lookup_insert_eq. }
    cbn. intros r s4 (-> & t4 & _ & _ & Hs4). split; [done|]. apply Hs4.
Qed.

(** C38. The timeout options.  After [setsockopt] with [SO_RCVTIMEO] or [SO_SNDTIMEO] and a
    [timeval] of [sec] seconds and [usec] microseconds, a call of that direction that waits
    on the socket arms its timer for that many milliseconds, rounded down.  The zero
    [timeval], with which the system means no timeout, arms it for the present. *)
Theorem timeout_option fuel c fd f event o optval optlen sec usec pd p x s :
  waitable c fd event p x s →
  managed c fd (fds (kernel (host s))) = Some pd →
  o = SO_RCVTIMEO ∨ o = SO_SNDTIMEO → (0 <= sec)%Z → (0 <= usec)%Z →
  let ms := (sec * 1000 + usec / 1000)%Z in (ms < u64_max)%Z →
  returns (Hooked.setsockopt c fd SOL_SOCKET o optval optlen sec usec) s (λ r s1,
    r = answer (original (setsockopt_f fd SOL_SOCKET o optval optlen) (the_os s)).1 ∧
    ∀ i, settles (original f) interrupted i (the_os s1) → i < fuel →
    (original f (calls_from (original f) i (the_os s1))).1 = ((-1)%Z, EAGAIN) →
    returns (do_io fuel c fd f event o) s1 (λ r s2, ∃ b tp tm, r = Suspended b ∧
      io_timer b = Some tp ∧ tm_heap (timers (host s2)) !! tp = Some tm ∧
      ∃ k : K, t_next tm = u64 ((sys_time k).1 + ms))).
Proof.
  intros Hw Hm Ho Hs Hu ms Hms.
  assert (0 <= usec / 1000)%Z as Hd by (apply Z.div_pos; lia).
  assert (managed c fd (setTimeout pd o (u64 ms) (fds (kernel (host s)))) = Some pd) as Hm'.
  { revert Hm. unfold managed. rw get_timeout_set. destruct (t_hook_enable c); [|done].
    destruct (fm_get fd false _).1 as [q|]; [|done].
    set (d := fds _). cbn [mbind option_bind].
    destruct (isClose q d) eqn:H1, (isSocket q d) eqn:H2, (getUserNonblock q d) eqn:H3; try done.
    intros [= ->]. by rw isClose_timeout_set isSocket_timeout_set user_timeout_set H1 H2 H3. }
  assert (t_hook_enable c = true ∧ (fm_get fd false (fds (kernel (host s)))).1 = Some pd) as [Hc Hg].
  { revert Hm. unfold managed. destruct (t_hook_enable c); [|done].
    destruct (fm_get fd false _).1 as [q|]; [|done]. cbn [mbind option_bind].
    destruct (_ && _); [|done]. by intros [= ->]. }
  assert (u64 ms = ms) as Hid by (apply u64_id; unfold u64_max, in_u64 in *; lia).
  set (s0 := set_host (set_kernel (set_fds (setTimeout pd o (u64 ms) (fds (kernel (host s))))
    (kernel (host s))) (host s)) s).
  unfold Hooked.setsockopt. rw Hc. apply (bind_step _ _ s tt s0).
  { assert ((SOL_SOCKET =? SOL_SOCKET)%Z && ((o =? SO_RCVTIMEO)%Z || (o =? SO_SNDTIMEO)%Z) = true) as Hb
      by by destruct Ho as [-> | ->].
    cbn [andb] in *. rw Hb. rw (bind_Ret _ _ _ _ _ (fd_get_step fd s)) Hg.
    by rw Z.quot_div_nonneg; [lia|lia|]. }
  unfold returns at 1. rw call_original_step. split; [done|]. intros i Hset Hi Ha.
  set (s1 := with_os _ s0) in *.
  assert (waitable c fd event p x s1) as Hw1 by by apply (waitable_ext _ _ _ _ _ s).
  eapply returns_mono; [by eapply (do_io_suspends _ _ fuel); [apply at_self|exact Hw1|exact Hm'|..]|].
  cbv zeta. intros r s2 (w & timer & t1 & cl1 & _ & -> & Harm & _ & [_ (-> & _)]).
  assert (getTimeout pd o (fds (kernel (host s1))) = u64 ms) as Hto by apply timeout_set.
  rw Hto !Hid in Harm. destruct timer as [tp|]; [|by destruct Harm as [-> _]; apply Z.lt_irrefl in Hms].
  destruct Harm as (_ & k & g & Hadds & _). eexists _, tp, _. split; [done|]. split; [done|].
  rw (adds_heap _ _ _ _ Hadds) lookup_insert_eq. split; [done|]. by exists k.
Qed.

(** C39. Closing a socket that fibers wait for.  [close] queues the task that waits for reads
    and then the one that waits for writes, leaves nothing registered in the context, forgets
    the descriptor and closes it: the resumed calls are made again on the closed descriptor
    and are not told that it was closed. *)
Theorem close_wakes c fd p q x s :
  t_hook_enable c = true → has_iom c = true →
  (fm_get fd false (fds (kernel (host s)))).1 = Some q →
  (0 <= fd < i32 (Z.of_nat (length (m_fdContexts (host s)))))%Z →
  m_fdContexts (host s) !! Z.to_nat fd = Some p → fd_heap (host s) !! p = Some x →
  io_inv s → m_events x ≠ 0%Z →
  (∀ e, e ∈ [READ; WRITE] → has (m_events x) e = true → ec_scheduler (slot e x) = Some 0) →
  returns (Hooked.close c fd) s (λ r s',
    m_fibers s' = m_fibers s ++
      (if has (m_events x) READ then [task_of (IOManager.read x)] else []) ++
      (if has (m_events x) WRITE then [task_of (IOManager.write x)] else []) ∧
    (∃ x', fd_heap (host s') = <[p := x']> (fd_heap (host s)) ∧ m_events x' = 0%Z) ∧
    io_inv s' ∧
    (fm_get fd false (fds (kernel (host s')))).1 = None ∧
    ∃ k, r = answer (original (close_f fd) k).1 ∧ the_os s' = (original (close_f fd) k).2).
Proof.
  intros Hc Hi Hg Hfd Htb Hx Hinv Hev Hsch. unfold Hooked.close. rw Hc. cbn [negb].
  eapply bind_step; [apply fd_get_step|]. cbn beta. rw Hg Hi.
  eapply bind_returns, bind_returns, bind_returns, returns_mono;
    [eapply spec_returns; [by eapply hook_cancelAll|apply at_self]|].
  cbv zeta. intros b s1 (x' & n' & H0 & Hok & [(Hf & Hq & Ht & Hh & Hn) (Hti & Hd & _)]).
  unfold returns. cbn -[call_original]. rw call_original_step. cbn [m_fibers].
  split; [exact Hq|]. split; [exists x'; by split|]. split.
  { unfold io_inv. cbn. by rw Ht Hh Hn. }
  split; [apply get_deleted|]. by eexists.
Qed.
End properties.

(** In the sample process fiber 1 can wait for reads on 7. *)
Lemma demo_waitable event l :
  event = READ ∨ event = WRITE → waitable Demo.caller 7 event 7 (FdContext_new 7) (Demo.state l).
Proof.
  intros He. split; [done|exact He| |done| |apply (demo_state_ok 16)| |by vm_compute].
  - split; [|split; by vm_compute]. split; [done|]. by vm_compute.
  - eexists. split; [by vm_compute|done].
  - assert (timers (host (Demo.state l)) = TimerManager_new 1000) as -> by (by vm_compute).
    apply TimerManager_new_wf.
Qed.

(** A closed descriptor is refused before anything is called. *)
Definition demo_closed : Sched (does callback) (IO TimerManager (Proc Demo.Os Demo.Fds)) :=
  set_host (set_kernel (set_fds (Demo.MkFds {[7%Z := 0]} {[0 := Demo.MkFd true true false true ∅]})
    (kernel (host (Demo.state [])))) (host (Demo.state []))) (Demo.state []).

Lemma do_io_answers_witness :
  do_io 5 Demo.caller 7 (read_f 7 0 100) READ SO_RCVTIMEO demo_closed =
    Ret (Returned (SysRet (-1) (Some EBADF))) demo_closed.
Proof.
  refine (proj1 (proj2 (do_io_answers 5 Demo.caller 7 (read_f 7 0 100) READ SO_RCVTIMEO demo_closed)) _).
  vm_compute. reflexivity.
Defined.

(** The process after a timeout of 2.5 s was set. *)
Definition demo_options := Demo.state [(0%Z, 0%Z); ((-1)%Z, EAGAIN)].
Definition demo_timeout_set := after
  (Hooked.setsockopt (E:=does callback) Demo.caller 7 SOL_SOCKET SO_RCVTIMEO 0 16 2 500000) demo_options.

Lemma timeout_option_witness :
  returns (do_io 5 Demo.caller 7 (read_f 7 0 100) READ SO_RCVTIMEO) demo_timeout_set (λ r s2,
    ∃ b tp tm, r = Suspended b ∧ io_timer b = Some tp ∧ tm_heap (timers (host s2)) !! tp = Some tm ∧
      ∃ k : Demo.Os, t_next tm = u64 ((sys_time k).1 + 2500)).
Proof.
  pose proof (demo_waitable READ [(0%Z, 0%Z); ((-1)%Z, EAGAIN)] (or_introl eq_refl)) as Hw.
  assert (managed Demo.caller 7 (fds (kernel (host demo_options))) = Some 0) as Hm
    by (vm_compute; reflexivity).
  assert (0 <= 2)%Z as H2 by lia. assert (0 <= 500000)%Z as Hu by lia.
  assert (2 * 1000 + 500000 / 1000 < u64_max)%Z as Hms by (vm_compute; reflexivity).
  assert (settles (original (read_f 7 0 100)) interrupted 0 (the_os demo_timeout_set)) as Hset.
  { split; [intros i Hi; lia|vm_compute; discriminate]. }
  assert ((original (read_f 7 0 100) (the_os demo_timeout_set)).1 = ((-1)%Z, EAGAIN)) as Ha
    by (vm_compute; reflexivity).
  assert (Hooked.setsockopt Demo.caller 7 SOL_SOCKET SO_RCVTIMEO 0 16 2 500000 demo_options =
    Ret (SysRet 0 (Some 0%Z)) demo_timeout_set) as Hrun by (vm_compute; reflexivity).
  exact (proj2 (returns_inv _ _ _ _ _ (timeout_option 5 Demo.caller 7 (read_f 7 0 100) READ
    SO_RCVTIMEO 0 16 2 500000 0 7 (FdContext_new 7) demo_options Hw Hm (or_introl eq_refl) H2 Hu Hms) Hrun)
    0 Hset (Nat.lt_0_succ 4) Ha).
Defined.

(** The zero [timeval]: the deadline is the present. *)
Example zero_timeout_is_now :
  match (Hooked.setsockopt Demo.caller 7 SOL_SOCKET SO_RCVTIMEO 0 16 0 0 ;;
         do_io 5 Demo.caller 7 (read_f 7 0 100) READ SO_RCVTIMEO)
    (Demo.state [(0%Z, 0%Z); ((-1)%Z, EAGAIN)]) with
  | Ret _ s => t_next <$> tm_heap (timers (host s)) !! 0 = Some (sys_time (the_os s)).1
  | _ => False
  end.
Proof. vm_compute. reflexivity. Qed.

Lemma do_io_times_out_witness :
  let s := Demo.state [((-1)%Z, EINTR); ((-1)%Z, EAGAIN)] in
  returns (do_io 5 Demo.caller 7 (read_f 7 0 100) READ SO_RCVTIMEO) s (λ r s1, ∃ b tp tm,
    r = Suspended b ∧ tm_heap (timers (host s1)) !! tp = Some tm ∧
    ∃ k : Demo.Os, t_next tm = u64 ((sys_time k).1 + 50)).
Proof.
  intros s. pose proof (demo_waitable READ [((-1)%Z, EINTR); ((-1)%Z, EAGAIN)] (or_introl eq_refl)) as Hw.
  assert (managed Demo.caller 7 (fds (kernel (host s))) = Some 0) as Hm by by vm_compute.
  assert (settles (original (read_f 7 0 100)) interrupted 1 (the_os s)) as Hset.
  { split; [intros [|i] Hi; [by vm_compute|lia]|by vm_compute]. }
  assert ((original (read_f 7 0 100) (calls_from (original (read_f 7 0 100)) 1 (the_os s))).1
    = ((-1)%Z, EAGAIN)) as Ha by by vm_compute.
  assert (u64 (getTimeout 0 SO_RCVTIMEO (fds (kernel (host s)))) = 50%Z) as Hfifty by by vm_compute.
  assert (u64 (getTimeout 0 SO_RCVTIMEO (fds (kernel (host s)))) ≠ u64_max) as Hto by by rw Hfifty.
  eapply returns_mono; [exact (do_io_times_out 5 (λ _, mret tt) Demo.caller 7 (read_f 7 0 100) READ
    SO_RCVTIMEO 0 7 (FdContext_new 7) 1 s Hw Hm Hset (le_S 2 4 (le_S 2 3 (le_S 2 2 (le_n 2)))) Ha Hto)|].
  intros r s1 (b & tp & tm & -> & _ & Htm & Hk & _). rw Hfifty in Hk.
  exists b, tp, tm. split; [reflexivity|]. split; [exact Htm|exact Hk].
Defined.

Lemma do_io_completes_witness :
  let s := Demo.state [((-1)%Z, EAGAIN); (42%Z, 0%Z)] in
  returns (do_io 5 Demo.caller 7 (read_f 7 0 100) READ SO_RCVTIMEO) s (λ r s1, ∃ b,
    r = Suspended b ∧ returns (handle_event 3 (EPOLLIN, DataPtr 7)) s1 (λ _ s2,
      m_fibers s2 = [fiber_task 1])).
Proof.
  intros s. pose proof (demo_waitable READ [((-1)%Z, EAGAIN); (42%Z, 0%Z)] (or_introl eq_refl)) as Hw.
  assert (managed Demo.caller 7 (fds (kernel (host s))) = Some 0) as Hm by by vm_compute.
  assert (settles (original (read_f 7 0 100)) interrupted 0 (the_os s)) as Hset.
  { split; [intros i Hi; lia|by vm_compute]. }
  assert ((original (read_f 7 0 100) (the_os s)).1 = ((-1)%Z, EAGAIN)) as Ha by by vm_compute.
  eapply returns_mono; [exact (do_io_completes 5 3 (λ _, mret tt) Demo.caller 7 (read_f 7 0 100) READ
    SO_RCVTIMEO 0 7 (FdContext_new 7) 0 EPOLLIN s Hw Hm Hset (Nat.lt_0_succ 4) Ha eq_refl)|].
  intros r s1 (b & -> & _ & H). exists b. split; [reflexivity|].
  eapply returns_mono; [exact H|]. intros _ s2 [H2 _]. exact H2.
Defined.

(** A call that is about to wait. *)
Definition demo_call : io_call := MkIoCall 7 (read_f 7 0 100) READ 50 0 None.
Definition demo_waiting := after (new_tinfo (E:=does callback)) (Demo.state []).

Lemma timeout_lost_witness :
  returns (arm_timeout Demo.caller 7 READ 50 0) demo_waiting (λ timer s1, ∃ tp tm,
    timer = Some tp ∧ tm_heap (timers (host s1)) !! tp = Some tm).
Proof.
  assert (in_u64 50) as Hto by done. assert (50%Z ≠ u64_max) as Hne by done.
  assert (waitable Demo.caller 7 READ 7 (FdContext_new 7) demo_waiting) as Hw.
  { apply (waitable_ext _ _ _ _ _ (Demo.state [])); [vm_compute; reflexivity..|apply demo_waitable; by left]. }
  assert (tinfos (kernel (host demo_waiting)) !! 0 = Some (Some 0%Z)) as Hti by by vm_compute.
  eapply returns_mono; [exact (timeout_lost (λ _, mret tt) Demo.caller demo_call 7 (FdContext_new 7)
    demo_waiting Hw Hti Hto Hne)|].
  intros timer s1 (tp & tm & Htp & Htm & _). exists tp, tm. split; [exact Htp|exact Htm].
Defined.

Lemma sleep_wakes_witness :
  returns (Hooked.sleep_for Demo.caller 50) (Demo.state []) (λ r s1, r = Suspended tt ∧
    ∃ tp tm, tm_heap (timers (host s1)) !! tp = Some tm ∧
      ∃ k : Demo.Os, t_next tm = u64 ((sys_time k).1 + 50)).
Proof.
  assert (in_u64 50) as Hms by done.
  assert (wf (timers (host (Demo.state [])))) as Hwf.
  { assert (timers (host (Demo.state [])) = TimerManager_new 1000) as -> by (vm_compute; reflexivity).
    apply TimerManager_new_wf. }
  eapply returns_mono; [exact (sleep_wakes (λ _, mret tt) Demo.caller 50 (Demo.state []) eq_refl Hwf Hms)|].
  intros r s1 (-> & _ & tp & tm & Htm & Hk & _). split; [reflexivity|]. by exists tp, tm.
Defined.

(** C35. How long the hooked functions sleep.  [sleep] multiplies in 32 bits: up to 4294967
    seconds it sleeps what it is given, for 4294968 seconds 704 milliseconds.  [usleep] cuts
    down to milliseconds, to none below 1000.  [nanosleep] converts the milliseconds to [int]:
    from 2^31 on (24.8 days) the timer is set to a time before the clock, and is due at
    once. *)
Theorem sleep_durations {E K D} `{!Kernel K, !Originals K, !FdManager D} c :
  t_hook_enable c = true →
  let for_ms := Hooked.sleep_for (E:=E) (K:=K) (D:=D) c in
  (∀ n, (0 <= n < 4294968)%Z → Hooked.sleep c n = for_ms (n * 1000)%Z) ∧
  (Hooked.sleep c 4294968 = for_ms 704%Z) ∧
  (∀ n, (0 <= n)%Z → Hooked.usleep c n = for_ms (n / 1000)%Z) ∧
  (∀ sec nsec rem, (0 <= sec)%Z → (0 <= nsec)%Z →
     let ms := (sec * 1000 + nsec / 1000000)%Z in
     ((ms < 2 ^ 31)%Z → Hooked.nanosleep c sec nsec rem = for_ms ms) ∧
     ((2 ^ 31 <= ms < 2 ^ 32)%Z →
        ∃ ms', Hooked.nanosleep c sec nsec rem = for_ms ms' ∧
          ∀ now, (2 ^ 31 <= now < 2 ^ 63)%Z → (0 <= u64 (now + ms') < now)%Z)).
Proof.
  intros Hc for_ms. unfold Hooked.sleep, Hooked.usleep, Hooked.nanosleep. rw Hc. cbn [negb].
  split; [|split; [done|split]].
  - intros n Hn. unfold u32. rw Z.mod_small; [lia|done].
  - intros n Hn. by rw Z.quot_div_nonneg; [lia|lia|].
  - intros sec nsec rem Hs Hn. cbv zeta.
    assert (Z.quot (Z.quot nsec 1000) 1000 = nsec / 1000000)%Z as ->.
    { rw Z.quot_quot; [lia|lia|]. by rw Z.quot_div_nonneg; [lia|lia|]. }
    assert (0 <= nsec / 1000000)%Z as Hd by (apply Z.div_pos; lia).
    set (ms := (sec * 1000 + nsec / 1000000)%Z). assert (0 <= ms)%Z by (unfold ms; lia).
    split.
    + intros Hlt. rw i32_id; [lia|]. rw u64_id; [unfold in_u64; lia|done].
    + intros Hms. eexists. split; [done|]. intros now Hnow.
      assert (i32 ms = ms - 2 ^ 32)%Z as ->.
      { unfold i32. rw -(Z.mod_unique (ms + 2 ^ 31) (2 ^ 32) 1 (ms + 2 ^ 31 - 2 ^ 32)); lia. }
      rw Z.add_comm u64_add_l u64_id; unfold in_u64; lia.
Qed.

Lemma sleep_durations_witness :
  Hooked.sleep (E:=does callback) (K:=Demo.Os) (D:=Demo.Fds) Demo.caller 4294968 =
    Hooked.sleep_for Demo.caller 704.
Proof. exact (proj1 (proj2 (sleep_durations Demo.caller eq_refl))). Defined.

Lemma fcntl_roundtrip_witness :
  returns (Hooked.fcntl 7 F_SETFL 0) (Demo.state []) (λ _ s1,
    returns (Hooked.fcntl 7 F_GETFL 0) s1 (λ r _, Z.testbit (ret r) 11 = false)).
Proof.
  assert (open_socket 7 0 (fds (kernel (host (Demo.state []))))) as Hp
    by (split; [|split]; vm_compute; reflexivity).
  eapply returns_mono; [exact (fcntl_roundtrip 7 0 0 0 (Demo.state []) Hp)|].
  intros _ s1 [_ H]. eapply returns_mono; [exact H|]. intros r s2 [H2 _]. exact (H2 11%Z).
Defined.

(** The kernel's flags meanwhile. *)
Example fcntl_keeps_nonblocking :
  match Hooked.fcntl 7 F_SETFL 0 (Demo.state []) with
  | Ret _ s1 => Z.testbit (Demo.file_flags 7 (the_os s1)) 11 = true
  | _ => False
  end.
Proof. vm_compute. reflexivity. Qed.

(** [ioctl(fd, FIONBIO)] does not keep them: the file becomes blocking, and the next [read]
    of an empty socket blocks the thread instead of the fiber. *)
Example ioctl_clears_nonblocking :
  match (Hooked.fcntl 7 F_SETFL 0 ;; Hooked.ioctl 7 FIONBIO 0 0) (Demo.state []) with
  | Ret _ s1 => Z.testbit (Demo.file_flags 7 (the_os s1)) 11 = false ∧
      getUserNonblock 0 (fds (kernel (host s1))) = false ∧
      getSysNonblock 0 (fds (kernel (host s1))) = true
  | _ => False
  end.
Proof. vm_compute. done. Qed.

Lemma connect_outcome_witness :
  let s := Demo.state [((-1)%Z, EINPROGRESS)] in
  returns (Hooked.connect_with_timeout Demo.caller 7 0 16 5000) s (λ r s1, ∃ b, r = Suspended b ∧
    returns (handle_event 3 (EPOLLOUT, DataPtr 7)) s1 (λ _ s2,
      m_fibers s2 = [fiber_task 1] ∧
      returns (Hooked.connect_resume b) s2 (λ r s3, fd_heap (host s3) = fd_heap (host s)))).
Proof.
  intros s. pose proof (demo_waitable WRITE [((-1)%Z, EINPROGRESS)] (or_intror eq_refl)) as Hw.
  assert (managed Demo.caller 7 (fds (kernel (host s))) = Some 0) as Hm by by vm_compute.
  assert ((original (connect_f 7 0 16) (the_os s)).1 = ((-1)%Z, EINPROGRESS)) as Ha by by vm_compute.
  assert (in_u64 5000) as Hto by (unfold in_u64; lia).
  eapply returns_mono; [exact (connect_outcome 3 (λ _, mret tt) Demo.caller 7 0 16 5000 0 7
    (FdContext_new 7) EPOLLOUT s Hw Hto Hm Ha eq_refl)|].
  intros r s1 (b & -> & _ & H & _). exists b. split; [reflexivity|].
  eapply returns_mono; [exact H|]. intros _ s2 [H2 H3]. split; [exact H2|].
  eapply returns_mono; [exact H3|]. intros r s3 [_ H4]. exact H4.
Defined.

(** Closing the descriptor that fiber 1 reads from. *)
Definition demo_reading := demo_after [demo_io].

Lemma demo_reading_ok : io_inv demo_reading.
Proof.
  assert (hook_steps 5 (λ _, mret tt) demo_steps demo_reading) as Hs.
  { apply (run_ops_steps 5 (λ _, mret tt) [demo_io]).
    - intros op s Hop. apply demo_enabled. apply list_elem_of_singleton in Hop as ->. by left.
    - vm_compute. reflexivity. }
  apply (inv_steps 5 (λ _, mret tt) (λ _ _, keeps_ret _ _) ∅ _ _ Hs), (hook_inv_start 1000);
    [apply (demo_state_ok 16)|vm_compute; reflexivity..].
Qed.

Lemma close_wakes_witness :
  returns (Hooked.close Demo.caller 7) demo_reading (λ _ s', m_fibers s' = [fiber_task 1]).
Proof.
  assert (fd_heap (host demo_reading) !! 7 = Some (waits_in READ 1 (FdContext_new 7))) as Hx
    by (vm_compute; reflexivity).
  assert (m_fibers demo_reading = []) as Hq0 by (vm_compute; reflexivity).
  assert ((fm_get 7 false (fds (kernel (host demo_reading)))).1 = Some 0) as Hg
    by (vm_compute; reflexivity).
  assert (i32 (Z.of_nat (length (m_fdContexts (host demo_reading)))) = 16%Z) as Hlen
    by (vm_compute; reflexivity).
  assert (0 <= 7 < i32 (Z.of_nat (length (m_fdContexts (host demo_reading)))))%Z as Hfd
    by (rw Hlen; lia).
  assert (m_fdContexts (host demo_reading) !! Z.to_nat 7 = Some 7) as Htb by (vm_compute; reflexivity).
  assert (m_events (waits_in READ 1 (FdContext_new 7)) ≠ 0%Z) as Hev by (vm_compute; lia).
  assert (∀ e, e ∈ [READ; WRITE] → has (m_events (waits_in READ 1 (FdContext_new 7))) e = true →
    ec_scheduler (slot e (waits_in READ 1 (FdContext_new 7))) = Some 0) as Hsch.
  { intros e He. apply list_elem_of_In in He. destruct He as [<- |[<- |[]]]; [done|by vm_compute]. }
  eapply returns_mono; [exact (close_wakes Demo.caller 7 7 0 _ demo_reading eq_refl eq_refl Hg Hfd Htb
    Hx demo_reading_ok Hev Hsch)|].
  intros r s' [Hq _]. rw Hq Hq0. reflexivity.
Defined.
