(* ===== verification/HookBlocking.v ===== *)
(** To the fiber, a hooked call is the blocking call.

    The reference is [blocking]: the original function, called until it answers
    something other than "interrupted" or "would block".  [drive] runs a hooked call
    while the system reports the descriptor ready each time the call waits; the
    theorem is that it returns what the reference does, after one suspension of the
    fiber for each time the system would have blocked the thread. *)

From S2P Require Import Prelude.
From S2P Require Import Timer.
From S2P Require Import Fiber.
From S2P Require Import Scheduler.
From S2P Require Import IOManager.
From S2P Require Import Hook.
From S2P Require Import HookSpec.
From S2P Require Import HookCalls.

(** The answers the system has for the call [f], in order.  What the I/O scheduler
    asks of the kernel meanwhile does not change them. *)
Class Answers (K : Type) `{!Kernel K, !Originals K} (f : sysreq) := {
  answers : K → nat → Z * Z;
  answers_call k : (original f k).1 = answers k 0;
  answers_rest k i : answers (original f k).2 i = answers k (S i);
  answers_write k i : answers (sys_write k).2 i = answers k i;
  answers_ctl op fd ev data k i : answers (sys_epoll_ctl op fd ev data k).2 i = answers k i;
  answers_time k i : answers (sys_time k).2 i = answers k i
}.

(** * The reference *)

(** The outcome after at most [n] calls, and how often the thread was blocked. *)
Fixpoint blocking {K} `{!Originals K} (n : nat) (f : sysreq) (k : K) : option ((Z * Z) * nat) :=
  match n with
  | 0 => None
  | S n =>
      let '(a, k') := original f k in
      if decide (a = ((-1)%Z, EINTR)) then blocking n f k'
      else if decide (a = ((-1)%Z, EAGAIN)) then (λ r, (r.1, S r.2)) <$> blocking n f k'
      else Some (a, 0)
  end.

(** The same of a sequence of answers. *)
Fixpoint settle (n : nat) (l : nat → Z * Z) : option ((Z * Z) * nat) :=
  match n with
  | 0 => None
  | S n =>
      if decide (l 0 = ((-1)%Z, EINTR)) then settle n (λ i, l (S i))
      else if decide (l 0 = ((-1)%Z, EAGAIN)) then (λ r, (r.1, S r.2)) <$> settle n (λ i, l (S i))
      else Some (l 0, 0)
  end.

Section drive.
Context {E : Set → Type} {K D : Type} `{!Kernel K, !Originals K, !FdManager D}.
Notation St := (Sched E (IO TimerManager (Proc K D))).

(** Runs a call that may wait, up to [n] times for the event [ev] of the context [p]:
    each time the event is delivered and the call resumed. *)
Fixpoint drive (fuel efuel n : nat) (c : Caller) (ev : Z) (p : nat)
    (m : M St (progress io_call)) : M St (progress io_call) :=
  match n with
  | 0 => m
  | S n =>
      r ← m;
      match r with
      | Returned v => mret (Returned v)
      | Suspended b =>
          drive fuel efuel n c ev p
            (handle_event efuel (ev, DataPtr p) ;; do_io_resume fuel c b)
      end
  end.

Lemma drive_eq fuel efuel n c ev p (m m' : M St (progress io_call)) s s' :
  m s = m' s' → drive fuel efuel n c ev p m s = drive fuel efuel n c ev p m' s'.
Proof. intros H. destruct n; [done|]. cbn. unfold mbind, M_bind. by rw H. Qed.
End drive.

Lemma settle_ext n : ∀ l l', (∀ i, l i = l' i) → settle n l = settle n l'.
Proof.
  induction n as [|n IH]; [done|]. intros l l' H. cbn. rw !(H 0).
  by rw (IH (λ i, l (S i)) (λ i, l' (S i)) (λ i, H (S i))).
Qed.

(** The calls up to the first answer that is not an interruption. *)
Lemma settle_split n : ∀ l a j, settle n l = Some (a, j) →
  ∃ i, i < n ∧ (∀ i', i' < i → l i' = ((-1)%Z, EINTR)) ∧ l i ≠ ((-1)%Z, EINTR) ∧
    match j with
    | 0 => l i = a ∧ a ≠ ((-1)%Z, EAGAIN)
    | S j => l i = ((-1)%Z, EAGAIN) ∧ settle (n - S i) (λ k, l (S i + k)) = Some (a, j)
    end.
Proof.
  induction n as [|n IH]; intros l a j H; [done|]. cbn in H. case_decide as Hi.
  - destruct (IH _ _ _ H) as (i & Hlt & Hbefore & Hne & Hj). exists (S i). split; [lia|].
    split; [|by split]. intros [|i'] Hi'; [done|]. apply Hbefore. lia.
  - case_decide as Ha.
    + apply fmap_Some in H as ([a' j'] & H & [= -> ->]). exists 0. split; [lia|].
      split; [lia|]. split; [done|]. split; [done|]. cbn. by rw Nat.sub_0_r.
    + injection H as <- <-. exists 0. split; [lia|]. split; [lia|]. by split.
Qed.

Section blocking.
Context {E : Set → Type} {K D : Type} `{!Kernel K, !KernelAccepts K, !Originals K, !FdManager D, !FdManagerLaws D}.
Notation St := (Sched E (IO TimerManager (Proc K D))).
Context (f : sysreq) `{!Answers K f}.
Implicit Types s : St.

Lemma answers_calls i : ∀ (k : K), (original f (calls_from (original f) i k)).1 = answers k i.
Proof.
  induction i as [|i IH]; intros k; [apply answers_call|]. cbn [calls_from]. rw IH. apply answers_rest.
Qed.
Lemma answers_after i : ∀ (k : K) j, answers (calls_from (original f) i k) j = answers k (i + j).
Proof.
  induction i as [|i IH]; intros k j; [done|]. cbn [calls_from]. rw IH. apply answers_rest.
Qed.

Lemma blocking_settle n : ∀ k : K, blocking n f k = settle n (answers k).
Proof.
  induction n as [|n IH]; intros k; [done|]. cbn [blocking settle]. rw -answers_call.
  pose proof (answers_rest (f := f) k) as Hr. destruct (original f k) as [a k'] eqn:Hk. cbn in Hr |- *.
  rw IH. by rw (settle_ext n _ _ Hr).
Qed.

(** * The answers to come do not change while the call waits *)

(** The answers to come are these. *)
Definition coming (l : nat → Z * Z) (s : St) : Prop := ∀ i, answers (the_os s) i = l i.
Definition coming_at (l : nat → Z * Z) (t : TimerManager) (x : Proc K D) : Prop :=
  ∀ i, answers (os x) i = l i.

Lemma coming_os {A} (call : K → A * K) :
  (∀ k i, answers (call k).2 i = answers k i) →
  ∀ l t (x : Proc K D), coming_at l t x → coming_at l t (on_os call x).2.
Proof.
  intros Hc l t x Hx i. specialize (Hc (os x) i). unfold on_os.
  destruct (call (os x)) as [a k]. cbn in *. by rw Hc.
Qed.

Lemma coming_addEvent l fd event cb sch g : keeps (coming l) (addEvent fd event cb sch g).
Proof. apply (beside_addEvent (coming_at l)). intros t x op ? ? ?. apply coming_os, answers_ctl. Qed.
Lemma coming_handle l fuel ev p : keeps (coming l) (handle_event fuel (ev, DataPtr p)).
Proof.
  apply (beside_handle (coming_at l)); [intros t x|intros t x op ? ? ?]; apply coming_os;
    [apply answers_write|apply answers_ctl].
Qed.
Lemma coming_tickle l : keeps (coming l) IO_tickle.
Proof. apply (beside_tickle (coming_at l)). intros t x. apply coming_os, answers_write. Qed.

Lemma coming_proc l {A} (m : M (Proc K D) A) :
  (∀ x, match m x with Ret _ x' | Throw _ x' => os x' = os x | Crash _ => True end) →
  keeps (coming l) (proc m).
Proof.
  intros Hm s Hs. unfold proc, io, mzoom. specialize (Hm (kernel (host s))).
  destruct (m (kernel (host s))) as [a x|e x|]; [| |done]; intros i; unfold the_os; cbn;
    rw Hm; apply Hs.
Qed.
Lemma coming_timer_op l {A} (m : M TimerManager A) : keeps (coming l) (timer_op m).
Proof. intros s Hs. unfold timer_op, io, mzoom. by destruct (m (timers (host s))). Qed.

Lemma coming_wait l c b : keeps (coming l) (do_io_wait c b).
Proof.
  unfold do_io_wait, do_io_register, arm_timeout, iom_addEvent, iom_addConditionTimer, iom_timer, get_iom.
  assert (∀ timer, keeps (coming l) (cancel_timer timer)) as Hcancel.
  { intros [q|]; [|apply keeps_ret]. apply keeps_bind; [apply coming_timer_op|intros; apply keeps_ret]. }
  assert (keeps (coming l) (if has_iom c then mret tt else mcrash (Undefined "null IOManager pointer")))
    as Hiom by (destruct (has_iom c); [apply keeps_ret|apply keeps_crash]).
  apply keeps_bind.
  - destruct (_ =? _)%Z; [apply keeps_ret|]. apply keeps_bind; [exact Hiom|intros []].
    apply keeps_bind; [by apply coming_proc|intros g].
    apply keeps_bind; [|intros timer; apply keeps_ret].
    apply keeps_bind.
    { apply (beside_syscall (coming_at l)). intros t x. apply coming_os, answers_time. }
    intros now. apply keeps_bind; [apply keeps_gets|intros q].
    apply keeps_bind; [apply coming_timer_op|intros front].
    apply keeps_bind; [apply keeps_when, coming_tickle|intros []; apply keeps_ret].
  - intros timer. apply keeps_bind.
    + apply keeps_bind; [exact Hiom|intros []; apply coming_addEvent].
    + intros rt. destruct (negb _); [|apply keeps_ret].
      apply keeps_bind; [apply Hcancel|intros []].
      apply keeps_bind; [by apply coming_proc|intros []; apply keeps_ret].
Qed.

(** * The call from [retry:] on *)

Section retry.
Context (fuel efuel : nat) (c : Caller) (fd event : Z) (p : nat) (x : FdContext) (ev to : Z).
Context (hp : gmap nat (Fiber E)) (tb : list nat) (h : gmap nat FdContext) (n : Z) (d : D).
Hypothesis Hto : in_u64 to.
Hypothesis Hev : real_events ev = event.
Notation waits := (can_wait hp tb c fd event p x h n).
Notation at_hook := (at_hook hp tb).

(** The system has blocked the call: it waits. *)
Lemma retry_waits i q t ti cl w timer l s :
  waits t → at_hook q h n t d ti cl s → coming l s → i < fuel →
  (∀ i', i' < i → l i' = ((-1)%Z, EINTR)) → l i = ((-1)%Z, EAGAIN) →
  let h' := <[p := waits_in event (this_fiber c) x]> h in
  ∃ s1 timer1 t1 cl1,
    do_io_retry fuel c (MkIoCall fd f event to w timer) s =
      Ret (Suspended (MkIoCall fd f event to w timer1)) s1 ∧
    timeout_armed (K := K) t t1 cl cl1 fd event to w timer1 ∧ io_ok tb h' (u64 (n + 1)) ∧
    at_hook q h' (u64 (n + 1)) t1 d ti cl1 s1 ∧ coming (λ k, l (S i + k)) s1.
Proof.
  intros Hw Hs Hl Hi Hbefore Ha h'. set (b := MkIoCall fd f event to w timer).
  assert (settles (original f) interrupted i (the_os s)) as Hset.
  { split; [intros i' Hi'|]; unfold interrupted; rw answers_calls Hl; [by apply Hbefore|by rw Ha]. }
  set (s0 := with_os (calls_from (original f) (S i) (the_os s)) s).
  assert (do_io_retry fuel c b s = do_io_wait c b s0) as Hretry.
  { unfold do_io_retry. rw (bind_Ret _ _ _ _ _ (call_uninterrupted_ends i fuel f s Hset Hi)).
    by rw answers_calls Hl Ha. }
  assert (coming (λ k, l (S i + k)) s0) as Hl0.
  { intros k. unfold the_os. cbn [s0 with_os]. rw -Hl. apply (answers_after (S i)). }
  pose proof (spec_frame _ _ _ _ _ (hook_do_io_wait hp tb q h n t d ti cl c b p x Hw Hto)
    (coming_wait (λ k, l (S i + k)) c b) s0 (conj (hook_with_os _ _ _ _ _ _ _ _ _ _ _ Hs) Hl0)) as H.
  rw Hretry. destruct (do_io_wait c b s0) as [r s1| |]; [|done..].
  destruct H as [(timer1 & t1 & cl1 & -> & H) Hl1]. destruct H as (Harm & Hok & Hs1).
  exists s1, timer1, t1, cl1. do 3 (split; [done|]). split; [exact Hs1|exact Hl1].
Qed.

(** It waits, the event comes, and the call is made again. *)
Lemma retry_once i q t ti cl w timer l s :
  waits t → ti !! w = Some (Some 0%Z) → at_hook q h n t d ti cl s → coming l s → i < fuel →
  (∀ i', i' < i → l i' = ((-1)%Z, EINTR)) → l i = ((-1)%Z, EAGAIN) →
  ∃ s1 b' s2 t2 cl2 timer2,
    do_io_retry fuel c (MkIoCall fd f event to w timer) s = Ret (Suspended b') s1 ∧
    (handle_event efuel (ev, DataPtr p) ;; do_io_resume fuel c b') s1 =
      do_io_retry fuel c (MkIoCall fd f event to w timer2) s2 ∧
    waits t2 ∧ at_hook (q ++ [fiber_task (this_fiber c)]) h n t2 d ti cl2 s2 ∧
    coming (λ k, l (S i + k)) s2.
Proof.
  intros Hw Hti Hs Hl Hi Hbefore Ha.
  destruct (retry_waits i q t ti cl w timer l s Hw Hs Hl Hi Hbefore Ha)
    as (s1 & timer1 & t1 & cl1 & Hretry & Harm & Hok & Hs1 & Hl1).
  exists s1, (MkIoCall fd f event to w timer1).
  pose proof (timeout_armed_live _ _ _ _ _ _ _ _ _ Harm) as Hlive.
  pose proof (timeout_armed_wf _ _ _ _ _ _ _ _ _ (cw_wf _ _ _ _ _ _ _ _ _ _ Hw) Harm) as Hwf1.
  pose proof (hook_event hp hp tb efuel q h n t t1 d ti cl1 c fd event p x ev s1 Hw Hev Hok Hs1) as H2.
  pose proof (coming_handle (λ k, l (S i + k)) efuel ev p s1 Hl1) as Hl2. unfold returns in H2.
  destruct (handle_event efuel (ev, DataPtr p) s1) as [[] s2| |] eqn:Hhandle; [|done..].
  destruct (resume_prefix_eq hp tb _ h n t1 d ti cl1 timer1 w 0
    (λ e, if negb (e =? 0)%Z then free_tinfo w ;; mret (Returned (SysRet (-1) (Some e)))
          else do_io_retry fuel c (MkIoCall fd f event to w timer1)) s2 Hwf1 Hlive Hti H2)
    as (t3 & s3 & Hwf3 & _ & Hos & Hs3 & Heq).
  exists s3, t3, cl1, timer1. split; [done|]. split; [|split; [|split; [exact Hs3|]]].
  - rw (bind_Ret _ _ _ _ _ Hhandle). exact Heq.
  - destruct Hw. by split.
  - intros k. rw Hos. apply Hl2.
Qed.

(** The system answers, after interruptions. *)
Lemma retry_answered i q t ti cl w timer l s a :
  at_hook q h n t d ti cl s → coming l s → i < fuel →
  (∀ i', i' < i → l i' = ((-1)%Z, EINTR)) → l i = a →
  a ≠ ((-1)%Z, EINTR) → a ≠ ((-1)%Z, EAGAIN) →
  returns (do_io_retry fuel c (MkIoCall fd f event to w timer)) s (λ r s',
    r = Returned (answer a) ∧ at_hook q h n t d (<[w := None]> ti) cl s').
Proof.
  intros Hs Hl Hi Hbefore <- Hne Ha.
  assert (settles (original f) interrupted i (the_os s)) as Hset.
  { split; [intros i' Hi'|]; unfold interrupted; rw answers_calls Hl; [by apply Hbefore|done]. }
  unfold do_io_retry. eapply bind_step; [by apply (call_uninterrupted_ends i fuel f)|]. cbn beta.
  rw answers_calls Hl. destruct (failed_with EAGAIN _) eqn:Hf; [by apply failed_with_true in Hf|].
  eapply spec_returns; [|apply hook_with_os, Hs].
  eapply spec_bind; [apply hook_free_tinfo|]. intros []. by apply spec_ret.
Qed.

Lemma retry_drives m : ∀ j q t ti cl w timer l s a,
  waits t → ti !! w = Some (Some 0%Z) → at_hook q h n t d ti cl s → coming l s → m <= fuel →
  settle m l = Some (a, j) →
  returns (drive fuel efuel j c ev p (do_io_retry fuel c (MkIoCall fd f event to w timer))) s
    (λ r s', r = Returned (answer a) ∧ ∃ t' ti' cl', wf t' ∧
      at_hook (q ++ replicate j (fiber_task (this_fiber c))) h n t' d ti' cl' s').
Proof.
  induction m as [m IH] using lt_wf_ind. intros j q t ti cl w timer l s a Hw Hti Hs Hl Hm Hset.
  destruct (settle_split m l a j Hset) as (i & Him & Hbefore & Hne & Hj). destruct j as [|j].
  - destruct Hj as [Ha Hne']. cbn [drive].
    eapply returns_mono; [eapply (retry_answered i); [exact Hs|exact Hl|lia|done|exact Ha|by rw -Ha|done]|].
    intros r s' [-> Hs']. split; [done|]. exists t, (<[w := None]> ti), cl. split; [apply Hw|].
    cbn [replicate]. by rw app_nil_r.
  - destruct Hj as [Ha Hrest].
    destruct (retry_once i q t ti cl w timer l s Hw Hti Hs Hl ltac:(lia) Hbefore Ha)
      as (s1 & b' & s2 & t2 & cl2 & timer2 & Hrun & Hresume & Hw2 & Hs2 & Hl2).
    cbn [drive]. eapply bind_step; [exact Hrun|]. cbn beta iota.
    unfold returns. rw (drive_eq _ _ _ _ _ _ _ _ _ _ Hresume).
    pose proof (IH (m - S i) ltac:(lia) j _ t2 ti cl2 w timer2 _ s2 a Hw2 Hti Hs2 Hl2 ltac:(lia) Hrest) as H.
    unfold returns in H. destruct (drive _ _ _ _ _ _ _ s2) as [r s'| |]; [|done..].
    destruct H as (-> & t' & ti' & cl' & Hwf' & Hs'). split; [done|]. exists t', ti', cl'.
    split; [done|]. by rw -app_assoc in Hs'.
Qed.
End retry.

(** * Properties *)

(** C7. To the fiber, a hooked call is the blocking call.  On a descriptor that the hooks
    have taken over, if the original function, called again while it is interrupted or would
    block, answers [a] within [m] calls after blocking [j] times, then [do_io], resumed
    after each of [j] events, returns [a].  The fiber has been queued once for each
    event, no event stays registered, and the contexts are as before. *)
Theorem do_io_is_blocking fuel efuel c fd event o pd p x ev m a j s :
  waitable c fd event p x s →
  managed c fd (fds (kernel (host s))) = Some pd →
  real_events ev = event → m <= fuel →
  blocking m f (the_os s) = Some (a, j) →
  returns (drive fuel efuel j c ev p (do_io fuel c fd f event o)) s (λ r s',
    r = Returned (answer a) ∧
    m_fibers s' = m_fibers s ++ replicate j (fiber_task (this_fiber c)) ∧
    fd_heap (host s') = fd_heap (host s) ∧
    m_pendingEventCount (host s') = m_pendingEventCount (host s)).
Proof.
  intros Hw Hm Hev Hfuel Hb. rw blocking_settle in Hb.
  set (to := u64 (getTimeout pd o (fds (kernel (host s))))).
  pose proof (hook_new_tinfo _ _ _ _ _ _ _ _ _ s (at_self s)) as Ht.
  destruct (new_tinfo s) as [w s0| |] eqn:Hnew; [|done..]. destruct Ht as [_ Hs0].
  assert (do_io fuel c fd f event o s = do_io_retry fuel c (MkIoCall fd f event to w None) s0) as Heq.
  { rw do_io_cases Hm. by rw (bind_Ret _ _ _ _ _ Hnew). }
  assert (coming (answers (the_os s)) s0) as Hl.
  { assert (the_os s0 = the_os s) as Hos
      by (revert Hnew; unfold new_tinfo, proc, io, mzoom; by intros [= _ <-]).
    intros k. by rw Hos. }
  unfold returns. rw (drive_eq _ _ _ _ _ _ _ _ _ _ Heq).
  pose proof (retry_drives fuel efuel c fd event p x ev to _ _ _ _ _ (u64_range _) Hev m j _ _ _ _ w None
    _ s0 a Hw (lookup_insert_eq _ _ _) Hs0 Hl Hfuel Hb) as H.
  unfold returns in H. destruct (drive _ _ _ _ _ _ _ s0) as [r s'| |]; [|done..].
  destruct H as (-> & t' & ti' & cl' & _ & [Hv _]). split; [done|]. split_and!; apply Hv.
Qed.
End blocking.

(** ** In the sample process *)

#[global] Program Instance demo_answers : Answers Demo.Os (read_f 7 0 100) := {|
  answers k i := nth i (Demo.answers k) (0%Z, 0%Z)
|}.
Next Obligation. intros [? [|]]; reflexivity. Qed.
Next Obligation. intros [? [|]] [|i]; reflexivity. Qed.
Next Obligation. reflexivity. Qed.
Next Obligation. reflexivity. Qed.
Next Obligation. reflexivity. Qed.

(** An interruption, and two rounds of waiting before the 42 bytes are there. *)
Definition demo_patient : list (Z * Z) :=
  [((-1)%Z, EINTR); ((-1)%Z, EAGAIN); ((-1)%Z, EAGAIN); (42%Z, 0%Z)].

Lemma do_io_is_blocking_witness :
  returns (drive 5 3 2 Demo.caller EPOLLIN 7 (do_io 5 Demo.caller 7 (read_f 7 0 100) READ SO_RCVTIMEO))
    (Demo.state demo_patient) (λ r s',
    r = Returned (SysRet 42 (Some 0%Z)) ∧ m_fibers s' = [fiber_task 1; fiber_task 1]).
Proof.
  pose proof (demo_waitable READ demo_patient (or_introl eq_refl)) as Hw.
  assert (managed Demo.caller 7 (fds (kernel (host (Demo.state demo_patient)))) = Some 0) as Hm
    by (vm_compute; reflexivity).
  assert (blocking 4 (read_f 7 0 100) (the_os (Demo.state demo_patient)) = Some ((42%Z, 0%Z), 2)) as Hb
    by (vm_compute; reflexivity).
  assert (m_fibers (Demo.state demo_patient) = []) as Hq by (vm_compute; reflexivity).
  eapply returns_mono; [exact (do_io_is_blocking (read_f 7 0 100) 5 3 Demo.caller 7 READ SO_RCVTIMEO 0 7
    (FdContext_new 7) EPOLLIN 4 (42%Z, 0%Z) 2 _ Hw Hm eq_refl (le_S 4 4 (le_n 4)) Hb)|].
  intros r s' (-> & H & _). rw Hq in H. split; [reflexivity|exact H].
Defined.
