(* ===== verification/HookFibers.v ===== *)
(** Hooked calls in the fibers that the scheduler runs.

    Hook.v cuts a hooked call at [yield()].  Here the pieces are put back into the code
    of a fiber, which a thread of the scheduler takes from the queue, enters, leaves at
    [yield()] and enters again when the event or the timer has queued it: the loop of
    Scheduler.v, the switches of Fiber.v, the events of IOManager.v and the timers of
    Timer.v together.  [Fiber::yield], which the repository does not have, is taken to be
    [YieldToHold]. *)

From S2P Require Import Prelude.
From S2P Require Import Timer.
From S2P Require Import Fiber.
From S2P Require Import Scheduler.
From S2P Require Import IOManager.
From S2P Require Import Hook.
From S2P Require Import HookSpec.
From S2P Require Import HookInv.
From S2P Require Import HookCalls.
From S2P Require Import HookBlocking.

(** * The code of a fiber *)

Section code.
Context {X : Set → Type}.

(** The pieces of hooked calls, by the thread and fiber that make them, and what else
    the code does. *)
Inductive fiber_call : Set → Type :=
  | Do_io (c : Caller) (fd : Z) (f : sysreq) (event timeout_so : Z) : fiber_call (progress io_call)
  | Do_io_resume (c : Caller) (b : io_call) : fiber_call (progress io_call)
  | Sleep (c : Caller) (seconds : Z) : fiber_call (progress unit)
  | Other {A : Set} (x : X A) : fiber_call A.

(** From a piece of [do_io] on: the code goes on with the result in [k], after at most
    [n] more waits. *)
Fixpoint awaits (n : nat) (c : Caller) (k : sysret → prog fiber_call) (r : progress io_call) : prog fiber_call :=
  match r, n with
  | Returned v, _ => k v
  | Suspended b, S n => PYieldToHold (PDo (Do_io_resume c b) (awaits n c k))
  | Suspended _, 0 => PThrow (Exn "too many waits")
  end.
Definition fiber_io (n : nat) (c : Caller) (fd : Z) (f : sysreq) (event timeout_so : Z)
    (k : sysret → prog fiber_call) : prog fiber_call :=
  PDo (Do_io c fd f event timeout_so) (awaits n c k).

Definition fiber_sleep (c : Caller) (seconds : Z) (k : sysret → prog fiber_call) : prog fiber_call :=
  PDo (Sleep c seconds) (λ r,
    match r with
    | Returned v => k v
    | Suspended _ => PYieldToHold (k Hooked.sleep_resume)
    end).
End code.
Arguments fiber_call : clear implicits.

Section fibers.
Context {X : Set → Type} {K D : Type} `{!Kernel K, !Originals K, !FdManager D}.
Notation St := (Sched (fiber_call X) (IO TimerManager (Proc K D))).
Context (fuel efuel : nat) (fn_of : callback → nat) (stack_size : Z).
Context (code : nat → prog (fiber_call X)) (other : ∀ A : Set, X A → M St A).

Definition handle_call (A : Set) (e : fiber_call X A) : M St A :=
  match e with
  | Do_io c fd f event o => do_io fuel c fd f event o
  | Do_io_resume c b => do_io_resume fuel c b
  | Sleep c seconds => Hooked.sleep c seconds
  | Other x => other _ x
  end.

(** [n] pieces of the loop of a thread of the [IOManager]. *)
Definition pieces (n : nat) (w : Worker) : M St Worker :=
  worker_run (SchedHost0 := io_host (TimerQueue0 := timer_queue fn_of) efuel)
    code handle_call stack_size n w.

(** The thread takes the fiber from the queue and enters it (two pieces); the fiber
    makes its call; when that waits, the thread leaves the fiber and is at the top of
    its loop again (three pieces), and the event [ev] of the context [p] comes.  After
    [j] times the call returns (one piece). *)
Fixpoint serve (ev : Z) (p j : nat) (w : Worker) : M St Worker :=
  w1 ← pieces 2 w;
  match j with
  | 0 => pieces 1 w1
  | S j => w2 ← pieces 3 w1; handle_event efuel (ev, DataPtr p) ;; serve ev p j w2
  end.
Definition serve_entered (ev : Z) (p j : nat) (w : Worker) : M St Worker :=
  match j with
  | 0 => pieces 1 w
  | S j => w2 ← pieces 3 w; handle_event efuel (ev, DataPtr p) ;; serve ev p j w2
  end.

(** Where the code of a fiber starts, or goes on. *)
Definition next_code (F : Fiber (fiber_call X)) : option (prog (fiber_call X)) :=
  match m_ctx F with
  | CtxEntry MainFunc => code <$> m_cb F
  | CtxRun (FBody MainFunc _) pr => Some pr
  | _ => None
  end.

(** The process once a thread has entered the fiber [me], and once it has left it. *)
Definition entered (me : nat) (F : Fiber (fiber_call X)) (s : St) : St :=
  set_heap (<[me := with_state EXEC F]> (heap s)) (last_fiber_id s)
    (set_active (u64 (u64 (m_activeThreadCount s + 1) + 1)) (set_queue [] s)).
Definition held (me : nat) (k : prog (fiber_call X)) (F : Fiber (fiber_call X)) : Fiber (fiber_call X) :=
  with_state HOLD (with_ctx (CtxRun (FBody MainFunc me) k) F).
Definition left (me : nat) (k : prog (fiber_call X)) (F : Fiber (fiber_call X)) (s : St) : St :=
  set_heap (<[me := held me k F]> (heap s)) (last_fiber_id s)
    (set_active (u64 (m_activeThreadCount s + -1)) s).

(** ** The pieces *)

Lemma serve_eq ev p j w : serve ev p j w = (w1 ← pieces 2 w; serve_entered ev p j w1).
Proof. by destruct j. Qed.

Lemma pieces_app a b w s w1 s1 :
  pieces a w s = Ret w1 s1 → pieces (a + b) w s = pieces b w1 s1.
Proof.
  revert w s. unfold pieces. induction a as [|a IH]; intros w s; cbn; [by intros [= -> ->]|].
  unfold mbind, M_bind. destruct (worker_step _ _ _ w s) as [w2 s2| |]; [|done..]. apply IH.
Qed.

Lemma pieces_step n w s w1 s1 :
  worker_step (SchedHost0 := io_host (TimerQueue0 := timer_queue fn_of) efuel)
    code handle_call stack_size w s = Ret w1 s1 →
  pieces (S n) w s = pieces n w1 s1.
Proof. intros H. unfold pieces. cbn [worker_run]. by rw (bind_Ret _ _ _ _ _ H). Qed.
Lemma pieces_one w s w1 s1 :
  worker_step (SchedHost0 := io_host (TimerQueue0 := timer_queue fn_of) efuel)
    code handle_call stack_size w s = Ret w1 s1 → pieces 1 w s = Ret w1 s1.
Proof. apply (pieces_step 0). Qed.

Lemma pieces_enter w s me F pr :
  w_pc w = PcScan → m_fibers s = [fiber_task me] → heap s !! me = Some F → m_state F ≠ EXEC →
  next_code F = Some pr →
  pieces 2 w s = Ret (goto (PcRun KFiber me pr) w) (entered me F s).
Proof.
  intros Hpc Hq HF Hst Hpr.
  assert (run_scan (w_tid w) s = Ret (PcDispatch (fiber_task me) false true)
    (set_active (u64 (m_activeThreadCount s + 1)) (set_queue [] s))) as Hscan.
  { unfold run_scan. cbv [mbind M_bind mget]. rw Hq. cbn [scan fiber_task ft_thread ft_fiber].
    rw HF. cbn. by destruct (m_state F). }
  assert (may_run (m_state F) = true) as Hmay by by destruct (m_state F).
  rw (pieces_step 1 w s (goto (PcDispatch (fiber_task me) false true) w)
    (set_active (u64 (m_activeThreadCount s + 1)) (set_queue [] s))).
  { unfold worker_step. rw Hpc. by rw (bind_Ret _ _ _ _ _ Hscan). }
  apply pieces_one. cbn [worker_step goto w_pc].
  unfold dispatch, swap_in, load, store, fiber_enter, massert, add_active.
  cbn [ft_fiber ft_cb fiber_task mwhen].
  cbv [mbind M_bind mret M_ret mmodify]. cbn. rw HF Hmay. cbn. rw HF. cbn.
  rw bool_decide_eq_true_2; [done|]. cbn. revert Hpr. unfold next_code.
  destruct (m_ctx F) as [|[]|[|[] g] pr'|]; try done; [|by intros [= ->]].
  by destruct (m_cb F); [intros [= ->]|].
Qed.

(** A call in the code of the fiber. *)
Lemma pieces_call {A : Set} n w s me (e : fiber_call X A) q a s1 :
  handle_call _ e s = Ret a s1 →
  pieces (S n) (goto (PcRun KFiber me (PDo e q)) w) s =
    pieces n (goto (PcRun KFiber me (q a)) w) s1.
Proof.
  intros He. apply pieces_step. cbn [worker_step goto w_pc run_body].
  cbv [mbind M_bind]. by rw He.
Qed.

Lemma pieces_leave w s me F k :
  heap s !! me = Some F →
  pieces 2 (goto (PcRun KFiber me (PYieldToHold k)) w) s = Ret (goto PcScan w) (left me k F s).
Proof.
  intros HF. set (F1 := with_ctx (CtxRun (FBody MainFunc me) k) F).
  rw (pieces_step 1 _ s (goto (PcAfter KFiber me) w)
    (set_heap (<[me := with_state HOLD F1]> (heap s)) (last_fiber_id s) s)).
  { cbn [worker_step goto w_pc run_body resume]. unfold load, store.
    cbv [mbind M_bind mret M_ret mmodify]. by rw HF. }
  apply pieces_one. cbn [worker_step goto w_pc]. unfold after_fiber, add_active, load, store.
  cbv [mbind M_bind mret M_ret mmodify]. cbn. rw lookup_insert_eq. cbn.
  change (bool_decide (HOLD = READY)) with false.
  change (bool_decide (HOLD ≠ TERM) && bool_decide (HOLD ≠ EXCEPT)) with true.
  cbn. unfold left, held.
  by rw insert_insert_eq.
Qed.

Lemma at_hook_entered hp tb q h n t d ti cl me F s :
  at_hook hp tb q h n t d ti cl s →
  at_hook (<[me := with_state EXEC F]> hp) tb [] h n t d ti cl (entered me F s).
Proof. intros [(<- & _ & Hv) Ha]. by split; [split_and!; try apply Hv|]. Qed.
Lemma at_hook_left hp tb q h n t d ti cl me k F s :
  at_hook hp tb q h n t d ti cl s →
  at_hook (<[me := held me k F]> hp) tb q h n t d ti cl (left me k F s).
Proof. intros [(<- & Hv) Ha]. by split; [split_and!; try apply Hv|]. Qed.

(** The other fibers. *)
Definition others_as (me : nat) (hp hp' : gmap nat (Fiber (fiber_call X))) : Prop :=
  delete me hp' = delete me hp.

Lemma returns_ret {A} (m : M St A) s a s' (Q : A → St → Prop) :
  m s = Ret a s' → Q a s' → returns m s Q.
Proof. intros H. unfold returns. by rw H. Qed.

(** A thread enters the fiber, whose first call makes it yield. *)
Lemma pieces_wait {A : Set} wk s me F (e : fiber_call X A) q a s1 k :
  w_pc wk = PcScan → m_fibers s = [fiber_task me] → heap s !! me = Some F → m_state F ≠ EXEC →
  next_code F = Some (PDo e q) → handle_call _ e (entered me F s) = Ret a s1 →
  q a = PYieldToHold k → heap s1 = heap (entered me F s) →
  pieces 5 wk s = Ret (goto PcScan wk) (left me k (with_state EXEC F) s1).
Proof.
  intros Hpc Hq HF Hst Hnext He Ha Hheap.
  rw (pieces_app 2 3 _ _ _ _ (pieces_enter wk s me F _ Hpc Hq HF Hst Hnext)).
  rw (pieces_call 2 _ _ _ _ _ _ _ He) Ha. apply pieces_leave. rw Hheap. apply lookup_insert_eq.
Qed.

(** ** A call that waits for events *)

Section serving.
Context `{!KernelAccepts K, !FdManagerLaws D}.
Context (f : sysreq) `{!Answers K f}.
Context (c : Caller) (fd event : Z) (p : nat) (x : FdContext) (ev to : Z).
Context (tb : list nat) (h : gmap nat FdContext) (n : Z) (d : D).
Context (k : sysret → prog (fiber_call X)) (wk : Worker (E := fiber_call X)).
Hypothesis Hto : in_u64 to.
Hypothesis Hev : real_events ev = event.
Notation me := (this_fiber c).

(** What the last piece leaves. *)
Definition served (hp : gmap nat (Fiber (fiber_call X))) (a : Z * Z) (w' : Worker) (s' : St) : Prop :=
  w' = goto (PcRun KFiber me (k (answer a))) wk ∧
  ∃ hp' t' ti' cl', others_as me hp hp' ∧ (∃ F, hp' !! me = Some F ∧ m_state F = EXEC) ∧
    wf t' ∧ at_hook hp' tb [] h n t' d ti' cl' s'.

Lemma can_wait_entered hp t t' F k' :
  can_wait hp tb c fd event p x h n t → wf t' →
  can_wait (<[me := with_state EXEC (held me k' F)]> hp) tb c fd event p x h n t'.
Proof.
  intros [Hi He Hc Hf _ Ho _ Hn] Hwf. split; try done. eexists. by rw lookup_insert_eq.
Qed.

(** One round: the call waits, the thread leaves the fiber, the event comes, the thread
    enters the fiber again, which makes its call again. *)
Lemma serve_round i j N hp t ti cl w timer l (e : fiber_call X (progress io_call)) s s0 :
  can_wait hp tb c fd event p x h n t → ti !! w = Some (Some 0%Z) →
  at_hook hp tb [] h n t d ti cl s0 → coming f l s0 → i < fuel →
  (∀ i', i' < i → l i' = ((-1)%Z, EINTR)) → l i = ((-1)%Z, EAGAIN) →
  handle_call _ e s = do_io_retry fuel c (MkIoCall fd f event to w timer) s0 →
  ∃ hp3 t3 cl3 timer3 b s3 s4, others_as me hp hp3 ∧
    can_wait hp3 tb c fd event p x h n t3 ∧ at_hook hp3 tb [] h n t3 d ti cl3 s4 ∧
    coming f (λ k, l (S i + k)) s4 ∧
    handle_call _ (Do_io_resume c b) s3 =
      do_io_retry fuel c (MkIoCall fd f event to w timer3) s4 ∧
    serve_entered ev p (S j) (goto (PcRun KFiber me (PDo e (awaits (S N) c k))) wk) s =
      serve_entered ev p j (goto (PcRun KFiber me (PDo (Do_io_resume c b) (awaits N c k))) wk) s3.
Proof.
  intros Hw Hti Hs Hl Hi Hbefore Ha Heq.
  destruct (retry_waits f fuel c fd event p x to hp tb h n d Hto i [] t ti cl w timer l s0 Hw Hs Hl
    Hi Hbefore Ha) as (s1 & timer1 & t1 & cl1 & Hrun & Harm & Hok & Hs1 & Hl1).
  rw Hrun in Heq. destruct (cw_fiber _ _ _ _ _ _ _ _ _ _ Hw) as (F & HF & HFst).
  assert (heap s1 !! me = Some F) as HF1 by by destruct Hs1 as [(-> & _) _].
  set (b1 := MkIoCall fd f event to w timer1) in *.
  set (k1 := PDo (Do_io_resume c b1) (awaits N c k)).
  pose proof (at_hook_left _ _ _ _ _ _ _ _ _ me k1 F s1 Hs1) as Hs2.
  (* the event *)
  pose proof (hook_event hp _ tb efuel [] h n t t1 d ti cl1 c fd event p x ev _ Hw Hev Hok Hs2) as H2.
  pose proof (coming_handle f (λ k, l (S i + k)) efuel ev p (left me k1 F s1) Hl1) as Hl2.
  unfold returns in H2.
  destruct (handle_event efuel (ev, DataPtr p) (left me k1 F s1)) as [[] s2| |] eqn:Hhandle; [|done..].
  (* the fiber is entered again *)
  assert (heap s2 !! me = Some (held me k1 F)) as HF2
    by (destruct H2 as [(-> & _) _]; by rw lookup_insert_eq).
  pose proof (at_hook_entered _ _ _ _ _ _ _ _ _ me (held me k1 F) s2 H2) as Hs3.
  pose proof (timeout_armed_wf _ _ _ _ _ _ _ _ _ (cw_wf _ _ _ _ _ _ _ _ _ _ Hw) Harm) as Hwf1.
  destruct (resume_prefix_eq _ tb _ h n t1 d ti cl1 timer1 w 0
    (λ e, if negb (e =? 0)%Z then free_tinfo w ;; mret (Returned (SysRet (-1) (Some e)))
          else do_io_retry fuel c b1) _ Hwf1 (timeout_armed_live _ _ _ _ _ _ _ _ _ Harm) Hti Hs3)
    as (t3 & s4 & Hwf3 & _ & Hos & Hs4 & Hresume). rw insert_insert_eq in Hs4.
  pose proof (pieces_enter (goto PcScan wk) s2 me (held me k1 F) k1 eq_refl
    (proj1 (proj2 (proj1 H2))) HF2 ltac:(done) eq_refl) as Henter.
  eexists _, t3, cl1, timer1, b1, (entered me (held me k1 F) s2), s4.
  split; [apply delete_insert_eq|]. split; [exact (can_wait_entered hp t t3 F k1 Hw Hwf3)|].
  split; [exact Hs4|]. split; [intros i'; rw Hos; apply Hl2|]. split; [exact Hresume|].
  unfold serve_entered at 1. cbv [mbind M_bind]. rw (pieces_call 2 _ _ _ _ _ _ _ Heq). cbn [awaits].
  rw (pieces_leave wk s1 me F k1 HF1) Hhandle serve_eq. cbv [mbind M_bind]. by rw Henter.
Qed.

Lemma serve_retry m : ∀ j N hp t ti cl w timer l (e : fiber_call X (progress io_call)) s s0 a,
  can_wait hp tb c fd event p x h n t → ti !! w = Some (Some 0%Z) →
  at_hook hp tb [] h n t d ti cl s0 → coming f l s0 → m <= fuel →
  settle m l = Some (a, j) → j <= N →
  handle_call _ e s = do_io_retry fuel c (MkIoCall fd f event to w timer) s0 →
  returns (serve_entered ev p j (goto (PcRun KFiber me (PDo e (awaits N c k))) wk)) s
    (served hp a).
Proof.
  induction m as [m IH] using lt_wf_ind.
  intros j N hp t ti cl w timer l e s s0 a Hw Hti Hs Hl Hm Hset HN Heq.
  destruct (settle_split m l a j Hset) as (i & Him & Hbefore & Hne & Hj). destruct j as [|j].
  - destruct Hj as [Ha Hne'].
    pose proof (retry_answered f fuel c fd event to hp tb h n d i [] t ti cl w timer l s0 a Hs Hl
      ltac:(lia) Hbefore Ha ltac:(by rw -Ha) Hne') as H. unfold returns in H. rw -Heq in H.
    destruct (handle_call _ e s) as [r s1| |] eqn:Hr; [|done..]. destruct H as [-> Hs1].
    unfold serve_entered, returns. rw (pieces_call 0 _ _ _ _ _ _ _ Hr). cbn.
    split; [by destruct N|]. eexists _, _, _, _. split; [done|]. split; [apply Hw|].
    split; [apply Hw|exact Hs1].
  - destruct Hj as [Ha Hrest]. destruct N as [|N]; [lia|].
    destruct (serve_round i j N hp t ti cl w timer l e s s0 Hw Hti Hs Hl ltac:(lia) Hbefore Ha Heq)
      as (hp3 & t3 & cl3 & timer3 & b & s3 & s4 & Ho & Hw3 & Hs4 & Hl4 & Heq4 & Hround).
    unfold returns. rw Hround.
    eapply returns_mono; [by apply (IH (m - S i) ltac:(lia) j N _ t3 ti cl3 w timer3 _ _ s3 s4 a Hw3
      Hti Hs4 Hl4 ltac:(lia) Hrest ltac:(lia))|].
    intros w' s' (-> & hp' & t' & ti' & cl' & Ho' & H). split; [done|]. exists hp', t', ti', cl'.
    split; [|done]. unfold others_as. by rw Ho'.
Qed.
End serving.

(** * Properties *)



End fibers.

(** ** In the sample process

    Fiber 1 is new and queued; it reads from descriptor 7 and goes on with the result,
    or it sleeps for two seconds. *)

Definition demo_fiber : Fiber (fiber_call (does nat)) := Fiber_new 1 131072 0 (Some 0) false.
Definition demo_queued (x : IO TimerManager (Proc Demo.Os Demo.Fds)) : Sched (fiber_call (does nat)) _ :=
  MkSched [fiber_task 1] 0 0 true true 0 None [] 1 [] {[1 := demo_fiber]} 1 x.
Definition demo_ready (l : list (Z * Z)) := demo_queued (host (Demo.state l)).
Definition demo_other (A : Set) (e : does nat A) :
    M (Sched (fiber_call (does nat)) (IO TimerManager (Proc Demo.Os Demo.Fds))) A :=
  match e with Does _ => mret tt end.
Definition demo_then (r : sysret) : prog (fiber_call (does nat)) := PDo (Other (Does (Z.to_nat (ret r)))) (λ _, PReturn).
Definition demo_reader (_ : nat) : prog (fiber_call (does nat)) :=
  fiber_io 3 Demo.caller 7 (read_f 7 0 100) READ SO_RCVTIMEO demo_then.
Definition demo_sleeper (_ : nat) : prog (fiber_call (does nat)) := fiber_sleep Demo.caller 2 demo_then.

Lemma demo_fiber_waits l :
  waitable Demo.caller 7 READ 7 (FdContext_new 7) (entered 1 demo_fiber (demo_ready l)).
Proof.
  destruct (demo_waitable READ l (or_introl eq_refl)) as [Hi He Hc Hf _ Hok Hwf Hn].
  assert (∀ x, host (entered 1 demo_fiber (demo_queued x)) = x) as Hh by reflexivity.
  unfold waitable, demo_ready. rw Hh.
  split; [exact Hi|exact He|exact Hc|exact Hf| |exact Hok|exact Hwf|exact Hn].
  eexists. split; [apply lookup_insert_eq|reflexivity].
Qed.



