(* ===== verification/HookConfig.v ===== *)
(** The configured connect timeout, the beginning of duan_src/hook.cc: the variable
    [tcp.connect.timeout], the static object [s_hook_initer] with its listener, and
    the [s_connect_timeout] that [connect] passes on.

    This file puts the program's configuration together: the types of all its
    variables, the listener of Hook.v's timeout and the one of the loggers
    (LogConfig.v), acting on the loggers (Logger.v) and the static data of hook.cc.
    [boost::lexical_cast] for numbers is a parameter. *)

From S2P Require Import Prelude Yaml LogFormat Logger Config LogConfig.
From S2P Require Import Timer Scheduler IOManager Hook HookSpec HookCalls.

(** The [T] of the [ConfigVar<T>] of the program: [int] in hook.cc, [uint32_t] in
    fiber.cc, [std::set<LogDefine>] in log.cc. *)
Inductive var_ty := TInt | TUint32 | TDefines.
#[export] Instance var_ty_eq : EqDecision var_ty.
Proof. solve_decision. Defined.

Definition var_val (t : var_ty) : Type :=
  match t with TInt | TUint32 => Z | TDefines => list LogDefine end.
#[export] Instance var_val_eq t : EqDecision (var_val t).
Proof. destruct t; cbn; apply _. Defined.

(** The loggers, and the static variables of hook.cc. *)
Record Statics := MkStatics { logs : Log; g_logger : nat; s_connect_timeout : Z }.

Definition in_logs {A} (m : M Log A) : M Statics A :=
  mzoom logs (λ g w, MkStatics g (g_logger w) (s_connect_timeout w)) m.
Definition set_connect_timeout (to : Z) (w : Statics) : Statics :=
  MkStatics (logs w) (g_logger w) to.

(** [hook.cc] as [__FILE__]. *)
Definition hook_cc : str := L "hook.cc".
Definition timeout_name : str := L "tcp.connect.timeout".

Section hook_config.
Context `{Y : Yaml} (int_cast u32_cast : LexicalCast Z).
Context (strftime : str → Z → str) (env : Env) (file : str) (line : Z) (name : var_ty → str).

Definition var_cast (t : var_ty) : LexicalCast (var_val t) :=
  match t with TInt => int_cast | TUint32 => u32_cast | TDefines => defines_cast end.

Lemma in_logs_ok level s w : logs_ok (logs w) → ∃ w',
  in_logs (log_root strftime env level file line s) w = Ret tt w' ∧ logs_ok (logs w').
Proof.
  intros Hg. destruct (log_root_ok strftime env level file line s (logs w) Hg) as (g' & H & Hg' & _).
  unfold in_logs, mzoom. rw H. by eexists.
Qed.

#[local] Instance statics_log : RootLog Statics := {|
  log_ok w := logs_ok (logs w);
  log_info s := in_logs (log_root strftime env INFO file line s);
  log_error s := in_logs (log_root strftime env ERROR file line s);
  log_info_ok := in_logs_ok INFO;
  log_error_ok := in_logs_ok ERROR
|}.

(** The lambda of [_HookIniter]: [s_connect_timeout] is a [uint64_t]. *)
Definition on_timeout_changed (old_value new_value : Z) : M Statics unit :=
  g ← mgets g_logger;
  in_logs (LOG_LEVEL strftime env g INFO hook_cc 58
    (L "tcp connect timeout changed from " ++ show_int old_value ++ L " to " ++
     show_int new_value)) ;;
  mmodify (set_connect_timeout (u64 new_value)).

(** What the listeners do; none is added to a [ConfigVar<uint32_t>]. *)
Definition run_listener (t : var_ty) : var_val t → var_val t → M Statics unit :=
  match t with
  | TInt => on_timeout_changed
  | TUint32 => λ _ _, mret tt
  | TDefines => λ old new, in_logs (on_logger_conf_changed strftime env old new)
  end.

Definition program : ConfigApp := {|
  ty := var_ty;
  val := var_val;
  val_cast := var_cast;
  type_name := name;
  W := Statics;
  root_log := statics_log;
  on_change_cb _ := unit;
  run_cb t _ := run_listener t
|}.
Notation Cfg := (@Config program).

(** The initialisation of the static variables of hook.cc, in their order: [g_logger],
    [g_tcp_connect_timeout], [s_hook_initer].  The value before, -1, is a constant. *)
Definition hook_static_init : M Cfg unit :=
  in_world (App := program) (
    i ← in_logs (getLogger (L "system"));
    mmodify (λ w, MkStatics (logs w) i (s_connect_timeout w))) ;;
  o ← Lookup_or_create (App := program) TInt timeout_name 5000%Z (L "tcp connect timeout");
  match o with
  | None => mcrash (Undefined "null variable")
  | Some i =>
      v ← getValue (App := program) TInt i;
      in_world (App := program) (mmodify (set_connect_timeout (u64 v))) ;;
      addListener (App := program) TInt i tt ;;
      mret tt
  end.
End hook_config.

(** * Specification *)

Section hook_config_facts.
Context `{Y : Yaml} (int_cast u32_cast : LexicalCast Z).
Context (strftime : str → Z → str) (env : Env) (file : str) (line : Z) (name : var_ty → str).
Notation app := (program int_cast u32_cast strftime env file line name).
Notation Cfg := (@Config app).
Implicit Types c : Cfg.

(** Variable [i] is [tcp.connect.timeout] with value [x] and its listener,
    [s_connect_timeout] is that value, and no other [ConfigVar<int>] has a listener. *)
Definition follows (i : nat) (x : Z) (c : Cfg) : Prop :=
  s_datas c !! timeout_name = Some i ∧
  (∃ nm desc cbs, vars c !! i = Some (@MkVar app TInt nm desc x cbs) ∧ cbs ≠ []) ∧
  s_connect_timeout (world c) = u64 x ∧
  ∀ j nm desc y cbs, vars c !! j = Some (@MkVar app TInt nm desc y cbs) → j ≠ i → cbs = [].
Definition in_step (i : nat) (c : Cfg) : Prop := ∃ x, follows i x c.

(** The statics with this timeout. *)
Definition timeout_is (to : Z) (w : Statics) : Prop := s_connect_timeout w = to.

(** ** What leaves the timeout alone *)

Lemma keeps_in_logs {A} to (m : M Log A) : keeps (timeout_is to) (in_logs m).
Proof. intros w Hw. unfold in_logs, mzoom. by destruct (m (logs w)). Qed.

Lemma keeps_log_members to (f : str → node → M Statics (list (str * node))) prefix l :
  (∀ p n, keeps (timeout_is to) (f p n)) →
  keeps (timeout_is to) (list_members (App := app) f prefix l).
Proof.
  intros Hf. induction l as [|[k n] l IH]; [apply keeps_ret|].
  apply keeps_bind; [apply Hf|intros out].
  apply keeps_bind; [apply IH|intros rest; apply keeps_ret].
Qed.

Lemma keeps_list_all to fuel : ∀ prefix n,
  keeps (timeout_is to) (ListAllMember (App := app) fuel prefix n).
Proof.
  induction fuel as [|fuel IH]; intros prefix n; [apply keeps_crash|]. cbn [ListAllMember].
  destruct (negb _).
  - apply keeps_bind; [apply (keeps_in_logs to)|intros []; apply keeps_ret].
  - destruct (is_map n); [|apply keeps_ret].
    apply keeps_bind; [by apply keeps_log_members|intros out; apply keeps_ret].
Qed.

Lemma keeps_statics {A} i (m : M Statics A) :
  (∀ to, keeps (timeout_is to) m) → keeps (in_step i) (in_world (App := app) m).
Proof.
  intros Hm c (x & Hd & Hv & Hto & Hrest). rw (in_world_eq (App := app)).
  specialize (Hm (u64 x) (world c) Hto).
  by destruct (m (world c)); [exists x..|].
Qed.

(** ** Setting a variable *)

Lemma timeout_listener old x w :
  match on_timeout_changed strftime env old x w with
  | Ret _ w' => timeout_is (u64 x) w'
  | Throw _ _ => False
  | Crash _ => True
  end.
Proof.
  unfold on_timeout_changed, in_logs, mzoom, LOG_LEVEL. mrun.
  match goal with |- context [logger ?g ?s] => pose proof (no_throw_logger g s) as Hl;
    destruct (logger g s) as [l s1|e s1|f]; [|done|done] end.
  destruct (lg_level l <=? INFO)%Z; [|done]. unfold LogEventWrap_delete, log.
  match goal with |- context [log_fuel ?a ?b ?c ?d ?e ?h ?s] =>
    pose proof (no_throw_log_fuel a c b d e h s) as Hf; by destruct (log_fuel a b c d e h s) end.
Qed.

Lemma notify_int old x (cbs : list (Z * unit)) w : cbs ≠ [] →
  match miter (λ kc : Z * unit, run_cb (ConfigApp := app) TInt kc.2 old x) cbs w with
  | Ret _ w' => timeout_is (u64 x) w'
  | Throw _ _ => False
  | Crash _ => True
  end.
Proof.
  revert w. induction cbs as [|kc cbs IH]; [done|]. intros w _. cbn. unfold mbind, M_bind.
  pose proof (timeout_listener old x w) as Hl. destruct (on_timeout_changed _ _ _ _ w); [|done|done].
  destruct cbs as [|kc' cbs]; [done|]. by apply IH.
Qed.

Lemma notify_other t old x (cbs : list (Z * unit)) to : t ≠ TInt →
  keeps (timeout_is to) (miter (λ kc : Z * unit, run_cb (ConfigApp := app) t kc.2 old x) cbs).
Proof.
  intros Ht. apply keeps_iter. intros kc. destruct t; [done|apply keeps_ret|apply (keeps_in_logs to)].
Qed.

Lemma keeps_set i t j x : keeps (in_step i) (setValue (App := app) t j x).
Proof.
  intros c [y Hc]. pose proof Hc as (Hd & (nm & desc & cbs & Hv & Hcbs) & Hto & Hrest).
  destruct (vars c !! j) as [[t' nm' desc' z cbs']|] eqn:Hj.
  2: { unfold setValue, var_at. mrun. by rw Hj. }
  destruct (decide (t' = t)) as [->|Ht].
  2: { unfold setValue, var_at, val_as. mrun. rw Hj. mrun.
       by destruct (decide _) as [->|]. }
  rw (setValue_eq (App := app) c j (@MkVar app t nm' desc' z cbs') x Hj : setValue t j x c = _).
  cbn [v_type v_val]. case_decide; [by exists y|].
  unfold notify. cbn [v_type v_val v_cbs].
  pose proof (lookup_lt_Some _ _ _ Hj) as Hlt.
  destruct (decide (j = i)) as [->|Hne].
  - rw Hv in Hj. injection Hj as Et <- <- <-. subst t.
    pose proof (notify_int z x cbs (world c) Hcbs) as Hn.
    destruct (miter _ _ _) as [[] w|e w|f]; [|done|done].
    exists x. split; [done|]. split; [|split; [exact Hn|]].
    + exists nm, desc, cbs. split; [|done]. cbn. by rw list_lookup_insert_eq.
    + intros k nm2 d2 y2 cbs2 Hk Hki. cbn in Hk. rw list_lookup_insert_ne in Hk; [done|]. by eapply Hrest.
  - assert (match miter (λ kc, run_cb (ConfigApp := app) t kc.2 z x) cbs' (world c) with
      | Ret _ w | Throw _ w => timeout_is (u64 y) w | Crash _ => True end) as Hn.
    { destruct (decide (t = TInt)) as [->|Ht].
      - by rw (Hrest _ _ _ _ _ Hj Hne : cbs' = []).
      - by apply (notify_other t z x cbs' (u64 y) Ht). }
    destruct (miter _ _ _) as [[] w|e w|f]; [| |done].
    + exists y. split; [done|]. split; [|split; [exact Hn|]].
      * exists nm, desc, cbs. split; [|done]. cbn. by rw list_lookup_insert_ne.
      * intros k nm2 d2 y2 cbs2 Hk Hki. cbn in Hk. destruct (decide (k = j)) as [->|Hkj].
        -- rw list_lookup_insert_eq in Hk; [done|]. unfold with_val in Hk. cbn in Hk.
           injection Hk as -> _ _ _ <-. by apply (Hrest _ _ _ _ _ Hj Hne).
        -- rw list_lookup_insert_ne in Hk; [done|]. by eapply Hrest.
    + exists y. split; [done|]. split; [by exists nm, desc, cbs|]. by split.
Qed.

(** ** Every operation of the configuration *)

Lemma keeps_at {A} i j (k : @ConfigVar app → M Cfg A) :
  (∀ v, keeps (in_step i) (k v)) → keeps (in_step i) (var_at (App := app) j ≫= k).
Proof.
  intros Hk. apply keeps_bind; [|exact Hk]. intros c Hc. unfold var_at. mrun.
  by destruct (vars c !! j).
Qed.

Lemma keeps_from_string i j text : keeps (in_step i) (fromString (App := app) j text).
Proof.
  apply keeps_at. intros v. apply keeps_bind; [|intros []; apply keeps_ret]. apply keeps_catch.
  - destruct (from_str text); [apply keeps_set|apply keeps_throw].
  - intros e. apply keeps_statics. intros to. apply (keeps_in_logs to).
Qed.

Lemma keeps_load i `{!YamlDepth} root : keeps (in_step i) (LoadFromYaml (App := app) root).
Proof.
  apply keeps_bind; [apply keeps_statics; intros to; apply keeps_list_all|intros all].
  apply keeps_iter. intros kn. unfold load_entry. case_decide; [apply keeps_ret|].
  apply keeps_bind; [apply keeps_gets|intros [j|]; [|apply keeps_ret]].
  apply keeps_bind;
    [|intros text; apply keeps_bind; [apply keeps_from_string|intros; apply keeps_ret]].
  destruct (is_scalar kn.2); [|apply keeps_ret].
  destruct (as_string kn.2); [apply keeps_ret|apply keeps_crash].
Qed.

Lemma keeps_lookup i t nm x desc : keeps (in_step i) (Lookup_or_create (App := app) t nm x desc).
Proof.
  intros c Hc. destruct (s_datas c !! nm) as [j|] eqn:Hj.
  - unfold Lookup_or_create. mrun. rw Hj. refine (keeps_at i j _ _ c Hc). intros v.
    destruct (has_type t v).
    + apply keeps_bind; [apply keeps_statics; intros to; apply (keeps_in_logs to)|intros []; apply keeps_ret].
    + apply keeps_bind.
      { apply keeps_at. intros v'. destruct (to_str (v_val v')); [apply keeps_ret|].
        apply keeps_bind; [apply keeps_statics; intros to; apply (keeps_in_logs to)|intros []; apply keeps_ret]. }
      intros text.
      apply keeps_bind; [apply keeps_statics; intros to; apply (keeps_in_logs to)|intros []; apply keeps_ret].
  - destruct (only_of lookup_chars nm) eqn:Hn.
    + rw (Lookup_new (App := app) t nm x desc c Hj Hn).
      destruct Hc as (y & Hd & (nm' & desc' & cbs & Hv & Hcbs) & Hto & Hrest). exists y. split.
      { cbn. rw lookup_insert_ne; [|done]. intros ->. by rw Hd in Hj. }
      split; [|split; [exact Hto|]].
      * exists nm', desc', cbs. split; [|done]. cbn. by apply lookup_app_l_Some.
      * intros k nm2 d2 y2 cbs2 Hk Hki. cbn in Hk. apply lookup_app_Some in Hk as [Hk|[_ Hk]].
        -- by eapply Hrest.
        -- apply list_lookup_singleton_Some in Hk as [_ Hk]. by injection Hk.
    + unfold Lookup_or_create. mrun. rw Hj Hn.
      refine (keeps_bind _ _ _ (keeps_statics i _ _) _ c Hc); [intros to; apply (keeps_in_logs to)|].
      intros []. apply keeps_throw.
Qed.

(** ** The start *)

Lemma system_logger (w : Statics) : ∃ i g,
  getLogger (L "system") (logs w) = Ret i g.
Proof.
  destruct (m_loggers (logs w) !! L "system") as [i|] eqn:Hi.
  - exists i. eexists. by apply getLogger_found.
  - do 2 eexists. by apply (getLogger_new _ _ _ Hi default_formatter_eq).
Qed.

Lemma static_init_ok c :
  s_datas c !! timeout_name = None →
  (∀ j nm desc y cbs, vars c !! j = Some (@MkVar app TInt nm desc y cbs) → cbs = []) →
  ∃ c', hook_static_init int_cast u32_cast strftime env file line name c = Ret tt c' ∧
    follows (length (vars c)) 5000 c'.
Proof.
  intros Hd Hrest. unfold hook_static_init.
  destruct (system_logger (world c)) as (i & g & Hg).
  set (c1 := with_world (App := app) (MkStatics g i (s_connect_timeout (world c))) c).
  erewrite bind_Ret.
  2: { rw (in_world_eq (App := app)). unfold in_logs, mzoom. mrun. by rw Hg. }
  assert (s_datas c1 !! timeout_name = None) as Hd1 by done.
  erewrite bind_Ret by (apply (Lookup_new (App := app)); [exact Hd1|by vm_compute]).
  set (c2 := Config.registered (App := app) TInt timeout_name 5000%Z (L "tcp connect timeout") c1).
  assert (vars c2 !! length (vars c) = Some (@MkVar app TInt timeout_name (L "tcp connect timeout") 5000%Z []))
    as Hv by by apply list_lookup_middle.
  cbv beta iota.
  erewrite bind_Ret by (unfold getValue; erewrite bind_Ret by (unfold var_at; mrun; by rw Hv); done).
  cbv beta.
  erewrite bind_Ret by (by rw (in_world_eq (App := app))).
  unfold addListener, set_cbs, var_at. mrun. rw Hv. mrun.
  eexists. split; [done|]. split; [apply lookup_insert_eq|]. split; [|split; [done|]].
  - do 3 eexists. split; [apply list_lookup_insert_eq; by eapply lookup_lt_Some|done].
  - intros j nm desc y cbs Hj Hne. cbn in Hj. rw list_lookup_insert_ne in Hj; [done|].
    apply lookup_app_Some in Hj as [Hj|[Hlt Hj]]; [by eapply Hrest|].
    apply list_lookup_singleton_Some in Hj as [Hj0 _]. lia.
Qed.

Lemma keeps_listener i t j cb : t ≠ TInt → keeps (in_step i) (addListener (App := app) t j cb).
Proof.
  intros Ht. unfold addListener. apply keeps_bind.
  { apply keeps_modify. intros c [y H]. by exists y. }
  intros []. apply keeps_bind; [apply keeps_gets|intros key].
  apply keeps_bind; [|intros []; apply keeps_ret].
  intros c [y (Hd & (nm & desc & cbs & Hv & Hcbs) & Hto & Hrest)]. unfold set_cbs, var_at. mrun.
  destruct (vars c !! j) as [[t' nm' desc' z cbs']|] eqn:Hj; [|done]. mrun. unfold val_as, cbs_as.
  cbn [v_type]. destruct (decide (t' = t)) as [->|]; [|done]. mrun.
  assert (j ≠ i) as Hne by (intros ->; rw Hv in Hj; by injection Hj).
  exists y. split; [done|]. split; [|split; [done|]].
  - exists nm, desc, cbs. split; [|done]. cbn. by rw list_lookup_insert_ne.
  - intros k nm2 d2 y2 cbs2 Hk Hki. cbn in Hk. destruct (decide (k = j)) as [->|Hkj].
    + rw list_lookup_insert_eq in Hk; [by eapply lookup_lt_Some|]. by injection Hk.
    + rw list_lookup_insert_ne in Hk; [done|]. by eapply Hrest.
Qed.

End hook_config_facts.

(** * What [connect] makes of it *)

Section configured.
Context {E : Set → Type} {K D : Type} `{!Kernel K, !KernelAccepts K, !Originals K, !FdManager D, !FdManagerLaws D}.
Notation St := (Sched E (IO TimerManager (Proc K D))).
Context `{Y : Yaml} (int_cast u32_cast : LexicalCast Z).
Context (strftime : str → Z → str) (env : Env) (file : str) (line : Z) (name : var_ty → str).
Notation app := (program int_cast u32_cast strftime env file line name).

(** C40. What a configured connect timeout [x] does to a connection in progress: with -1
    [connect] waits without a timer; with another value it arms one for [x] milliseconds
    after the clock.  A value below -1 puts the deadline before the clock, so that the
    connection times out at once. *)
Theorem configured_connect (i : nat) (x : Z) (cfg : @Config app) c fd addr addrlen pd p fx (s : St) :
  follows int_cast u32_cast strftime env file line name i x cfg →
  (- 2 ^ 31 <= x < 2 ^ 31)%Z →
  waitable c fd WRITE p fx s →
  managed c fd (fds (kernel (host s))) = Some pd →
  (original (connect_f fd addr addrlen) (the_os s)).1 = ((-1)%Z, EINPROGRESS) →
  returns (Hooked.connect (s_connect_timeout (world cfg)) c fd addr addrlen) s (λ r s1, ∃ b,
    r = Suspended b ∧
    (x = (-1)%Z → Hooked.co_timer b = None ∧ timers (host s1) = timers (host s)) ∧
    (x ≠ (-1)%Z → ∃ tp tm, Hooked.co_timer b = Some tp ∧
       tm_heap (timers (host s1)) !! tp = Some tm ∧ ∃ k : K,
       let now := (sys_time k).1 in
       t_next tm = u64 (now + x) ∧
       ((x < -1)%Z → (2 ^ 31 <= now < 2 ^ 63)%Z → (t_next tm < now)%Z))).
Proof.
  intros (_ & _ & -> & _) Hx Hw Hm Ha. unfold Hooked.connect.
  assert (u64 x = u64_max ↔ x = (-1)%Z) as Hmax.
  { unfold u64, u64_max. split; [|by intros ->]. intros H. destruct (Z.le_gt_cases 0 x).
    - rw Z.mod_small in H; lia.
    - rw -(Z.mod_unique x (2 ^ 64) (-1) (x + 2 ^ 64)) in H; lia. }
  unfold returns. rw (connect_managed c fd addr addrlen _ pd s Hm Ha).
  match goal with |- match ?m ?s0 with Ret a s' => @?Q a s' | _ => _ end => change (returns m s0 Q) end.
  eapply returns_mono; [eapply spec_returns; [eapply hook_connect_wait; [exact Hw|apply u64_range]
    |apply hook_with_os, at_self]|].
  cbv zeta. intros r s1 (w & timer & t1 & cl1 & -> & Harm & _ & Hs1). destruct Hs1 as [_ (-> & _)].
  eexists. split; [done|]. cbn [Hooked.co_timer]. destruct timer as [tp|].
  - destruct Harm as (Hne & k & f & Hadds & _). split; [by intros ?%Hmax|]. intros _.
    eexists tp, _. split; [done|]. rw (adds_heap _ _ _ _ Hadds) lookup_insert_eq. split; [done|].
    exists k. cbv zeta. cbn [t_next Timer_new].
    rw (Z.add_comm _ (u64 x)) u64_add_l (Z.add_comm x). split; [done|].
    intros Hneg Hnow. rw u64_id; unfold in_u64; lia.
  - destruct Harm as (Heq%Hmax & -> & _). by split.
Qed.
End configured.

(** * A program *)

(** Numbers without a sign; what [boost::lexical_cast] does with them. *)
Definition digit_of (c : ascii) : option Z :=
  let n := Z.of_nat (nat_of_ascii c) in
  if (48 <=? n)%Z && (n <=? 57)%Z then Some (n - 48)%Z else None.
Definition decimal (s : str) : option Z :=
  match s with
  | [] => None
  | _ => foldl (λ o c, n ← o; d ← digit_of c; Some (10 * n + d)%Z) (Some 0%Z) s
  end.
Definition decimal_cast : LexicalCast Z := {|
  from_str := decimal;
  to_str n := Some (show_int n)
|}.
Definition demo_app : ConfigApp :=
  program decimal_cast decimal_cast (λ _ _, []) sample_env log_cc 0 (λ _, []).
Definition demo_statics : Statics := MkStatics (started ∅ default_formatter) 0 u64_max.
Definition demo_config : @Config demo_app := @MkConfig demo_app [] ∅ (λ _, 0%Z) demo_statics.
Definition demo_init : M (@Config demo_app) unit :=
  hook_static_init decimal_cast decimal_cast (λ _ _, []) sample_env log_cc 0 (λ _, []).

(** A document sets the timeout, and the listener reports it. *)
Example document_sets_timeout :
  match (demo_init ;; LoadFromYaml (App := demo_app)
    (DMap [(L "tcp", DMap [(L "connect", DMap [(L "timeout", DScalar (L "30"))])])])) demo_config with
  | Ret _ c => s_connect_timeout (world c) = 30%Z ∧ stdout (logs (world c)) ≠ []
  | _ => False
  end.
Proof. vm_compute. split; [reflexivity|discriminate]. Qed.

Lemma configured_connect_witness :
  ∃ cfg, demo_init demo_config = Ret tt cfg ∧
  returns (Hooked.connect (s_connect_timeout (world cfg)) Demo.caller 7 0 16)
    (Demo.state [((-1)%Z, EINPROGRESS)]) (λ r s1, ∃ b tp, r = Suspended b ∧
    Hooked.co_timer b = Some tp).
Proof.
  destruct (static_init_ok decimal_cast decimal_cast (λ _ _, []) sample_env log_cc 0 (λ _, [])
    demo_config) as (cfg & Hcfg & Hf); [vm_compute; reflexivity|intros [] ? ? ? ? H; discriminate H|].
  exists cfg. split; [exact Hcfg|].
  pose proof (demo_waitable WRITE [((-1)%Z, EINPROGRESS)] (or_intror eq_refl)) as Hw.
  assert (managed Demo.caller 7 (fds (kernel (host (Demo.state [((-1)%Z, EINPROGRESS)])))) = Some 0) as Hm
    by (vm_compute; reflexivity).
  assert ((original (connect_f 7 0 16) (the_os (Demo.state [((-1)%Z, EINPROGRESS)]))).1 =
    ((-1)%Z, EINPROGRESS)) as Ha by (vm_compute; reflexivity).
  assert (- 2 ^ 31 <= 5000 < 2 ^ 31)%Z as Hx by lia.
  eapply returns_mono; [exact (configured_connect decimal_cast decimal_cast (λ _ _, []) sample_env
    log_cc 0 (λ _, []) _ 5000 cfg Demo.caller 7 0 16 0 7 (FdContext_new 7) _ Hf Hx Hw Hm Ha)|].
  intros r s1 (b & -> & _ & H). destruct H as (tp & tm & Htp & _); [discriminate|].
  exists b, tp. split; [reflexivity|exact Htp].
Defined.
